(** * The Wren VM core (src/vm.c): a shallow embedding and its properties

    The C translation unit [vm.c] holds the object allocator, the
    mark-and-sweep collector, the symbol tables, the bytecode interpreter
    and the pin stack of a small class-based scripting language.  This
    file embeds those functions as Rocq functions over an explicit
    machine state and proves properties of them.

    Conventions of the embedding.
    - A pointer to a heap object is [option positive]: [None] is [NULL],
      [Some a] the address [a].  The memory that holds heap objects is
      the finite map [heap : gmap positive Obj]; [free] deletes a key.
    - An array that the code writes by index ([stack], [frames],
      [globals], [pinned], a class's [methods], a symbol table's
      [names]) is a map from the index to the cell ([gmap Z _]): the
      store [a[i] = v] is [<[i:=v]> a] whatever [i] is, since the C code
      performs no bounds check of its own.  A buffer the code only reads
      ([bytecode], [constants], the bytes of a string) is a list.
    - [int] values are [Z]; [size_t] values are [Z] reduced modulo
      [2^64] after every operation.
    - A function whose C code can fail to return normally yields an
      [option]: [None] stands for undefined behaviour (reading a cell
      that holds nothing, dereferencing [NULL] or a freed address) and
      for the abort of a failed [ASSERT].  The interpreter's [exit (1)]
      is the outcome [Exited].
    - What the headers [common.h], [vm.h] and [primitives.h] declare
      (sizes, limits, the flag bit, [AS_BOOL], the primitives' code) is
      not part of [vm.c]; it is gathered in the class [Platform].
    - Where the C code recurses or loops without a bound known in
      advance ([markObj], the sweep loop, the dispatch loop), the Rocq
      function takes a number of turns, here called gas; for the
      collector the number is computed from the heap and proved to
      suffice. *)

From Stdlib Require Import ZArith Lia.
From stdpp Require Import option numbers gmap list.

Local Open Scope Z_scope.

(** ** Values and heap objects *)

(** Modelled from the spec: the tags of a [Value] ([vm.h] declares the
    enum; section 3 of the specification lists the variants, [vm.c]
    names them in [getClass] and [printValue]). *)
Inductive ValueType :=
| T_FALSE | T_NULL | T_NUM | T_TRUE | T_NO_VALUE | T_OBJ.

(** Modelled from the spec: the struct [Value] of [vm.h], a tagged
    cell.  The payload of [VAL_NUM] is the bit pattern of the double;
    [vm.c] never computes with it. *)
Inductive Value :=
| VAL_FALSE
| VAL_NULL
| VAL_NUM (num : Z)
| VAL_TRUE
| VAL_NO_VALUE
| VAL_OBJ (obj : option positive).

Definition type_of (value : Value) : ValueType :=
  match value with
  | VAL_FALSE => T_FALSE
  | VAL_NULL => T_NULL
  | VAL_NUM _ => T_NUM
  | VAL_TRUE => T_TRUE
  | VAL_NO_VALUE => T_NO_VALUE
  | VAL_OBJ _ => T_OBJ
  end.

(** Modelled from the spec: the macros of [vm.h] that build a value and
    test its tag (section 4.A of the specification). *)
Definition NULL_VAL : Value := VAL_NULL.
Definition FALSE_VAL : Value := VAL_FALSE.
Definition TRUE_VAL : Value := VAL_TRUE.
Definition BOOL_VAL (b : bool) : Value := if b then VAL_TRUE else VAL_FALSE.
Definition OBJ_VAL (obj : option positive) : Value := VAL_OBJ obj.

Definition objectToValue (obj : option positive) : Value := VAL_OBJ obj.

Definition IS_OBJ (value : Value) : bool :=
  match value with VAL_OBJ _ => true | _ => false end.
Definition IS_NULL (value : Value) : bool :=
  match value with VAL_NULL => true | _ => false end.

(** Modelled from the spec: [value.obj], which the casts [AS_CLASS],
    [AS_FN] and [AS_INSTANCE] of [vm.h] read; only an object value
    carries a pointer. *)
Definition AS_OBJ (value : Value) : option (option positive) :=
  match value with VAL_OBJ p => Some p | _ => None end.

(** Modelled from the spec: a primitive is a pointer to host code.
    [vm.c] defines one, [primitive_metaclass_new]; the others live in
    the core library. *)
Inductive Primitive :=
| primitive_metaclass_new
| primitive_host (id : nat).

(** Modelled from the spec: the struct [Method] of [vm.h], a slot of a
    method table (section 3 of the specification). *)
Inductive Method :=
| METHOD_NONE
| METHOD_PRIMITIVE (primitive : Primitive)
| METHOD_BLOCK (fn : option positive).

(** Modelled from the spec: the structs [ObjClass], [ObjFn],
    [ObjString] and [ObjInstance] of [vm.h], with the fields that [vm.c]
    uses; the constructor is [obj->type]. *)
Inductive ObjBody :=
| ObjClass (metaclass superclass : option positive) (methods : gmap Z Method)
| ObjFn (bytecode : list Z) (constants : list Value) (numConstants : Z)
| ObjString (value : list Z)
| ObjInstance (classObj : option positive).

(** Modelled from the spec: the header [Obj] of [vm.h] ([type], [flags]
    and [next]) together with the variant it heads. *)
Record Obj := mkObj {
  flags : Z;
  next : option positive;
  body : ObjBody
}.

Global Instance ValueType_eq_dec : EqDecision ValueType.
Proof. solve_decision. Defined.
Global Instance Value_eq_dec : EqDecision Value.
Proof. solve_decision. Defined.
Global Instance Primitive_eq_dec : EqDecision Primitive.
Proof. solve_decision. Defined.
Global Instance Method_eq_dec : EqDecision Method.
Proof. solve_decision. Defined.

(** ** The machine state *)

(** Modelled from the spec: the structs [SymbolTable], [CallFrame],
    [Fiber] and [VM] of [vm.h], with the fields that [vm.c] uses. *)
Record SymbolTable := mkSymbolTable {
  names : gmap Z (list Z);
  count : Z
}.

Record CallFrame := mkCallFrame {
  ip : Z;
  fn : option positive;
  stackStart : Z
}.

Record Fiber := mkFiber {
  stack : gmap Z Value;
  stackSize : Z;
  frames : gmap Z CallFrame;
  numFrames : Z
}.

(** The fields of [VM] that [vm.c] uses, the memory of the heap objects
    ([heap]) and one ghost field, [collections], which counts the calls
    of [collectGarbage] that have completed. *)
Record VM := mkVM {
  methods : SymbolTable;
  globalSymbols : SymbolTable;
  fiber : Fiber;
  totalAllocated : Z;
  nextGC : Z;
  globals : gmap Z Value;
  first : option positive;
  pinned : gmap Z Value;
  numPinned : Z;
  objectClass : option positive;
  boolClass : option positive;
  nullClass : option positive;
  numClass : option positive;
  fnClass : option positive;
  stringClass : option positive;
  heap : gmap positive Obj;
  collections : nat
}.

Definition set_flags (f : Z) (o : Obj) : Obj := mkObj f (next o) (body o).
Definition set_next (n : option positive) (o : Obj) : Obj :=
  mkObj (flags o) n (body o).

Definition set_heap (h : gmap positive Obj) (vm : VM) : VM :=
  mkVM (methods vm) (globalSymbols vm) (fiber vm) (totalAllocated vm)
       (nextGC vm) (globals vm) (first vm) (pinned vm) (numPinned vm)
       (objectClass vm) (boolClass vm) (nullClass vm) (numClass vm)
       (fnClass vm) (stringClass vm) h (collections vm).

Definition set_first (p : option positive) (vm : VM) : VM :=
  mkVM (methods vm) (globalSymbols vm) (fiber vm) (totalAllocated vm)
       (nextGC vm) (globals vm) p (pinned vm) (numPinned vm)
       (objectClass vm) (boolClass vm) (nullClass vm) (numClass vm)
       (fnClass vm) (stringClass vm) (heap vm) (collections vm).

Definition set_totalAllocated (n : Z) (vm : VM) : VM :=
  mkVM (methods vm) (globalSymbols vm) (fiber vm) n
       (nextGC vm) (globals vm) (first vm) (pinned vm) (numPinned vm)
       (objectClass vm) (boolClass vm) (nullClass vm) (numClass vm)
       (fnClass vm) (stringClass vm) (heap vm) (collections vm).

Definition set_nextGC (n : Z) (vm : VM) : VM :=
  mkVM (methods vm) (globalSymbols vm) (fiber vm) (totalAllocated vm)
       n (globals vm) (first vm) (pinned vm) (numPinned vm)
       (objectClass vm) (boolClass vm) (nullClass vm) (numClass vm)
       (fnClass vm) (stringClass vm) (heap vm) (collections vm).

Definition set_fiber (f : Fiber) (vm : VM) : VM :=
  mkVM (methods vm) (globalSymbols vm) f (totalAllocated vm)
       (nextGC vm) (globals vm) (first vm) (pinned vm) (numPinned vm)
       (objectClass vm) (boolClass vm) (nullClass vm) (numClass vm)
       (fnClass vm) (stringClass vm) (heap vm) (collections vm).

Definition set_globals (g : gmap Z Value) (vm : VM) : VM :=
  mkVM (methods vm) (globalSymbols vm) (fiber vm) (totalAllocated vm)
       (nextGC vm) g (first vm) (pinned vm) (numPinned vm)
       (objectClass vm) (boolClass vm) (nullClass vm) (numClass vm)
       (fnClass vm) (stringClass vm) (heap vm) (collections vm).

Definition set_pinned (p : gmap Z Value) (n : Z) (vm : VM) : VM :=
  mkVM (methods vm) (globalSymbols vm) (fiber vm) (totalAllocated vm)
       (nextGC vm) (globals vm) (first vm) p n
       (objectClass vm) (boolClass vm) (nullClass vm) (numClass vm)
       (fnClass vm) (stringClass vm) (heap vm) (collections vm).

Definition set_methods (s : SymbolTable) (vm : VM) : VM :=
  mkVM s (globalSymbols vm) (fiber vm) (totalAllocated vm)
       (nextGC vm) (globals vm) (first vm) (pinned vm) (numPinned vm)
       (objectClass vm) (boolClass vm) (nullClass vm) (numClass vm)
       (fnClass vm) (stringClass vm) (heap vm) (collections vm).

Definition set_objectClass (c : option positive) (vm : VM) : VM :=
  mkVM (methods vm) (globalSymbols vm) (fiber vm) (totalAllocated vm)
       (nextGC vm) (globals vm) (first vm) (pinned vm) (numPinned vm)
       c (boolClass vm) (nullClass vm) (numClass vm)
       (fnClass vm) (stringClass vm) (heap vm) (collections vm).

Definition tick_collections (vm : VM) : VM :=
  mkVM (methods vm) (globalSymbols vm) (fiber vm) (totalAllocated vm)
       (nextGC vm) (globals vm) (first vm) (pinned vm) (numPinned vm)
       (objectClass vm) (boolClass vm) (nullClass vm) (numClass vm)
       (fnClass vm) (stringClass vm) (heap vm) (S (collections vm)).

(** ** What the headers provide *)

(** The declarations of [common.h], [vm.h] and [primitives.h] that
    [vm.c] relies on and whose value the sources do not show.
    [AS_BOOL] is the macro that turns a value into a C boolean, the
    way back from [BOOL_VAL]; [vm.c] applies it to whatever value is
    on top of the stack, so it is a function on every value, and
    nothing is assumed of it.  [malloc_bytes size] is the content of
    the chunk that the C library's [malloc (size)] hands out, which C leaves
    indeterminate; [chunk_Values] and [chunk_int] read such a chunk as
    an array of [Value] and as an [int] field.  [host_primitive id vm
    args] runs the core library's primitive [id] with the argument
    window starting at stack index [args]. *)
Class Platform := {
  sizeof_Obj : Z;
  sizeof_ObjClass : Z;
  sizeof_ObjFn : Z;
  sizeof_ObjString : Z;
  sizeof_ObjInstance : Z;
  sizeof_Code : Z;
  sizeof_Value : Z;
  MAX_SYMBOLS : Z;
  MAX_PINNED : Z;
  FLAG_MARKED : Z;
  AS_BOOL : Value → bool;
  malloc_bytes : Z → list Z;
  chunk_Values : list Z → list Value;
  chunk_int : list Z → Z;
  host_primitive : nat → VM → Z → option (Value * VM)
}.

(** [size_t] arithmetic wraps around at 64 bits. *)
Definition size_t (z : Z) : Z := z mod 2 ^ 64.

(** ** Loops and C strings *)

(** [for (int i = 0; i < n; i++) body]: the body may fail. *)
Fixpoint for_each {St : Type} (body : Z → St → option St) (idx : list Z)
  (s : St) : option St :=
  match idx with
  | [] => Some s
  | i :: idx' =>
      match body i s with
      | Some s' => for_each body idx' s'
      | None => None
      end
  end.

Definition for_range {St : Type} (n : Z) (body : Z → St → option St) (s : St)
  : option St :=
  for_each body (seqZ 0 n) s.

(** Indexing a read-only buffer. *)
Definition nth_Z {A : Type} (l : list A) (i : Z) : option A :=
  if i <? 0 then None else l !! Z.to_nat i.

(** [strlen]: the index of the first NUL; running off the buffer is
    undefined. *)
Fixpoint strlen (s : list Z) : option Z :=
  match s with
  | [] => None
  | c :: s' => if c =? 0 then Some 0 else Z.succ <$> strlen s'
  end.

(** [strncpy (dst, src, n)] writes exactly [n] bytes: the bytes of [src]
    up to its NUL, then NULs. *)
Fixpoint strncpy (src : list Z) (n : nat) : option (list Z) :=
  match n with
  | O => Some []
  | S n' =>
      match src with
      | [] => None
      | c :: src' =>
          if c =? 0 then Some (replicate (S n') 0)
          else cons c <$> strncpy src' n'
      end
  end.

(** [strncmp (a, b, n) == 0]. *)
Fixpoint strncmp_eq (a b : list Z) (n : nat) : option bool :=
  match n with
  | O => Some true
  | S n' =>
      match a, b with
      | x :: a', y :: b' =>
          if negb (x =? y) then Some false
          else if x =? 0 then Some true
          else strncmp_eq a' b' n'
      | _, _ => None
      end
  end.

Section VM_core.
Context {P : Platform}.

(** ** The collector *)

(** [obj->flags & FLAG_MARKED] *)
Definition is_marked (o : Obj) : bool :=
  negb (Z.land (flags o) FLAG_MARKED =? 0).

(** [markObj], with [markValue] inlined at its one recursive use.  The
    argument [gas] bounds the depth of the recursion; see
    [markObj_total]. *)
Fixpoint markObj (gas : nat) (h : gmap positive Obj) (obj : option positive)
  : option (gmap positive Obj) :=
  match gas with
  | O => None
  | S gas' =>
      a ← obj;
      o ← h !! a;
      (* Don't recurse if already marked. *)
      if is_marked o then Some h
      else
        let h1 := <[a := set_flags (Z.lor (flags o) FLAG_MARKED) o]> h in
        (* Traverse the object's fields. *)
        match body o with
        | ObjClass metaclass superclass methods =>
            (* The metaclass. *)
            h2 ← match metaclass with
                 | Some _ => markObj gas' h1 metaclass
                 | None => Some h1
                 end;
            (* Method function objects. *)
            for_range MAX_SYMBOLS
              (λ i h',
                 m ← methods !! i;
                 match m with
                 | METHOD_BLOCK fn => markObj gas' h' fn
                 | _ => Some h'
                 end) h2
        | ObjFn bytecode constants numConstants =>
            (* Mark the constants. *)
            for_range numConstants
              (λ i h',
                 v ← nth_Z constants i;
                 match v with
                 | VAL_OBJ p => markObj gas' h' p
                 | _ => Some h'
                 end) h1
        | ObjInstance _ => Some h1
        | ObjString _ => Some h1
        end
  end.

Definition markValue (gas : nat) (h : gmap positive Obj) (value : Value)
  : option (gmap positive Obj) :=
  match value with
  | VAL_OBJ p => markObj gas h p
  | _ => Some h
  end.

(** [freeObj]: the size it subtracts from [totalAllocated]. *)
Definition freed_size (o : Obj) : option Z :=
  match body o with
  | ObjFn _ _ _ =>
      Some (size_t (sizeof_ObjFn + sizeof_Code * 1024 + sizeof_Value * 256))
  | ObjString value =>
      n ← strlen value; Some (size_t (sizeof_ObjString + n))
  | ObjClass _ _ _ => Some (size_t sizeof_ObjClass)
  | ObjInstance _ => Some (size_t sizeof_Obj)
  end.

Definition freeObj (vm : VM) (obj : positive) : option VM :=
  o ← heap vm !! obj;
  size ← freed_size o;
  Some (set_heap (delete obj (heap vm))
          (set_totalAllocated (size_t (totalAllocated vm - size)) vm)).

(** The variable [Obj** obj] of the sweep loop points either at
    [vm->first] or at the [next] field of an object that was kept. *)
Inductive ObjSlot :=
| slot_first
| slot_next (a : positive).

Definition load_slot (vm : VM) (s : ObjSlot) : option (option positive) :=
  match s with
  | slot_first => Some (first vm)
  | slot_next a => o ← heap vm !! a; Some (next o)
  end.

Definition store_slot (vm : VM) (s : ObjSlot) (p : option positive)
  : option VM :=
  match s with
  | slot_first => Some (set_first p vm)
  | slot_next a =>
      o ← heap vm !! a; Some (set_heap (<[a := set_next p o]> (heap vm)) vm)
  end.

(** The loop [while ( *obj != NULL)] of [collectGarbage]; [gas] bounds
    the number of iterations, see [sweep_spec]. *)
Fixpoint sweep (gas : nat) (vm : VM) (obj : ObjSlot) : option VM :=
  match gas with
  | O => None
  | S gas' =>
      cur ← load_slot vm obj;
      match cur with
      | None => Some vm
      | Some a =>
          o ← heap vm !! a;
          if negb (is_marked o) then
            (* This object wasn't reached, so remove it from the list and
               free it. *)
            vm1 ← store_slot vm obj (next o);
            vm2 ← freeObj vm1 a;
            sweep gas' vm2 obj
          else
            (* This object was reached, so unmark it and move on. *)
            let o' := set_flags (Z.land (flags o) (Z.lnot FLAG_MARKED)) o in
            sweep gas' (set_heap (<[a := o']> (heap vm)) vm) (slot_next a)
      end
  end.

(** The four root loops of [collectGarbage], on the heap. *)
Definition mark_globals (gas : nat) (vm : VM) (h : gmap positive Obj)
  : option (gmap positive Obj) :=
  for_range (count (globalSymbols vm))
    (λ i h', v ← globals vm !! i;
             if negb (IS_NULL v) then markValue gas h' v else Some h') h.

Definition mark_pinned (gas : nat) (vm : VM) (h : gmap positive Obj)
  : option (gmap positive Obj) :=
  for_range (numPinned vm)
    (λ j h', v ← pinned vm !! j;
             if negb (IS_NULL v) then markValue gas h' v else Some h') h.

Definition mark_frames (gas : nat) (vm : VM) (h : gmap positive Obj)
  : option (gmap positive Obj) :=
  for_range (numFrames (fiber vm))
    (λ k h', fr ← frames (fiber vm) !! k; markObj gas h' (fn fr)) h.

Definition mark_stack (gas : nat) (vm : VM) (h : gmap positive Obj)
  : option (gmap positive Obj) :=
  for_range (stackSize (fiber vm))
    (λ l h', v ← stack (fiber vm) !! l; markValue gas h' v) h.

Definition mark_roots (gas : nat) (vm : VM) : option (gmap positive Obj) :=
  h1 ← mark_globals gas vm (heap vm);
  h2 ← mark_pinned gas vm h1;
  h3 ← mark_frames gas vm h2;
  mark_stack gas vm h3.

(** [collectGarbage].  The recursion of the mark phase and the sweep loop
    get as much gas as there are objects in memory, plus one. *)
Definition collectGarbage (vm : VM) : option VM :=
  let gas := S (size (heap vm)) in
  h ← mark_roots gas vm;
  vm' ← sweep gas (set_heap h vm) slot_first;
  Some (tick_collections vm').

(** ** Allocation *)

(** The address [malloc] returns: one that holds no object.  [malloc]
    is taken to succeed, as [vm.c] takes it. *)
Definition malloc_addr (h : gmap positive Obj) : positive := fresh (dom h).

(** [allocate] (the build without [DEBUG_GC_STRESS]): the new state, the
    address of the chunk and its content. *)
Definition allocate (vm : VM) (size : Z) : option (VM * positive * list Z) :=
  let vm1 := set_totalAllocated (size_t (totalAllocated vm + size)) vm in
  vm2 ← (if nextGC vm1 <? totalAllocated vm1 then
           vm' ← collectGarbage vm1;
           Some (set_nextGC (size_t (totalAllocated vm' * 3) / 2) vm')
         else Some vm1);
  Some (vm2, malloc_addr (heap vm2), malloc_bytes size).

(** [initObj] writes the header of the object at [obj] and links it in
    front of the object list; [b] is the variant that [type] selects,
    with the fields that the caller stores right after. *)
Definition initObj (vm : VM) (obj : positive) (b : ObjBody) : VM :=
  set_first (Some obj)
    (set_heap (<[obj := mkObj 0 (first vm) b]> (heap vm)) vm).

(** The loop [methods[i].type = METHOD_NONE] over a fresh table. *)
Definition no_methods : gmap Z Method :=
  fold_left (λ m i, <[i := METHOD_NONE]> m) (seqZ 0 MAX_SYMBOLS) ∅.

Definition newSingleClass (vm : VM) (metaclass superclass : option positive)
  : option (VM * positive) :=
  '(vm1, obj, _) ← allocate vm sizeof_ObjClass;
  Some (initObj vm1 obj (ObjClass metaclass superclass no_methods), obj).

(** ** The pin stack *)

(** [ASSERT] is taken in its checking form: a failed assertion aborts,
    which is the result [None].  [pinObj] has no other way to fail. *)
Definition pinObj (vm : VM) (value : Value) : option VM :=
  if numPinned vm <? MAX_PINNED - 1 then
    Some (set_pinned (<[numPinned vm := value]> (pinned vm))
                     (numPinned vm + 1) vm)
  else None.

Definition unpinObj (vm : VM) (value : Value) : option VM :=
  top ← pinned vm !! (numPinned vm - 1);
  if decide (type_of top = type_of value) then
    Some (set_pinned (pinned vm) (numPinned vm - 1) vm)
  else None.

(** ** Object constructors *)

Definition newClass (vm : VM) (superclass : option positive)
  : option (VM * positive) :=
  (* Make the metaclass. *)
  '(vm1, metaclass) ← newSingleClass vm None None;
  (* Make sure it isn't collected when we allocate the class. *)
  vm2 ← pinObj vm1 (OBJ_VAL (Some metaclass));
  '(vm3, classObj) ← newSingleClass vm2 (Some metaclass) superclass;
  vm4 ← unpinObj vm3 (OBJ_VAL (Some metaclass));
  (* Inherit methods from its superclass. *)
  match superclass with
  | Some s =>
      sup ← heap vm4 !! s;
      cls ← heap vm4 !! classObj;
      match body sup, body cls with
      | ObjClass _ _ smethods, ObjClass mc sc cmethods =>
          methods' ← for_range MAX_SYMBOLS
                       (λ i m, x ← smethods !! i; Some (<[i := x]> m))
                       cmethods;
          Some (set_heap
                  (<[classObj := mkObj (flags cls) (next cls)
                                       (ObjClass mc sc methods')]> (heap vm4))
                  vm4, classObj)
      | _, _ => None
      end
  | None => Some (vm4, classObj)
  end.

(** [newFunction] leaves the buffers and [numConstants] as [malloc]
    delivered them. *)
Definition newFunction (vm : VM) : option (VM * positive) :=
  '(vm1, _, bytecode) ← allocate vm (size_t (sizeof_Code * 1024));
  '(vm2, _, constants) ← allocate vm1 (size_t (sizeof_Value * 256));
  '(vm3, fn, chunk) ← allocate vm2 sizeof_ObjFn;
  Some (initObj vm3 fn
          (ObjFn bytecode (chunk_Values constants) (chunk_int chunk)), fn).

Definition newInstance (vm : VM) (classObj : option positive)
  : option (VM * Value) :=
  '(vm1, instance, _) ← allocate vm sizeof_ObjInstance;
  Some (initObj vm1 instance (ObjInstance classObj), VAL_OBJ (Some instance)).

(** [newString (vm, text, length)]; [text] is [None] for [NULL]. *)
Definition newString (vm : VM) (text : option (list Z)) (length : Z)
  : option (VM * Value) :=
  '(vm1, _, heapText0) ← allocate vm (size_t (length + 1));
  '(vm2, string, _) ← allocate vm1 sizeof_ObjString;
  heapText ← match text with
             | Some t =>
                 (* strncpy, then heapText[length] = 0 *)
                 copied ← strncpy t (Z.to_nat length); Some (copied ++ [0])
             | None => Some heapText0
             end;
  Some (initObj vm2 string (ObjString heapText), VAL_OBJ (Some string)).

(** ** Symbol tables *)

Definition initSymbolTable : SymbolTable := mkSymbolTable ∅ 0.

Definition addSymbolUnchecked (symbols : SymbolTable) (name : list Z)
  (length : Z) : option (SymbolTable * Z) :=
  copied ← strncpy name (Z.to_nat length);
  Some (mkSymbolTable (<[count symbols := copied ++ [0]]> (names symbols))
                      (count symbols + 1),
        count symbols).

Fixpoint findSymbol_loop (symbols : SymbolTable) (name : list Z) (length : Z)
  (idx : list Z) : option Z :=
  match idx with
  | [] => Some (-1)
  | i :: idx' =>
      n ← names symbols !! i;
      len ← strlen n;
      if len =? length then
        same ← strncmp_eq n name (Z.to_nat length);
        if same : bool then Some i
        else findSymbol_loop symbols name length idx'
      else findSymbol_loop symbols name length idx'
  end.

Definition findSymbol (symbols : SymbolTable) (name : list Z) (length : Z)
  : option Z :=
  findSymbol_loop symbols name length (seqZ 0 (count symbols)).

Definition addSymbol (symbols : SymbolTable) (name : list Z) (length : Z)
  : option (SymbolTable * Z) :=
  found ← findSymbol symbols name length;
  if negb (found =? -1) then Some (symbols, -1)
  else addSymbolUnchecked symbols name length.

Definition ensureSymbol (symbols : SymbolTable) (name : list Z) (length : Z)
  : option (SymbolTable * Z) :=
  existing ← findSymbol symbols name length;
  if negb (existing =? -1) then Some (symbols, existing)
  else addSymbolUnchecked symbols name length.

Definition getSymbolName (symbols : SymbolTable) (symbol : Z)
  : option (list Z) :=
  names symbols !! symbol.

(** ** Classes of values, calls and primitives *)

Definition getClass (vm : VM) (value : Value) : option (option positive) :=
  match value with
  | VAL_FALSE => Some (boolClass vm)
  | VAL_NULL => Some (nullClass vm)
  | VAL_NUM _ => Some (numClass vm)
  | VAL_TRUE => Some (boolClass vm)
  | VAL_NO_VALUE => Some (nullClass vm)
  | VAL_OBJ p =>
      a ← p;
      o ← heap vm !! a;
      match body o with
      | ObjClass metaclass _ _ => Some metaclass
      | ObjFn _ _ _ => Some (fnClass vm)
      | ObjString _ => Some (stringClass vm)
      | ObjInstance classObj => Some classObj
      end
  end.

Definition callFunction (fiber : Fiber) (fn : option positive) (numArgs : Z)
  : Fiber :=
  mkFiber (stack fiber) (stackSize fiber)
          (<[numFrames fiber :=
               mkCallFrame 0 fn (stackSize fiber - numArgs)]> (frames fiber))
          (numFrames fiber + 1).

(** [method->primitive (vm, fiber, args)], with [args] the stack index of
    the first argument. *)
Definition call_primitive (p : Primitive) (vm : VM) (args : Z)
  : option (Value * VM) :=
  match p with
  | primitive_metaclass_new =>
      receiver ← stack (fiber vm) !! (args + 0);
      classObj ← AS_OBJ receiver;
      '(vm', instance) ← newInstance vm classObj;
      Some (instance, vm')
  | primitive_host id => host_primitive id vm args
  end.

(** ** The interpreter *)

(** The numbering of the enum [Code] is declared in [vm.h]; section 6
    of the specification gives the table that is used here. *)

(** Modelled from the spec: the value of [CODE_CONSTANT] in the enum [Code] of
    [vm.h]. *)
Definition CODE_CONSTANT : Z := 0.

(** Modelled from the spec: the value of [CODE_NULL] in the enum [Code] of
    [vm.h]. *)
Definition CODE_NULL : Z := 1.

(** Modelled from the spec: the value of [CODE_FALSE] in the enum [Code] of
    [vm.h]. *)
Definition CODE_FALSE : Z := 2.

(** Modelled from the spec: the value of [CODE_TRUE] in the enum [Code] of
    [vm.h]. *)
Definition CODE_TRUE : Z := 3.

(** Modelled from the spec: the value of [CODE_CLASS] in the enum [Code] of
    [vm.h]. *)
Definition CODE_CLASS : Z := 4.

(** Modelled from the spec: the value of [CODE_SUBCLASS] in the enum [Code] of
    [vm.h]. *)
Definition CODE_SUBCLASS : Z := 5.

(** Modelled from the spec: the value of [CODE_METACLASS] in the enum [Code] of
    [vm.h]. *)
Definition CODE_METACLASS : Z := 6.

(** Modelled from the spec: the value of [CODE_METHOD] in the enum [Code] of
    [vm.h]. *)
Definition CODE_METHOD : Z := 7.

(** Modelled from the spec: the value of [CODE_LOAD_LOCAL] in the enum [Code] of
    [vm.h]. *)
Definition CODE_LOAD_LOCAL : Z := 8.

(** Modelled from the spec: the value of [CODE_STORE_LOCAL] in the enum [Code] of
    [vm.h]. *)
Definition CODE_STORE_LOCAL : Z := 9.

(** Modelled from the spec: the value of [CODE_LOAD_GLOBAL] in the enum [Code] of
    [vm.h]. *)
Definition CODE_LOAD_GLOBAL : Z := 10.

(** Modelled from the spec: the value of [CODE_STORE_GLOBAL] in the enum [Code] of
    [vm.h]. *)
Definition CODE_STORE_GLOBAL : Z := 11.

(** Modelled from the spec: the value of [CODE_DUP] in the enum [Code] of
    [vm.h]. *)
Definition CODE_DUP : Z := 12.

(** Modelled from the spec: the value of [CODE_POP] in the enum [Code] of
    [vm.h]. *)
Definition CODE_POP : Z := 13.

(** Modelled from the spec: the value of [CODE_CALL_0] in the enum [Code] of
    [vm.h]. *)
Definition CODE_CALL_0 : Z := 14.

(** Modelled from the spec: the value of [CODE_CALL_10] in the enum [Code] of
    [vm.h]. *)
Definition CODE_CALL_10 : Z := 24.

(** Modelled from the spec: the value of [CODE_JUMP] in the enum [Code] of
    [vm.h]. *)
Definition CODE_JUMP : Z := 25.

(** Modelled from the spec: the value of [CODE_JUMP_IF] in the enum [Code] of
    [vm.h]. *)
Definition CODE_JUMP_IF : Z := 26.

(** Modelled from the spec: the value of [CODE_IS] in the enum [Code] of
    [vm.h]. *)
Definition CODE_IS : Z := 27.

(** Modelled from the spec: the value of [CODE_END] in the enum [Code] of
    [vm.h]. *)
Definition CODE_END : Z := 28.

(** The [case] labels of the interpreter's [switch]. *)
Inductive Case :=
| case_CONSTANT | case_NULL | case_FALSE | case_TRUE
| case_CLASS_SUBCLASS | case_METACLASS | case_METHOD
| case_LOAD_LOCAL | case_STORE_LOCAL | case_LOAD_GLOBAL | case_STORE_GLOBAL
| case_DUP | case_POP | case_CALL | case_JUMP | case_JUMP_IF | case_IS
| case_END | no_case.

Definition switch (instruction : Z) : Case :=
  if instruction =? CODE_CONSTANT then case_CONSTANT
  else if instruction =? CODE_NULL then case_NULL
  else if instruction =? CODE_FALSE then case_FALSE
  else if instruction =? CODE_TRUE then case_TRUE
  else if (instruction =? CODE_CLASS) || (instruction =? CODE_SUBCLASS)
       then case_CLASS_SUBCLASS
  else if instruction =? CODE_METACLASS then case_METACLASS
  else if instruction =? CODE_METHOD then case_METHOD
  else if instruction =? CODE_LOAD_LOCAL then case_LOAD_LOCAL
  else if instruction =? CODE_STORE_LOCAL then case_STORE_LOCAL
  else if instruction =? CODE_LOAD_GLOBAL then case_LOAD_GLOBAL
  else if instruction =? CODE_STORE_GLOBAL then case_STORE_GLOBAL
  else if instruction =? CODE_DUP then case_DUP
  else if instruction =? CODE_POP then case_POP
  else if (CODE_CALL_0 <=? instruction) && (instruction <=? CODE_CALL_10)
       then case_CALL
  else if instruction =? CODE_JUMP then case_JUMP
  else if instruction =? CODE_JUMP_IF then case_JUMP_IF
  else if instruction =? CODE_IS then case_IS
  else if instruction =? CODE_END then case_END
  else no_case.

(** What one turn of the dispatch loop leaves behind. *)
Inductive Outcome :=
| Running (vm : VM)                  (* the loop goes on *)
| Returned (result : Value) (vm : VM) (* [interpret] returns [result] *)
| Exited (vm : VM).                  (* [exit (1)] *)

Definition set_stack (st : gmap Z Value) (n : Z) (vm : VM) : VM :=
  set_fiber (mkFiber st n (frames (fiber vm)) (numFrames (fiber vm))) vm.

Definition set_frames (fr : gmap Z CallFrame) (n : Z) (vm : VM) : VM :=
  set_fiber (mkFiber (stack (fiber vm)) (stackSize (fiber vm)) fr n) vm.

(** The macros of [interpret].  [frame] is the index of the frame that
    the C variable [frame] points to. *)
Definition PUSH (vm : VM) (value : Value) : VM :=
  set_stack (<[stackSize (fiber vm) := value]> (stack (fiber vm)))
            (stackSize (fiber vm) + 1) vm.

Definition POP (vm : VM) : option (Value * VM) :=
  value ← stack (fiber vm) !! (stackSize (fiber vm) - 1);
  Some (value, set_stack (stack (fiber vm)) (stackSize (fiber vm) - 1) vm).

Definition PEEK (vm : VM) : option Value :=
  stack (fiber vm) !! (stackSize (fiber vm) - 1).

(** [frame->fn->bytecode] and [frame->fn->constants] *)
Definition frame_fn (vm : VM) (frame : Z) : option (list Z * list Value) :=
  fr ← frames (fiber vm) !! frame;
  a ← fn fr;
  o ← heap vm !! a;
  match body o with
  | ObjFn bytecode constants _ => Some (bytecode, constants)
  | _ => None
  end.

Definition add_ip (vm : VM) (frame : Z) (d : Z) : option VM :=
  fr ← frames (fiber vm) !! frame;
  Some (set_frames
          (<[frame := mkCallFrame (ip fr + d) (fn fr) (stackStart fr)]>
             (frames (fiber vm)))
          (numFrames (fiber vm)) vm).

(** [frame->fn->bytecode[frame->ip++]] *)
Definition READ_ARG (vm : VM) (frame : Z) : option (Z * VM) :=
  fr ← frames (fiber vm) !! frame;
  '(bytecode, _) ← frame_fn vm frame;
  byte ← nth_Z bytecode (ip fr);
  vm' ← add_ip vm frame 1;
  Some (byte, vm').

Definition constant_at (vm : VM) (frame : Z) (i : Z) : option Value :=
  '(_, constants) ← frame_fn vm frame;
  nth_Z constants i.

Definition class_at (vm : VM) (p : option positive)
  : option (positive * Obj * option positive * option positive * gmap Z Method) :=
  a ← p;
  o ← heap vm !! a;
  match body o with
  | ObjClass metaclass superclass methods =>
      Some (a, o, metaclass, superclass, methods)
  | _ => None
  end.

(** [classObj->methods[symbol] = m] *)
Definition set_method (vm : VM) (classObj : option positive) (symbol : Z)
  (m : Method) : option VM :=
  '(a, o, metaclass, superclass, methods) ← class_at vm classObj;
  Some (set_heap
          (<[a := mkObj (flags o) (next o)
                        (ObjClass metaclass superclass (<[symbol := m]> methods))]>
             (heap vm)) vm).

(** The string literal ["new"]. *)
Definition str_new : list Z := [110; 101; 119; 0].

Definition exec_CLASS (instruction : Z) (vm : VM) : option Outcome :=
  let isSubclass := instruction =? CODE_SUBCLASS in
  '(superclass, vm) ← (if isSubclass then
                         '(v, vm') ← POP vm;
                         p ← AS_OBJ v;
                         Some (p, vm')
                       else
                         (* Implicit Object superclass. *)
                         Some (objectClass vm, vm));
  '(vm, classObj) ← newClass vm superclass;
  (* Assume the first class being defined is Object. *)
  let vm := match objectClass vm with
            | None => set_objectClass (Some classObj) vm
            | Some _ => vm
            end in
  (* Define a "new" method on the metaclass. *)
  '(symbols, newSymbol) ← ensureSymbol (methods vm) str_new 3;
  let vm := set_methods symbols vm in
  '(_, _, metaclass, _, _) ← class_at vm (Some classObj);
  vm ← set_method vm metaclass newSymbol
         (METHOD_PRIMITIVE primitive_metaclass_new);
  Some (Running (PUSH vm (OBJ_VAL (Some classObj)))).

(** [printValue].  What it writes goes to [stdout], which is no part
    of the machine state; what is kept of the call is what it reads:
    the object behind an object value, and the bytes of a string up to
    its NUL. *)
Definition printValue (vm : VM) (value : Value) : option unit :=
  match value with
  | VAL_OBJ p =>
      a ← p;
      o ← heap vm !! a;
      match body o with
      | ObjString value => _ ← strlen value; Some ()
      | _ => Some ()
      end
  | _ => Some ()
  end.

Definition exec_CALL (instruction : Z) (frame : Z) (vm : VM)
  : option Outcome :=
  (* Add one for the implicit receiver argument. *)
  let numArgs := instruction - CODE_CALL_0 + 1 in
  '(symbol, vm) ← READ_ARG vm frame;
  receiver ← stack (fiber vm) !! (stackSize (fiber vm) - numArgs);
  classObj ← getClass vm receiver;
  '(_, _, _, _, classMethods) ← class_at vm classObj;
  method ← classMethods !! symbol;
  match method with
  | METHOD_NONE =>
      (* printf ("Receiver "); printValue (receiver);
         printf (" does not implement method \"%s\".\n",
                 vm->methods.names[symbol]);
         exit (1); *)
      _ ← printValue vm receiver;
      name ← names (methods vm) !! symbol;
      _ ← strlen name;
      Some (Exited vm)
  | METHOD_PRIMITIVE primitive =>
      let args := stackSize (fiber vm) - numArgs in
      '(result, vm) ← call_primitive primitive vm args;
      (* If the primitive pushed a call frame, it returns NO_VALUE. *)
      if negb (bool_decide (type_of result = T_NO_VALUE)) then
        let st := <[stackSize (fiber vm) - numArgs := result]>
                    (stack (fiber vm)) in
        (* Discard the stack slots for the arguments (but leave one for
           the result). *)
        Some (Running (set_stack st (stackSize (fiber vm) - (numArgs - 1)) vm))
      else Some (Running vm)
  | METHOD_BLOCK fn =>
      Some (Running (set_fiber (callFunction (fiber vm) fn numArgs) vm))
  end.

Definition exec_END (frame : Z) (vm : VM) : option Outcome :=
  '(result, vm) ← POP vm;
  let vm := set_frames (frames (fiber vm)) (numFrames (fiber vm) - 1) vm in
  (* If we are returning from the top-level block, just return the value. *)
  if numFrames (fiber vm) =? 0 then Some (Returned result vm)
  else
    fr ← frames (fiber vm) !! frame;
    (* Store the result of the block in the first slot. *)
    let st := <[stackStart fr := result]> (stack (fiber vm)) in
    (* Discard the stack slots for the call frame. *)
    Some (Running (set_stack st (stackStart fr + 1) vm)).

(** The body of the [switch] for an instruction already fetched. *)
Definition exec (instruction : Z) (frame : Z) (vm : VM) : option Outcome :=
  match switch instruction with
  | case_CONSTANT =>
      '(arg, vm) ← READ_ARG vm frame;
      value ← constant_at vm frame arg;
      Some (Running (PUSH vm value))
  | case_NULL => Some (Running (PUSH vm NULL_VAL))
  | case_FALSE => Some (Running (PUSH vm FALSE_VAL))
  | case_TRUE => Some (Running (PUSH vm TRUE_VAL))
  | case_CLASS_SUBCLASS => exec_CLASS instruction vm
  | case_METACLASS =>
      top ← PEEK vm;
      p ← AS_OBJ top;
      '(_, _, metaclass, _, _) ← class_at vm p;
      Some (Running (PUSH vm (OBJ_VAL metaclass)))
  | case_METHOD =>
      '(symbol, vm) ← READ_ARG vm frame;
      '(constant, vm) ← READ_ARG vm frame;
      top ← PEEK vm;
      classObj ← AS_OBJ top;
      c ← constant_at vm frame constant;
      body ← AS_OBJ c;
      vm ← set_method vm classObj symbol (METHOD_BLOCK body);
      Some (Running vm)
  | case_LOAD_LOCAL =>
      '(local, vm) ← READ_ARG vm frame;
      fr ← frames (fiber vm) !! frame;
      value ← stack (fiber vm) !! (stackStart fr + local);
      Some (Running (PUSH vm value))
  | case_STORE_LOCAL =>
      '(local, vm) ← READ_ARG vm frame;
      fr ← frames (fiber vm) !! frame;
      top ← PEEK vm;
      Some (Running (set_stack (<[stackStart fr + local := top]>
                                  (stack (fiber vm)))
                               (stackSize (fiber vm)) vm))
  | case_LOAD_GLOBAL =>
      '(global, vm) ← READ_ARG vm frame;
      value ← globals vm !! global;
      Some (Running (PUSH vm value))
  | case_STORE_GLOBAL =>
      '(global, vm) ← READ_ARG vm frame;
      top ← PEEK vm;
      Some (Running (set_globals (<[global := top]> (globals vm)) vm))
  | case_DUP =>
      (* PUSH(PEEK()): the top is read before [stackSize] moves *)
      top ← PEEK vm; Some (Running (PUSH vm top))
  | case_POP => '(_, vm) ← POP vm; Some (Running vm)
  | case_CALL => exec_CALL instruction frame vm
  | case_JUMP =>
      (* frame->ip += READ_ARG(): the operand is read, then added *)
      '(offset, vm) ← READ_ARG vm frame;
      vm ← add_ip vm frame offset;
      Some (Running vm)
  | case_JUMP_IF =>
      '(offset, vm) ← READ_ARG vm frame;
      '(condition, vm) ← POP vm;
      (* False is the only falsey value. *)
      if negb (AS_BOOL condition) then
        vm ← add_ip vm frame offset; Some (Running vm)
      else Some (Running vm)
  | case_IS =>
      '(classObj, vm) ← POP vm;
      '(obj, vm) ← POP vm;
      actual ← getClass vm obj;
      expected ← AS_OBJ classObj;
      Some (Running (PUSH vm (BOOL_VAL (bool_decide (actual = expected)))))
  | case_END => exec_END frame vm
  | no_case => Some (Running vm)
  end.

(** One turn of the loop [for (;;)]: fetch, then dispatch. *)
Definition step (vm : VM) : option Outcome :=
  let frame := numFrames (fiber vm) - 1 in
  '(instruction, vm) ← READ_ARG vm frame;
  exec instruction frame vm.

(** The dispatch loop, cut off after [gas] turns: [Running vm] then says
    that the loop was still going at [vm]. *)
Fixpoint run (gas : nat) (vm : VM) : option Outcome :=
  match gas with
  | O => Some (Running vm)
  | S gas' =>
      match step vm with
      | Some (Running vm') => run gas' vm'
      | r => r
      end
  end.

Definition interpret (gas : nat) (vm : VM) (fn : option positive)
  : option Outcome :=
  run gas (set_fiber (callFunction (fiber vm) fn 0) vm).

End VM_core.

(** ** A concrete platform and concrete states

    An LP64 platform with a [malloc] that fills fresh chunks with the
    byte [0xAA], as debugging allocators do, an [AS_BOOL] that
    compares the tag of the value with [VAL_TRUE], a boolean having
    nothing but its tag, and two host primitives: primitive 0 answers
    the number 7, primitive 1 pushes a frame for the function in its
    second argument and answers [VAL_NO_VALUE]. *)
Definition lp64_host (id : nat) (vm : VM) (args : Z) : option (Value * VM) :=
  match id with
  | O => Some (VAL_NUM 7, vm)
  | S O =>
      callee ← stack (fiber vm) !! (args + 1);
      f ← AS_OBJ callee;
      Some (VAL_NO_VALUE, set_fiber (callFunction (fiber vm) f 1) vm)
  | _ => None
  end.

Definition lp64 : Platform := {|
  sizeof_Obj := 16;
  sizeof_ObjClass := 4128;
  sizeof_ObjFn := 40;
  sizeof_ObjString := 24;
  sizeof_ObjInstance := 24;
  sizeof_Code := 4;
  sizeof_Value := 16;
  MAX_SYMBOLS := 256;
  MAX_PINNED := 16;
  FLAG_MARKED := 1;
  AS_BOOL := λ value, bool_decide (type_of value = T_TRUE);
  malloc_bytes := λ size, replicate (Z.to_nat size) 170;
  chunk_Values := λ _, [];
  chunk_int := λ _, 0;
  host_primitive := lp64_host
|}.

(** A VM with empty tables, no object and no frame. *)
Definition empty_fiber : Fiber := mkFiber ∅ 0 ∅ 0.

Definition empty_vm : VM :=
  mkVM initSymbolTable initSymbolTable empty_fiber 0 (1024 * 1024)
       ∅ None ∅ 0 None None None None None None ∅ O.

(** [empty_vm] with one function object at address 1 holding [code] and
    [consts], linked as the only object. *)
Definition vm_with_fn (code : list Z) (consts : list Value) : VM :=
  set_first (Some 1%positive)
    (set_heap {[ 1%positive := mkObj 0 None (ObjFn code consts (Z.of_nat (length consts))) ]}
       empty_vm).

(** ** Vocabulary of the properties *)

Section VM_spec.
Context {P : Platform}.

(** The edges that the mark traversal follows: from a class to its
    metaclass and to the functions of its [METHOD_BLOCK] slots, from a
    function to the objects among its constants.  A class's superclass
    and an instance's class are not edges. *)
Definition edge (h : gmap positive Obj) (a b : positive) : Prop :=
  ∃ o, h !! a = Some o ∧
    match body o with
    | ObjClass metaclass _ methods =>
        metaclass = Some b ∨
        ∃ i, 0 ≤ i < MAX_SYMBOLS ∧ methods !! i = Some (METHOD_BLOCK (Some b))
    | ObjFn _ constants numConstants =>
        ∃ i, 0 ≤ i < numConstants ∧
             nth_Z constants i = Some (VAL_OBJ (Some b))
    | ObjString _ | ObjInstance _ => False
    end.

(** The roots, in the order in which [collectGarbage] visits them. *)
Definition root (vm : VM) (a : positive) : Prop :=
  (∃ i, 0 ≤ i < count (globalSymbols vm) ∧
        globals vm !! i = Some (VAL_OBJ (Some a))) ∨
  (∃ j, 0 ≤ j < numPinned vm ∧ pinned vm !! j = Some (VAL_OBJ (Some a))) ∨
  (∃ k fr, 0 ≤ k < numFrames (fiber vm) ∧
           frames (fiber vm) !! k = Some fr ∧ fn fr = Some a) ∨
  (∃ l, 0 ≤ l < stackSize (fiber vm) ∧
        stack (fiber vm) !! l = Some (VAL_OBJ (Some a))).

Definition reachable (vm : VM) (b : positive) : Prop :=
  ∃ a, root vm a ∧ rtc (edge (heap vm)) a b.

(** [object_list h p l]: following [next] from [p] visits exactly the
    addresses [l], in this order, and ends at [NULL]. *)
Fixpoint object_list (h : gmap positive Obj) (p : option positive)
  (l : list positive) : Prop :=
  match l with
  | [] => p = None
  | a :: l' =>
      p = Some a ∧
      from_option (λ o, object_list h (next o) l') False (h !! a)
  end.

(** Pointers that the mark phase dereferences must point to objects. *)
Definition valid_ptr (h : gmap positive Obj) (p : option positive) : Prop :=
  match p with
  | Some a => is_Some (h !! a)
  | None => False
  end.

Definition valid_value (h : gmap positive Obj) (v : Value) : Prop :=
  match v with
  | VAL_OBJ p => valid_ptr h p
  | _ => True
  end.

Definition valid_method (h : gmap positive Obj) (m : Method) : Prop :=
  match m with
  | METHOD_BLOCK fn => valid_ptr h fn
  | _ => True
  end.

Definition obj_ok (h : gmap positive Obj) (o : Obj) : Prop :=
  match body o with
  | ObjClass metaclass _ methods =>
      (metaclass = None ∨ valid_ptr h metaclass) ∧
      Forall (λ i, from_option (valid_method h) False (methods !! i))
             (seqZ 0 MAX_SYMBOLS)
  | ObjFn _ constants numConstants =>
      Forall (λ i, from_option (valid_value h) False (nth_Z constants i))
             (seqZ 0 numConstants)
  | ObjString value => is_Some (strlen value)
  | ObjInstance _ => True
  end.

(** Every object has readable, valid fields (and every string its
    terminating NUL, which [freeObj] looks for). *)
Definition heap_ok (h : gmap positive Obj) : Prop :=
  map_Forall (λ _ o, obj_ok h o) h.

(** No object carries the mark bit (as between two collections). *)
Definition unmarked (h : gmap positive Obj) : Prop :=
  map_Forall (λ _ o, is_marked o = false) h.

(** Every root slot is readable and holds a valid value. *)
Definition roots_ok (vm : VM) : Prop :=
  Forall (λ i, from_option (valid_value (heap vm)) False (globals vm !! i))
         (seqZ 0 (count (globalSymbols vm))) ∧
  Forall (λ j, from_option (valid_value (heap vm)) False (pinned vm !! j))
         (seqZ 0 (numPinned vm)) ∧
  Forall (λ k, from_option (λ fr, valid_ptr (heap vm) (fn fr)) False
                 (frames (fiber vm) !! k))
         (seqZ 0 (numFrames (fiber vm))) ∧
  Forall (λ l, from_option (valid_value (heap vm)) False
                 (stack (fiber vm) !! l))
         (seqZ 0 (stackSize (fiber vm))).

(** The state in which a collection may start: the object list [l] is
    well formed and holds exactly the objects in memory, no mark bit is
    set, and the roots and the objects' fields are valid. *)
Definition gc_ready (vm : VM) (l : list positive) : Prop :=
  object_list (heap vm) (first vm) l ∧
  dom (heap vm) = list_to_set l ∧
  heap_ok (heap vm) ∧
  unmarked (heap vm) ∧
  roots_ok vm.

Definition marked (h : gmap positive Obj) (a : positive) : Prop :=
  from_option (λ o, is_marked o = true) False (h !! a).

(** [mark_ext h h']: [h'] is [h] with the mark bit set on some objects
    that did not have it. *)
Definition mark_ext (h h' : gmap positive Obj) : Prop :=
  ∀ a, option_Forall2
         (λ o o', o' = o ∨
                  (is_marked o = false ∧
                   o' = set_flags (Z.lor (flags o) FLAG_MARKED) o))
         (h !! a) (h' !! a).

(** [mark_post R h h']: marking from the sources [R] took [h] to [h']:
    every object newly marked is reachable from a source, and its
    successors are marked too. *)
Definition mark_post (R : positive → Prop) (h h' : gmap positive Obj) : Prop :=
  mark_ext h h' ∧
  ∀ y, marked h' y → ¬ marked h y →
       (∃ r, R r ∧ rtc (edge h) r y) ∧ (∀ z, edge h y z → marked h' z).

(** The fields that hold the roots, and the others that a collection
    leaves alone. *)
Definition same_roots (vm vm' : VM) : Prop :=
  methods vm' = methods vm ∧ globalSymbols vm' = globalSymbols vm ∧
  fiber vm' = fiber vm ∧
  globals vm' = globals vm ∧ pinned vm' = pinned vm ∧
  numPinned vm' = numPinned vm ∧
  objectClass vm' = objectClass vm ∧ boolClass vm' = boolClass vm ∧
  nullClass vm' = nullClass vm ∧ numClass vm' = numClass vm ∧
  fnClass vm' = fnClass vm ∧ stringClass vm' = stringClass vm.

(** [fetches vm fr code]: the top frame of [vm] is [fr], and the bytes
    of its function from [ip fr] on start with [code] (an opcode and its
    operands). *)
Definition fetches (vm : VM) (fr : CallFrame) (code : list Z) : Prop :=
  frames (fiber vm) !! (numFrames (fiber vm) - 1) = Some fr ∧
  ∃ f o bytecode constants n,
    fn fr = Some f ∧ heap vm !! f = Some o ∧
    body o = ObjFn bytecode constants n ∧
    0 ≤ ip fr ∧
    take (length code) (drop (Z.to_nat (ip fr)) bytecode) = code.

(** The state after the top frame's [ip] has advanced by [d]. *)
Definition advance (vm : VM) (fr : CallFrame) (d : Z) : VM :=
  set_frames
    (<[numFrames (fiber vm) - 1 :=
         mkCallFrame (ip fr + d) (fn fr) (stackStart fr)]> (frames (fiber vm)))
    (numFrames (fiber vm)) vm.

(** The address a slot lives in, if it lives in an object. *)
Definition slot_owner (s : ObjSlot) : option positive :=
  match s with
  | slot_first => None
  | slot_next a => Some a
  end.

End VM_spec.

Global Instance from_option_dec {A} (Q : A → Prop) `{∀ x, Decision (Q x)}
  (o : option A) : Decision (from_option Q False o).
Proof. destruct o; simpl; apply _. Defined.
Global Instance valid_ptr_dec h p : Decision (valid_ptr h p).
Proof. destruct p; simpl; apply _. Defined.
Global Instance valid_value_dec h v : Decision (valid_value h v).
Proof. destruct v; simpl; apply _. Defined.
Global Instance valid_method_dec h m : Decision (valid_method h m).
Proof. destruct m; simpl; apply _. Defined.
Global Instance obj_ok_dec `{Platform} h o : Decision (obj_ok h o).
Proof. unfold obj_ok. destruct (body o); apply _. Defined.
Global Instance heap_ok_dec `{Platform} h : Decision (heap_ok h).
Proof. unfold heap_ok. apply _. Defined.
Global Instance unmarked_dec `{Platform} h : Decision (unmarked h).
Proof. unfold unmarked. apply _. Defined.
Global Instance roots_ok_dec `{Platform} vm : Decision (roots_ok vm).
Proof. unfold roots_ok. apply _. Defined.
Global Instance object_list_dec h p l : Decision (object_list h p l).
Proof.
  revert p. induction l as [|a l IH]; intros p; simpl; [apply _|].
  destruct (h !! a); simpl; apply _.
Defined.
Global Instance gc_ready_dec `{Platform} vm l : Decision (gc_ready vm l).
Proof. unfold gc_ready. apply _. Defined.
Global Instance marked_dec `{Platform} h a : Decision (marked h a).
Proof. unfold marked. destruct (h !! a); simpl; apply _. Defined.

(** A state with six linked objects: the function 1 (whose constants
    hold the string 2) runs in the only frame, the class 5 (metaclass 6,
    method 0 the function 1) sits on the stack, and the string 3 and the
    instance 4 are referenced by no root. *)
Definition gc_heap : gmap positive Obj :=
  list_to_map
    [ (1%positive, mkObj 0 None
         (ObjFn [CODE_NULL; CODE_END] [VAL_OBJ (Some 2%positive); VAL_NUM 1] 2));
      (2%positive, mkObj 0 (Some 1%positive) (ObjString [104; 105; 0]));
      (3%positive, mkObj 0 (Some 2%positive) (ObjString [120; 0]));
      (4%positive, mkObj 0 (Some 3%positive) (ObjInstance (Some 5%positive)));
      (5%positive, mkObj 0 (Some 4%positive)
         (ObjClass (Some 6%positive) None
            (<[0 := METHOD_BLOCK (Some 1%positive)]> (@no_methods lp64))));
      (6%positive, mkObj 0 (Some 5%positive)
         (ObjClass None None (@no_methods lp64))) ].

Definition gc_vm : VM :=
  mkVM initSymbolTable initSymbolTable
       (mkFiber {[ 0 := VAL_OBJ (Some 5%positive) ]} 1
                {[ 0 := mkCallFrame 0 (Some 1%positive) 0 ]} 1)
       4300 (1024 * 1024)
       ∅ (Some 6%positive) ∅ 0 None None None None None None gc_heap O.

Definition gc_list : list positive :=
  [6; 5; 4; 3; 2; 1]%positive.

(** A state in the middle of a run: the function 1 is about to execute
    the byte at [ip] with the stack [st]; [depth] frames are active, all
    of them running the function 1 from stack index 0. *)
Definition running_vm (code : list Z) (consts : list Value) (ip : Z)
  (st : list Value) (depth : nat) : VM :=
  set_fiber
    (mkFiber (list_to_map (zip (seqZ 0 (Z.of_nat (length st))) st))
             (Z.of_nat (length st))
             (list_to_map
                (zip (seqZ 0 (Z.of_nat depth))
                     (replicate depth (mkCallFrame ip (Some 1%positive) 0))))
             (Z.of_nat depth))
    (vm_with_fn code consts).

(** [running_vm] with two more objects: the class 2, whose method 0 is
    the host primitive [prim], and the instance 3 of that class. *)
Definition calling_vm (code : list Z) (st : list Value) (prim : nat) : VM :=
  set_first (Some 3%positive)
    (set_heap
       (<[3%positive := mkObj 0 (Some 2%positive) (ObjInstance (Some 2%positive))]>
          (<[2%positive := mkObj 0 (Some 1%positive)
                (ObjClass None None
                   (<[0 := METHOD_PRIMITIVE (primitive_host prim)]>
                      (@no_methods lp64)))]>
             (heap (running_vm code [] 0 st 1))))
       (running_vm code [] 0 st 1)).

(** ** Vocabulary for the symbol tables and the globals *)

(** [findGlobal]: the global stored under the symbol of [name].  The C
    code does not test the result of [findSymbol]. *)
Definition findGlobal (vm : VM) (name : list Z) : option Value :=
  len ← strlen name;
  symbol ← findSymbol (globalSymbols vm) name len;
  globals vm !! symbol.

(** [plain name len]: the caller's buffer [name] holds at least [len]
    bytes and none of the first [len] is NUL. *)
Definition plain (name : list Z) (len : Z) : Prop :=
  0 ≤ len ∧ (Z.to_nat len ≤ length name)%nat ∧
  Forall (λ c, c ≠ 0) (take (Z.to_nat len) name).

(** [names_match n name len]: the stored string [n] passes the test of
    [findSymbol] for [name] and [len]. *)
Definition names_match (n name : list Z) (len : Z) : Prop :=
  strlen n = Some len ∧
  take (Z.to_nat len) n = take (Z.to_nat len) name.

(** Every slot below [count] holds a NUL-terminated string. *)
Definition symbols_ok (symbols : SymbolTable) : Prop :=
  0 ≤ count symbols ∧
  Forall (λ i, from_option (λ n, is_Some (strlen n)) False
                 (names symbols !! i))
         (seqZ 0 (count symbols)).

Global Instance plain_dec name len : Decision (plain name len).
Proof. unfold plain. apply _. Defined.
Global Instance names_match_dec n name len : Decision (names_match n name len).
Proof. unfold names_match. apply _. Defined.
Global Instance symbols_ok_dec symbols : Decision (symbols_ok symbols).
Proof. unfold symbols_ok. apply _. Defined.

(** A table with the two names [new] and [foo]. *)
Definition two_symbols : SymbolTable :=
  mkSymbolTable
    (<[1 := [102; 111; 111; 0]]> (<[0 := [110; 101; 119; 0]]> ∅)) 2.

(** [early_nul name len k]: the buffer [name] has its first NUL at the
    index [k], before the length [len] that the caller passes. *)
Definition early_nul (name : list Z) (len : Z) (k : nat) : Prop :=
  Z.of_nat k < len ∧
  Forall (λ c, c ≠ 0) (take k name) ∧
  name !! k = Some 0.

Global Instance early_nul_dec name len k : Decision (early_nul name len k).
Proof. unfold early_nul. apply _. Defined.

Definition set_globalSymbols (s : SymbolTable) (vm : VM) : VM :=
  mkVM (methods vm) s (fiber vm) (totalAllocated vm)
       (nextGC vm) (globals vm) (first vm) (pinned vm) (numPinned vm)
       (objectClass vm) (boolClass vm) (nullClass vm) (numClass vm)
       (fnClass vm) (stringClass vm) (heap vm) (collections vm).

(** ** Vocabulary for the memory accounting *)

Section Accounting.
Context {P : Platform}.

(** What [freeObj] will subtract for the object [o]. *)
Definition obj_size (o : Obj) : Z := default 0 (freed_size o).

(** The sum of [obj_size] over the objects in memory. *)
Definition heap_bytes (h : gmap positive Obj) : Z :=
  map_fold (λ _ z acc, z + acc) 0 (obj_size <$> h).

End Accounting.

(** The names [foo] and [bar], and a buffer with a NUL in the middle. *)
Definition str_foo : list Z := [102; 111; 111; 0].
Definition str_bar : list Z := [98; 97; 114; 0].
Definition str_a_nul_b : list Z := [97; 0; 98; 0].

(** [running_vm] with four more objects: the class 2, whose method 0 is
    [m]; the instance 3 of that class; the function 4, whose body
    returns its first argument; the class 5, whose metaclass is the
    class 2. *)
Definition class_vm (code : list Z) (consts : list Value) (st : list Value)
  (m : Method) : VM :=
  set_first (Some 5%positive)
    (set_heap
       (<[5%positive := mkObj 0 (Some 4%positive)
             (ObjClass (Some 2%positive) None (@no_methods lp64))]>
       (<[4%positive := mkObj 0 (Some 3%positive)
             (ObjFn [CODE_LOAD_LOCAL; 1; CODE_END] [] 0)]>
       (<[3%positive := mkObj 0 (Some 2%positive)
             (ObjInstance (Some 2%positive))]>
       (<[2%positive := mkObj 0 (Some 1%positive)
             (ObjClass None None (<[0 := m]> (@no_methods lp64)))]>
          (heap (running_vm code consts 0 st 1))))))
       (running_vm code consts 0 st 1)).

Definition class_list : list positive := [5; 4; 3; 2; 1]%positive.

(** [gc_vm] with the instance 4 on the stack in place of its class 5. *)
Definition orphan_vm : VM :=
  set_stack {[ 0 := VAL_OBJ (Some 4%positive) ]} 1 gc_vm.

(** ** Vocabulary for the classes *)

(** The state that a turn of the dispatch loop leaves. *)
Definition state_of (out : Outcome) : VM :=
  match out with
  | Running vm | Returned _ vm | Exited vm => vm
  end.

(** A class in memory with neither metaclass nor superclass: what
    [newClass] makes, by [newSingleClass (vm, NULL, NULL)], to be the
    metaclass of the class it returns. *)
Definition bare_class (h : gmap positive Obj) (m : positive) : Prop :=
  match h !! m with
  | Some o =>
      match body o with
      | ObjClass None None _ => True
      | _ => False
      end
  | None => False
  end.

(** What is required of an object if it is a class: its metaclass is
    in memory and is a bare class, unless it is a bare class itself. *)
Definition class_ok (h : gmap positive Obj) (o : Obj) : Prop :=
  match body o with
  | ObjClass (Some m) _ _ => bare_class h m
  | ObjClass None superclass _ => superclass = None
  | _ => True
  end.

Definition class_inv (h : gmap positive Obj) : Prop :=
  map_Forall (λ _ o, class_ok h o) h.

Section Class_spec.
Context {P : Platform}.

(** The object list [l] holds exactly the objects in memory, and no
    mark bit is set. *)
Definition lists_ok (vm : VM) (l : list positive) : Prop :=
  object_list (heap vm) (first vm) l ∧
  dom (heap vm) = list_to_set l ∧
  unmarked (heap vm).

(** The invariant of the classes.  Nothing is asked of the roots, the
    bytecode or the fields of the other objects. *)
Definition vm_inv (vm : VM) (l : list positive) : Prop :=
  lists_ok vm l ∧ class_inv (heap vm) ∧ 0 ≤ numPinned vm.

(** [keeps vm vm']: the objects that are reachable in [vm] are in
    memory in [vm'], with the fields they had. *)
Definition keeps (vm vm' : VM) : Prop :=
  ∀ a o, reachable vm a → heap vm !! a = Some o →
         ∃ o', heap vm' !! a = Some o' ∧ body o' = body o.

(** [classes_from vm vm' new]: every class in memory in [vm'] is at
    one of the addresses [new], or was in memory in [vm], at the same
    address, with the metaclass and the superclass it has in [vm']. *)
Definition classes_from (vm vm' : VM) (new : list positive) : Prop :=
  ∀ a o' metaclass superclass ms',
    heap vm' !! a = Some o' →
    body o' = ObjClass metaclass superclass ms' →
    a ∈ new ∨
    ∃ o ms, heap vm !! a = Some o ∧ body o = ObjClass metaclass superclass ms.

(** What a turn of the loop may have made: nothing, or a class [c]
    and its metaclass [m], the class being on top of the stack. *)
Definition made_classes (vm' : VM) (new : list positive) : Prop :=
  new = [] ∨
  ∃ c m oc superclass ms,
    new = [c; m] ∧
    PEEK vm' = Some (VAL_OBJ (Some c)) ∧
    heap vm' !! c = Some oc ∧
    body oc = ObjClass (Some m) superclass ms.

(** What is assumed of the primitives of the core library: they keep
    the invariant, make no class and change the metaclass and the
    superclass of none. *)
Definition host_keeps_classes : Prop :=
  ∀ id vm l args result vm',
    vm_inv vm l → host_primitive id vm args = Some (result, vm') →
    (∃ l', vm_inv vm' l') ∧ classes_from vm vm' [].

(** [same_mem vm vm']: the memory and the object list are untouched. *)
Definition same_mem (vm vm' : VM) : Prop :=
  heap vm' = heap vm ∧ first vm' = first vm ∧ numPinned vm' = numPinned vm.

End Class_spec.

Global Instance bare_class_dec h m : Decision (bare_class h m).
Proof.
  unfold bare_class. destruct (h !! m) as [o|]; [|apply _].
  destruct (body o) as [[?|] [?|] ?| | |]; apply _.
Defined.
Global Instance class_ok_dec h o : Decision (class_ok h o).
Proof.
  unfold class_ok. destruct (body o) as [[?|] ? ?| | |]; apply _.
Defined.
Global Instance class_inv_dec h : Decision (class_inv h).
Proof. unfold class_inv. apply _. Defined.
Global Instance lists_ok_dec `{Platform} vm l : Decision (lists_ok vm l).
Proof. unfold lists_ok. apply _. Defined.
Global Instance vm_inv_dec `{Platform} vm l : Decision (vm_inv vm l).
Proof. unfold vm_inv. apply _. Defined.

(** * Properties *)

(** ** The mark bit *)

Lemma land_lor_same (f m : Z) : Z.land (Z.lor f m) m = m.
Proof.
  apply Z.bits_inj'. intros n _. rewrite Z.land_spec, Z.lor_spec.
  destruct (Z.testbit f n), (Z.testbit m n); reflexivity.
Qed.

Lemma land_clear_same (f m : Z) : Z.land (Z.land f (Z.lnot m)) m = 0.
Proof.
  apply Z.bits_inj'. intros n Hn.
  rewrite !Z.land_spec, Z.lnot_spec, Z.bits_0 by lia.
  destruct (Z.testbit f n), (Z.testbit m n); reflexivity.
Qed.

Section Mark.
Context {P : Platform}.
Hypothesis FLAG_MARKED_nonzero : FLAG_MARKED ≠ 0.

Lemma is_marked_set o :
  is_marked (set_flags (Z.lor (flags o) FLAG_MARKED) o) = true.
Proof.
  unfold is_marked. simpl. rewrite land_lor_same.
  apply negb_true_iff, Z.eqb_neq. exact FLAG_MARKED_nonzero.
Qed.

(** *** [mark_ext] is a preorder that keeps the graph *)

Lemma mark_ext_refl h : mark_ext h h.
Proof.
  intros a. destruct (h !! a); constructor. by left.
Qed.

Lemma mark_ext_trans h1 h2 h3 :
  mark_ext h1 h2 → mark_ext h2 h3 → mark_ext h1 h3.
Proof.
  intros H12 H23 a. specialize (H12 a). specialize (H23 a).
  destruct H12 as [o1 o2 H12|]; inversion H23 as [? o3 H23' E1 E2|]; subst;
    constructor.
  destruct H12 as [->|[Hm ->]]; [exact H23'|].
  destruct H23' as [->|[Hm' _]]; [by right|].
  rewrite is_marked_set in Hm'. discriminate.
Qed.

Lemma mark_ext_lookup h h' a o :
  mark_ext h h' → h !! a = Some o →
  ∃ o', h' !! a = Some o' ∧ body o' = body o ∧ next o' = next o ∧
        (is_marked o = true → is_marked o' = true).
Proof.
  intros Hext Ha. specialize (Hext a). rewrite Ha in Hext.
  inversion Hext as [? o' Hoo E1 E2|]; subst. exists o'. split; [done|].
  destruct Hoo as [->|[_ ->]]; simpl; auto.
  repeat split; auto. intros _. apply is_marked_set.
Qed.

Lemma mark_ext_lookup_inv h h' a o' :
  mark_ext h h' → h' !! a = Some o' →
  ∃ o, h !! a = Some o ∧ body o' = body o ∧ next o' = next o.
Proof.
  intros Hext Ha. specialize (Hext a). rewrite Ha in Hext.
  inversion Hext as [o ? Hoo E1 E2|]; subst. exists o. split; [done|].
  destruct Hoo as [->|[_ ->]]; simpl; auto.
Qed.

Lemma mark_ext_is_Some h h' a :
  mark_ext h h' → is_Some (h !! a) ↔ is_Some (h' !! a).
Proof.
  intros Hext. specialize (Hext a).
  inversion Hext; split; intros [? ?]; eauto; congruence.
Qed.

Lemma mark_ext_marked h h' a : mark_ext h h' → marked h a → marked h' a.
Proof.
  unfold marked. intros Hext Hm.
  destruct (h !! a) as [o|] eqn:Ha; [|done].
  destruct (mark_ext_lookup _ _ _ _ Hext Ha) as (o' & -> & _ & _ & Himp).
  simpl in *. auto.
Qed.

Lemma mark_ext_edge h h' a b : mark_ext h h' → edge h a b ↔ edge h' a b.
Proof.
  intros Hext. unfold edge. split.
  - intros (o & Ha & He).
    destruct (mark_ext_lookup _ _ _ _ Hext Ha) as (o' & Ha' & Hb & _).
    exists o'. rewrite Hb. done.
  - intros (o' & Ha' & He).
    destruct (mark_ext_lookup_inv _ _ _ _ Hext Ha') as (o & Ha & Hb & _).
    exists o. rewrite <- Hb. done.
Qed.

Lemma mark_ext_rtc h h' a b :
  mark_ext h h' → rtc (edge h') a b → rtc (edge h) a b.
Proof.
  intros Hext. induction 1 as [|x y z Hxy _ IH]; [constructor|].
  econstructor; [|exact IH]. by apply (mark_ext_edge h h').
Qed.

Lemma mark_ext_valid_ptr h h' p : mark_ext h h' → valid_ptr h p → valid_ptr h' p.
Proof.
  intros Hext. destruct p as [a|]; simpl; [|done].
  intros Ha. by apply (mark_ext_is_Some h h').
Qed.

Lemma mark_ext_obj_ok h h' o : mark_ext h h' → obj_ok h o → obj_ok h' o.
Proof.
  intros Hext. unfold obj_ok. destruct (body o) as [mc sc ms|bc cs n| |]; auto.
  - intros [Hmc Hms]. split.
    + destruct Hmc; [by left|right]. by eapply mark_ext_valid_ptr.
    + eapply Forall_impl; [exact Hms|]. intros i. simpl.
      destruct (ms !! i) as [[| |f]|]; simpl; auto.
      by apply mark_ext_valid_ptr.
  - intros Hcs. eapply Forall_impl; [exact Hcs|]. intros i. simpl.
    destruct (nth_Z cs i) as [[]|]; simpl; auto.
    by apply mark_ext_valid_ptr.
Qed.

Lemma mark_ext_heap_ok h h' : mark_ext h h' → heap_ok h → heap_ok h'.
Proof.
  intros Hext Hok a o' Ha'.
  destruct (mark_ext_lookup_inv _ _ _ _ Hext Ha') as (o & Ha & Hb & _).
  specialize (Hok a o Ha). simpl in Hok.
  apply (mark_ext_obj_ok h h') in Hok; [|done].
  unfold obj_ok in *. by rewrite Hb.
Qed.

(** *** Composition of marking steps *)

Lemma mark_post_refl R h : mark_post R h h.
Proof. split; [apply mark_ext_refl|]. intros y Hy Hn. contradiction. Qed.

Lemma mark_post_trans (R : positive → Prop) h1 h2 h3 :
  mark_post R h1 h2 → mark_post R h2 h3 → mark_post R h1 h3.
Proof.
  intros [E12 P12] [E23 P23]. split; [by eapply mark_ext_trans|].
  intros y Hy3 Hy1. destruct (decide (marked h2 y)) as [Hy2|Hy2].
  - destruct (P12 y Hy2 Hy1) as [Hr Hs]. split; [exact Hr|].
    intros z Hz. eapply mark_ext_marked; [exact E23|]. by apply Hs.
  - destruct (P23 y Hy3 Hy2) as [(r & Hr & Hrtc) Hs]. split.
    + exists r. split; [done|]. by eapply mark_ext_rtc.
    + intros z Hz. apply Hs. by apply (mark_ext_edge h1 h2).
Qed.

Lemma mark_post_mono (R R' : positive → Prop) h h' :
  (∀ r, R r → R' r) → mark_post R h h' → mark_post R' h h'.
Proof.
  intros HR [E Hp]. split; [done|]. intros y Hy Hn.
  destruct (Hp y Hy Hn) as [(r & Hr & Hrtc) Hs]. split; [|done].
  exists r. auto.
Qed.

(** Running a marker [mk] over the targets [tgt i] of a loop. *)
Lemma mark_loop (mk : gmap positive Obj → positive → option (gmap positive Obj))
  (tgt : Z → option positive) (R : positive → Prop) h0
  (body : Z → gmap positive Obj → option (gmap positive Obj)) idx :
  (∀ h' c, mark_ext h0 h' → is_Some (h0 !! c) →
     ∃ h'', mk h' c = Some h'' ∧ mark_post (eq c) h' h'' ∧ marked h'' c) →
  (∀ i h', i ∈ idx →
     body i h' = match tgt i with Some c => mk h' c | None => Some h' end) →
  (∀ i c, i ∈ idx → tgt i = Some c → R c ∧ is_Some (h0 !! c)) →
  ∀ h, mark_post R h0 h →
    ∃ h'', for_each body idx h = Some h'' ∧ mark_post R h0 h'' ∧
           mark_ext h h'' ∧
           ∀ i c, i ∈ idx → tgt i = Some c → marked h'' c.
Proof.
  intros Hmk. induction idx as [|i idx IH]; intros Hbody Htgt h Hpost.
  - exists h. simpl. split; [done|]. split; [done|].
    split; [apply mark_ext_refl|].
    intros i c Hi. by apply elem_of_nil in Hi.
  - simpl. rewrite Hbody by left.
    assert (∃ h1, match tgt i with Some c => mk h c | None => Some h end = Some h1
                  ∧ mark_post R h0 h1 ∧ mark_ext h h1
                  ∧ ∀ c, tgt i = Some c → marked h1 c) as (h1 & -> & Hp1 & He1 & Hm1).
    { destruct (tgt i) as [c|] eqn:Hti.
      - destruct (Htgt i c ltac:(left) Hti) as [HRc Hc].
        destruct (Hmk h c (proj1 Hpost) Hc) as (h1 & Hh1 & Hp1 & Hm1).
        exists h1. split; [done|]. split; [|split; [|by intros ? [= <-]]].
        + eapply mark_post_trans; [exact Hpost|].
          eapply mark_post_mono; [|exact Hp1]. by intros r <-.
        + apply Hp1.
      - exists h. split; [done|]. split; [done|].
        split; [apply mark_ext_refl|]. intros c [=]. }
    destruct (IH ltac:(intros; apply Hbody; by right)
                 ltac:(intros; eapply Htgt; [by right|done]) h1 Hp1)
      as (h2 & Hh2 & Hp2 & He2 & Hm2).
    exists h2. split; [done|]. split; [done|]. split.
    + by eapply mark_ext_trans.
    + intros j c Hj Hc. apply elem_of_cons in Hj as [->|Hj]; [|eauto].
      eapply mark_ext_marked; [exact He2|]. auto.
Qed.

(** *** One call of [markObj] *)

Lemma mark_ext_insert h a o :
  h !! a = Some o → is_marked o = false →
  mark_ext h (<[a := set_flags (Z.lor (flags o) FLAG_MARKED) o]> h).
Proof.
  intros Ha Hm x. destruct (decide (x = a)) as [->|Hne].
  - rewrite Ha, lookup_insert_eq. constructor. by right.
  - rewrite lookup_insert_ne by done. destruct (h !! x); constructor. by left.
Qed.

Lemma marked_insert h a o :
  marked (<[a := set_flags (Z.lor (flags o) FLAG_MARKED) o]> h) a.
Proof. unfold marked. rewrite lookup_insert_eq. simpl. apply is_marked_set. Qed.

(** Once the node [a] is marked and marking from its successors has run,
    marking from [a] is complete. *)
Lemma mark_post_node h a o hf :
  h !! a = Some o → is_marked o = false →
  mark_post (edge h a)
    (<[a := set_flags (Z.lor (flags o) FLAG_MARKED) o]> h) hf →
  (∀ z, edge h a z → marked hf z) →
  mark_post (eq a) h hf ∧ marked hf a.
Proof.
  intros Ha Hm [E1 Hp] Hsucc.
  pose proof (mark_ext_insert h a o Ha Hm) as E0.
  split; [split|].
  - by eapply mark_ext_trans.
  - intros y Hy Hn. destruct (decide (y = a)) as [->|Hne].
    + split; [|done]. exists a. split; [done|constructor].
    + assert (¬ marked (<[a := set_flags (Z.lor (flags o) FLAG_MARKED) o]> h) y)
        as Hn1.
      { unfold marked. rewrite lookup_insert_ne by done. exact Hn. }
      destruct (Hp y Hy Hn1) as [(r & Hr & Hrtc) Hs]. split.
      * exists a. split; [done|]. econstructor; [exact Hr|].
        by eapply mark_ext_rtc.
      * intros z Hz. apply Hs. by apply (mark_ext_edge h _).
  - eapply mark_ext_marked; [exact E1|]. apply marked_insert.
Qed.

Lemma markObj_spec gas : ∀ h a (U : gset positive),
  heap_ok h → is_Some (h !! a) →
  (∀ x, is_Some (h !! x) → ¬ marked h x → x ∈ U) →
  (size U < gas)%nat →
  ∃ h', markObj gas h (Some a) = Some h' ∧ mark_post (eq a) h h' ∧ marked h' a.
Proof.
  induction gas as [|gas IH]; intros h a U Hok [o Ha] HU Hgas; [lia|].
  simpl. rewrite Ha. simpl. destruct (is_marked o) eqn:Hm.
  { exists h. split; [done|]. split; [apply mark_post_refl|].
    unfold marked. by rewrite Ha. }
  set (h1 := <[a := set_flags (Z.lor (flags o) FLAG_MARKED) o]> h).
  pose proof (mark_ext_insert h a o Ha Hm) as E0. fold h1 in E0.
  assert (∀ h' c, mark_ext h1 h' → is_Some (h1 !! c) →
            ∃ h'', markObj gas h' (Some c) = Some h'' ∧
                   mark_post (eq c) h' h'' ∧ marked h'' c) as Hmk.
  { intros h' c E1 Hc. apply (IH h' c (U ∖ {[a]})).
    - eapply mark_ext_heap_ok; [|exact Hok]. by eapply mark_ext_trans.
    - by apply (mark_ext_is_Some h1 h').
    - intros x Hx Hnx.
      assert (x ≠ a) as Hne.
      { intros ->. apply Hnx. eapply mark_ext_marked; [exact E1|].
        apply marked_insert. }
      apply elem_of_difference. split; [|by rewrite elem_of_singleton].
      apply HU.
      + apply (mark_ext_is_Some h h'); [by eapply mark_ext_trans|done].
      + intros Hmx. apply Hnx. eapply mark_ext_marked; [|exact Hmx].
        by eapply mark_ext_trans.
    - assert (a ∈ U) as HaU.
      { apply HU; [by rewrite Ha|]. unfold marked. rewrite Ha. simpl.
        rewrite Hm. discriminate. }
      assert (U ∖ {[a]} ⊂ U) as Hsub.
      { by apply subset_difference_elem_of. }
      apply subset_size in Hsub. lia. }
  pose proof (Hok a o Ha) as Hoko. simpl in Hoko. unfold obj_ok in Hoko.
  destruct (body o) as [mc sc ms|bc cs n|s|c] eqn:Hbody.
  - (* class *)
    destruct Hoko as [Hmc Hms].
    assert (∃ h2, match mc with
                  | Some _ => markObj gas h1 mc
                  | None => Some h1
                  end = Some h2 ∧ mark_post (edge h a) h1 h2 ∧
                  ∀ m, mc = Some m → marked h2 m) as (h2 & -> & Hp2 & Hm2).
    { destruct mc as [m|].
      - destruct Hmc as [[=]|Hv]. simpl in Hv.
        destruct (Hmk h1 m (mark_ext_refl _)) as (h2 & Hh2 & Hp2 & Hm2).
        { by apply (mark_ext_is_Some h h1). }
        exists h2. split; [done|]. split; [|by intros ? [= <-]].
        eapply mark_post_mono; [|exact Hp2]. intros r <-.
        exists o. rewrite Hbody. split; [done|]. by left.
      - exists h1. split; [done|]. split; [apply mark_post_refl|].
        intros m [=]. }
    simpl.
    destruct (mark_loop (λ h' c, markObj gas h' (Some c))
                (λ i, match ms !! i with
                      | Some (METHOD_BLOCK (Some c)) => Some c
                      | _ => None
                      end)
                (edge h a) h1
                (λ i h', m ← ms !! i;
                         match m with
                         | METHOD_BLOCK fn => markObj gas h' fn
                         | _ => Some h'
                         end)
                (seqZ 0 MAX_SYMBOLS) Hmk) with (h := h2)
      as (h3 & Hh3 & Hp3 & E23 & Hm3); [| |exact Hp2|].
    { intros i h' Hi. rewrite Forall_forall in Hms. specialize (Hms i Hi).
      destruct (ms !! i) as [[| |[f|]]|]; simpl in *; done. }
    { intros i c Hi Hc. rewrite Forall_forall in Hms. specialize (Hms i Hi).
      destruct (ms !! i) as [[| |[f|]]|] eqn:Hmi; simpl in *; try done.
      injection Hc as ->. split.
      - exists o. rewrite Hbody. split; [done|]. right. exists i.
        apply elem_of_seqZ in Hi. split; [lia|done].
      - by apply (mark_ext_is_Some h h1). }
    exists h3. split; [exact Hh3|].
    apply (mark_post_node h a o h3 Ha Hm Hp3).
    intros z (o' & Ha' & Hz). rewrite Ha in Ha'. injection Ha' as <-.
    rewrite Hbody in Hz. destruct Hz as [->|(i & Hi & Hmi)].
    + eapply mark_ext_marked; [exact E23|]. by apply Hm2.
    + apply (Hm3 i); [apply elem_of_seqZ; lia|]. by rewrite Hmi.
  - (* function *)
    destruct (mark_loop (λ h' c, markObj gas h' (Some c))
                (λ i, match nth_Z cs i with
                      | Some (VAL_OBJ (Some c)) => Some c
                      | _ => None
                      end)
                (edge h a) h1
                (λ i h', v ← nth_Z cs i;
                         match v with
                         | VAL_OBJ p => markObj gas h' p
                         | _ => Some h'
                         end)
                (seqZ 0 n) Hmk) with (h := h1)
      as (h3 & Hh3 & Hp3 & E23 & Hm3); [| |apply mark_post_refl|].
    { intros i h' Hi. rewrite Forall_forall in Hoko. specialize (Hoko i Hi).
      destruct (nth_Z cs i) as [[| | | | |[f|]]|]; simpl in *; done. }
    { intros i c Hi Hc. rewrite Forall_forall in Hoko. specialize (Hoko i Hi).
      destruct (nth_Z cs i) as [[| | | | |[f|]]|] eqn:Hci; simpl in *; try done.
      injection Hc as ->. split.
      - exists o. rewrite Hbody. split; [done|]. exists i.
        apply elem_of_seqZ in Hi. split; [lia|done].
      - by apply (mark_ext_is_Some h h1). }
    exists h3. split; [exact Hh3|].
    apply (mark_post_node h a o h3 Ha Hm Hp3).
    intros z (o' & Ha' & Hz). rewrite Ha in Ha'. injection Ha' as <-.
    rewrite Hbody in Hz. destruct Hz as (i & Hi & Hci).
    apply (Hm3 i); [apply elem_of_seqZ; lia|]. by rewrite Hci.
  - (* string *)
    exists h1. split; [done|].
    apply (mark_post_node h a o h1 Ha Hm (mark_post_refl _ _)).
    intros z (o' & Ha' & Hz). rewrite Ha in Ha'. injection Ha' as <-.
    by rewrite Hbody in Hz.
  - (* instance *)
    exists h1. split; [done|].
    apply (mark_post_node h a o h1 Ha Hm (mark_post_refl _ _)).
    intros z (o' & Ha' & Hz). rewrite Ha in Ha'. injection Ha' as <-.
    by rewrite Hbody in Hz.
Qed.

(** *** The mark phase of [collectGarbage] *)

Lemma unmarked_not_marked h a : unmarked h → ¬ marked h a.
Proof.
  intros Hu. unfold marked. destruct (h !! a) as [o|] eqn:Ha; simpl; [|tauto].
  rewrite (Hu a o Ha). discriminate.
Qed.

(** With as much gas as there are objects, [markObj] never runs dry. *)
Lemma markObj_total h0 h' c :
  heap_ok h0 → mark_ext h0 h' → is_Some (h0 !! c) →
  ∃ h'', markObj (S (size h0)) h' (Some c) = Some h'' ∧
         mark_post (eq c) h' h'' ∧ marked h'' c.
Proof.
  intros Hok Hext Hc. apply (markObj_spec _ h' c (dom h0)).
  - by eapply mark_ext_heap_ok.
  - by apply (mark_ext_is_Some h0 h').
  - intros x Hx _. apply elem_of_dom. by apply (mark_ext_is_Some h0 h').
  - rewrite size_dom. lia.
Qed.

Lemma mark_roots_spec vm :
  heap_ok (heap vm) → roots_ok vm →
  ∃ hm, mark_roots (S (size (heap vm))) vm = Some hm ∧
        mark_post (root vm) (heap vm) hm ∧
        ∀ r, root vm r → marked hm r.
Proof.
  intros Hok (Hg & Hp & Hf & Hs).
  set (gas := S (size (heap vm))).
  pose proof (λ h' c, markObj_total (heap vm) h' c Hok) as Hmk. fold gas in Hmk.
  rewrite Forall_forall in Hg, Hp, Hf, Hs.
  unfold mark_roots, mark_globals, mark_pinned, mark_frames, mark_stack,
    for_range.
  fold gas.
  (* globals *)
  destruct (mark_loop (λ h' c, markObj gas h' (Some c))
              (λ i, match globals vm !! i with
                    | Some (VAL_OBJ (Some c)) => Some c
                    | _ => None
                    end)
              (root vm) (heap vm)
              (λ i h', v ← globals vm !! i;
                       if negb (IS_NULL v) then markValue gas h' v else Some h')
              (seqZ 0 (count (globalSymbols vm))) Hmk) with (h := heap vm)
    as (h1 & Hh1 & Hp1 & E1 & Hm1); [| |apply mark_post_refl|].
  { intros i h' Hi. specialize (Hg i Hi).
    destruct (globals vm !! i) as [[| | | | |[f|]]|]; simpl in *; done. }
  { intros i c Hi Hc. specialize (Hg i Hi).
    destruct (globals vm !! i) as [[| | | | |[f|]]|] eqn:Hgi;
      simpl in *; try done.
    injection Hc as ->. split; [|done]. left. exists i.
    apply elem_of_seqZ in Hi. split; [lia|done]. }
  rewrite Hh1. cbn [mbind option_bind].
  (* pinned *)
  destruct (mark_loop (λ h' c, markObj gas h' (Some c))
              (λ j, match pinned vm !! j with
                    | Some (VAL_OBJ (Some c)) => Some c
                    | _ => None
                    end)
              (root vm) (heap vm)
              (λ j h', v ← pinned vm !! j;
                       if negb (IS_NULL v) then markValue gas h' v else Some h')
              (seqZ 0 (numPinned vm)) Hmk) with (h := h1)
    as (h2 & Hh2 & Hp2 & E2 & Hm2); [| |exact Hp1|].
  { intros i h' Hi. specialize (Hp i Hi).
    destruct (pinned vm !! i) as [[| | | | |[f|]]|]; simpl in *; done. }
  { intros i c Hi Hc. specialize (Hp i Hi).
    destruct (pinned vm !! i) as [[| | | | |[f|]]|] eqn:Hgi;
      simpl in *; try done.
    injection Hc as ->. split; [|done]. right. left. exists i.
    apply elem_of_seqZ in Hi. split; [lia|done]. }
  rewrite Hh2. cbn [mbind option_bind].
  (* frames *)
  destruct (mark_loop (λ h' c, markObj gas h' (Some c))
              (λ k, fr ← frames (fiber vm) !! k; fn fr)
              (root vm) (heap vm)
              (λ k h', fr ← frames (fiber vm) !! k; markObj gas h' (fn fr))
              (seqZ 0 (numFrames (fiber vm))) Hmk) with (h := h2)
    as (h3 & Hh3 & Hp3 & E3 & Hm3); [| |exact Hp2|].
  { intros i h' Hi. specialize (Hf i Hi).
    destruct (frames (fiber vm) !! i) as [fr|]; simpl in *; [|done].
    destruct (fn fr); simpl in *; done. }
  { intros i c Hi Hc. specialize (Hf i Hi).
    destruct (frames (fiber vm) !! i) as [fr|] eqn:Hfi; simpl in *; [|done].
    rewrite Hc in Hf. split; [|done]. right. right. left. exists i, fr.
    apply elem_of_seqZ in Hi. split; [lia|done]. }
  rewrite Hh3. cbn [mbind option_bind].
  (* stack *)
  destruct (mark_loop (λ h' c, markObj gas h' (Some c))
              (λ l, match stack (fiber vm) !! l with
                    | Some (VAL_OBJ (Some c)) => Some c
                    | _ => None
                    end)
              (root vm) (heap vm)
              (λ l h', v ← stack (fiber vm) !! l; markValue gas h' v)
              (seqZ 0 (stackSize (fiber vm))) Hmk) with (h := h3)
    as (h4 & Hh4 & Hp4 & E4 & Hm4); [| |exact Hp3|].
  { intros i h' Hi. specialize (Hs i Hi).
    destruct (stack (fiber vm) !! i) as [[| | | | |[f|]]|]; simpl in *; done. }
  { intros i c Hi Hc. specialize (Hs i Hi).
    destruct (stack (fiber vm) !! i) as [[| | | | |[f|]]|] eqn:Hgi;
      simpl in *; try done.
    injection Hc as ->. split; [|done]. right. right. right. exists i.
    apply elem_of_seqZ in Hi. split; [lia|done]. }
  rewrite Hh4.
  exists h4. split; [done|]. split; [exact Hp4|].
  intros r [(i & Hi & Hr)|[(i & Hi & Hr)|[(i & fr & Hi & Hr & Hfn)|(i & Hi & Hr)]]].
  - eapply mark_ext_marked; [exact E4|]. eapply mark_ext_marked; [exact E3|].
    eapply mark_ext_marked; [exact E2|].
    apply (Hm1 i); [apply elem_of_seqZ; lia|]. by rewrite Hr.
  - eapply mark_ext_marked; [exact E4|]. eapply mark_ext_marked; [exact E3|].
    apply (Hm2 i); [apply elem_of_seqZ; lia|]. by rewrite Hr.
  - eapply mark_ext_marked; [exact E4|].
    apply (Hm3 i); [apply elem_of_seqZ; lia|]. by rewrite Hr.
  - apply (Hm4 i); [apply elem_of_seqZ; lia|]. by rewrite Hr.
Qed.

(** After the mark phase of a heap that had no mark, the marked objects
    are exactly the reachable ones. *)
Lemma marked_iff_reachable vm hm :
  unmarked (heap vm) →
  mark_post (root vm) (heap vm) hm →
  (∀ r, root vm r → marked hm r) →
  ∀ y, marked hm y ↔ reachable vm y.
Proof.
  intros Hu [Hext Hp] Hroots y. split.
  - intros Hy. by destruct (Hp y Hy (unmarked_not_marked _ _ Hu)) as [Hr _].
  - intros (a & Ha & Hrtc). apply Hroots in Ha.
    induction Hrtc as [|x z w Hxz _ IH]; [done|].
    apply IH. by apply (Hp x Ha (unmarked_not_marked _ _ Hu)).
Qed.

(** *** The object list *)

Lemma object_list_cons h p a l :
  object_list h p (a :: l) ↔
  p = Some a ∧ ∃ o, h !! a = Some o ∧ object_list h (next o) l.
Proof.
  simpl. split.
  - intros [-> Ho]. split; [done|].
    destruct (h !! a) as [o|]; simpl in Ho; [eauto|done].
  - intros [-> (o & -> & Ho)]. done.
Qed.

Lemma object_list_det h p l1 : ∀ l2,
  object_list h p l1 → object_list h p l2 → l1 = l2.
Proof.
  revert p. induction l1 as [|a l1 IH]; intros p [|b l2] H1 H2.
  - done.
  - simpl in H1. destruct H2 as [? _]. congruence.
  - simpl in H2. destruct H1 as [? _]. congruence.
  - apply object_list_cons in H1 as [-> (o & Ho & H1)].
    apply object_list_cons in H2 as [[= <-] (o' & Ho' & H2)].
    rewrite Ho in Ho'. injection Ho' as <-. f_equal. by eapply IH.
Qed.

Lemma object_list_suffix h l1 : ∀ p a l2,
  object_list h p (l1 ++ a :: l2) → object_list h (Some a) (a :: l2).
Proof.
  induction l1 as [|b l1 IH]; intros p a l2 Hl.
  - simpl in *. by destruct Hl as [_ Hl].
  - change ((b :: l1) ++ a :: l2) with (b :: (l1 ++ a :: l2)) in Hl.
    apply object_list_cons in Hl as [_ (o & _ & Hl)]. by eapply IH.
Qed.

(** A list that ends at [NULL] visits no object twice. *)
Lemma object_list_NoDup h l : ∀ p, object_list h p l → NoDup l.
Proof.
  induction l as [|a l IH]; intros p Hl; [constructor|].
  pose proof Hl as Hl0.
  apply object_list_cons in Hl as [-> (o & Ho & Hl)].
  constructor; [|by eapply IH].
  intros Hin. apply list_elem_of_split in Hin as (l1 & l2 & ->).
  pose proof (object_list_suffix _ _ _ _ _ Hl) as Hs.
  pose proof (object_list_det _ _ _ _ Hs Hl0) as Heq.
  apply (f_equal length) in Heq. simpl in Heq.
  rewrite length_app in Heq. simpl in Heq. lia.
Qed.

Lemma object_list_frame h h' l : ∀ p,
  (∀ x o, x ∈ l → h !! x = Some o →
          ∃ o', h' !! x = Some o' ∧ next o' = next o) →
  object_list h p l → object_list h' p l.
Proof.
  induction l as [|a l IH]; intros p Hag Hl; [done|].
  apply object_list_cons in Hl as [-> (o & Ho & Hl)].
  destruct (Hag a o ltac:(left) Ho) as (o' & Ho' & Hn).
  apply object_list_cons. split; [done|]. exists o'. split; [done|].
  rewrite Hn. apply IH; [|done]. intros x ox Hx. apply Hag. by right.
Qed.

Lemma object_list_same h h' l p :
  (∀ x, x ∈ l → h' !! x = h !! x) →
  object_list h p l → object_list h' p l.
Proof.
  intros Hag. apply object_list_frame. intros x o Hx Ho.
  exists o. by rewrite Hag.
Qed.

Lemma object_list_lookup h l : ∀ p x,
  object_list h p l → x ∈ l → is_Some (h !! x).
Proof.
  induction l as [|a l IH]; intros p x Hl Hx; [by apply elem_of_nil in Hx|].
  apply object_list_cons in Hl as [-> (o & Ho & Hl)].
  apply elem_of_cons in Hx as [->|Hx]; [by rewrite Ho|]. by eapply IH.
Qed.

(** *** The sweep loop *)

(** What [sweep] leaves of the list [l] that hangs off the slot [s]:
    the objects that satisfy [M] (those whose mark bit was set), in
    their order and with the bit cleared; the others are freed.  Memory
    outside [l] is untouched, except for the [next] field that is the
    slot. *)
Lemma sweep_spec (M : positive → Prop) `{!∀ x, Decision (M x)} l :
  ∀ gas vm s p,
  load_slot vm s = Some p →
  object_list (heap vm) p l →
  (∀ b, slot_owner s = Some b → b ∉ l) →
  (∀ x o, x ∈ l → heap vm !! x = Some o →
          (is_marked o = true ↔ M x) ∧ is_Some (freed_size o)) →
  (length l < gas)%nat →
  ∃ vm' p', sweep gas vm s = Some vm' ∧
    load_slot vm' s = Some p' ∧
    object_list (heap vm') p' (filter M l) ∧
    (∀ x, x ∉ l → slot_owner s ≠ Some x → heap vm' !! x = heap vm !! x) ∧
    (∀ b, slot_owner s = Some b →
          first vm' = first vm ∧
          ∃ o o', heap vm !! b = Some o ∧ heap vm' !! b = Some o' ∧
                  flags o' = flags o ∧ body o' = body o) ∧
    (∀ x, x ∈ l →
          if decide (M x) then
            ∃ o o', heap vm !! x = Some o ∧ heap vm' !! x = Some o' ∧
                    body o' = body o ∧
                    flags o' = Z.land (flags o) (Z.lnot FLAG_MARKED)
          else heap vm' !! x = None).
Proof.
  induction l as [|a l IH]; intros gas vm s p Hload Hl Hown HM Hgas.
  { destruct gas as [|gas]; [simpl in Hgas; lia|].
    simpl in Hl. subst p. exists vm, None. simpl. rewrite Hload. simpl.
    split; [done|]. split; [done|]. split; [done|]. split; [done|].
    split.
    - intros b Hb. split; [done|]. destruct s as [|b']; [done|].
      injection Hb as ->. simpl in Hload.
      destruct (heap vm !! b) as [ob|]; [|done]. by exists ob, ob.
    - intros x Hx. by apply elem_of_nil in Hx. }
  destruct gas as [|gas]; [simpl in Hgas; lia|]. simpl in Hgas.
  pose proof (object_list_NoDup _ _ _ Hl) as Hnd.
  apply NoDup_cons in Hnd as [Hal Hnd].
  apply object_list_cons in Hl as [-> (o & Ho & Hl)].
  destruct (HM a o ltac:(left) Ho) as [HMa [sz Hsz]].
  assert (∀ b, slot_owner s = Some b → b ≠ a ∧ b ∉ l) as Hown'.
  { intros b Hb. specialize (Hown b Hb). rewrite not_elem_of_cons in Hown.
    done. }
  simpl. rewrite Hload. simpl. rewrite Ho. simpl.
  destruct (is_marked o) eqn:Hmo; simpl.
  - (* kept *)
    assert (M a) as HaM by (by apply HMa).
    set (o1 := set_flags (Z.land (flags o) (Z.lnot FLAG_MARKED)) o).
    set (vm1 := set_heap (<[a := o1]> (heap vm)) vm).
    destruct (IH gas vm1 (slot_next a) (next o)) as
      (vm' & p' & Hsw & Hload' & Hl' & Hout & Howner & Hin).
    { simpl. by rewrite lookup_insert_eq. }
    { eapply object_list_same; [|exact Hl]. intros x Hx. simpl.
      rewrite lookup_insert_ne; [done|]. by intros ->. }
    { by intros b [= <-]. }
    { intros x ox Hx Hox. simpl in Hox.
      rewrite lookup_insert_ne in Hox by (by intros ->).
      apply (HM x ox); [by right|done]. }
    { lia. }
    destruct (Howner a eq_refl) as (Hfirst & oa & oa' & Hoa & Hoa' & Hfl & Hbo).
    simpl in Hoa. rewrite lookup_insert_eq in Hoa. injection Hoa as <-.
    exists vm', (Some a). split; [exact Hsw|].
    assert (load_slot vm' s = Some (Some a)) as Hls.
    { destruct s as [|b]; simpl in *.
      - by rewrite Hfirst.
      - destruct (Hown' b eq_refl) as [Hba Hbl].
        rewrite Hout; [|done|by intros [= ->]]. simpl.
        by rewrite lookup_insert_ne. }
    split; [exact Hls|]. split.
    { rewrite filter_cons_True by done. apply object_list_cons.
      split; [done|]. exists oa'. split; [done|].
      simpl in Hload'. rewrite Hoa' in Hload'. simpl in Hload'.
      by injection Hload' as ->. }
    split.
    { intros x Hx Hxs. rewrite not_elem_of_cons in Hx. destruct Hx as [Hxa Hx].
      rewrite Hout; [|done|by intros [= ->]]. simpl.
      by rewrite lookup_insert_ne. }
    split.
    { intros b Hb. destruct (Hown' b Hb) as [Hba Hbl]. split.
      - by rewrite Hfirst.
      - destruct s as [|b']; [done|]. injection Hb as ->. simpl in Hload.
        destruct (heap vm !! b) as [ob|] eqn:Hob; [|done].
        exists ob, ob. split; [done|]. split; [|done].
        rewrite Hout; [|done|by intros [= ->]]. simpl.
        by rewrite lookup_insert_ne. }
    intros x Hx. apply elem_of_cons in Hx as [->|Hx].
    + rewrite decide_True by done. exists o, oa'. by rewrite Hfl, Hbo.
    + specialize (Hin x Hx). destruct (decide (M x)); [|done].
      destruct Hin as (ox & ox' & Hox & Hox' & ?). exists ox, ox'.
      simpl in Hox. rewrite lookup_insert_ne in Hox by (by intros ->). done.
  - (* freed *)
    assert (¬ M a) as HaM.
    { intros HaM. apply HMa in HaM. congruence. }
    assert (∃ vm1, store_slot vm s (next o) = Some vm1 ∧
                   load_slot vm1 s = Some (next o) ∧
                   (∀ x, slot_owner s ≠ Some x → heap vm1 !! x = heap vm !! x) ∧
                   totalAllocated vm1 = totalAllocated vm ∧
                   (∀ b, slot_owner s = Some b →
                      first vm1 = first vm ∧
                      ∃ ob, heap vm !! b = Some ob ∧
                            heap vm1 !! b = Some (set_next (next o) ob)))
      as (vm1 & -> & Hload1 & Hout1 & Htot1 & Hown1).
    { destruct s as [|b]; simpl in *.
      - eexists. split; [done|]. simpl. split; [done|]. split; [done|].
        split; [done|]. intros b [=].
      - destruct (heap vm !! b) as [ob|] eqn:Hob; [|done]. simpl.
        eexists. split; [done|]. simpl. rewrite lookup_insert_eq. simpl.
        split; [done|]. split.
        + intros x Hx. rewrite lookup_insert_ne; [done|]. by intros ->.
        + split; [done|]. intros ? [= <-]. split; [done|]. exists ob.
          by rewrite lookup_insert_eq. }
    simpl.
    assert (heap vm1 !! a = Some o) as Ho1.
    { rewrite Hout1; [done|]. intros Hs. by destruct (Hown' a Hs). }
    unfold freeObj. rewrite Ho1. simpl. rewrite Hsz. simpl.
    set (vm2 := set_heap (delete a (heap vm1))
                  (set_totalAllocated (size_t (totalAllocated vm1 - sz)) vm1)).
    destruct (IH gas vm2 s (next o)) as
      (vm' & p' & Hsw & Hload' & Hl' & Hout & Howner & Hin).
    { destruct s as [|b]; simpl in *; [done|].
      destruct (Hown' b eq_refl) as [Hba Hbl].
      by rewrite lookup_delete_ne. }
    { eapply object_list_same; [|exact Hl]. intros x Hx. simpl.
      rewrite lookup_delete_ne by (by intros ->).
      apply Hout1. intros Hs. by destruct (Hown' x Hs). }
    { intros b Hb. by destruct (Hown' b Hb). }
    { intros x ox Hx Hox. simpl in Hox.
      rewrite lookup_delete_ne in Hox by (by intros ->).
      rewrite Hout1 in Hox; [|intros Hs; by destruct (Hown' x Hs)].
      apply (HM x ox); [by right|done]. }
    { lia. }
    exists vm', p'. split; [exact Hsw|]. split; [exact Hload'|]. split.
    { by rewrite filter_cons_False. }
    split.
    { intros x Hx Hxs. rewrite not_elem_of_cons in Hx. destruct Hx as [Hxa Hx].
      rewrite Hout by done. simpl. rewrite lookup_delete_ne by done.
      by apply Hout1. }
    split.
    { intros b Hb. destruct (Hown' b Hb) as [Hba Hbl].
      destruct (Howner b Hb) as (Hf' & ob2 & ob' & Hob2 & Hob' & Hfl & Hbo).
      destruct (Hown1 b Hb) as (Hf1 & ob & Hob & Hob1).
      split; [by rewrite Hf'|]. exists ob, ob'. split; [done|]. split; [done|].
      simpl in Hob2. rewrite lookup_delete_ne in Hob2 by done.
      rewrite Hob1 in Hob2. injection Hob2 as <-. done. }
    intros x Hx. apply elem_of_cons in Hx as [->|Hx].
    + rewrite decide_False by done. rewrite Hout; [|done|].
      * simpl. apply lookup_delete_eq.
      * intros Hs. by destruct (Hown' a Hs).
    + specialize (Hin x Hx). destruct (decide (M x)); [|done].
      destruct Hin as (ox & ox' & Hox & Hox' & ?). exists ox, ox'.
      simpl in Hox. rewrite lookup_delete_ne in Hox by (by intros ->).
      rewrite Hout1 in Hox; [done|]. intros Hs. by destruct (Hown' x Hs).
Qed.

(** [sweep] touches the heap, [first] and [totalAllocated] only. *)
Lemma sweep_same_roots gas : ∀ vm s vm',
  sweep gas vm s = Some vm' →
  same_roots vm vm' ∧ collections vm' = collections vm.
Proof.
  induction gas as [|gas IH]; intros vm s vm' Hsw; [done|].
  simpl in Hsw.
  destruct (load_slot vm s) as [[a|]|] eqn:Hload; simpl in Hsw; [| |done].
  - destruct (heap vm !! a) as [o|]; simpl in Hsw; [|done].
    destruct (is_marked o); simpl in Hsw.
    + apply IH in Hsw. exact Hsw.
    + destruct (store_slot vm s (next o)) as [vm1|] eqn:Hst;
        simpl in Hsw; [|done].
      unfold freeObj in Hsw.
      destruct (heap vm1 !! a) as [o1|]; simpl in Hsw; [|done].
      destruct (freed_size o1) as [sz|]; simpl in Hsw; [|done].
      apply IH in Hsw. unfold same_roots in *. simpl in Hsw.
      destruct s as [|b]; simpl in Hst.
      * injection Hst as <-. exact Hsw.
      * destruct (heap vm !! b); simpl in Hst; [|done].
        injection Hst as <-. exact Hsw.
  - injection Hsw as <-. by repeat split.
Qed.

Lemma edge_same_body h h' x y o o' :
  h !! x = Some o → h' !! x = Some o' → body o' = body o →
  edge h x y → edge h' x y.
Proof.
  intros Hx Hx' Hb (o0 & Hx0 & He). rewrite Hx in Hx0. injection Hx0 as <-.
  exists o'. split; [done|]. by rewrite Hb.
Qed.

Lemma rtc_transfer (R R' : relation positive) (Q : positive → Prop) x z :
  Q x → (∀ y w, Q y → R y w → R' y w ∧ Q w) → rtc R x z → rtc R' x z.
Proof.
  intros Hx Hstep Hrtc. induction Hrtc as [|x y z Hxy _ IH]; [constructor|].
  destruct (Hstep x y Hx Hxy) as [Hxy' Hy].
  econstructor; [exact Hxy'|]. by apply IH.
Qed.

Lemma obj_ok_freed_size h o : obj_ok h o → is_Some (freed_size o).
Proof.
  unfold obj_ok, freed_size. destruct (body o); try by eexists.
  intros [n ->]. by eexists.
Qed.

(** The whole collection. *)
Lemma collectGarbage_spec vm l :
  gc_ready vm l →
  ∃ vm' l',
    collectGarbage vm = Some vm' ∧
    object_list (heap vm') (first vm') l' ∧
    sublist l' l ∧
    (∀ a, a ∈ l' ↔ reachable vm a) ∧
    (∀ a, is_Some (heap vm' !! a) ↔ reachable vm a) ∧
    (∀ a o', heap vm' !! a = Some o' →
       ∃ o, heap vm !! a = Some o ∧ body o' = body o ∧ is_marked o' = false) ∧
    same_roots vm vm' ∧
    collections vm' = S (collections vm).
Proof.
  intros (Hl & Hdom & Hok & Hu & Hr).
  destruct (mark_roots_spec vm Hok Hr) as (hm & Hmr & Hpost & Hroots).
  pose proof (marked_iff_reachable vm hm Hu Hpost Hroots) as Hiff.
  pose proof (proj1 Hpost) as Hext.
  pose proof (object_list_NoDup _ _ _ Hl) as Hnd.
  assert (∀ a, a ∈ l ↔ is_Some (heap vm !! a)) as Hmem.
  { intros a. rewrite <- elem_of_dom, Hdom. by rewrite elem_of_list_to_set. }
  destruct (sweep_spec (marked hm) l (S (size (heap vm))) (set_heap hm vm)
              slot_first (first vm)) as
    (vm' & p' & Hsw & Hload' & Hl' & Hout & _ & Hin).
  { done. }
  { simpl. eapply object_list_frame; [|exact Hl]. intros x o Hx Ho.
    destruct (mark_ext_lookup _ _ _ _ Hext Ho) as (o' & Ho' & _ & Hn & _).
    eauto. }
  { intros b [=]. }
  { intros x o Hx Ho. simpl in Ho. split.
    - unfold marked. by rewrite Ho.
    - eapply obj_ok_freed_size.
      apply (mark_ext_heap_ok _ _ Hext Hok x o Ho). }
  { rewrite <- size_dom, Hdom, size_list_to_set by done. lia. }
  simpl in Hload', Hout, Hin. injection Hload' as <-.
  assert (∀ a, reachable vm a → a ∈ l) as Hrl.
  { intros a Ha. apply Hiff in Ha. apply Hmem.
    apply (mark_ext_is_Some _ _ a Hext). unfold marked in Ha.
    destruct (hm !! a); [by eexists|done]. }
  assert (∀ a, is_Some (heap vm' !! a) ↔ reachable vm a) as Hlive.
  { intros a. rewrite <- Hiff. destruct (decide (a ∈ l)) as [Hal|Hal].
    - specialize (Hin a Hal). destruct (decide (marked hm a)) as [Hm|Hm].
      + destruct Hin as (o & o' & _ & -> & _). split; [done|by eexists].
      + rewrite Hin. split; [by intros [? [=]]|done].
    - rewrite Hout by done. split.
      + intros Hs. exfalso. apply Hal, Hmem.
        by apply (mark_ext_is_Some _ _ a Hext).
      + unfold marked. destruct (hm !! a); [by eexists|done]. }
  pose proof (sweep_same_roots _ _ _ _ Hsw) as [Hsame Hcoll].
  exists (tick_collections vm'), (filter (marked hm) l).
  split.
  { unfold collectGarbage. rewrite Hmr. cbn [mbind option_bind].
    by rewrite Hsw. }
  simpl. split; [exact Hl'|]. split; [apply sublist_filter|].
  split.
  { intros a. rewrite list_elem_of_filter, Hiff. split; [tauto|]. auto. }
  split; [exact Hlive|]. split; [|split; [exact Hsame|by rewrite Hcoll]].
  intros a o' Ho'.
  assert (a ∈ l) as Hal.
  { apply Hrl. apply Hlive. by rewrite Ho'. }
  specialize (Hin a Hal). destruct (decide (marked hm a)); [|congruence].
  destruct Hin as (om & o2 & Hom & Ho2 & Hb & Hf).
  rewrite Ho' in Ho2. injection Ho2 as <-.
  destruct (mark_ext_lookup_inv _ _ _ _ Hext Hom) as (o & Ho & Hb' & _).
  exists o. split; [done|]. split; [congruence|].
  unfold is_marked. rewrite Hf, land_clear_same. done.
Qed.

Lemma same_roots_root vm vm' a : same_roots vm vm' → root vm' a ↔ root vm a.
Proof.
  intros (_ & Hgs & Hfib & Hglob & Hpin & Hnp & _).
  unfold root. by rewrite Hgs, Hfib, Hglob, Hpin, Hnp.
Qed.

(** Reachability is the same before and after a collection. *)
Lemma collectGarbage_reachable vm vm' :
  (∀ a, is_Some (heap vm' !! a) ↔ reachable vm a) →
  (∀ a o', heap vm' !! a = Some o' →
     ∃ o, heap vm !! a = Some o ∧ body o' = body o ∧ is_marked o' = false) →
  same_roots vm vm' →
  ∀ a, reachable vm' a ↔ reachable vm a.
Proof.
  intros Hlive Hsurv Hsame a. unfold reachable. split.
  - intros (r & Hroot_r & Hrtc). exists r.
    split; [by apply (same_roots_root vm vm')|].
    clear Hroot_r. induction Hrtc as [|x y z Hxy _ IH]; [constructor|].
    econstructor; [|exact IH].
    destruct Hxy as (o' & Hx' & He).
    destruct (Hsurv x o' Hx') as (o & Hx & Hb & _).
    exists o. split; [done|]. by rewrite <- Hb.
  - intros (r & Hroot_r & Hrtc). exists r.
    split; [by apply (same_roots_root vm vm')|].
    apply (rtc_transfer (edge (heap vm)) (edge (heap vm')) (reachable vm) r a);
      [| |exact Hrtc].
    { exists r. split; [done|constructor]. }
    intros y w Hy Hyw. split.
    + pose proof Hy as Hy0. apply Hlive in Hy0 as [o' Hy'].
      destruct (Hsurv y o' Hy') as (o & Hy1 & Hb & _).
      eapply edge_same_body; [exact Hy1|exact Hy'|exact Hb|exact Hyw].
    + destruct Hy as (r' & Hr' & Hrtc'). exists r'. split; [done|].
      eapply rtc_r; [exact Hrtc'|exact Hyw].
Qed.

(** C1.  Started in a state ready for a collection, [collectGarbage]
    returns, and the object list it leaves holds exactly the objects
    that are reachable from the roots (the defined globals, the pin
    stack, the frames' functions, the value stack below [stackSize])
    along the edges of the mark traversal; every object of the old list
    that is not reachable is unlinked and freed.  The objects reachable
    in the new state are the same ones. *)
Theorem collectGarbage_keeps_exactly_the_reachable vm l :
  gc_ready vm l →
  ∃ vm' l',
    collectGarbage vm = Some vm' ∧
    object_list (heap vm') (first vm') l' ∧
    (∀ a, a ∈ l' ↔ reachable vm a) ∧
    (∀ a, a ∈ l → ¬ reachable vm a → (a ∉ l') ∧ (heap vm' !! a = None)) ∧
    (∀ a, reachable vm' a ↔ reachable vm a).
Proof.
  intros Hready.
  destruct (collectGarbage_spec vm l Hready) as
    (vm' & l' & Hgc & Hl' & _ & Hmem & Hlive & Hsurv & Hsame & _).
  exists vm', l'. split; [done|]. split; [done|]. split; [done|]. split.
  - intros a Hal Hnr. split; [by rewrite Hmem|].
    destruct (heap vm' !! a) eqn:Ha; [|done].
    exfalso. apply Hnr, Hlive. by rewrite Ha.
  - by apply collectGarbage_reachable.
Qed.

(** *** Collections keep the state ready for the next one *)

Lemma valid_ptr_mono h h' p :
  (∀ x, is_Some (h !! x) → is_Some (h' !! x)) → valid_ptr h p → valid_ptr h' p.
Proof. intros Hsub. destruct p; simpl; auto. Qed.

Lemma valid_value_mono h h' v :
  (∀ x, is_Some (h !! x) → is_Some (h' !! x)) →
  valid_value h v → valid_value h' v.
Proof. intros Hsub. destruct v; simpl; eauto using valid_ptr_mono. Qed.

Lemma obj_ok_mono h h' o :
  (∀ x, is_Some (h !! x) → is_Some (h' !! x)) → obj_ok h o → obj_ok h' o.
Proof.
  intros Hsub. unfold obj_ok. destruct (body o) as [mc sc ms|bc cs n| |]; auto.
  - intros [Hmc Hms]. split.
    + destruct Hmc; [by left|right]. by eapply valid_ptr_mono.
    + eapply Forall_impl; [exact Hms|]. intros i. simpl.
      destruct (ms !! i) as [[| |f]|]; simpl; auto.
      by apply valid_ptr_mono.
  - intros Hcs. eapply Forall_impl; [exact Hcs|]. intros i. simpl.
    destruct (nth_Z cs i) as [v|]; simpl; auto.
    by apply valid_value_mono.
Qed.

(** An object whose successors are all in [h'] is well formed there. *)
Lemma obj_ok_successors h h' a o o' :
  h !! a = Some o → body o' = body o → obj_ok h o →
  (∀ b, edge h a b → is_Some (h' !! b)) → obj_ok h' o'.
Proof.
  intros Ha Hb Hok Hedge. unfold obj_ok in *. rewrite Hb.
  destruct (body o) as [mc sc ms|bc cs n| |] eqn:Hbody; auto.
  - destruct Hok as [Hmc Hms]. split.
    + destruct mc as [b|]; [right|by left]. simpl. apply Hedge.
      exists o. rewrite Hbody. split; [done|]. by left.
    + rewrite Forall_forall in Hms. apply Forall_forall. intros i Hi.
      specialize (Hms i Hi).
      destruct (ms !! i) as [[| |[f|]]|] eqn:Hmi; simpl in *; try done.
      apply Hedge. exists o. rewrite Hbody. split; [done|]. right.
      exists i. apply elem_of_seqZ in Hi. split; [lia|done].
  - rewrite Forall_forall in Hok. apply Forall_forall. intros i Hi.
    specialize (Hok i Hi).
    destruct (nth_Z cs i) as [[| | | | |[f|]]|] eqn:Hci; simpl in *; try done.
    apply Hedge. exists o. rewrite Hbody. split; [done|].
    exists i. apply elem_of_seqZ in Hi. split; [lia|done].
Qed.

(** Root slots that were valid stay valid when every root survives. *)
Lemma roots_ok_survive vm vm' :
  same_roots vm vm' → roots_ok vm →
  (∀ b, root vm b → is_Some (heap vm' !! b)) → roots_ok vm'.
Proof.
  intros (_ & Hgs & Hfib & Hglob & Hpin & Hnp & _) (Hg & Hp & Hf & Hs) Hlive.
  unfold roots_ok. rewrite Hgs, Hfib, Hglob, Hpin, Hnp.
  rewrite Forall_forall in Hg, Hp, Hf, Hs.
  split; [|split; [|split]]; apply Forall_forall; intros i Hi.
  - specialize (Hg i Hi).
    destruct (globals vm !! i) as [[| | | | |[b|]]|] eqn:Hgi;
      simpl in *; try done.
    apply Hlive. left. exists i. apply elem_of_seqZ in Hi. split; [lia|done].
  - specialize (Hp i Hi).
    destruct (pinned vm !! i) as [[| | | | |[b|]]|] eqn:Hgi;
      simpl in *; try done.
    apply Hlive. right. left. exists i.
    apply elem_of_seqZ in Hi. split; [lia|done].
  - specialize (Hf i Hi).
    destruct (frames (fiber vm) !! i) as [fr|] eqn:Hfi; simpl in *; [|done].
    destruct (fn fr) as [b|] eqn:Hfn; simpl in *; [|done].
    apply Hlive. right. right. left. exists i, fr.
    apply elem_of_seqZ in Hi. split; [lia|done].
  - specialize (Hs i Hi).
    destruct (stack (fiber vm) !! i) as [[| | | | |[b|]]|] eqn:Hgi;
      simpl in *; try done.
    apply Hlive. right. right. right. exists i.
    apply elem_of_seqZ in Hi. split; [lia|done].
Qed.

Lemma collectGarbage_ready vm l :
  gc_ready vm l →
  ∃ vm' l',
    collectGarbage vm = Some vm' ∧
    gc_ready vm' l' ∧
    same_roots vm vm' ∧
    (∀ a, reachable vm' a ↔ reachable vm a) ∧
    (∀ a o, reachable vm a → heap vm !! a = Some o →
            ∃ o', heap vm' !! a = Some o' ∧ body o' = body o).
Proof.
  intros Hready.
  destruct (collectGarbage_spec vm l Hready) as
    (vm' & l' & Hgc & Hl' & _ & Hmem & Hlive & Hsurv & Hsame & _).
  destruct Hready as (Hl & Hdom & Hok & Hu & Hr).
  exists vm', l'. split; [done|].
  split; [|split; [done|split; [by apply collectGarbage_reachable|]]].
  - split; [done|]. split.
    { apply set_eq. intros a.
      by rewrite elem_of_dom, elem_of_list_to_set, Hlive, Hmem. }
    split.
    { intros a o' Ho'. destruct (Hsurv a o' Ho') as (o & Ho & Hb & _).
      apply (obj_ok_successors (heap vm) (heap vm') a o o' Ho Hb (Hok a o Ho)).
      intros b Hedge. apply Hlive.
      assert (reachable vm a) as (r & Hroot & Hrtc).
      { apply Hlive. by rewrite Ho'. }
      exists r. split; [done|]. eapply rtc_r; [exact Hrtc|exact Hedge]. }
    split.
    { intros a o' Ho'. by destruct (Hsurv a o' Ho') as (_ & _ & _ & ?). }
    apply (roots_ok_survive vm vm' Hsame Hr).
    intros b Hb. apply Hlive. exists b. split; [done|constructor].
  - intros a o Ha Ho. apply Hlive in Ha as [o' Ho'].
    destruct (Hsurv a o' Ho') as (o0 & Ho0 & Hb & _).
    exists o'. split; [done|]. congruence.
Qed.

(** *** Allocation and the constructors keep the state ready *)

Lemma malloc_addr_fresh (h : gmap positive Obj) : h !! malloc_addr h = None.
Proof. apply not_elem_of_dom. unfold malloc_addr. apply is_fresh. Qed.

Lemma root_valid vm b : roots_ok vm → root vm b → is_Some (heap vm !! b).
Proof.
  intros (Hg & Hp & Hf & Hs). rewrite Forall_forall in Hg, Hp, Hf, Hs.
  intros [(i & Hi & Hr)|[(i & Hi & Hr)|[(i & fr & Hi & Hr & Hfn)|(i & Hi & Hr)]]].
  - specialize (Hg i ltac:(apply elem_of_seqZ; lia)). by rewrite Hr in Hg.
  - specialize (Hp i ltac:(apply elem_of_seqZ; lia)). by rewrite Hr in Hp.
  - specialize (Hf i ltac:(apply elem_of_seqZ; lia)). rewrite Hr in Hf.
    simpl in Hf. by rewrite Hfn in Hf.
  - specialize (Hs i ltac:(apply elem_of_seqZ; lia)). by rewrite Hr in Hs.
Qed.

Lemma edge_valid h a b : heap_ok h → edge h a b → is_Some (h !! b).
Proof.
  intros Hok (o & Ha & He). specialize (Hok a o Ha). simpl in Hok.
  unfold obj_ok in Hok. destruct (body o) as [mc sc ms|bc cs n| |]; try done.
  - destruct Hok as [Hmc Hms]. destruct He as [->|(i & Hi & Hmi)].
    + by destruct Hmc.
    + rewrite Forall_forall in Hms.
      specialize (Hms i ltac:(apply elem_of_seqZ; lia)). by rewrite Hmi in Hms.
  - destruct He as (i & Hi & Hci). rewrite Forall_forall in Hok.
    specialize (Hok i ltac:(apply elem_of_seqZ; lia)). by rewrite Hci in Hok.
Qed.

Lemma reachable_is_Some vm a :
  heap_ok (heap vm) → roots_ok vm → reachable vm a → is_Some (heap vm !! a).
Proof.
  intros Hok Hr (r & Hroot & Hrtc).
  apply rtc_inv_r in Hrtc as [->|(y & _ & Hya)].
  - by apply root_valid.
  - by eapply edge_valid.
Qed.

Lemma allocate_ready vm l size :
  gc_ready vm l →
  ∃ vm' l',
    allocate vm size = Some (vm', malloc_addr (heap vm'), malloc_bytes size) ∧
    gc_ready vm' l' ∧
    same_roots vm vm' ∧
    (∀ a, reachable vm' a ↔ reachable vm a) ∧
    (∀ a o, reachable vm a → heap vm !! a = Some o →
            ∃ o', heap vm' !! a = Some o' ∧ body o' = body o).
Proof.
  intros Hready. unfold allocate.
  set (vm1 := set_totalAllocated (size_t (totalAllocated vm + size)) vm).
  destruct (nextGC vm1 <? totalAllocated vm1).
  - destruct (collectGarbage_ready vm1 l Hready) as
      (vmc & l' & Hgc & Hready' & Hsame & Hreach & Hbody).
    rewrite Hgc. cbn [mbind option_bind].
    eexists _, l'. split; [reflexivity|]. split; [exact Hready'|].
    split; [exact Hsame|]. split; [exact Hreach|exact Hbody].
  - cbn [mbind option_bind].
    eexists _, l. split; [reflexivity|]. split; [exact Hready|].
    split; [by repeat split|]. split; [done|]. intros a o _ Ho. by exists o.
Qed.

Lemma initObj_ready vm l a b :
  gc_ready vm l → heap vm !! a = None →
  obj_ok (heap vm) (mkObj 0 (first vm) b) →
  gc_ready (initObj vm a b) (a :: l) ∧
  same_roots vm (initObj vm a b) ∧
  (∀ x, reachable vm x → reachable (initObj vm a b) x) ∧
  (∀ x o, heap vm !! x = Some o → heap (initObj vm a b) !! x = Some o).
Proof.
  intros (Hl & Hdom & Hok & Hu & Hr) Ha Hnew.
  assert (∀ x o, heap vm !! x = Some o →
            heap (initObj vm a b) !! x = Some o) as Hold.
  { intros x o Hx. simpl. rewrite lookup_insert_ne; [done|]. congruence. }
  assert (∀ x, is_Some (heap vm !! x) →
            is_Some (heap (initObj vm a b) !! x)) as Hsub.
  { intros x [o Hx]. rewrite (Hold x o Hx). by eexists. }
  assert (same_roots vm (initObj vm a b)) as Hsame by (by repeat split).
  split; [|split; [done|split; [|done]]].
  - split.
    { simpl. split; [done|]. rewrite lookup_insert_eq. simpl.
      eapply object_list_same; [|exact Hl]. intros x Hx.
      rewrite lookup_insert_ne; [done|]. intros ->.
      destruct (object_list_lookup _ _ _ _ Hl Hx) as [? ?]. congruence. }
    split; [simpl; by rewrite dom_insert_L, Hdom|].
    split.
    { intros x o Hx. simpl in Hx.
      apply lookup_insert_Some in Hx as [[<- <-]|[Hne Hx]].
      - by apply (obj_ok_mono (heap vm)).
      - apply (obj_ok_mono (heap vm)); [done|]. by apply (Hok x o). }
    split.
    { intros x o Hx. simpl in Hx.
      apply lookup_insert_Some in Hx as [[<- <-]|[Hne Hx]].
      - reflexivity.
      - by apply (Hu x o). }
    apply (roots_ok_survive vm _ Hsame Hr).
    intros r Hroot. apply Hsub. by apply root_valid.
  - intros x (r & Hroot & Hrtc). exists r.
    split; [by apply (same_roots_root vm _ r Hsame)|].
    apply (rtc_transfer (edge (heap vm)) _ (λ _, True) r x); [done| |done].
    intros y w _ (o & Hy & He). split; [|done]. exists o. split; [|done].
    by apply Hold.
Qed.

Lemma pinObj_ready vm l v vm' :
  gc_ready vm l → valid_value (heap vm) v → pinObj vm v = Some vm' →
  gc_ready vm' l ∧ heap vm' = heap vm ∧
  numPinned vm' = numPinned vm + 1 ∧
  pinned vm' !! numPinned vm = Some v ∧
  (∀ x, reachable vm x → reachable vm' x) ∧
  (∀ b, v = VAL_OBJ (Some b) → 0 ≤ numPinned vm → reachable vm' b).
Proof.
  intros (Hl & Hdom & Hok & Hu & Hg & Hp & Hf & Hs) Hv. unfold pinObj.
  destruct (numPinned vm <? MAX_PINNED - 1); [|done]. intros [= <-]. simpl.
  split; [|split; [done|split; [done|split; [by rewrite lookup_insert_eq|]]]].
  - split; [done|]. split; [done|]. split; [done|]. split; [done|].
    split; [done|]. split; [|done]. simpl.
    rewrite Forall_forall in Hp. apply Forall_forall. intros j Hj.
    apply elem_of_seqZ in Hj.
    destruct (decide (j = numPinned vm)) as [->|Hne].
    + by rewrite lookup_insert_eq.
    + rewrite lookup_insert_ne by done. apply Hp. apply elem_of_seqZ. lia.
  - split.
    + intros x (r & Hroot & Hrtc). exists r. split; [|done].
      destruct Hroot as [?|[(j & Hj & Hr)|[?|?]]];
        [by left| |by right; right; left|by right; right; right].
      right. left. exists j. simpl. split; [lia|].
      rewrite lookup_insert_ne; [done|lia].
    + intros b -> Hn. exists b. split; [|constructor].
      right. left. exists (numPinned vm). simpl.
      split; [lia|]. by rewrite lookup_insert_eq.
Qed.

Lemma unpinObj_ready vm l v vm' :
  gc_ready vm l → unpinObj vm v = Some vm' →
  gc_ready vm' l ∧ heap vm' = heap vm.
Proof.
  intros (Hl & Hdom & Hok & Hu & Hg & Hp & Hf & Hs). unfold unpinObj.
  destruct (pinned vm !! (numPinned vm - 1)) as [top|]; [|done]. simpl.
  destruct (decide (type_of top = type_of v)); [|done]. intros [= <-].
  split; [|done].
  split; [done|]. split; [done|]. split; [done|]. split; [done|].
  split; [done|]. split; [|done]. simpl.
  rewrite Forall_forall in Hp. apply Forall_forall. intros j Hj.
  apply elem_of_seqZ in Hj. apply Hp. apply elem_of_seqZ. lia.
Qed.

Lemma fold_insert_lookup (idx : list Z) (m : gmap Z Method) (i : Z) :
  fold_left (λ m i, <[i := METHOD_NONE]> m) idx m !! i
  = if decide (i ∈ idx) then Some METHOD_NONE else m !! i.
Proof.
  revert m. induction idx as [|j idx IH]; intros m.
  - destruct (decide (i ∈ [])) as [Hin|_]; [|done].
    by apply elem_of_nil in Hin.
  - cbn [fold_left]. rewrite IH.
    destruct (decide (i ∈ idx)) as [Hin|Hnin];
      destruct (decide (i ∈ j :: idx)) as [Hin'|Hnin']; try done.
    + exfalso. apply Hnin'. by right.
    + apply elem_of_cons in Hin' as [->|?]; [|done].
      by rewrite lookup_insert_eq.
    + rewrite lookup_insert_ne; [done|]. intros ->. apply Hnin'. by left.
Qed.

(** A fresh method table has [METHOD_NONE] in each of its slots. *)
Lemma no_methods_lookup i :
  0 ≤ i < MAX_SYMBOLS → no_methods !! i = Some METHOD_NONE.
Proof.
  intros Hi. unfold no_methods. rewrite fold_insert_lookup.
  rewrite decide_True; [done|]. apply elem_of_seqZ. lia.
Qed.

Lemma newSingleClass_ready vm l mc sc :
  gc_ready vm l →
  (mc = None ∨ ∃ m, mc = Some m ∧ reachable vm m) →
  ∃ vm' l' c nxt,
    newSingleClass vm mc sc = Some (vm', c) ∧
    gc_ready vm' l' ∧
    same_roots vm vm' ∧
    heap vm' !! c = Some (mkObj 0 nxt (ObjClass mc sc no_methods)) ∧
    (∀ a, reachable vm a → reachable vm' a) ∧
    (∀ a o, reachable vm a → heap vm !! a = Some o →
            ∃ o', heap vm' !! a = Some o' ∧ body o' = body o).
Proof.
  intros Hready Hmc. unfold newSingleClass.
  destruct (allocate_ready vm l sizeof_ObjClass Hready) as
    (vm1 & l1 & Halloc & Hready1 & Hsame1 & Hreach1 & Hbody1).
  rewrite Halloc. cbn [mbind option_bind].
  set (c := malloc_addr (heap vm1)).
  pose proof (malloc_addr_fresh (heap vm1)) as Hfresh. fold c in Hfresh.
  destruct (initObj_ready vm1 l1 c (ObjClass mc sc no_methods) Hready1 Hfresh)
    as (Hready2 & Hsame2 & Hreach2 & Hold2).
  { unfold obj_ok. simpl. split.
    - destruct Hmc as [->|(m & -> & Hm)]; [by left|right]. simpl.
      destruct Hready1 as (_ & _ & Hok1 & _ & Hr1).
      apply (reachable_is_Some vm1 m Hok1 Hr1). by apply Hreach1.
    - apply Forall_forall. intros i Hi. apply elem_of_seqZ in Hi.
      rewrite no_methods_lookup by lia. done. }
  eexists _, (c :: l1), c, (first vm1). split; [reflexivity|].
  split; [exact Hready2|]. split.
  { unfold same_roots in *. simpl in *. exact Hsame1. }
  split; [simpl; by rewrite lookup_insert_eq|]. split.
  - intros a Ha. apply Hreach2. by apply Hreach1.
  - intros a o Ha Ho. destruct (Hbody1 a o Ha Ho) as (o' & Ho' & Hb).
    exists o'. split; [by apply Hold2|done].
Qed.

Lemma for_each_total {St : Type} (body : Z → St → option St) idx :
  (∀ i s, i ∈ idx → is_Some (body i s)) →
  ∀ s, is_Some (for_each body idx s).
Proof.
  induction idx as [|i idx IH]; intros Hbody s; simpl; [by eexists|].
  destruct (Hbody i s ltac:(left)) as [s' ->].
  apply IH. intros j s0 Hj. apply Hbody. by right.
Qed.

(** [newClass] in a state ready for a collection, with room on the pin
    stack and a live class (or none) as superclass: both allocations
    succeed, the class gets the new metaclass, and the metaclass has
    neither metaclass nor superclass. *)
Lemma newClass_spec vm l superclass :
  gc_ready vm l →
  0 ≤ numPinned vm < MAX_PINNED - 1 →
  (superclass = None ∨
   ∃ s os smc ssc sms, superclass = Some s ∧ reachable vm s ∧
                        heap vm !! s = Some os ∧
                        body os = ObjClass smc ssc sms) →
  ∃ vm' c m oc om cms mms,
    newClass vm superclass = Some (vm', c) ∧
    heap vm' !! c = Some oc ∧ body oc = ObjClass (Some m) superclass cms ∧
    heap vm' !! m = Some om ∧ body om = ObjClass None None mms.
Proof.
  intros Hready Hnp Hsuper. unfold newClass.
  destruct (newSingleClass_ready vm l None None Hready (or_introl eq_refl))
    as (vm1 & l1 & m & nxt1 & Hnew1 & Hready1 & Hsame1 & Hm1 & Hreach1 & Hbody1).
  rewrite Hnew1. cbn [mbind option_bind].
  assert (numPinned vm1 = numPinned vm) as Hnp1 by apply Hsame1.
  assert (∃ vm2, pinObj vm1 (OBJ_VAL (Some m)) = Some vm2) as [vm2 Hpin].
  { unfold pinObj. rewrite Hnp1.
    destruct (Z.ltb_spec (numPinned vm) (MAX_PINNED - 1)); [|lia].
    by eexists. }
  rewrite Hpin. cbn [mbind option_bind].
  destruct (pinObj_ready vm1 l1 (OBJ_VAL (Some m)) vm2 Hready1) as
    (Hready2 & Hheap2 & Hnp2 & Htop2 & Hreach2 & Hroot2); [|done|].
  { simpl. by rewrite Hm1. }
  destruct (newSingleClass_ready vm2 l1 (Some m) superclass Hready2) as
    (vm3 & l3 & c & nxt3 & Hnew3 & Hready3 & Hsame3 & Hc3 & Hreach3 & Hbody3).
  { right. exists m. split; [done|]. apply Hroot2; [done|lia]. }
  rewrite Hnew3. cbn [mbind option_bind].
  assert (∃ vm4, unpinObj vm3 (OBJ_VAL (Some m)) = Some vm4) as [vm4 Hunpin].
  { unfold unpinObj.
    destruct Hsame3 as (_ & _ & _ & _ & Hpinned3 & Hnp3 & _).
    rewrite Hpinned3, Hnp3, Hnp2.
    replace (numPinned vm1 + 1 - 1) with (numPinned vm1) by lia.
    rewrite Htop2. cbn [mbind option_bind].
    rewrite decide_True by done. by eexists. }
  rewrite Hunpin. cbn [mbind option_bind].
  destruct (unpinObj_ready vm3 l3 _ vm4 Hready3 Hunpin) as [Hready4 Hheap4].
  assert (∃ om, heap vm3 !! m = Some om ∧
                body om = ObjClass None None no_methods) as (om & Hm3 & Hbm).
  { destruct (Hbody3 m (mkObj 0 nxt1 (ObjClass None None no_methods)))
      as (om & Hom & Hb).
    - apply Hroot2; [done|lia].
    - by rewrite Hheap2.
    - by exists om. }
  assert (m ≠ c) as Hmc.
  { intros ->. rewrite Hc3 in Hm3. injection Hm3 as <-. done. }
  destruct Hsuper as [->|(s & os & smc & ssc & sms & -> & Hs & Hos & Hbs)].
  - eexists vm4, c, m, _, om, _, _. split; [reflexivity|].
    rewrite Hheap4. split; [exact Hc3|]. split; [reflexivity|].
    split; [exact Hm3|exact Hbm].
  - assert (∃ os3, heap vm3 !! s = Some os3 ∧ body os3 = ObjClass smc ssc sms)
      as (os3 & Hos3 & Hbs3).
    { destruct (Hbody1 s os Hs Hos) as (os1 & Hos1 & Hb1).
      destruct (Hbody3 s os1) as (os3 & Hos3 & Hb3).
      - apply Hreach2. by apply Hreach1.
      - by rewrite Hheap2.
      - exists os3. split; [done|]. congruence. }
    rewrite Hheap4, Hos3, Hc3. cbn [mbind option_bind]. rewrite Hbs3.
    cbn [body].
    destruct (for_each_total
                (λ i (ms : gmap Z Method), x ← sms !! i; Some (<[i := x]> ms))
                (seqZ 0 MAX_SYMBOLS)) with (s := no_methods) as [cms Hcms].
    { intros i ms Hi. destruct Hready3 as (_ & _ & Hok3 & _).
      specialize (Hok3 s os3 Hos3). simpl in Hok3. unfold obj_ok in Hok3.
      rewrite Hbs3 in Hok3. destruct Hok3 as [_ Hsms].
      rewrite Forall_forall in Hsms. specialize (Hsms i Hi).
      destruct (sms !! i); [by eexists|done]. }
    unfold for_range. rewrite Hcms. cbn [mbind option_bind].
    eexists _, c, m, _, om, cms, _. split; [reflexivity|].
    cbn [heap set_heap]. rewrite lookup_insert_eq. split; [reflexivity|].
    split; [reflexivity|]. rewrite lookup_insert_ne by done.
    split; [exact Hm3|exact Hbm].
Qed.

(** *** Allocation *)

(** C7.  In a state ready for a collection, [allocate] returns; a
    collection runs during the call if and only if [totalAllocated],
    once the new size is added, exceeds [nextGC]; then exactly one
    collection runs and [nextGC] becomes [totalAllocated * 3 / 2] with
    the [totalAllocated] that the sweep left; otherwise [nextGC] is
    unchanged. *)
Theorem allocate_collects_iff_over_nextGC vm l size :
  gc_ready vm l →
  ∃ vm' a chunk,
    allocate vm size = Some (vm', a, chunk) ∧
    (collections vm' = S (collections vm) ↔
     nextGC vm < size_t (totalAllocated vm + size)) ∧
    (nextGC vm < size_t (totalAllocated vm + size) →
     ∃ vmc,
       collectGarbage
         (set_totalAllocated (size_t (totalAllocated vm + size)) vm)
       = Some vmc ∧
       collections vm' = S (collections vm) ∧
       totalAllocated vm' = totalAllocated vmc ∧
       nextGC vm' = size_t (totalAllocated vmc * 3) / 2) ∧
    (¬ nextGC vm < size_t (totalAllocated vm + size) →
     collections vm' = collections vm ∧
     nextGC vm' = nextGC vm ∧
     totalAllocated vm' = size_t (totalAllocated vm + size)).
Proof.
  intros Hready. unfold allocate.
  set (vm1 := set_totalAllocated (size_t (totalAllocated vm + size)) vm).
  change (nextGC vm1) with (nextGC vm).
  change (totalAllocated vm1) with (size_t (totalAllocated vm + size)).
  destruct (Z.ltb_spec (nextGC vm) (size_t (totalAllocated vm + size)))
    as [Hlt|Hge].
  - destruct (collectGarbage_spec vm1 l Hready) as
      (vmc & l' & Hgc & _ & _ & _ & _ & _ & _ & Hcoll).
    rewrite Hgc. cbn [mbind option_bind].
    eexists _, _, _. split; [reflexivity|]. simpl.
    split; [by rewrite Hcoll|]. split; [|lia].
    intros _. exists vmc. by rewrite Hcoll.
  - cbn [mbind option_bind].
    eexists _, _, _. split; [reflexivity|]. simpl.
    split; [split; lia|]. split; [lia|]. done.
Qed.

End Mark.

(** ** The interpreter's instructions *)

Section Interp.
Context {P : Platform}.

Lemma nth_Z_fetch (bytecode code : list Z) (i k : Z) (b : Z) :
  0 ≤ i → 0 ≤ k →
  take (length code) (drop (Z.to_nat i) bytecode) = code →
  code !! Z.to_nat k = Some b →
  nth_Z bytecode (i + k) = Some b.
Proof.
  intros Hi Hk Htake Hb. unfold nth_Z.
  assert ((i + k <? 0) = false) as Hlt.
  { apply Z.ltb_ge. lia. }
  rewrite Hlt. rewrite <- Htake in Hb.
  apply lookup_take_Some in Hb as [Hb _].
  rewrite lookup_drop in Hb. rewrite <- Hb. f_equal.
  by apply Z2Nat.inj_add.
Qed.

(** Reading the opcode or an operand: [k] bytes of the instruction have
    been read, the next one is [b]. *)
Lemma READ_ARG_fetch vm fr code k b :
  fetches vm fr code → 0 ≤ k →
  code !! Z.to_nat k = Some b →
  READ_ARG (advance vm fr k) (numFrames (fiber vm) - 1)
  = Some (b, advance vm fr (k + 1)).
Proof.
  intros (Hfr & f & o & bc & cs & n & Hf & Ho & Hb & Hip & Htake) Hk Hcode.
  unfold READ_ARG, frame_fn, add_ip, advance. simpl.
  rewrite lookup_insert_eq. simpl. rewrite Hf. simpl. rewrite Ho. simpl.
  rewrite Hb. simpl.
  rewrite (nth_Z_fetch bc code (ip fr) k b) by done. simpl.
  rewrite insert_insert_eq, <- Hf.
  replace (ip fr + k + 1) with (ip fr + (k + 1)) by lia. reflexivity.
Qed.

Lemma advance_0 vm fr :
  frames (fiber vm) !! (numFrames (fiber vm) - 1) = Some fr →
  advance vm fr 0 = vm.
Proof.
  intros Hfr. unfold advance. rewrite Z.add_0_r.
  destruct fr as [i f s]. simpl. rewrite insert_id by done.
  by destruct vm as [? ? [] ? ? ? ? ? ? ? ? ? ? ? ? ? ?].
Qed.

(** A turn of the loop on an instruction of one byte. *)
Lemma step_fetch vm fr instruction rest :
  fetches vm fr (instruction :: rest) →
  step vm = exec instruction (numFrames (fiber vm) - 1) (advance vm fr 1).
Proof.
  intros Hf. unfold step.
  pose proof (READ_ARG_fetch vm fr _ 0 instruction Hf ltac:(lia) eq_refl) as Hr.
  rewrite advance_0 in Hr by apply Hf. by rewrite Hr.
Qed.

Lemma run_add n : ∀ m vm vm',
  run n vm = Some (Running vm') → run (n + m) vm = run m vm'.
Proof.
  induction n as [|n IH]; intros m vm vm' Hrun; simpl in *.
  - by injection Hrun as ->.
  - destruct (step vm) as [[vm1|r vm1|vm1]|]; try done. by apply IH.
Qed.

(** C2.  [END] in a frame that is not the outermost one pops the frame,
    takes the top of the value stack as the result, writes it at
    [stackStart] and cuts the stack to [stackStart + 1]; [END] in the
    outermost frame makes the loop, and so [interpret], return that
    result. *)
Theorem END_returns_the_top_of_the_stack vm fr rest result :
  fetches vm fr (CODE_END :: rest) →
  stack (fiber vm) !! (stackSize (fiber vm) - 1) = Some result →
  (numFrames (fiber vm) ≠ 1 →
   ∃ vm', step vm = Some (Running vm') ∧
          numFrames (fiber vm') = numFrames (fiber vm) - 1 ∧
          stack (fiber vm') = <[stackStart fr := result]> (stack (fiber vm)) ∧
          stack (fiber vm') !! stackStart fr = Some result ∧
          stackSize (fiber vm') = stackStart fr + 1 ∧
          heap vm' = heap vm) ∧
  (numFrames (fiber vm) = 1 →
   ∃ vm', step vm = Some (Returned result vm') ∧
          numFrames (fiber vm') = 0 ∧
          (∀ gas, run (S gas) vm = Some (Returned result vm')) ∧
          (∀ vm0 fn0 n gas,
             interpret n vm0 fn0 = Some (Running vm) →
             interpret (n + S gas) vm0 fn0 = Some (Returned result vm'))).
Proof.
  intros Hf Htop. rewrite (step_fetch vm fr _ _ Hf).
  unfold exec. change (switch CODE_END) with case_END.
  unfold exec_END, POP. simpl. rewrite Htop. simpl.
  split; intros Hn.
  - destruct (Z.eqb_spec (numFrames (fiber vm) - 1) 0) as [?|_]; [lia|].
    rewrite lookup_insert_eq. simpl.
    eexists. split; [reflexivity|]. simpl.
    by rewrite lookup_insert_eq.
  - destruct (Z.eqb_spec (numFrames (fiber vm) - 1) 0) as [_|?]; [|lia].
    eexists. split; [reflexivity|]. simpl. split; [lia|].
    assert (∀ gas, run (S gas) vm = Some (Returned result
              (set_frames (<[numFrames (fiber vm) - 1 :=
                               mkCallFrame (ip fr + 1) (fn fr) (stackStart fr)]>
                             (frames (fiber vm)))
                 (numFrames (fiber vm) - 1)
                 (set_stack (stack (fiber vm)) (stackSize (fiber vm) - 1)
                    (advance vm fr 1))))) as Hrun.
    { intros gas. simpl. rewrite (step_fetch vm fr _ _ Hf).
      unfold exec. change (switch CODE_END) with case_END.
      unfold exec_END, POP. simpl. rewrite Htop. simpl.
      destruct (Z.eqb_spec (numFrames (fiber vm) - 1) 0) as [_|?]; [|lia].
      reflexivity. }
    split; [exact Hrun|].
    intros vm0 fn0 n gas Hint. unfold interpret in *.
    rewrite (run_add n (S gas) _ vm Hint). apply Hrun.
Qed.

(** What [JUMP_IF] does, whatever [AS_BOOL] is. *)
Lemma step_JUMP_IF vm fr offset rest condition :
  fetches vm fr (CODE_JUMP_IF :: offset :: rest) →
  stack (fiber vm) !! (stackSize (fiber vm) - 1) = Some condition →
  step vm =
    Some (Running
            (set_stack (stack (fiber vm)) (stackSize (fiber vm) - 1)
               (advance vm fr
                  (if AS_BOOL condition then 2 else 2 + offset)))).
Proof.
  intros Hf Htop. rewrite (step_fetch vm fr _ _ Hf).
  unfold exec. change (switch CODE_JUMP_IF) with case_JUMP_IF.
  rewrite (READ_ARG_fetch vm fr _ 1 offset Hf) by done. simpl.
  unfold POP. simpl. rewrite Htop. simpl.
  destruct (AS_BOOL condition); simpl; [done|].
  unfold add_ip. simpl. rewrite lookup_insert_eq. simpl.
  rewrite insert_insert_eq.
  replace (ip fr + (1 + 1) + offset) with (ip fr + (2 + offset)) by lia.
  reflexivity.
Qed.

(** C6.  [JUMP_IF] pops the condition and adds the offset to [ip] if
    and only if [AS_BOOL] answers zero for it; the code looks at
    nothing else.  Where [AS_BOOL] compares the tag of the value with
    [VAL_TRUE], every value other than [True] takes the jump, [Null]
    and every number among them, whereas the comment in the code says
    that [False] is the only falsey value. *)
Theorem JUMP_IF_jumps_unless_AS_BOOL vm fr offset rest condition :
  fetches vm fr (CODE_JUMP_IF :: offset :: rest) →
  stack (fiber vm) !! (stackSize (fiber vm) - 1) = Some condition →
  ∃ vm' fr',
    step vm = Some (Running vm') ∧
    stackSize (fiber vm') = stackSize (fiber vm) - 1 ∧
    stack (fiber vm') = stack (fiber vm) ∧
    frames (fiber vm') !! (numFrames (fiber vm') - 1) = Some fr' ∧
    ip fr' = (if AS_BOOL condition then ip fr + 2
              else ip fr + 2 + offset) ∧
    ((∀ v, AS_BOOL v = bool_decide (type_of v = T_TRUE)) →
     ip fr' = (if decide (condition = VAL_TRUE) then ip fr + 2
               else ip fr + 2 + offset) ∧
     (condition = VAL_FALSE → ip fr' = ip fr + 2 + offset) ∧
     (condition = VAL_NULL → ip fr' = ip fr + 2 + offset) ∧
     (∀ n, condition = VAL_NUM n → ip fr' = ip fr + 2 + offset)).
Proof.
  intros Hf Htop. rewrite (step_JUMP_IF vm fr offset rest condition Hf Htop).
  eexists _, _. split; [reflexivity|]. simpl.
  split; [done|]. split; [done|]. rewrite lookup_insert_eq.
  split; [reflexivity|]. simpl.
  split; [destruct (AS_BOOL condition); lia|].
  intros HAS. rewrite HAS.
  split; [|split; [|split]].
  - destruct condition; simpl; try lia.
  - intros ->. simpl. lia.
  - intros ->. simpl. lia.
  - intros n ->. simpl. lia.
Qed.

(** C9.  Neither [PUSH] nor [callFunction] looks at a capacity: on a
    value stack that already holds [STACK_SIZE] values, [NULL] stores its
    value at the index [stackSize] and the loop goes on, and on a frame
    stack that already holds [MAX_FRAMES] frames [callFunction] stores
    the frame at the index [numFrames].  No fatal error is raised. *)
Theorem push_beyond_capacity_is_not_checked vm fr rest
  (STACK_SIZE MAX_FRAMES : Z) callee numArgs :
  fetches vm fr (CODE_NULL :: rest) →
  STACK_SIZE ≤ stackSize (fiber vm) →
  MAX_FRAMES ≤ numFrames (fiber vm) →
  (∃ vm', step vm = Some (Running vm') ∧
          stack (fiber vm') !! stackSize (fiber vm) = Some VAL_NULL ∧
          stackSize (fiber vm') = stackSize (fiber vm) + 1 ∧
          STACK_SIZE < stackSize (fiber vm')) ∧
  (frames (callFunction (fiber vm) callee numArgs) !! numFrames (fiber vm)
   = Some (mkCallFrame 0 callee (stackSize (fiber vm) - numArgs)) ∧
   numFrames (callFunction (fiber vm) callee numArgs)
   = numFrames (fiber vm) + 1 ∧
   MAX_FRAMES < numFrames (callFunction (fiber vm) callee numArgs)).
Proof.
  intros Hf Hs Hn. split.
  - rewrite (step_fetch vm fr _ _ Hf).
    unfold exec. change (switch CODE_NULL) with case_NULL.
    eexists. split; [reflexivity|]. simpl. rewrite lookup_insert_eq.
    split; [done|]. split; [done|]. lia.
  - simpl. rewrite lookup_insert_eq. split; [done|]. split; [done|]. lia.
Qed.

Lemma switch_CALL N :
  0 ≤ N ≤ 10 → switch (CODE_CALL_0 + N) = case_CALL.
Proof.
  intros HN. unfold switch, CODE_CALL_0, CODE_CALL_10, CODE_CONSTANT,
    CODE_NULL, CODE_FALSE, CODE_TRUE, CODE_CLASS, CODE_SUBCLASS,
    CODE_METACLASS, CODE_METHOD, CODE_LOAD_LOCAL, CODE_STORE_LOCAL,
    CODE_LOAD_GLOBAL, CODE_STORE_GLOBAL, CODE_DUP, CODE_POP.
  repeat match goal with
         | |- context [?x =? ?y] =>
             destruct (Z.eqb_spec x y) as [?|_]; [lia|]
         end.
  simpl.
  destruct (Z.leb_spec 14 (14 + N)); [|lia].
  destruct (Z.leb_spec (14 + N) 24); [|lia]. done.
Qed.

(** The dispatch of [CALL_N] up to the primitive's return. *)
Lemma step_CALL_primitive vm fr N symbol rest receiver a o mc sc ms prim :
  0 ≤ N ≤ 10 →
  fetches vm fr (CODE_CALL_0 + N :: symbol :: rest) →
  stack (fiber vm) !! (stackSize (fiber vm) - (N + 1)) = Some receiver →
  getClass vm receiver = Some (Some a) →
  heap vm !! a = Some o → body o = ObjClass mc sc ms →
  ms !! symbol = Some (METHOD_PRIMITIVE prim) →
  step vm =
    '(result, vmp) ← call_primitive prim (advance vm fr 2)
                        (stackSize (fiber vm) - (N + 1));
    if negb (bool_decide (type_of result = T_NO_VALUE)) then
      Some (Running
              (set_stack (<[stackSize (fiber vmp) - (N + 1) := result]>
                            (stack (fiber vmp)))
                         (stackSize (fiber vmp) - (N + 1 - 1)) vmp))
    else Some (Running vmp).
Proof.
  intros HN Hf Hrecv Hclass Ho Hb Hm. rewrite (step_fetch vm fr _ _ Hf).
  unfold exec. rewrite switch_CALL by done. unfold exec_CALL.
  rewrite (READ_ARG_fetch vm fr _ 1 symbol Hf) by done.
  cbn [mbind option_bind].
  replace (CODE_CALL_0 + N - CODE_CALL_0 + 1) with (N + 1) by lia.
  change (stack (fiber (advance vm fr (1 + 1)))) with (stack (fiber vm)).
  change (stackSize (fiber (advance vm fr (1 + 1))))
    with (stackSize (fiber vm)).
  rewrite Hrecv. cbn [mbind option_bind].
  assert (getClass (advance vm fr (1 + 1)) receiver = Some (Some a)) as ->.
  { rewrite <- Hclass. by destruct receiver. }
  cbn [mbind option_bind]. unfold class_at.
  change (heap (advance vm fr (1 + 1))) with (heap vm).
  cbn [mbind option_bind]. rewrite Ho. cbn [mbind option_bind].
  rewrite Hb. cbn [mbind option_bind]. rewrite Hm. cbn [mbind option_bind].
  reflexivity.
Qed.


(** What [METACLASS] does: it pushes the metaclass field of the class on
    top of the stack, [NULL] or not. *)
Lemma step_METACLASS vm fr rest c o mc sc ms :
  fetches vm fr (CODE_METACLASS :: rest) →
  stack (fiber vm) !! (stackSize (fiber vm) - 1) = Some (VAL_OBJ (Some c)) →
  heap vm !! c = Some o → body o = ObjClass mc sc ms →
  ∃ vm', step vm = Some (Running vm') ∧
         PEEK vm' = Some (OBJ_VAL mc) ∧
         stackSize (fiber vm') = stackSize (fiber vm) + 1 ∧
         heap vm' = heap vm.
Proof.
  intros Hf Htop Hc Hb. rewrite (step_fetch vm fr _ _ Hf).
  unfold exec. change (switch CODE_METACLASS) with case_METACLASS.
  unfold PEEK at 1. simpl. rewrite Htop. simpl. unfold class_at. simpl.
  rewrite Hc. simpl. rewrite Hb. simpl.
  eexists. split; [reflexivity|]. unfold PEEK. simpl.
  replace (stackSize (fiber vm) + 1 - 1) with (stackSize (fiber vm)) by lia.
  by rewrite lookup_insert_eq.
Qed.

End Interp.


(** ** Chunks, pins and classes *)

Section Objects.
Context {P : Platform}.

(** C8 (amended).  What [allocate] hands out is the chunk of
    [malloc (size)] with its bytes as [malloc] left them (none is
    cleared), at an address that holds no live object.  And [allocate]
    does return, for every size, from a state whose object list,
    objects and roots are in order: the collection it may run comes to
    an end, the objects that were reachable are still in memory with
    the contents they had, and the state is again in order. *)
Theorem allocate_returns_the_malloc_chunk vm size :
  (∀ vm' a chunk,
     allocate vm size = Some (vm', a, chunk) →
     chunk = malloc_bytes size ∧
     a = malloc_addr (heap vm') ∧
     heap vm' !! a = None) ∧
  (FLAG_MARKED ≠ 0 →
   ∀ l, gc_ready vm l →
   ∃ vm' l' a,
     allocate vm size = Some (vm', a, malloc_bytes size) ∧
     a = malloc_addr (heap vm') ∧
     heap vm' !! a = None ∧
     gc_ready vm' l' ∧
     (∀ x o, reachable vm x → heap vm !! x = Some o →
             x ≠ a ∧ ∃ o', heap vm' !! x = Some o' ∧ body o' = body o)).
Proof.
  assert (∀ h : gmap positive Obj, h !! malloc_addr h = None) as Hfresh.
  { intros h. apply not_elem_of_dom. unfold malloc_addr. apply is_fresh. }
  split.
  - unfold allocate. intros vm' a chunk Halloc.
    destruct (_ : option VM) as [vm2|] in Halloc; [|done].
    simpl in Halloc. injection Halloc as <- <- <-.
    split; [done|]. split; [done|]. apply Hfresh.
  - intros Hflag l Hready.
    destruct (allocate_ready Hflag vm l size Hready)
      as (vm' & l' & Halloc & Hready' & _ & _ & Hkeep).
    exists vm', l', (malloc_addr (heap vm')).
    split; [exact Halloc|]. split; [reflexivity|]. split; [apply Hfresh|].
    split; [exact Hready'|].
    intros x o Hx Ho. destruct (Hkeep x o Hx Ho) as (o' & Ho' & Hb).
    split; [|by exists o']. intros ->. rewrite Hfresh in Ho'. discriminate Ho'.
Qed.

(** C10.  [pinObj] accepts a pin exactly when fewer than
    [MAX_PINNED - 1] values are pinned; with [MAX_PINNED - 1] pinned
    values the next pin is rejected although its index lies within an
    array of [MAX_PINNED] cells; an accepted pin followed by the unpin
    of the same value restores [numPinned]. *)
Theorem pin_stack_holds_one_less_than_MAX_PINNED vm value :
  (pinObj vm value ≠ None ↔ numPinned vm < MAX_PINNED - 1) ∧
  (numPinned vm = MAX_PINNED - 1 →
   numPinned vm < MAX_PINNED ∧ pinObj vm value = None) ∧
  (numPinned vm < MAX_PINNED - 1 →
   ∃ vm1 vm2,
     pinObj vm value = Some vm1 ∧
     pinned vm1 !! numPinned vm = Some value ∧
     numPinned vm1 = numPinned vm + 1 ∧
     numPinned vm1 ≤ MAX_PINNED - 1 ∧
     unpinObj vm1 value = Some vm2 ∧
     numPinned vm2 = numPinned vm ∧
     heap vm2 = heap vm).
Proof.
  unfold pinObj.
  destruct (Z.ltb_spec (numPinned vm) (MAX_PINNED - 1)) as [Hlt|Hge].
  - split; [done|]. split; [lia|]. intros _.
    eexists _, _. split; [reflexivity|]. simpl. rewrite lookup_insert_eq.
    split; [done|]. split; [done|]. split; [lia|].
    unfold unpinObj. simpl.
    replace (numPinned vm + 1 - 1) with (numPinned vm) by lia.
    rewrite lookup_insert_eq. simpl. rewrite decide_True by done.
    split; [reflexivity|]. done.
  - split; [split; [done|lia]|]. split; [|lia]. intros Heq. split; [lia|done].
Qed.

(** The primitive that [vm.c] defines answers a value and leaves the
    fiber as it was, so its result lands in the receiver's slot. *)
Lemma collectGarbage_fiber vm vm' :
  collectGarbage vm = Some vm' → fiber vm' = fiber vm.
Proof.
  unfold collectGarbage. intros Hgc.
  destruct (mark_roots _ vm) as [h|]; [|done]. cbn [mbind option_bind] in Hgc.
  destruct (sweep _ _ _) as [vm1|] eqn:Hsw; [|done].
  injection Hgc as <-. apply sweep_same_roots in Hsw as [Hsame _].
  apply Hsame.
Qed.

Lemma allocate_fiber vm size vm' a chunk :
  allocate vm size = Some (vm', a, chunk) → fiber vm' = fiber vm.
Proof.
  unfold allocate. intros Halloc.
  destruct (nextGC _ <? totalAllocated _).
  - destruct (collectGarbage _) as [vmc|] eqn:Hgc; [|done].
    injection Halloc as <- _ _. by apply collectGarbage_fiber in Hgc.
  - by injection Halloc as <- _ _.
Qed.

Lemma primitive_metaclass_new_keeps_the_fiber vm args result vmp :
  call_primitive primitive_metaclass_new vm args = Some (result, vmp) →
  fiber vmp = fiber vm ∧ result ≠ VAL_NO_VALUE.
Proof.
  unfold call_primitive, newInstance. intros Hcall.
  destruct (stack (fiber vm) !! (args + 0)) as [receiver|]; [|done].
  cbn [mbind option_bind] in Hcall.
  destruct (AS_OBJ receiver) as [classObj|]; [|done].
  cbn [mbind option_bind] in Hcall.
  destruct (allocate vm sizeof_ObjInstance) as [[[vm1 i] chunk]|] eqn:Halloc;
    [|done].
  cbn [mbind option_bind] in Hcall. injection Hcall as <- <-.
  split; [|done]. simpl. by apply allocate_fiber in Halloc.
Qed.

(** What [freeObj] will subtract for a string and for an instance,
    against what [allocate] was asked for: [length + 1] and
    [sizeof_ObjString] for a string of which [freeObj] counts
    [sizeof_ObjString] and at most [length] bytes; [sizeof_ObjInstance]
    for an instance of which [freeObj] counts [sizeof_Obj]. *)
Lemma strncpy_length src : ∀ n c, strncpy src n = Some c → length c = n.
Proof.
  induction src as [|x src IH]; intros [|n] c; simpl; try by intros [= <-].
  destruct (x =? 0).
  - intros [= <-]. simpl. by rewrite length_replicate.
  - destruct (strncpy src n) as [c'|] eqn:Hc; [|done].
    intros [= <-]. simpl. f_equal. by apply IH.
Qed.

Lemma strlen_terminated (c : list Z) :
  ∃ k, strlen (c ++ [0]) = Some k ∧ 0 ≤ k ≤ Z.of_nat (length c).
Proof.
  induction c as [|x c (k & Hk & Hle)]; simpl.
  - exists 0. split; [done|lia].
  - destruct (x =? 0).
    + exists 0. split; [done|lia].
    + exists (Z.succ k). rewrite Hk. split; [done|lia].
Qed.

Lemma newString_freed_size vm text len vm' v :
  0 ≤ len → newString vm (Some text) len = Some (vm', v) →
  ∃ s o k, v = VAL_OBJ (Some s) ∧ heap vm' !! s = Some o ∧
           freed_size o = Some (size_t (sizeof_ObjString + k)) ∧
           0 ≤ k ≤ len.
Proof.
  intros Hlen. unfold newString.
  destruct (allocate vm (size_t (len + 1))) as [[[vm1 a1] chunk1]|]; [|done].
  cbn [mbind option_bind].
  destruct (allocate vm1 sizeof_ObjString) as [[[vm2 s] chunk2]|]; [|done].
  cbn [mbind option_bind].
  destruct (strncpy text (Z.to_nat len)) as [copied|] eqn:Hcopy; [|done].
  cbn [mbind option_bind]. intros [= <- <-].
  destruct (strlen_terminated copied) as (k & Hk & Hle).
  rewrite (strncpy_length _ _ _ Hcopy) in Hle.
  eexists s, _, k. split; [done|]. simpl. rewrite lookup_insert_eq.
  split; [done|]. unfold freed_size. simpl. rewrite Hk. split; [done|lia].
Qed.

Lemma newInstance_freed_size vm classObj vm' v :
  newInstance vm classObj = Some (vm', v) →
  ∃ i o, v = VAL_OBJ (Some i) ∧ heap vm' !! i = Some o ∧
         freed_size o = Some (size_t sizeof_Obj).
Proof.
  unfold newInstance.
  destruct (allocate vm sizeof_ObjInstance) as [[[vm1 i] chunk]|]; [|done].
  cbn [mbind option_bind]. intros [= <- <-].
  eexists i, _. split; [done|]. simpl. rewrite lookup_insert_eq. done.
Qed.


End Objects.


(** ** The properties at concrete states *)

Ltac solve_fetches :=
  split; [reflexivity|];
  eexists _, _, _, _, _;
  split; [reflexivity|]; split; [reflexivity|]; split; [reflexivity|];
  split; [done|reflexivity].

Lemma collectGarbage_on_gc_vm :
  ∃ vm' l',
    collectGarbage (P := lp64) gc_vm = Some vm' ∧
    object_list (heap vm') (first vm') l' ∧
    (∀ a, a ∈ l' ↔ reachable (P := lp64) gc_vm a) ∧
    (∀ a, a ∈ gc_list → ¬ reachable (P := lp64) gc_vm a →
          (a ∉ l') ∧ (heap vm' !! a = None)) ∧
    (∀ a, reachable (P := lp64) vm' a ↔ reachable (P := lp64) gc_vm a).
Proof.
  apply (collectGarbage_keeps_exactly_the_reachable (P := lp64)).
  - vm_compute. discriminate.
  - apply (bool_decide_unpack (gc_ready (P := lp64) gc_vm gc_list)).
    vm_compute. exact I.
Defined.

Lemma END_on_running_vm :
  (∃ vm', step (P := lp64)
            (running_vm [CODE_END] [] 0 [VAL_TRUE; VAL_NUM 7] 2)
          = Some (Running vm') ∧
          numFrames (fiber vm') = 1 ∧
          stack (fiber vm') !! 0 = Some (VAL_NUM 7) ∧
          stackSize (fiber vm') = 1) ∧
  (∃ vm', interpret (P := lp64) 2
            (vm_with_fn [CODE_CONSTANT; 0; CODE_END] [VAL_NUM 42])
            (Some 1%positive)
          = Some (Returned (VAL_NUM 42) vm')).
Proof.
  split.
  - destruct (END_returns_the_top_of_the_stack (P := lp64)
                (running_vm [CODE_END] [] 0 [VAL_TRUE; VAL_NUM 7] 2)
                (mkCallFrame 0 (Some 1%positive) 0) [] (VAL_NUM 7))
      as [Hinner _]; [solve_fetches|reflexivity|].
    destruct Hinner as (vm' & Hstep & Hn & _ & Hst & Hsz & _);
      [vm_compute; discriminate|].
    exists vm'. split; [exact Hstep|]. split; [exact Hn|].
    split; [exact Hst|exact Hsz].
  - destruct (END_returns_the_top_of_the_stack (P := lp64)
                (running_vm [CODE_CONSTANT; 0; CODE_END] [VAL_NUM 42] 2
                   [VAL_NUM 42] 1)
                (mkCallFrame 2 (Some 1%positive) 0) [] (VAL_NUM 42))
      as [_ Houter]; [solve_fetches|reflexivity|].
    destruct Houter as (vm' & _ & _ & _ & Hint); [reflexivity|].
    exists vm'.
    apply (Hint (vm_with_fn [CODE_CONSTANT; 0; CODE_END] [VAL_NUM 42])
             (Some 1%positive) 1%nat 0%nat).
    vm_compute. reflexivity.
Defined.


Lemma JUMP_IF_on_Null :
  ∃ vm' fr',
    step (P := lp64)
      (running_vm [CODE_JUMP_IF; 2; CODE_CONSTANT; 0; CODE_END] [VAL_NUM 1] 0
         [VAL_TRUE; VAL_NULL] 1)
    = Some (Running vm') ∧
    stackSize (fiber vm') = 1 ∧
    frames (fiber vm') !! (numFrames (fiber vm') - 1) = Some fr' ∧
    ip fr' = 4.
Proof.
  destruct (JUMP_IF_jumps_unless_AS_BOOL (P := lp64)
              (running_vm [CODE_JUMP_IF; 2; CODE_CONSTANT; 0; CODE_END]
                 [VAL_NUM 1] 0 [VAL_TRUE; VAL_NULL] 1)
              (mkCallFrame 0 (Some 1%positive) 0) 2
              [CODE_CONSTANT; 0; CODE_END] VAL_NULL)
    as (vm' & fr' & Hstep & Hsz & _ & Hfr & _ & Htag);
    [solve_fetches|reflexivity|].
  destruct (Htag (λ v, eq_refl)) as (_ & _ & Hnull & _).
  exists vm', fr'. split; [exact Hstep|]. split; [exact Hsz|].
  split; [exact Hfr|]. exact (Hnull eq_refl).
Defined.

Lemma allocate_on_gc_vm :
  ∃ vm' a chunk,
    allocate (P := lp64) (set_nextGC 4300 gc_vm) 100 = Some (vm', a, chunk) ∧
    collections vm' = 1%nat ∧
    totalAllocated vm' = 4359 ∧
    nextGC vm' = 6538.
Proof.
  destruct (allocate_collects_iff_over_nextGC (P := lp64)
              ltac:(vm_compute; discriminate)
              (set_nextGC 4300 gc_vm) gc_list 100)
    as (vm' & a & chunk & Halloc & _ & Hover & _).
  { apply (bool_decide_unpack
             (gc_ready (P := lp64) (set_nextGC 4300 gc_vm) gc_list)).
    vm_compute. exact I. }
  destruct Hover as (vmc & Hgc & Hcoll & Htot & Hnext); [reflexivity|].
  exists vm', a, chunk. split; [exact Halloc|]. split; [exact Hcoll|].
  assert (totalAllocated vmc = 4359) as Hvmc.
  { apply (f_equal (λ o, from_option totalAllocated 0 o)) in Hgc.
    vm_compute in Hgc. symmetry. exact Hgc. }
  rewrite Htot, Hnext, Hvmc. split; reflexivity.
Defined.

(** C8, as stated, fails: on a platform whose [malloc] leaves [0xAA] in
    fresh memory, the chunk that [allocate] returns is not zero. *)
Lemma allocate_chunk_is_not_zeroed :
  allocate (P := lp64) empty_vm 4
  = Some (set_totalAllocated 4 empty_vm, 1%positive, [170; 170; 170; 170]) ∧
  ¬ Forall (λ byte, byte = 0) [170; 170; 170; 170].
Proof.
  split; [vm_compute; reflexivity|].
  intros Hzero. inversion Hzero as [|? ? Hhead _]. discriminate Hhead.
Qed.

Lemma allocate_on_collecting_vm :
  ∃ vm' a,
    allocate (P := lp64) (set_nextGC 4300 gc_vm) 4
    = Some (vm', a, [170; 170; 170; 170]) ∧
    heap vm' !! a = None.
Proof.
  destruct (allocate_returns_the_malloc_chunk (P := lp64)
              (set_nextGC 4300 gc_vm) 4) as [_ Htotal].
  destruct (Htotal ltac:(vm_compute; discriminate) gc_list)
    as (vm' & l' & a & Halloc & _ & Hfresh & _).
  { apply (bool_decide_unpack
             (gc_ready (P := lp64) (set_nextGC 4300 gc_vm) gc_list)).
    vm_compute. exact I. }
  exists vm', a. split; [exact Halloc|exact Hfresh].
Defined.

Lemma push_on_a_full_stack :
  ∃ vm', step (P := lp64)
           (running_vm [CODE_NULL; CODE_END] [] 0 [VAL_TRUE; VAL_TRUE] 1)
         = Some (Running vm') ∧
         stack (fiber vm') !! 2 = Some VAL_NULL ∧
         stackSize (fiber vm') = 3.
Proof.
  destruct (push_beyond_capacity_is_not_checked (P := lp64)
              (running_vm [CODE_NULL; CODE_END] [] 0 [VAL_TRUE; VAL_TRUE] 1)
              (mkCallFrame 0 (Some 1%positive) 0) [CODE_END] 2 1 None 0)
    as [(vm' & Hstep & Hst & Hsz & _) _];
    [solve_fetches|vm_compute; discriminate|vm_compute; discriminate|].
  exists vm'. split; [exact Hstep|]. split; [exact Hst|exact Hsz].
Defined.

Lemma pin_on_empty_vm :
  ∃ vm1 vm2,
    pinObj (P := lp64) empty_vm VAL_TRUE = Some vm1 ∧
    numPinned vm1 = 1 ∧
    unpinObj vm1 VAL_TRUE = Some vm2 ∧
    numPinned vm2 = 0.
Proof.
  destruct (pin_stack_holds_one_less_than_MAX_PINNED (P := lp64)
              empty_vm VAL_TRUE) as (_ & _ & Hround).
  destruct Hround as (vm1 & vm2 & Hpin & _ & Hn1 & _ & Hunpin & Hn2 & _);
    [reflexivity|].
  exists vm1, vm2. split; [exact Hpin|]. split; [exact Hn1|].
  split; [exact Hunpin|exact Hn2].
Defined.

(** C4 fails on the code: a string of one character is accounted with
    26 bytes and freed with 25, an instance is accounted with 24 bytes
    and freed with 16; after a collection that frees everything,
    [totalAllocated] is not back to zero. *)
Theorem freeObj_subtracts_less_than_allocate_added :
  (∃ vm1 vm2,
     newString (P := lp64) empty_vm (Some [97; 0]) 1
     = Some (vm1, VAL_OBJ (Some 1%positive)) ∧
     totalAllocated vm1 = 26 ∧
     collectGarbage (P := lp64) vm1 = Some vm2 ∧
     heap vm2 = ∅ ∧ totalAllocated vm2 = 1) ∧
  (∃ vm1 vm2,
     newInstance (P := lp64) empty_vm None
     = Some (vm1, VAL_OBJ (Some 1%positive)) ∧
     totalAllocated vm1 = 24 ∧
     collectGarbage (P := lp64) vm1 = Some vm2 ∧
     heap vm2 = ∅ ∧ totalAllocated vm2 = 8).
Proof.
  split.
  - eexists _, _. split; [vm_compute; reflexivity|].
    split; [reflexivity|]. split; [vm_compute; reflexivity|].
    split; reflexivity.
  - eexists _, _. split; [vm_compute; reflexivity|].
    split; [reflexivity|]. split; [vm_compute; reflexivity|].
    split; reflexivity.
Qed.



(** * Further properties *)

(** ** C strings *)

Lemma strncpy_plain (n : nat) : ∀ name,
  (n ≤ length name)%nat → Forall (λ c, c ≠ 0) (take n name) →
  strncpy name n = Some (take n name).
Proof.
  induction n as [|n IH]; intros name Hlen Hnz; [by destruct name|].
  destruct name as [|c name]; [simpl in Hlen; lia|].
  simpl in *. apply Forall_cons in Hnz as [Hc Hnz].
  destruct (Z.eqb_spec c 0) as [?|_]; [done|].
  rewrite IH; [done|lia|done].
Qed.

Lemma strlen_app_nul (s : list Z) :
  Forall (λ c, c ≠ 0) s → strlen (s ++ [0]) = Some (Z.of_nat (length s)).
Proof.
  induction s as [|c s IH]; intros Hnz; [done|].
  apply Forall_cons in Hnz as [Hc Hnz]. simpl.
  destruct (Z.eqb_spec c 0) as [?|_]; [done|].
  rewrite (IH Hnz). simpl. f_equal. lia.
Qed.

(** A string of length [k] has [k] bytes other than NUL, then a NUL. *)
Lemma strlen_Some (n : list Z) : ∀ k,
  strlen n = Some k →
  0 ≤ k ∧ (Z.to_nat k < length n)%nat ∧
  Forall (λ c, c ≠ 0) (take (Z.to_nat k) n) ∧
  n !! Z.to_nat k = Some 0.
Proof.
  induction n as [|c n IH]; intros k; simpl; [done|].
  destruct (Z.eqb_spec c 0) as [->|Hc].
  - intros [= <-]. simpl. repeat split; [lia|lia|constructor].
  - destruct (strlen n) as [k'|]; [|done]. simpl. intros [= <-].
    destruct (IH k' eq_refl) as (Hk & Hlen & Hnz & Hnul).
    rewrite Z2Nat.inj_succ by lia. simpl.
    repeat split; [lia|lia| |done]. by constructor.
Qed.

(** On strings that hold [m] bytes, the first of them without NUL,
    [strncmp] compares the first [m] bytes. *)
Lemma strncmp_eq_take (m : nat) : ∀ a b,
  (m ≤ length a)%nat → (m ≤ length b)%nat →
  Forall (λ c, c ≠ 0) (take m a) →
  strncmp_eq a b m = Some (bool_decide (take m a = take m b)).
Proof.
  induction m as [|m IH]; intros a b Ha Hb Hnz; [by destruct a|].
  destruct a as [|x a]; [simpl in Ha; lia|].
  destruct b as [|y b]; [simpl in Hb; lia|].
  simpl in *. apply Forall_cons in Hnz as [Hx Hnz].
  destruct (Z.eqb_spec x y) as [->|Hxy]; simpl.
  - destruct (Z.eqb_spec y 0) as [?|_]; [done|].
    rewrite IH by (done || lia). f_equal.
    apply bool_decide_ext. split; [by intros ->|by intros [= ->]].
  - f_equal. symmetry. apply bool_decide_eq_false. by intros [= ?].
Qed.

(** A name with a NUL among its first [len] bytes equals no stored
    string of length [len]. *)
Lemma strncmp_eq_early_nul (m : nat) : ∀ a b k,
  (k < m)%nat → (m ≤ length a)%nat →
  Forall (λ c, c ≠ 0) (take m a) →
  Forall (λ c, c ≠ 0) (take k b) → b !! k = Some 0 →
  strncmp_eq a b m = Some false.
Proof.
  induction m as [|m IH]; intros a b k Hk Ha Hnz Hb Hnul; [lia|].
  destruct a as [|x a]; [simpl in Ha; lia|].
  destruct b as [|y b]; [done|].
  simpl in *. apply Forall_cons in Hnz as [Hx Hnz].
  destruct k as [|k].
  - simpl in Hnul. injection Hnul as ->.
    destruct (Z.eqb_spec x 0) as [?|_]; done.
  - simpl in Hb, Hnul. apply Forall_cons in Hb as [Hy Hb].
    destruct (Z.eqb_spec x y) as [->|_]; [|done]. simpl.
    destruct (Z.eqb_spec y 0) as [?|_]; [done|].
    apply (IH a b k); (done || lia).
Qed.

(** [strncpy] of a name with a NUL at [k], closed by a NUL: a string of
    length [k]. *)
Lemma strlen_strncpy_early_nul (n : nat) : ∀ name k copied,
  (k < n)%nat → Forall (λ c, c ≠ 0) (take k name) → name !! k = Some 0 →
  strncpy name n = Some copied →
  strlen (copied ++ [0]) = Some (Z.of_nat k).
Proof.
  induction n as [|n IH]; intros name k copied Hk Hnz Hnul; [lia|].
  destruct name as [|c name]; [done|]. simpl.
  destruct k as [|k].
  - simpl in Hnul. injection Hnul as ->. simpl. by intros [= <-].
  - simpl in Hnz, Hnul. apply Forall_cons in Hnz as [Hc Hnz].
    destruct (Z.eqb_spec c 0) as [?|_]; [done|].
    destruct (strncpy name n) as [copied'|] eqn:Hcopy; [|done].
    simpl. intros [= <-]. simpl.
    destruct (Z.eqb_spec c 0) as [?|_]; [done|].
    rewrite (IH name k copied') by (done || lia). simpl. f_equal. lia.
Qed.

Lemma strncpy_total_early_nul (n : nat) : ∀ name k,
  Forall (λ c, c ≠ 0) (take k name) → name !! k = Some 0 →
  is_Some (strncpy name n).
Proof.
  induction n as [|n IH]; intros name k Hnz Hnul;
    [destruct name; by eexists|].
  destruct name as [|c name]; [done|]. simpl.
  destruct (Z.eqb_spec c 0) as [?|Hc]; [by eexists|].
  destruct k as [|k]; [simpl in Hnul; congruence|].
  simpl in Hnz, Hnul. apply Forall_cons in Hnz as [_ Hnz].
  destruct (IH name k Hnz Hnul) as [copied ->]. by eexists.
Qed.

(** ** Symbol tables *)

Lemma names_match_test (n name : list Z) (len k : Z) :
  plain name len → strlen n = Some k →
  (if k =? len then
     same ← strncmp_eq n name (Z.to_nat len);
     Some (same : bool)
   else Some false)
  = Some (bool_decide (names_match n name len)).
Proof.
  intros (Hlen & Hname & Hnz) Hk.
  destruct (strlen_Some n k Hk) as (Hk0 & Hkn & Hnzn & _).
  destruct (Z.eqb_spec k len) as [->|Hne].
  - rewrite strncmp_eq_take by (done || lia). simpl. f_equal.
    apply bool_decide_ext. unfold names_match. split; [done|by intros [_ ?]].
  - f_equal. symmetry. apply bool_decide_eq_false.
    intros [Hk' _]. congruence.
Qed.

(** The loop of [findSymbol] over the slots [lo], ..., [lo + k - 1]. *)
Lemma findSymbol_loop_spec symbols name len (k : nat) : ∀ lo,
  plain name len →
  (∀ i, lo ≤ i < lo + Z.of_nat k →
        ∃ n, names symbols !! i = Some n ∧ is_Some (strlen n)) →
  ∃ r, findSymbol_loop symbols name len (seqZ lo (Z.of_nat k)) = Some r ∧
       ((r = -1 ∧
         ∀ i n, lo ≤ i < lo + Z.of_nat k → names symbols !! i = Some n →
                ¬ names_match n name len) ∨
        (lo ≤ r < lo + Z.of_nat k ∧
         (∃ n, names symbols !! r = Some n ∧ names_match n name len) ∧
         ∀ i n, lo ≤ i < r → names symbols !! i = Some n →
                ¬ names_match n name len)).
Proof.
  induction k as [|k IH]; intros lo Hplain Hok.
  - exists (-1). split; [done|]. left. split; [done|]. intros i n Hi. lia.
  - rewrite seqZ_cons by lia.
    replace (Z.pred (Z.of_nat (S k))) with (Z.of_nat k) by lia.
    destruct (Hok lo ltac:(lia)) as (n & Hn & [kn Hkn]).
    cbn [findSymbol_loop]. rewrite Hn. cbn [mbind option_bind].
    rewrite Hkn. cbn [mbind option_bind].
    pose proof (names_match_test n name len kn Hplain Hkn) as Htest.
    destruct (IH (Z.succ lo) Hplain) as (r & Hr & Hcases).
    { intros i Hi. apply Hok. lia. }
    destruct (decide (names_match n name len)) as [Hm|Hm].
    + exists lo. split.
      * destruct (kn =? len); [|by rewrite bool_decide_eq_true_2 in Htest].
        destruct (strncmp_eq n name (Z.to_nat len)) as [same|]; [|done].
        simpl in Htest. rewrite bool_decide_eq_true_2 in Htest by done.
        by injection Htest as ->.
      * right. split; [lia|]. split; [by exists n|]. intros i n' Hi. lia.
    + exists r. split.
      * destruct (kn =? len); [|done].
        destruct (strncmp_eq n name (Z.to_nat len)) as [same|]; [|done].
        simpl in Htest. rewrite bool_decide_eq_false_2 in Htest by done.
        by injection Htest as ->.
      * destruct Hcases as [[-> Hnone]|(Hrange & Hfound & Hbefore)].
        -- left. split; [done|]. intros i n' Hi Hn'.
           destruct (decide (i = lo)) as [->|Hne]; [congruence|].
           apply (Hnone i n'); [lia|done].
        -- right. split; [lia|]. split; [done|]. intros i n' Hi Hn'.
           destruct (decide (i = lo)) as [->|Hne]; [congruence|].
           apply (Hbefore i n'); [lia|done].
Qed.

Lemma symbols_ok_lookup symbols i :
  symbols_ok symbols → 0 ≤ i < count symbols →
  ∃ n, names symbols !! i = Some n ∧ is_Some (strlen n).
Proof.
  intros [_ Hok] Hi. rewrite Forall_forall in Hok.
  specialize (Hok i ltac:(apply elem_of_seqZ; lia)).
  destruct (names symbols !! i) as [n|]; [by exists n|done].
Qed.

Lemma findSymbol_spec symbols name len :
  symbols_ok symbols → plain name len →
  ∃ r, findSymbol symbols name len = Some r ∧
       ((r = -1 ∧
         ∀ i n, 0 ≤ i < count symbols → names symbols !! i = Some n →
                ¬ names_match n name len) ∨
        (0 ≤ r < count symbols ∧
         (∃ n, names symbols !! r = Some n ∧ names_match n name len) ∧
         ∀ i n, 0 ≤ i < r → names symbols !! i = Some n →
                ¬ names_match n name len)).
Proof.
  intros Hok Hplain. unfold findSymbol.
  pose proof (proj1 Hok) as Hcount.
  destruct (findSymbol_loop_spec symbols name len (Z.to_nat (count symbols)) 0
              Hplain) as (r & Hr & Hcases).
  { intros i Hi. apply symbols_ok_lookup; [done|lia]. }
  rewrite Z2Nat.id in Hr, Hcases by done. exists r. split; [done|].
  destruct Hcases as [[-> Hnone]|(Hrange & Hfound & Hbefore)].
  - left. split; [done|]. intros i n Hi. apply Hnone. lia.
  - right. split; [lia|]. split; [done|]. intros i n Hi. apply Hbefore. lia.
Qed.

(** X1.  On a well-formed table and a name without NUL, [findSymbol]
    returns: either -1, and then no slot below [count] holds the name;
    or the index of the first slot that holds it. *)
Theorem findSymbol_returns_the_first_slot_of_the_name symbols name len :
  symbols_ok symbols → plain name len →
  ∃ r, findSymbol symbols name len = Some r ∧
       ((r = -1 ∧
         ∀ i n, 0 ≤ i < count symbols → names symbols !! i = Some n →
                ¬ names_match n name len) ∨
        (0 ≤ r < count symbols ∧
         (∃ n, names symbols !! r = Some n ∧ names_match n name len) ∧
         ∀ i n, 0 ≤ i < r → names symbols !! i = Some n →
                ¬ names_match n name len)).
Proof. apply findSymbol_spec. Qed.

Lemma addSymbolUnchecked_plain symbols name len :
  plain name len →
  addSymbolUnchecked symbols name len
  = Some (mkSymbolTable
            (<[count symbols := take (Z.to_nat len) name ++ [0]]>
               (names symbols))
            (count symbols + 1),
          count symbols).
Proof.
  intros (Hlen & Hname & Hnz). unfold addSymbolUnchecked.
  by rewrite strncpy_plain.
Qed.

Lemma names_match_stored name len :
  plain name len → names_match (take (Z.to_nat len) name ++ [0]) name len.
Proof.
  intros (Hlen & Hname & Hnz). split.
  - rewrite strlen_app_nul by done. rewrite length_take. f_equal. lia.
  - rewrite take_app_le by (rewrite length_take; lia).
    rewrite take_take. f_equal. lia.
Qed.

Lemma symbols_ok_insert symbols n :
  symbols_ok symbols → is_Some (strlen n) →
  symbols_ok (mkSymbolTable (<[count symbols := n]> (names symbols))
                            (count symbols + 1)).
Proof.
  intros [Hcount Hok] Hn. split; [simpl; lia|]. simpl.
  rewrite Forall_forall in Hok. apply Forall_forall. intros i Hi.
  apply elem_of_seqZ in Hi.
  destruct (decide (i = count symbols)) as [->|Hne].
  - by rewrite lookup_insert_eq.
  - rewrite lookup_insert_ne by done. apply Hok. apply elem_of_seqZ. lia.
Qed.

Lemma ensureSymbol_spec symbols name len :
  symbols_ok symbols → plain name len →
  ∃ symbols' s,
    ensureSymbol symbols name len = Some (symbols', s) ∧
    symbols_ok symbols' ∧
    0 ≤ s < count symbols' ∧
    (count symbols' = count symbols ∨ count symbols' = count symbols + 1) ∧
    findSymbol symbols' name len = Some s ∧
    ensureSymbol symbols' name len = Some (symbols', s).
Proof.
  intros Hok Hplain. unfold ensureSymbol at 1.
  destruct (findSymbol_spec symbols name len Hok Hplain) as (r & Hr & Hcases).
  rewrite Hr. cbn [mbind option_bind].
  destruct Hcases as [[-> Hnone]|(Hrange & Hfound & Hbefore)].
  - simpl. rewrite addSymbolUnchecked_plain by done.
    set (symbols' := mkSymbolTable _ _).
    assert (symbols_ok symbols') as Hok'.
    { apply symbols_ok_insert; [done|].
      destruct (names_match_stored name len Hplain) as [-> _]. by eexists. }
    assert (findSymbol symbols' name len = Some (count symbols)) as Hfind.
    { destruct (findSymbol_spec symbols' name len Hok' Hplain)
        as (r' & Hr' & [[-> Hnone']|(Hrange' & Hfound' & Hbefore')]).
      - exfalso.
        apply (Hnone' (count symbols) (take (Z.to_nat len) name ++ [0]));
          simpl.
        + destruct Hok. lia.
        + by rewrite lookup_insert_eq.
        + by apply names_match_stored.
      - rewrite Hr'. f_equal. simpl in Hrange'.
        destruct (decide (r' = count symbols)) as [|Hne]; [done|].
        exfalso. destruct Hfound' as (n & Hn & Hm). simpl in Hn.
        rewrite lookup_insert_ne in Hn by done.
        apply (Hnone r' n); [lia|done|done]. }
    exists symbols', (count symbols). split; [done|]. split; [done|].
    split; [destruct Hok; simpl; lia|]. split; [by right|].
    split; [done|]. unfold ensureSymbol. rewrite Hfind.
    cbn [mbind option_bind].
    destruct (Z.eqb_spec (count symbols) (-1)) as [?|_]; [|done].
    destruct Hok. lia.
  - destruct (Z.eqb_spec r (-1)) as [?|_]; [lia|]. simpl.
    exists symbols, r. split; [done|]. split; [done|]. split; [done|].
    split; [by left|]. split; [done|]. unfold ensureSymbol. rewrite Hr.
    cbn [mbind option_bind].
    destruct (Z.eqb_spec r (-1)) as [?|_]; [lia|done].
Qed.

(** X2.  [ensureSymbol] on a well-formed table with room for one more
    name (the array [names] has [MAX_SYMBOLS] slots, and no function
    tests the count against it) and a name without NUL always returns a
    symbol under which [findSymbol] then finds the name; the table
    grows by one slot at most and stays within its capacity, and a
    second [ensureSymbol] of the name returns the same symbol and
    changes nothing. *)
Theorem ensureSymbol_then_findSymbol {P : Platform} symbols name len :
  symbols_ok symbols → count symbols < MAX_SYMBOLS → plain name len →
  ∃ symbols' s,
    ensureSymbol symbols name len = Some (symbols', s) ∧
    symbols_ok symbols' ∧
    0 ≤ s < count symbols' ∧
    (count symbols' = count symbols ∨ count symbols' = count symbols + 1) ∧
    count symbols' ≤ MAX_SYMBOLS ∧
    findSymbol symbols' name len = Some s ∧
    ensureSymbol symbols' name len = Some (symbols', s).
Proof.
  intros Hok Hroom Hplain.
  destruct (ensureSymbol_spec symbols name len Hok Hplain)
    as (symbols' & s & Hens & Hok' & Hs & Hcount & Hfind & Hagain).
  exists symbols', s. split; [done|]. split; [done|]. split; [done|].
  split; [done|]. split; [lia|]. done.
Qed.

Lemma ensureSymbol_keeps_spec symbols name len other olen s :
  symbols_ok symbols → plain name len → plain other olen →
  findSymbol symbols name len = Some s → 0 ≤ s →
  ∃ symbols' t,
    ensureSymbol symbols other olen = Some (symbols', t) ∧
    findSymbol symbols' name len = Some s ∧
    getSymbolName symbols' s = getSymbolName symbols s.
Proof.
  intros Hok Hplain Hoplain Hfind Hs.
  destruct (ensureSymbol_spec symbols other olen Hok Hoplain)
    as (symbols' & t & Hens & Hok' & _ & _ & _ & _).
  exists symbols', t. split; [done|].
  destruct (findSymbol_spec symbols name len Hok Hplain)
    as (r & Hr & Hcases).
  rewrite Hfind in Hr. injection Hr as <-.
  destruct Hcases as [[Heq _]|(Hrange & (n & Hn & Hm) & Hbefore)]; [lia|].
  assert (∀ i, 0 ≤ i < count symbols →
            names symbols' !! i = names symbols !! i ∧
            count symbols ≤ count symbols') as Hsame.
  { intros i Hi. unfold ensureSymbol in Hens.
    destruct (findSymbol symbols other olen) as [r|]; [|done].
    cbn [mbind option_bind] in Hens.
    destruct (negb (r =? -1)).
    - injection Hens as <- _. split; [done|lia].
    - rewrite addSymbolUnchecked_plain in Hens by done.
      injection Hens as <- _. simpl. split; [|lia].
      rewrite lookup_insert_ne; [done|lia]. }
  split; [|unfold getSymbolName; by apply Hsame].
  destruct (findSymbol_spec symbols' name len Hok' Hplain)
    as (r' & Hr' & [[-> Hnone']|(Hrange' & (n' & Hn' & Hm') & Hbefore')]).
  - exfalso. destruct (Hsame s Hrange) as [Hns Hle].
    apply (Hnone' s n); [lia|by rewrite Hns|done].
  - rewrite Hr'. f_equal. destruct (Hsame s Hrange) as [Hns Hle].
    destruct (Z.lt_trichotomy r' s) as [Hlt|[->|Hgt]]; [|done|].
    + exfalso. destruct (Hsame r' ltac:(lia)) as [Hnr _].
      apply (Hbefore r' n'); [lia|by rewrite <- Hnr|done].
    + exfalso. apply (Hbefore' s n); [lia|by rewrite Hns|done].
Qed.

(** X3.  Symbols are permanent: once [findSymbol] finds a name under a
    symbol, it finds it under the same symbol, and the stored string is
    the same, after any other name has gone through [ensureSymbol] on a
    table with room for one more name. *)
Theorem ensureSymbol_keeps_the_symbols {P : Platform}
  symbols name len other olen s :
  symbols_ok symbols → count symbols < MAX_SYMBOLS →
  plain name len → plain other olen →
  findSymbol symbols name len = Some s → 0 ≤ s →
  ∃ symbols' t,
    ensureSymbol symbols other olen = Some (symbols', t) ∧
    count symbols' ≤ MAX_SYMBOLS ∧
    findSymbol symbols' name len = Some s ∧
    getSymbolName symbols' s = getSymbolName symbols s.
Proof.
  intros Hok Hroom Hplain Hoplain Hfind Hs.
  destruct (ensureSymbol_keeps_spec symbols name len other olen s
              Hok Hplain Hoplain Hfind Hs)
    as (symbols' & t & Hens & Hfind' & Hname).
  destruct (ensureSymbol_spec symbols other olen Hok Hoplain)
    as (symbols2 & t2 & Hens2 & _ & _ & Hcount & _).
  rewrite Hens in Hens2. injection Hens2 as <- <-.
  exists symbols', t. split; [done|]. split; [lia|]. done.
Qed.

Lemma addSymbol_spec symbols name len :
  symbols_ok symbols → plain name len →
  ∃ symbols' s found,
    findSymbol symbols name len = Some found ∧
    addSymbol symbols name len = Some (symbols', s) ∧
    (0 ≤ found → s = -1 ∧ symbols' = symbols) ∧
    (found = -1 → s = count symbols ∧
                  count symbols' = count symbols + 1 ∧
                  getSymbolName symbols' s
                  = Some (take (Z.to_nat len) name ++ [0])) ∧
    addSymbol symbols' name len = Some (symbols', -1).
Proof.
  intros Hok Hplain.
  destruct (ensureSymbol_spec symbols name len Hok Hplain)
    as (symbols' & s & Hens & Hok' & Hs & _ & Hfind' & _).
  destruct (findSymbol_spec symbols name len Hok Hplain)
    as (found & Hfound & Hcases).
  unfold ensureSymbol in Hens. unfold addSymbol at 1.
  rewrite Hfound in Hens. rewrite Hfound.
  cbn [mbind option_bind] in Hens. cbn [mbind option_bind].
  destruct (decide (found = -1)) as [Heq|Hne].
  - subst found. simpl in Hens. simpl.
    rewrite Hens. exists symbols', s, (-1). split; [done|]. split; [done|].
    split; [lia|]. rewrite addSymbolUnchecked_plain in Hens by done.
    injection Hens as <- <-. split.
    + intros _. split; [done|]. split; [done|].
      unfold getSymbolName. simpl. by rewrite lookup_insert_eq.
    + unfold addSymbol. rewrite Hfind'. cbn [mbind option_bind].
      destruct (Z.eqb_spec (count symbols) (-1)) as [?|_]; [|done].
      destruct Hok. lia.
  - assert ((found =? -1) = false) as Hb by (by apply Z.eqb_neq).
    rewrite Hb in Hens. rewrite Hb. simpl in Hens. simpl.
    injection Hens as <- <-. exists symbols, (-1), found.
    split; [done|]. split; [done|]. split; [done|]. split; [done|].
    unfold addSymbol. rewrite Hfound. cbn [mbind option_bind].
    by rewrite Hb.
Qed.

(** X4.  [addSymbol] refuses a name that the table holds (it answers
    -1 and leaves the table as it is) and appends a name that it does
    not hold, NUL-terminated, at the index [count], which lies within
    the capacity when the table had room; adding the name once more is
    refused. *)
Theorem addSymbol_refuses_duplicates {P : Platform} symbols name len :
  symbols_ok symbols → count symbols < MAX_SYMBOLS → plain name len →
  ∃ symbols' s found,
    findSymbol symbols name len = Some found ∧
    addSymbol symbols name len = Some (symbols', s) ∧
    (0 ≤ found → s = -1 ∧ symbols' = symbols) ∧
    (found = -1 → s = count symbols ∧ s < MAX_SYMBOLS ∧
                  count symbols' = count symbols + 1 ∧
                  getSymbolName symbols' s
                  = Some (take (Z.to_nat len) name ++ [0])) ∧
    addSymbol symbols' name len = Some (symbols', -1).
Proof.
  intros Hok Hroom Hplain.
  destruct (addSymbol_spec symbols name len Hok Hplain)
    as (symbols' & s & found & Hfind & Hadd & Hdup & Hnew & Hagain).
  exists symbols', s, found. split; [done|]. split; [done|].
  split; [done|]. split; [|done].
  intros Hfound. destruct (Hnew Hfound) as (-> & Hcount & Hname).
  done.
Qed.

Lemma findSymbol_loop_early_nul symbols name len k (c : nat) : ∀ lo,
  early_nul name len k →
  (∀ i, lo ≤ i < lo + Z.of_nat c →
        ∃ n, names symbols !! i = Some n ∧ is_Some (strlen n)) →
  findSymbol_loop symbols name len (seqZ lo (Z.of_nat c)) = Some (-1).
Proof.
  induction c as [|c IH]; intros lo Hnul Hok; [done|].
  rewrite seqZ_cons by lia.
  replace (Z.pred (Z.of_nat (S c))) with (Z.of_nat c) by lia.
  destruct (Hok lo ltac:(lia)) as (n & Hn & [kn Hkn]).
  cbn [findSymbol_loop]. rewrite Hn. cbn [mbind option_bind].
  rewrite Hkn. cbn [mbind option_bind].
  assert (findSymbol_loop symbols name len (seqZ (Z.succ lo) (Z.of_nat c))
          = Some (-1)) as Hrest.
  { apply IH; [done|]. intros i Hi. apply Hok. lia. }
  destruct (Z.eqb_spec kn len) as [->|_]; [|done].
  destruct Hnul as (Hk & Hnz & Hz).
  destruct (strlen_Some n len Hkn) as (Hlen & Hln & Hnzn & _).
  rewrite (strncmp_eq_early_nul (Z.to_nat len) n name k) by (done || lia).
  done.
Qed.

Lemma ensureSymbol_early_nul_spec symbols name len k :
  symbols_ok symbols → early_nul name len k →
  findSymbol symbols name len = Some (-1) ∧
  ∃ symbols' stored,
    ensureSymbol symbols name len = Some (symbols', count symbols) ∧
    count symbols' = count symbols + 1 ∧
    getSymbolName symbols' (count symbols) = Some stored ∧
    strlen stored = Some (Z.of_nat k) ∧
    symbols_ok symbols' ∧
    findSymbol symbols' name len = Some (-1).
Proof.
  intros Hok Hnul.
  assert (∀ t, symbols_ok t → findSymbol t name len = Some (-1)) as Hfind.
  { intros t Ht. unfold findSymbol.
    rewrite <- (Z2Nat.id (count t)) by apply Ht.
    apply (findSymbol_loop_early_nul t name len k); [done|].
    intros i Hi. apply symbols_ok_lookup; [done|lia]. }
  split; [by apply Hfind|].
  unfold ensureSymbol. rewrite (Hfind symbols Hok). cbn [mbind option_bind].
  simpl. unfold addSymbolUnchecked.
  destruct Hnul as (Hk & Hnz & Hz).
  destruct (strncpy_total_early_nul (Z.to_nat len) name k Hnz Hz)
    as [copied Hcopy].
  rewrite Hcopy. cbn [mbind option_bind].
  assert (strlen (copied ++ [0]) = Some (Z.of_nat k)) as Hlen.
  { apply (strlen_strncpy_early_nul (Z.to_nat len) name k); (done || lia). }
  eexists _, (copied ++ [0]). split; [done|]. simpl. split; [done|].
  unfold getSymbolName. simpl. rewrite lookup_insert_eq.
  split; [done|]. split; [done|].
  assert (symbols_ok
            (mkSymbolTable (<[count symbols := copied ++ [0]]> (names symbols))
                           (count symbols + 1))) as Hok'.
  { apply symbols_ok_insert; [done|]. by rewrite Hlen. }
  split; [done|]. by apply Hfind.
Qed.

(** X5.  A name whose buffer has a NUL before the length that the
    caller passes is stored cut at the NUL and is never found again:
    [findSymbol] answers -1 on every well-formed table, so each
    [ensureSymbol] of it (on a table with room) appends one more
    slot. *)
Theorem ensureSymbol_never_finds_a_name_cut_by_NUL {P : Platform}
  symbols name len k :
  symbols_ok symbols → count symbols < MAX_SYMBOLS →
  early_nul name len k →
  findSymbol symbols name len = Some (-1) ∧
  ∃ symbols' stored,
    ensureSymbol symbols name len = Some (symbols', count symbols) ∧
    count symbols' = count symbols + 1 ∧
    count symbols' ≤ MAX_SYMBOLS ∧
    getSymbolName symbols' (count symbols) = Some stored ∧
    strlen stored = Some (Z.of_nat k) ∧
    symbols_ok symbols' ∧
    findSymbol symbols' name len = Some (-1).
Proof.
  intros Hok Hroom Hnul.
  destruct (ensureSymbol_early_nul_spec symbols name len k Hok Hnul)
    as (Hfind & symbols' & stored & Hens & Hcount & Hname & Hlen & Hok'
        & Hfind').
  split; [done|]. exists symbols', stored.
  split; [done|]. split; [done|]. split; [lia|]. done.
Qed.

(** ** Globals *)

Lemma strlen_plain name len : strlen name = Some len → plain name len.
Proof.
  intros Hlen. destruct (strlen_Some name len Hlen) as (H0 & Hl & Hnz & _).
  split; [done|]. split; [lia|done].
Qed.

Lemma findGlobal_stored_spec vm name len symbols' s value :
  symbols_ok (globalSymbols vm) → strlen name = Some len →
  ensureSymbol (globalSymbols vm) name len = Some (symbols', s) →
  findGlobal
    (set_globals (<[s := value]> (globals vm)) (set_globalSymbols symbols' vm))
    name
  = Some value.
Proof.
  intros Hok Hlen Hens. pose proof (strlen_plain name len Hlen) as Hplain.
  destruct (ensureSymbol_spec (globalSymbols vm) name len Hok Hplain)
    as (t & s' & Hens' & _ & _ & _ & Hfind & _).
  rewrite Hens in Hens'. injection Hens' as <- <-.
  unfold findGlobal. rewrite Hlen. simpl. rewrite Hfind. simpl.
  by rewrite lookup_insert_eq.
Qed.

(** X6.  A global that the compiler has declared with [ensureSymbol]
    (on a table with room) gets an index within [vm->globals], and once
    a value is stored there, it is what [findGlobal] returns for the
    name. *)
Theorem findGlobal_returns_the_stored_global {P : Platform}
  vm name len symbols' s value :
  symbols_ok (globalSymbols vm) →
  count (globalSymbols vm) < MAX_SYMBOLS →
  strlen name = Some len →
  ensureSymbol (globalSymbols vm) name len = Some (symbols', s) →
  0 ≤ s < MAX_SYMBOLS ∧
  findGlobal
    (set_globals (<[s := value]> (globals vm)) (set_globalSymbols symbols' vm))
    name
  = Some value.
Proof.
  intros Hok Hroom Hlen Hens. split.
  - destruct (ensureSymbol_spec (globalSymbols vm) name len Hok
                (strlen_plain name len Hlen))
      as (symbols2 & s2 & Hens2 & _ & Hs & Hcount & _).
    rewrite Hens in Hens2. injection Hens2 as <- <-. lia.
  - by apply (findGlobal_stored_spec vm name len).
Qed.

(** X7.  [findGlobal] does not test whether the name is known: for a
    name that no slot of the table holds it reads the cell of [globals]
    at the index -1, before the first global. *)
Theorem findGlobal_of_an_unknown_name_reads_before_the_array vm name len :
  symbols_ok (globalSymbols vm) → strlen name = Some len →
  (∀ i n, 0 ≤ i < count (globalSymbols vm) →
          names (globalSymbols vm) !! i = Some n →
          ¬ names_match n name len) →
  findGlobal vm name = globals vm !! (-1).
Proof.
  intros Hok Hlen Hnone. pose proof (strlen_plain name len Hlen) as Hplain.
  destruct (findSymbol_spec (globalSymbols vm) name len Hok Hplain)
    as (r & Hr & [[-> _]|(Hrange & (n & Hn & Hm) & _)]).
  - unfold findGlobal. rewrite Hlen. simpl. by rewrite Hr.
  - exfalso. by apply (Hnone r n).
Qed.


(** ** More of the interpreter *)

Section Interp_more.
Context {P : Platform}.

(** After [d] bytes of [code] have been consumed, the rest of [code] is
    what the frame fetches next. *)
Lemma fetches_next vm fr code d vm' :
  fetches vm fr code → 0 ≤ d → (Z.to_nat d ≤ length code)%nat →
  numFrames (fiber vm') = numFrames (fiber vm) →
  frames (fiber vm') !! (numFrames (fiber vm) - 1)
  = Some (mkCallFrame (ip fr + d) (fn fr) (stackStart fr)) →
  (∀ f, fn fr = Some f → heap vm' !! f = heap vm !! f) →
  fetches vm' (mkCallFrame (ip fr + d) (fn fr) (stackStart fr))
          (drop (Z.to_nat d) code).
Proof.
  intros (Hfr & f & o & bc & cs & n & Hf & Ho & Hb & Hip & Htake)
         Hd Hlen Hnum Hfr' Hheap.
  split; [by rewrite Hnum|].
  exists f, o, bc, cs, n. simpl.
  split; [done|]. split; [by rewrite (Hheap f Hf)|]. split; [done|].
  split; [lia|].
  rewrite Z2Nat.inj_add by lia. rewrite <- drop_drop.
  rewrite take_drop_commute, length_drop.
  replace (Z.to_nat d + (length code - Z.to_nat d))%nat
    with (length code) by lia.
  by rewrite Htake.
Qed.

Lemma switch_unknown instruction :
  instruction < 0 ∨ CODE_END < instruction → switch instruction = no_case.
Proof.
  intros Hi. unfold switch, CODE_END, CODE_IS, CODE_JUMP_IF, CODE_JUMP,
    CODE_CALL_0, CODE_CALL_10, CODE_CONSTANT,
    CODE_NULL, CODE_FALSE, CODE_TRUE, CODE_CLASS, CODE_SUBCLASS,
    CODE_METACLASS, CODE_METHOD, CODE_LOAD_LOCAL, CODE_STORE_LOCAL,
    CODE_LOAD_GLOBAL, CODE_STORE_GLOBAL, CODE_DUP, CODE_POP in *.
  repeat match goal with
         | |- context [?x =? ?y] =>
             destruct (Z.eqb_spec x y) as [?|_]; [lia|]
         end.
  simpl.
  destruct (Z.leb_spec 14 instruction); [|done].
  destruct (Z.leb_spec instruction 24); [lia|done].
Qed.

(** X8.  The [switch] of [interpret] has no [default]: a byte above
    the last opcode is skipped, and the loop goes on with the byte after it,
    the stack and the objects as they were. *)
Theorem unknown_opcode_is_skipped vm fr instruction rest :
  fetches vm fr (instruction :: rest) →
  CODE_END < instruction →
  step vm = Some (Running (advance vm fr 1)) ∧
  ∀ gas, run (S gas) vm = run gas (advance vm fr 1).
Proof.
  intros Hf Hi.
  assert (step vm = Some (Running (advance vm fr 1))) as Hstep.
  { rewrite (step_fetch vm fr _ _ Hf). unfold exec.
    rewrite switch_unknown; [done|by right]. }
  split; [done|]. intros gas. simpl. by rewrite Hstep.
Qed.

(** A turn of the loop on [STORE_LOCAL]. *)
Lemma step_STORE_LOCAL vm fr local rest top :
  fetches vm fr (CODE_STORE_LOCAL :: local :: rest) →
  PEEK vm = Some top →
  step vm =
    Some (Running (set_stack (<[stackStart fr + local := top]>
                                (stack (fiber vm)))
                             (stackSize (fiber vm)) (advance vm fr 2))).
Proof.
  intros Hf Htop. rewrite (step_fetch vm fr _ _ Hf).
  unfold exec. change (switch CODE_STORE_LOCAL) with case_STORE_LOCAL.
  rewrite (READ_ARG_fetch vm fr _ 1 local Hf) by done. simpl.
  rewrite lookup_insert_eq. simpl.
  unfold PEEK in *. simpl. rewrite Htop. reflexivity.
Qed.

(** A turn of the loop on [LOAD_LOCAL]. *)
Lemma step_LOAD_LOCAL vm fr local rest value :
  fetches vm fr (CODE_LOAD_LOCAL :: local :: rest) →
  stack (fiber vm) !! (stackStart fr + local) = Some value →
  step vm = Some (Running (PUSH (advance vm fr 2) value)).
Proof.
  intros Hf Hv. rewrite (step_fetch vm fr _ _ Hf).
  unfold exec. change (switch CODE_LOAD_LOCAL) with case_LOAD_LOCAL.
  rewrite (READ_ARG_fetch vm fr _ 1 local Hf) by done. simpl.
  rewrite lookup_insert_eq. simpl. rewrite Hv. reflexivity.
Qed.

(** X9.  [STORE_LOCAL] copies the top of the stack into the local (a
    slot of the frame below the top of the stack) and leaves it on the
    stack; a [LOAD_LOCAL] of the same local right after pushes that
    value again. *)
Theorem STORE_LOCAL_then_LOAD_LOCAL vm fr local rest top :
  fetches vm fr
    (CODE_STORE_LOCAL :: local :: CODE_LOAD_LOCAL :: local :: rest) →
  0 ≤ stackStart fr + local < stackSize (fiber vm) →
  PEEK vm = Some top →
  ∃ vm1 vm2,
    step vm = Some (Running vm1) ∧
    stackSize (fiber vm1) = stackSize (fiber vm) ∧
    PEEK vm1 = Some top ∧
    stack (fiber vm1) !! (stackStart fr + local) = Some top ∧
    step vm1 = Some (Running vm2) ∧
    run 2 vm = Some (Running vm2) ∧
    stackSize (fiber vm2) = stackSize (fiber vm) + 1 ∧
    PEEK vm2 = Some top ∧
    stack (fiber vm2) !! (stackStart fr + local) = Some top ∧
    frames (fiber vm2) !! (numFrames (fiber vm) - 1)
    = Some (mkCallFrame (ip fr + 4) (fn fr) (stackStart fr)).
Proof.
  intros Hf Hslot Htop.
  pose proof (step_STORE_LOCAL vm fr local _ top Hf Htop) as Hs1.
  set (vm1 := set_stack (<[stackStart fr + local := top]> (stack (fiber vm)))
                        (stackSize (fiber vm)) (advance vm fr 2)) in *.
  assert (fetches vm1 (mkCallFrame (ip fr + 2) (fn fr) (stackStart fr))
                  (CODE_LOAD_LOCAL :: local :: rest)) as Hf1.
  { apply (fetches_next vm fr _ 2 vm1 Hf); simpl; try done; try lia.
    by rewrite lookup_insert_eq. }
  assert (stack (fiber vm1) !! (stackStart fr + local) = Some top) as Hl.
  { simpl. by rewrite lookup_insert_eq. }
  assert (PEEK vm1 = Some top) as Htop1.
  { unfold PEEK in *. simpl.
    destruct (decide (stackStart fr + local = stackSize (fiber vm) - 1))
      as [->|Hne].
    - by rewrite lookup_insert_eq.
    - by rewrite lookup_insert_ne. }
  pose proof (step_LOAD_LOCAL vm1 _ local rest top Hf1 Hl) as Hs2.
  eexists vm1, _. split; [exact Hs1|]. split; [done|]. split; [done|].
  split; [done|]. split; [exact Hs2|].
  split; [simpl; rewrite Hs1; simpl; by rewrite Hs2|].
  unfold PEEK. simpl. split; [done|].
  replace (stackSize (fiber vm) + 1 - 1) with (stackSize (fiber vm)) by lia.
  rewrite lookup_insert_eq. split; [done|].
  split.
  - destruct (decide (stackSize (fiber vm) = stackStart fr + local))
      as [->|Hne].
    + by rewrite lookup_insert_eq.
    + rewrite lookup_insert_ne by done. by rewrite lookup_insert_eq.
  - rewrite insert_insert_eq, lookup_insert_eq. simpl.
    f_equal. f_equal. lia.
Qed.

(** A turn of the loop on [STORE_GLOBAL]. *)
Lemma step_STORE_GLOBAL vm fr global rest top :
  fetches vm fr (CODE_STORE_GLOBAL :: global :: rest) →
  PEEK vm = Some top →
  step vm =
    Some (Running (set_globals (<[global := top]> (globals vm))
                               (advance vm fr 2))).
Proof.
  intros Hf Htop. rewrite (step_fetch vm fr _ _ Hf).
  unfold exec. change (switch CODE_STORE_GLOBAL) with case_STORE_GLOBAL.
  rewrite (READ_ARG_fetch vm fr _ 1 global Hf) by done. simpl.
  unfold PEEK in *. simpl. rewrite Htop. reflexivity.
Qed.

(** A turn of the loop on [LOAD_GLOBAL]. *)
Lemma step_LOAD_GLOBAL vm fr global rest value :
  fetches vm fr (CODE_LOAD_GLOBAL :: global :: rest) →
  globals vm !! global = Some value →
  step vm = Some (Running (PUSH (advance vm fr 2) value)).
Proof.
  intros Hf Hv. rewrite (step_fetch vm fr _ _ Hf).
  unfold exec. change (switch CODE_LOAD_GLOBAL) with case_LOAD_GLOBAL.
  rewrite (READ_ARG_fetch vm fr _ 1 global Hf) by done. simpl.
  rewrite Hv. reflexivity.
Qed.

(** X10.  [STORE_GLOBAL] copies the top of the stack into the global
    (a cell of [vm->globals]) and leaves it on the stack; from then on [LOAD_GLOBAL] of that
    global pushes the value, and [findGlobal] returns it for a name
    whose symbol is the global's index. *)
Theorem STORE_GLOBAL_then_LOAD_GLOBAL vm fr global rest top :
  fetches vm fr
    (CODE_STORE_GLOBAL :: global :: CODE_LOAD_GLOBAL :: global :: rest) →
  0 ≤ global < MAX_SYMBOLS →
  PEEK vm = Some top →
  ∃ vm1 vm2,
    step vm = Some (Running vm1) ∧
    fiber vm1 = fiber (advance vm fr 2) ∧
    globals vm1 = <[global := top]> (globals vm) ∧
    (∀ name len, strlen name = Some len →
                 findSymbol (globalSymbols vm) name len = Some global →
                 findGlobal vm1 name = Some top) ∧
    step vm1 = Some (Running vm2) ∧
    run 2 vm = Some (Running vm2) ∧
    stackSize (fiber vm2) = stackSize (fiber vm) + 1 ∧
    PEEK vm2 = Some top ∧
    globals vm2 = <[global := top]> (globals vm).
Proof.
  intros Hf Hslot Htop.
  pose proof (step_STORE_GLOBAL vm fr global _ top Hf Htop) as Hs1.
  set (vm1 := set_globals (<[global := top]> (globals vm))
                          (advance vm fr 2)) in *.
  assert (fetches vm1 (mkCallFrame (ip fr + 2) (fn fr) (stackStart fr))
                  (CODE_LOAD_GLOBAL :: global :: rest)) as Hf1.
  { apply (fetches_next vm fr _ 2 vm1 Hf); simpl; try done; try lia.
    by rewrite lookup_insert_eq. }
  assert (globals vm1 !! global = Some top) as Hg.
  { simpl. by rewrite lookup_insert_eq. }
  pose proof (step_LOAD_GLOBAL vm1 _ global rest top Hf1 Hg) as Hs2.
  eexists vm1, _. split; [exact Hs1|]. split; [done|]. split; [done|].
  split.
  { intros name len Hlen Hfind. unfold findGlobal. rewrite Hlen. simpl.
    rewrite Hfind. simpl. by rewrite lookup_insert_eq. }
  split; [exact Hs2|].
  split; [simpl; rewrite Hs1; simpl; by rewrite Hs2|].
  unfold PEEK. simpl. split; [done|].
  replace (stackSize (fiber vm) + 1 - 1) with (stackSize (fiber vm)) by lia.
  by rewrite lookup_insert_eq.
Qed.

End Interp_more.

(** ** Calls of block methods *)

Section Calls.
Context {P : Platform}.

(** The dispatch of [CALL_N] up to the [switch] on the method's type. *)
Lemma step_CALL_method vm fr N symbol rest receiver a o mc sc ms method :
  0 ≤ N ≤ 10 →
  fetches vm fr (CODE_CALL_0 + N :: symbol :: rest) →
  stack (fiber vm) !! (stackSize (fiber vm) - (N + 1)) = Some receiver →
  getClass vm receiver = Some (Some a) →
  heap vm !! a = Some o → body o = ObjClass mc sc ms →
  ms !! symbol = Some method →
  method = METHOD_NONE ∨ (∃ callee, method = METHOD_BLOCK callee) →
  step vm =
    match method with
    | METHOD_BLOCK callee =>
        Some (Running (set_fiber (callFunction (fiber (advance vm fr 2))
                                               callee (N + 1))
                                 (advance vm fr 2)))
    | _ =>
        _ ← printValue vm receiver;
        name ← names (methods vm) !! symbol;
        _ ← strlen name;
        Some (Exited (advance vm fr 2))
    end.
Proof.
  intros HN Hf Hrecv Hclass Ho Hb Hm Hkind. rewrite (step_fetch vm fr _ _ Hf).
  unfold exec. rewrite switch_CALL by done. unfold exec_CALL.
  rewrite (READ_ARG_fetch vm fr _ 1 symbol Hf) by done.
  cbn [mbind option_bind].
  replace (CODE_CALL_0 + N - CODE_CALL_0 + 1) with (N + 1) by lia.
  change (stack (fiber (advance vm fr (1 + 1)))) with (stack (fiber vm)).
  change (stackSize (fiber (advance vm fr (1 + 1))))
    with (stackSize (fiber vm)).
  rewrite Hrecv. cbn [mbind option_bind].
  assert (getClass (advance vm fr (1 + 1)) receiver = Some (Some a)) as ->.
  { rewrite <- Hclass. by destruct receiver. }
  cbn [mbind option_bind]. unfold class_at.
  change (heap (advance vm fr (1 + 1))) with (heap vm).
  cbn [mbind option_bind]. rewrite Ho. cbn [mbind option_bind].
  rewrite Hb. cbn [mbind option_bind]. rewrite Hm. cbn [mbind option_bind].
  by destruct Hkind as [->|[callee ->]].
Qed.

(** X11.  [CALL_N] on a method that is a block pushes a frame for the
    block: it starts at the block's first byte, and its locals lie over
    the receiver and the [N] arguments, which stay where the caller
    pushed them.  The caller's frame is left behind at the byte after
    the operand. *)
Theorem CALL_block_pushes_a_frame_over_the_arguments
  vm fr N symbol rest receiver a o mc sc ms callee :
  0 ≤ N ≤ 10 →
  fetches vm fr (CODE_CALL_0 + N :: symbol :: rest) →
  stack (fiber vm) !! (stackSize (fiber vm) - (N + 1)) = Some receiver →
  getClass vm receiver = Some (Some a) →
  heap vm !! a = Some o → body o = ObjClass mc sc ms →
  ms !! symbol = Some (METHOD_BLOCK callee) →
  ∃ vm',
    step vm = Some (Running vm') ∧
    numFrames (fiber vm') = numFrames (fiber vm) + 1 ∧
    frames (fiber vm') !! numFrames (fiber vm)
    = Some (mkCallFrame 0 callee (stackSize (fiber vm) - (N + 1))) ∧
    frames (fiber vm') !! (numFrames (fiber vm) - 1)
    = Some (mkCallFrame (ip fr + 2) (fn fr) (stackStart fr)) ∧
    stack (fiber vm') = stack (fiber vm) ∧
    stackSize (fiber vm') = stackSize (fiber vm) ∧
    heap vm' = heap vm ∧
    (∀ i, 0 ≤ i ≤ N →
          stack (fiber vm') !! (stackSize (fiber vm) - (N + 1) + i)
          = stack (fiber vm) !! (stackSize (fiber vm) - (N + 1) + i)).
Proof.
  intros HN Hf Hrecv Hclass Ho Hb Hm.
  rewrite (step_CALL_method vm fr N symbol rest receiver a o mc sc ms _
             HN Hf Hrecv Hclass Ho Hb Hm) by eauto.
  eexists. split; [reflexivity|]. simpl.
  rewrite lookup_insert_eq. rewrite lookup_insert_ne by lia.
  rewrite lookup_insert_eq. done.
Qed.

(** A turn of the loop on [END] in a frame that is not the outermost. *)
Lemma step_END_inner vm fr rest result :
  fetches vm fr (CODE_END :: rest) →
  PEEK vm = Some result →
  numFrames (fiber vm) ≠ 1 →
  step vm =
    Some (Running
            (set_stack (<[stackStart fr := result]> (stack (fiber vm)))
               (stackStart fr + 1)
               (set_frames (frames (fiber (advance vm fr 1)))
                  (numFrames (fiber vm) - 1) (advance vm fr 1)))).
Proof.
  intros Hf Htop Hn. rewrite (step_fetch vm fr _ _ Hf).
  unfold exec. change (switch CODE_END) with case_END.
  unfold exec_END, POP. unfold PEEK in Htop. simpl. rewrite Htop. simpl.
  destruct (Z.eqb_spec (numFrames (fiber vm) - 1) 0) as [?|_]; [lia|].
  rewrite lookup_insert_eq. simpl. reflexivity.
Qed.

(** X12.  The call protocol, end to end, on a block whose body is
    [LOAD_LOCAL i; END]: [CALL_N] runs the block in a frame over the
    receiver and the arguments, local [i] of the block is the [i]-th of
    them, and [END] hands it back in the receiver's slot, with the [N]
    arguments gone and the caller resumed after the operand of
    [CALL_N]: the stack effect that a primitive has. *)
Theorem CALL_of_a_block_returning_a_parameter
  vm fr N symbol rest receiver a o mc sc ms f ofn bytecode constants n i arg :
  0 ≤ N ≤ 10 →
  1 ≤ numFrames (fiber vm) →
  fetches vm fr (CODE_CALL_0 + N :: symbol :: rest) →
  stack (fiber vm) !! (stackSize (fiber vm) - (N + 1)) = Some receiver →
  getClass vm receiver = Some (Some a) →
  heap vm !! a = Some o → body o = ObjClass mc sc ms →
  ms !! symbol = Some (METHOD_BLOCK (Some f)) →
  heap vm !! f = Some ofn → body ofn = ObjFn bytecode constants n →
  take 3 bytecode = [CODE_LOAD_LOCAL; i; CODE_END] →
  stack (fiber vm) !! (stackSize (fiber vm) - (N + 1) + i) = Some arg →
  ∃ vm',
    run 3 vm = Some (Running vm') ∧
    numFrames (fiber vm') = numFrames (fiber vm) ∧
    frames (fiber vm') !! (numFrames (fiber vm) - 1)
    = Some (mkCallFrame (ip fr + 2) (fn fr) (stackStart fr)) ∧
    stackSize (fiber vm') = stackSize (fiber vm) - N ∧
    stack (fiber vm') !! (stackSize (fiber vm) - (N + 1)) = Some arg ∧
    (∀ j, j < stackSize (fiber vm) - (N + 1) →
          stack (fiber vm') !! j = stack (fiber vm) !! j) ∧
    heap vm' = heap vm.
Proof.
  intros HN Hnum Hf Hrecv Hclass Ho Hb Hm Hfn Hbody Hcode Harg.
  pose proof (step_CALL_method vm fr N symbol rest receiver a o mc sc ms _
                HN Hf Hrecv Hclass Ho Hb Hm ltac:(eauto)) as Hs1.
  cbn iota in Hs1.
  set (vm1 := set_fiber (callFunction (fiber (advance vm fr 2)) (Some f)
                                      (N + 1)) (advance vm fr 2)) in *.
  set (fr1 := mkCallFrame 0 (Some f) (stackSize (fiber vm) - (N + 1))).
  assert (fetches vm1 fr1 [CODE_LOAD_LOCAL; i; CODE_END]) as Hf1.
  { split.
    - simpl. replace (numFrames (fiber vm) + 1 - 1)
        with (numFrames (fiber vm)) by lia.
      by rewrite lookup_insert_eq.
    - exists f, ofn, bytecode, constants, n. simpl.
      rewrite drop_0. done. }
  assert (stack (fiber vm1) !! (stackStart fr1 + i) = Some arg) as Harg1
    by done.
  pose proof (step_LOAD_LOCAL vm1 fr1 i _ arg Hf1 Harg1) as Hs2.
  set (vm2 := PUSH (advance vm1 fr1 2) arg) in *.
  assert (fetches vm2 (mkCallFrame (ip fr1 + 2) (fn fr1) (stackStart fr1))
                  [CODE_END]) as Hf2.
  { apply (fetches_next vm1 fr1 _ 2 vm2 Hf1); simpl; try done; try lia.
    by rewrite lookup_insert_eq. }
  assert (PEEK vm2 = Some arg) as Htop2.
  { unfold PEEK. simpl.
    replace (stackSize (fiber vm) + 1 - 1) with (stackSize (fiber vm)) by lia.
    by rewrite lookup_insert_eq. }
  assert (numFrames (fiber vm2) ≠ 1) as Hn2 by (simpl; lia).
  pose proof (step_END_inner vm2 _ _ arg Hf2 Htop2 Hn2) as Hs3.
  eexists. split.
  { simpl. rewrite Hs1. simpl. rewrite Hs2. simpl. rewrite Hs3. reflexivity. }
  simpl. split; [lia|].
  replace (numFrames (fiber vm) + 1 - 1) with (numFrames (fiber vm)) by lia.
  split.
  { rewrite lookup_insert_ne by lia. rewrite lookup_insert_ne by lia.
    rewrite lookup_insert_ne by lia. by rewrite lookup_insert_eq. }
  split; [lia|]. split; [by rewrite lookup_insert_eq|]. split; [|done].
  intros j Hj. rewrite lookup_insert_ne by lia.
  rewrite lookup_insert_ne; [done|].
  pose proof (proj1 HN). lia.
Qed.

(** X13.  [CALL_N] on a slot that holds no method prints the receiver
    and the name that [vm->methods] holds for the symbol, and ends the
    process ([exit (1)]): no value is returned to the caller of
    [interpret], however many turns the loop is given.  The message
    reads the name, so the symbol must have one. *)
Theorem CALL_of_a_missing_method_exits
  vm fr N symbol rest receiver a o mc sc ms name len :
  0 ≤ N ≤ 10 →
  fetches vm fr (CODE_CALL_0 + N :: symbol :: rest) →
  stack (fiber vm) !! (stackSize (fiber vm) - (N + 1)) = Some receiver →
  getClass vm receiver = Some (Some a) →
  heap vm !! a = Some o → body o = ObjClass mc sc ms →
  ms !! symbol = Some METHOD_NONE →
  printValue vm receiver = Some () →
  names (methods vm) !! symbol = Some name → strlen name = Some len →
  step vm = Some (Exited (advance vm fr 2)) ∧
  (∀ gas, run (S gas) vm = Some (Exited (advance vm fr 2))) ∧
  (∀ vm0 fn0 n gas,
     interpret n vm0 fn0 = Some (Running vm) →
     interpret (n + S gas) vm0 fn0 = Some (Exited (advance vm fr 2))).
Proof.
  intros HN Hf Hrecv Hclass Ho Hb Hm Hprint Hname Hlen.
  pose proof (step_CALL_method vm fr N symbol rest receiver a o mc sc ms _
                HN Hf Hrecv Hclass Ho Hb Hm ltac:(eauto)) as Hs.
  cbn iota in Hs. rewrite Hprint in Hs. cbn [mbind option_bind] in Hs.
  rewrite Hname in Hs. cbn [mbind option_bind] in Hs.
  rewrite Hlen in Hs. cbn [mbind option_bind] in Hs.
  assert (∀ gas, run (S gas) vm = Some (Exited (advance vm fr 2))) as Hrun.
  { intros gas. simpl. by rewrite Hs. }
  split; [done|]. split; [done|].
  intros vm0 fn0 n gas Hint. unfold interpret in *.
  rewrite (run_add n (S gas) _ vm Hint). apply Hrun.
Qed.

(** X14.  [IS] pops a class and a value and pushes [True] exactly when
    the class of the value is that very class object.  Superclasses are
    not looked at: for an instance of a class whose superclass is the
    class asked for, the answer is [False]. *)
Theorem IS_compares_the_class_by_identity
  vm fr rest obj expected actual :
  fetches vm fr (CODE_IS :: rest) →
  stack (fiber vm) !! (stackSize (fiber vm) - 1) = Some (VAL_OBJ expected) →
  stack (fiber vm) !! (stackSize (fiber vm) - 2) = Some obj →
  getClass vm obj = Some actual →
  ∃ vm',
    step vm = Some (Running vm') ∧
    stackSize (fiber vm') = stackSize (fiber vm) - 1 ∧
    PEEK vm' = Some (BOOL_VAL (bool_decide (actual = expected))) ∧
    heap vm' = heap vm ∧
    (∀ sub osub mc ms,
       actual = Some sub → heap vm !! sub = Some osub →
       body osub = ObjClass mc expected ms → expected ≠ Some sub →
       PEEK vm' = Some VAL_FALSE).
Proof.
  intros Hf Hc Hobj Hclass. rewrite (step_fetch vm fr _ _ Hf).
  unfold exec. change (switch CODE_IS) with case_IS.
  unfold POP. simpl. rewrite Hc. simpl.
  replace (stackSize (fiber vm) - 1 - 1) with (stackSize (fiber vm) - 2)
    by lia.
  rewrite Hobj. simpl.
  assert (getClass
            (set_stack (stack (fiber vm)) (stackSize (fiber vm) - 2)
               (set_stack (stack (fiber vm)) (stackSize (fiber vm) - 1)
                  (advance vm fr 1))) obj = Some actual) as ->.
  { rewrite <- Hclass. by destruct obj. }
  simpl. eexists. split; [reflexivity|]. unfold PEEK. simpl.
  split; [lia|].
  replace (stackSize (fiber vm) - 2 + 1 - 1) with (stackSize (fiber vm) - 2)
    by lia.
  rewrite lookup_insert_eq. split; [done|]. split; [done|].
  intros sub osub mc ms -> _ _ Hne.
  rewrite bool_decide_eq_false_2; [done|]. congruence.
Qed.


End Calls.

(** ** More of the collector *)

Section Collector.
Context {P : Platform}.
Hypothesis FLAG_MARKED_nonzero : FLAG_MARKED ≠ 0.

Lemma sublist_all {A} (k l : list A) :
  NoDup l → sublist k l → (∀ a, a ∈ l → a ∈ k) → k = l.
Proof.
  intros Hnd Hsub. induction Hsub as [|x k l Hsub IH|x k l Hsub IH];
    intros Hall; [done| |].
  - f_equal. apply NoDup_cons in Hnd as [Hx Hnd]. apply IH; [done|].
    intros a Ha. pose proof (Hall a ltac:(by right)) as Hk.
    apply elem_of_cons in Hk as [->|Hk]; done.
  - exfalso. apply NoDup_cons in Hnd as [Hx Hnd]. apply Hx.
    pose proof (Hall x ltac:(by left)) as Hk.
    by apply (elem_of_sublist k l).
Qed.

(** X15.  A collection leaves the VM in the state in which a
    collection may start: the object list holds the survivors in their
    old order and nothing else is in memory, no survivor carries the
    mark bit, every pointer that the mark phase follows leads to a live
    object, and the roots and the contents of the survivors are those of
    before. *)
Theorem collectGarbage_leaves_a_collectable_state vm l :
  gc_ready vm l →
  ∃ vm' l',
    collectGarbage vm = Some vm' ∧
    gc_ready vm' l' ∧
    sublist l' l ∧
    same_roots vm vm' ∧
    (∀ a o', heap vm' !! a = Some o' →
       ∃ o, heap vm !! a = Some o ∧ body o' = body o ∧ is_marked o' = false).
Proof.
  intros Hready.
  destruct (collectGarbage_spec FLAG_MARKED_nonzero vm l Hready)
    as (vm' & l' & Hgc & Hl' & Hsub & _ & _ & Hbody & Hroots & _).
  destruct (collectGarbage_ready FLAG_MARKED_nonzero vm l Hready)
    as (vm2 & l2 & Hgc2 & Hready2 & _).
  rewrite Hgc in Hgc2. injection Hgc2 as <-.
  assert (l2 = l') as ->.
  { apply (object_list_det (heap vm') (first vm')); [apply Hready2|done]. }
  by exists vm', l'.
Qed.

(** X16.  The mark phase follows no pointer from an instance to its
    class: an instance that a root holds survives a collection, but its
    class is freed when nothing else reaches it, and the instance then
    points to freed memory. *)
Theorem collectGarbage_frees_the_class_of_a_live_instance vm l i oi c :
  gc_ready vm l →
  root vm i → heap vm !! i = Some oi → body oi = ObjInstance (Some c) →
  c ∈ l → ¬ reachable vm c →
  ∃ vm' oi',
    collectGarbage vm = Some vm' ∧
    heap vm' !! i = Some oi' ∧ body oi' = ObjInstance (Some c) ∧
    heap vm' !! c = None ∧
    getClass vm' (VAL_OBJ (Some i)) = Some (Some c).
Proof.
  intros Hready Hroot Hi Hbody Hc Hnot.
  destruct (collectGarbage_spec FLAG_MARKED_nonzero vm l Hready)
    as (vm' & l' & Hgc & _ & _ & _ & Hlive & Hsame & _).
  assert (reachable vm i) as Hri by (exists i; split; [done|apply rtc_refl]).
  destruct (proj2 (Hlive i) Hri) as [oi' Hi'].
  destruct (Hsame i oi' Hi') as (o0 & Ho0 & Hb & _).
  rewrite Hi in Ho0. injection Ho0 as <-.
  assert (heap vm' !! c = None) as Hnone.
  { destruct (heap vm' !! c) as [oc|] eqn:Hoc; [|done].
    exfalso. apply Hnot, Hlive. by rewrite Hoc. }
  exists vm', oi'. split; [done|]. split; [done|].
  split; [by rewrite Hb|]. split; [done|].
  simpl. rewrite Hi'. simpl. by rewrite Hb, Hbody.
Qed.

Lemma heap_bytes_delete h a o :
  h !! a = Some o → heap_bytes (delete a h) = heap_bytes h - obj_size o.
Proof.
  intros Ha. unfold heap_bytes. rewrite fmap_delete.
  rewrite (map_fold_delete_L _ 0 a (obj_size o) (obj_size <$> h)).
  - lia.
  - intros. lia.
  - by rewrite lookup_fmap, Ha.
Qed.

Lemma heap_bytes_same h h' :
  (∀ a, obj_size <$> (h' !! a) = obj_size <$> (h !! a)) →
  heap_bytes h' = heap_bytes h.
Proof.
  intros Hsame. unfold heap_bytes. f_equal. apply map_eq. intros a.
  by rewrite !lookup_fmap.
Qed.

Lemma heap_bytes_insert h a o o' :
  h !! a = Some o → obj_size o' = obj_size o →
  heap_bytes (<[a := o']> h) = heap_bytes h.
Proof.
  intros Ha Hs. apply heap_bytes_same. intros x.
  destruct (decide (x = a)) as [->|Hne].
  - rewrite lookup_insert_eq, Ha. simpl. by rewrite Hs.
  - by rewrite lookup_insert_ne.
Qed.

Lemma store_slot_bytes vm s p vm' :
  store_slot vm s p = Some vm' →
  heap_bytes (heap vm') = heap_bytes (heap vm) ∧
  totalAllocated vm' = totalAllocated vm.
Proof.
  destruct s as [|b]; simpl.
  - by intros [= <-].
  - destruct (heap vm !! b) as [o|] eqn:Hb; [|done]. simpl. intros [= <-].
    simpl. split; [|done]. by apply (heap_bytes_insert _ _ o).
Qed.

(** What the sweep loop keeps: [totalAllocated] minus the sizes of the
    objects in memory, modulo the range of [size_t]. *)
Lemma sweep_bytes gas : ∀ vm s vm',
  sweep gas vm s = Some vm' →
  (totalAllocated vm' - heap_bytes (heap vm')) mod 2 ^ 64
  = (totalAllocated vm - heap_bytes (heap vm)) mod 2 ^ 64 ∧
  (0 ≤ totalAllocated vm < 2 ^ 64 → 0 ≤ totalAllocated vm' < 2 ^ 64).
Proof.
  induction gas as [|gas IH]; intros vm s vm' Hsweep; [done|].
  cbn [sweep] in Hsweep.
  destruct (load_slot vm s) as [[a|]|]; cbn [mbind option_bind] in Hsweep;
    [|by injection Hsweep as <-|done].
  destruct (heap vm !! a) as [o|] eqn:Ha; cbn [mbind option_bind] in Hsweep;
    [|done].
  destruct (is_marked o); cbn [negb] in Hsweep.
  - apply IH in Hsweep as [Hmod Hrange]. simpl in *.
    rewrite (heap_bytes_insert _ _ o) in Hmod by done. done.
  - destruct (store_slot vm s (next o)) as [vm1|] eqn:Hstore;
      cbn [mbind option_bind] in Hsweep; [|done].
    destruct (store_slot_bytes _ _ _ _ Hstore) as [Hb1 Ht1].
    unfold freeObj in Hsweep.
    destruct (heap vm1 !! a) as [o1|] eqn:Ha1;
      cbn [mbind option_bind] in Hsweep; [|done].
    destruct (freed_size o1) as [size|] eqn:Hsize;
      cbn [mbind option_bind] in Hsweep; [|done].
    apply IH in Hsweep as [Hmod Hrange]. simpl in *.
    rewrite (heap_bytes_delete _ _ o1 Ha1) in Hmod.
    unfold obj_size in Hmod. rewrite Hsize in Hmod. simpl in Hmod.
    split.
    + rewrite Hmod, Hb1, Ht1. unfold size_t.
      rewrite Zminus_mod_idemp_l. f_equal. lia.
    + intros _. apply Hrange. unfold size_t. apply Z.mod_pos_bound. lia.
Qed.

Lemma mark_ext_bytes h h' : mark_ext h h' → heap_bytes h' = heap_bytes h.
Proof.
  intros Hext. apply heap_bytes_same. intros a. specialize (Hext a).
  destruct Hext as [o o' [->|[_ ->]]|]; done.
Qed.

Lemma collectGarbage_bytes vm l :
  gc_ready vm l →
  ∃ vm',
    collectGarbage vm = Some vm' ∧
    (totalAllocated vm' - heap_bytes (heap vm')) mod 2 ^ 64
    = (totalAllocated vm - heap_bytes (heap vm)) mod 2 ^ 64 ∧
    (0 ≤ totalAllocated vm < 2 ^ 64 → 0 ≤ totalAllocated vm' < 2 ^ 64).
Proof.
  intros Hready.
  destruct (collectGarbage_spec FLAG_MARKED_nonzero vm l Hready)
    as (vm' & l' & Hgc & _).
  exists vm'. split; [done|].
  destruct Hready as (_ & _ & Hok & _ & Hroots).
  destruct (mark_roots_spec FLAG_MARKED_nonzero vm Hok Hroots)
    as (hm & Hmark & [Hext _] & _).
  unfold collectGarbage in Hgc. rewrite Hmark in Hgc.
  cbn [mbind option_bind] in Hgc.
  destruct (sweep _ _ _) as [vm1|] eqn:Hsweep; [|done].
  injection Hgc as <-.
  apply sweep_bytes in Hsweep as [Hmod Hrange]. simpl in *.
  by rewrite (mark_ext_bytes _ _ Hext) in Hmod.
Qed.


(** X17.  A collection keeps the books: [totalAllocated] goes down by
    what [freeObj] computes for the objects that are freed, so that
    [totalAllocated] minus the sizes of the objects in memory is the
    same before and after, modulo the range of [size_t]. *)
Theorem collectGarbage_keeps_the_balance vm l :
  gc_ready vm l →
  ∃ vm',
    collectGarbage vm = Some vm' ∧
    (totalAllocated vm' - heap_bytes (heap vm')) mod 2 ^ 64
    = (totalAllocated vm - heap_bytes (heap vm)) mod 2 ^ 64 ∧
    (0 ≤ totalAllocated vm < 2 ^ 64 → 0 ≤ totalAllocated vm' < 2 ^ 64).
Proof. apply collectGarbage_bytes. Qed.

(** X18.  A second collection right after the first finds nothing to
    free: the object list, the contents of the objects and
    [totalAllocated] stay as the first one left them. *)
Theorem collectGarbage_twice_frees_nothing_more vm l :
  gc_ready vm l → 0 ≤ totalAllocated vm < 2 ^ 64 →
  ∃ vm1 vm2 l',
    collectGarbage vm = Some vm1 ∧
    collectGarbage vm1 = Some vm2 ∧
    object_list (heap vm1) (first vm1) l' ∧
    object_list (heap vm2) (first vm2) l' ∧
    dom (heap vm2) = dom (heap vm1) ∧
    (∀ a o1, heap vm1 !! a = Some o1 →
       ∃ o2, heap vm2 !! a = Some o2 ∧ body o2 = body o1) ∧
    totalAllocated vm2 = totalAllocated vm1.
Proof.
  intros Hready Htotal.
  destruct (collectGarbage_spec FLAG_MARKED_nonzero vm l Hready)
    as (vm1 & l' & Hgc1 & _ & _ & Hl' & Hlive1 & _).
  destruct (collectGarbage_ready FLAG_MARKED_nonzero vm l Hready)
    as (vm1' & l1 & Hgc1' & Hready1 & _ & Hreach1 & _).
  rewrite Hgc1 in Hgc1'. injection Hgc1' as <-.
  destruct (collectGarbage_spec FLAG_MARKED_nonzero vm1 l1 Hready1)
    as (vm2 & l2 & Hgc2 & Hlist2 & Hsub & Hl2 & Hlive2 & Hsame2 & _).
  assert (l2 = l1) as ->.
  { pose proof Hready1 as (Hol1 & Hdom1 & _).
    apply sublist_all; [by apply (object_list_NoDup _ _ _ Hol1)|done|].
    intros a Ha. apply Hl2, Hreach1, Hlive1.
    apply elem_of_dom. rewrite Hdom1. by apply elem_of_list_to_set. }
  assert (∀ a, is_Some (heap vm2 !! a) ↔ is_Some (heap vm1 !! a)) as Hdom.
  { intros a. rewrite Hlive2, Hreach1, Hlive1. done. }
  assert (∀ a o1, heap vm1 !! a = Some o1 →
            ∃ o2, heap vm2 !! a = Some o2 ∧ body o2 = body o1) as Hbodies.
  { intros a o1 Ha. destruct (proj2 (Hdom a) ltac:(by rewrite Ha)) as [o2 Ho2].
    exists o2. split; [done|]. destruct (Hsame2 a o2 Ho2) as (o & Ho & Hb & _).
    rewrite Ha in Ho. by injection Ho as <-. }
  assert (heap_bytes (heap vm2) = heap_bytes (heap vm1)) as Hbytes.
  { apply heap_bytes_same. intros a.
    destruct (heap vm1 !! a) as [o1|] eqn:Ha.
    - destruct (Hbodies a o1 Ha) as (o2 & -> & Hb). simpl.
      unfold obj_size, freed_size. by rewrite Hb.
    - destruct (heap vm2 !! a) as [o2|] eqn:Ha2; [|done].
      destruct (proj1 (Hdom a) ltac:(by rewrite Ha2)) as [? ?]. congruence. }
  destruct (collectGarbage_bytes vm l Hready)
    as (v1 & Hv1 & _ & Hrange1).
  rewrite Hgc1 in Hv1. injection Hv1 as <-.
  destruct (collectGarbage_bytes vm1 l1 Hready1)
    as (v2 & Hv2 & Hmod2 & Hrange2).
  rewrite Hgc2 in Hv2. injection Hv2 as <-.
  exists vm1, vm2, l1. split; [done|]. split; [done|].
  split; [apply Hready1|]. split; [done|].
  split; [by apply set_eq; intros a; rewrite !elem_of_dom|].
  split; [done|].
  rewrite Hbytes in Hmod2.
  specialize (Hrange1 Htotal). specialize (Hrange2 Hrange1).
  assert (totalAllocated vm2 mod 2 ^ 64 = totalAllocated vm1 mod 2 ^ 64)
    as Heq.
  { replace (totalAllocated vm2)
      with ((totalAllocated vm2 - heap_bytes (heap vm1))
            + heap_bytes (heap vm1)) by lia.
    rewrite <- Zplus_mod_idemp_l, Hmod2, Zplus_mod_idemp_l. f_equal. lia. }
  rewrite !Z.mod_small in Heq by lia. done.
Qed.

End Collector.

(** ** Pins, strings and instances *)

Section Constructors.
Context {P : Platform}.
Hypothesis FLAG_MARKED_nonzero : FLAG_MARKED ≠ 0.

(** Moving the [ip] of the top frame changes neither the roots nor the
    readiness for a collection. *)
Lemma advance_root vm fr d a :
  frames (fiber vm) !! (numFrames (fiber vm) - 1) = Some fr →
  root (advance vm fr d) a ↔ root vm a.
Proof.
  intros Hfr. unfold root. simpl.
  apply or_iff_compat_l, or_iff_compat_l, or_iff_compat_r.
  split; intros (k & fr0 & Hk & Hlook & Hfn).
  - destruct (decide (k = numFrames (fiber vm) - 1)) as [->|Hne].
    + rewrite lookup_insert_eq in Hlook. injection Hlook as <-.
      by exists (numFrames (fiber vm) - 1), fr.
    + rewrite lookup_insert_ne in Hlook by done. by exists k, fr0.
  - destruct (decide (k = numFrames (fiber vm) - 1)) as [->|Hne].
    + rewrite Hfr in Hlook. injection Hlook as <-.
      eexists (numFrames (fiber vm) - 1), _.
      rewrite lookup_insert_eq. done.
    + exists k, fr0. by rewrite lookup_insert_ne.
Qed.

Lemma advance_reachable vm fr d a :
  frames (fiber vm) !! (numFrames (fiber vm) - 1) = Some fr →
  reachable (advance vm fr d) a ↔ reachable vm a.
Proof.
  intros Hfr. unfold reachable.
  split; intros (r & Hr & Hpath); exists r; (split; [|done]);
    by apply (advance_root vm fr d r Hfr).
Qed.

Lemma advance_ready vm fr d l :
  frames (fiber vm) !! (numFrames (fiber vm) - 1) = Some fr →
  gc_ready vm l → gc_ready (advance vm fr d) l.
Proof.
  intros Hfr (Hl & Hdom & Hok & Hun & Hg & Hp & Hf & Hs).
  split; [done|]. split; [done|]. split; [done|]. split; [done|].
  split; [done|]. split; [done|]. split; [|done].
  rewrite Forall_forall in Hf. apply Forall_forall. intros k Hk. simpl.
  specialize (Hf k Hk).
  destruct (decide (k = numFrames (fiber vm) - 1)) as [->|Hne].
  - rewrite lookup_insert_eq. simpl. by rewrite Hfr in Hf.
  - by rewrite lookup_insert_ne.
Qed.

(** X19.  What [pinObj] is for: an object that was pinned is in memory,
    unchanged, after the next [allocate], whether that call collects or
    not; an object that nothing reaches is gone after an [allocate] that
    collects. *)
Theorem pinObj_protects_from_the_next_collection vm l b o vm1 size :
  gc_ready vm l → 0 ≤ numPinned vm →
  heap vm !! b = Some o →
  pinObj vm (OBJ_VAL (Some b)) = Some vm1 →
  (∃ vm2 a chunk o',
     allocate vm1 size = Some (vm2, a, chunk) ∧
     heap vm2 !! b = Some o' ∧ body o' = body o ∧ a ≠ b) ∧
  (¬ reachable vm b → nextGC vm < size_t (totalAllocated vm + size) →
   ∃ vm2 a chunk,
     allocate vm size = Some (vm2, a, chunk) ∧ heap vm2 !! b = None).
Proof.
  intros Hready Hnp Hb Hpin. split.
  - destruct (pinObj_ready vm l (OBJ_VAL (Some b)) vm1 Hready) as
      (Hready1 & Hheap1 & _ & _ & _ & Hroot1); [by simpl; rewrite Hb|done|].
    destruct (allocate_ready FLAG_MARKED_nonzero vm1 l size Hready1)
      as (vm2 & l2 & Halloc & _ & _ & _ & Hbody).
    destruct (Hbody b o) as (o' & Ho' & Hbo);
      [by apply Hroot1|by rewrite Hheap1|].
    exists vm2, (malloc_addr (heap vm2)), (malloc_bytes size), o'.
    split; [done|]. split; [done|]. split; [done|].
    intros Heq. pose proof (malloc_addr_fresh (heap vm2)) as Hfresh.
    rewrite Heq in Hfresh. congruence.
  - intros Hnot Hlt. unfold allocate.
    set (vm0 := set_totalAllocated (size_t (totalAllocated vm + size)) vm).
    change (nextGC vm0) with (nextGC vm).
    change (totalAllocated vm0) with (size_t (totalAllocated vm + size)).
    destruct (Z.ltb_spec (nextGC vm) (size_t (totalAllocated vm + size)))
      as [_|?]; [|lia].
    destruct (collectGarbage_spec FLAG_MARKED_nonzero vm0 l Hready)
      as (vmc & lc & Hgc & _ & _ & _ & Hlive & _).
    rewrite Hgc. cbn [mbind option_bind].
    eexists _, _, _. split; [reflexivity|]. simpl.
    destruct (heap vmc !! b) as [ob|] eqn:Hob; [|done].
    exfalso. apply Hnot.
    by apply (proj1 (Hlive b) ltac:(by rewrite Hob)).
Qed.

(** X20.  [newString] on a text of [length] bytes without NUL makes a
    string object that holds these bytes and a terminating NUL, so that
    [strlen] of the value is [length]; the value's class is the VM's
    string class, and the state is ready for the next collection. *)
Theorem newString_stores_a_terminated_copy vm l text len :
  gc_ready vm l → plain text len →
  ∃ vm' l' s o,
    newString vm (Some text) len = Some (vm', VAL_OBJ (Some s)) ∧
    heap vm' !! s = Some o ∧
    body o = ObjString (take (Z.to_nat len) text ++ [0]) ∧
    strlen (take (Z.to_nat len) text ++ [0]) = Some len ∧
    getClass vm' (VAL_OBJ (Some s)) = Some (stringClass vm) ∧
    first vm' = Some s ∧
    gc_ready vm' l' ∧
    fiber vm' = fiber vm.
Proof.
  intros Hready (Hlen & Hle & Hnz). unfold newString.
  destruct (allocate_ready FLAG_MARKED_nonzero vm l (size_t (len + 1)) Hready)
    as (vm1 & l1 & Halloc1 & Hready1 & Hsame1 & _).
  rewrite Halloc1. cbn [mbind option_bind].
  destruct (allocate_ready FLAG_MARKED_nonzero vm1 l1 sizeof_ObjString Hready1)
    as (vm2 & l2 & Halloc2 & Hready2 & Hsame2 & _).
  rewrite Halloc2. cbn [mbind option_bind].
  rewrite (strncpy_plain (Z.to_nat len) text Hle Hnz).
  cbn [mbind option_bind].
  assert (strlen (take (Z.to_nat len) text ++ [0]) = Some len) as Hstr.
  { rewrite strlen_app_nul by done. rewrite length_take. f_equal. lia. }
  set (s := malloc_addr (heap vm2)).
  destruct (initObj_ready vm2 l2 s
              (ObjString (take (Z.to_nat len) text ++ [0])) Hready2)
    as (Hready3 & Hsame3 & _).
  { apply malloc_addr_fresh. }
  { unfold obj_ok. simpl. by rewrite Hstr. }
  eexists _, (s :: l2), s, _. split; [reflexivity|].
  simpl. rewrite lookup_insert_eq. split; [reflexivity|].
  split; [done|]. split; [done|]. simpl.
  assert (stringClass vm2 = stringClass vm) as Hsc.
  { destruct Hsame1 as (_&_&_&_&_&_&_&_&_&_&_&H1).
    destruct Hsame2 as (_&_&_&_&_&_&_&_&_&_&_&H2). congruence. }
  split; [by rewrite Hsc|]. split; [done|]. split; [exact Hready3|].
  destruct Hsame1 as (_&_&H1&_). destruct Hsame2 as (_&_&H2&_). congruence.
Qed.

Lemma step_CALL_new_spec
  vm l fr symbol rest c oc m sc ms om mmc msc mms :
  gc_ready vm l →
  fetches vm fr (CODE_CALL_0 :: symbol :: rest) →
  1 ≤ stackSize (fiber vm) →
  stack (fiber vm) !! (stackSize (fiber vm) - 1) = Some (VAL_OBJ (Some c)) →
  heap vm !! c = Some oc → body oc = ObjClass (Some m) sc ms →
  heap vm !! m = Some om → body om = ObjClass mmc msc mms →
  mms !! symbol = Some (METHOD_PRIMITIVE primitive_metaclass_new) →
  ∃ vm' i oi oc',
    step vm = Some (Running vm') ∧
    stackSize (fiber vm') = stackSize (fiber vm) ∧
    PEEK vm' = Some (VAL_OBJ (Some i)) ∧
    heap vm' !! i = Some oi ∧ body oi = ObjInstance (Some c) ∧
    getClass vm' (VAL_OBJ (Some i)) = Some (Some c) ∧
    i ≠ c ∧
    heap vm' !! c = Some oc' ∧ body oc' = body oc ∧
    is_Some (heap vm' !! m).
Proof.
  intros Hready Hf Hsize Hrecv Hc Hbc Hm Hbm Hnew.
  pose proof (step_CALL_primitive vm fr 0 symbol rest (VAL_OBJ (Some c))
                m om mmc msc mms primitive_metaclass_new ltac:(lia)) as Hstep.
  rewrite Z.add_0_r in Hstep. change (0 + 1) with 1 in Hstep.
  specialize (Hstep Hf Hrecv).
  rewrite Hstep; [|by simpl; rewrite Hc; simpl; rewrite Hbc|done..].
  clear Hstep.
  pose proof (proj1 Hf) as Hfr.
  pose proof (advance_ready vm fr 2 l Hfr Hready) as Hready1.
  unfold call_primitive.
  change (stack (fiber (advance vm fr 2))) with (stack (fiber vm)).
  rewrite Z.add_0_r, Hrecv. cbn [mbind option_bind AS_OBJ].
  unfold newInstance.
  destruct (allocate_ready FLAG_MARKED_nonzero (advance vm fr 2) l
              sizeof_ObjInstance Hready1)
    as (vm1 & l1 & Halloc & Hready2 & Hsame & _ & Hbody).
  rewrite Halloc. cbn [mbind option_bind].
  set (i := malloc_addr (heap vm1)).
  assert (reachable (advance vm fr 2) c) as Hrc.
  { apply advance_reachable; [done|]. exists c. split; [|apply rtc_refl].
    right. right. right. exists (stackSize (fiber vm) - 1).
    split; [lia|done]. }
  destruct (Hbody c oc Hrc Hc) as (oc' & Hc' & Hbc').
  assert (reachable (advance vm fr 2) m) as Hrm.
  { destruct Hrc as (r & Hr & Hpath). exists r. split; [done|].
    eapply rtc_r; [exact Hpath|]. exists oc. split; [done|].
    rewrite Hbc. by left. }
  destruct (Hbody m om Hrm Hm) as (om' & Hm' & _).
  pose proof (malloc_addr_fresh (heap vm1)) as Hfresh. fold i in Hfresh.
  assert (i ≠ c) as Hic by congruence.
  assert (i ≠ m) as Him by congruence.
  assert (fiber vm1 = fiber (advance vm fr 2)) as Hfib by apply Hsame.
  simpl.
  eexists _, i, _, oc'. split; [reflexivity|]. simpl.
  rewrite Hfib. simpl.
  split; [lia|]. unfold PEEK. simpl.
  replace (stackSize (fiber vm) - (1 - 1) - 1)
    with (stackSize (fiber vm) - 1) by lia.
  rewrite lookup_insert_eq. split; [done|].
  rewrite lookup_insert_eq. split; [reflexivity|]. split; [done|].
  split; [done|]. split; [done|].
  rewrite lookup_insert_ne by done. split; [done|]. split; [done|].
  rewrite lookup_insert_ne by done. by eexists.
Qed.

(** X21.  [new], end to end: [CALL_0] on a class whose metaclass holds
    [primitive_metaclass_new] under the symbol replaces the class on top
    of the stack by a new instance of it.  The class itself stays in
    memory, and so does its metaclass. *)
Theorem CALL_new_makes_an_instance_of_the_receiver
  vm l fr symbol rest c oc m sc ms om mmc msc mms :
  gc_ready vm l →
  fetches vm fr (CODE_CALL_0 :: symbol :: rest) →
  1 ≤ stackSize (fiber vm) →
  stack (fiber vm) !! (stackSize (fiber vm) - 1) = Some (VAL_OBJ (Some c)) →
  heap vm !! c = Some oc → body oc = ObjClass (Some m) sc ms →
  heap vm !! m = Some om → body om = ObjClass mmc msc mms →
  mms !! symbol = Some (METHOD_PRIMITIVE primitive_metaclass_new) →
  ∃ vm' i oi oc',
    step vm = Some (Running vm') ∧
    stackSize (fiber vm') = stackSize (fiber vm) ∧
    PEEK vm' = Some (VAL_OBJ (Some i)) ∧
    heap vm' !! i = Some oi ∧ body oi = ObjInstance (Some c) ∧
    getClass vm' (VAL_OBJ (Some i)) = Some (Some c) ∧
    i ≠ c ∧
    heap vm' !! c = Some oc' ∧ body oc' = body oc ∧
    is_Some (heap vm' !! m).
Proof. apply step_CALL_new_spec. Qed.

End Constructors.

(** ** Classes *)

Section Classes.
Context {P : Platform}.
Hypothesis FLAG_MARKED_nonzero : FLAG_MARKED ≠ 0.

Lemma same_roots_set_heap vm h : same_roots vm (set_heap h vm).
Proof. by repeat split. Qed.

(** Writing fields of an object that leave its header alone and keep
    its pointers valid keeps the state ready for a collection. *)
Lemma update_body_ready vm l c oc b :
  gc_ready vm l → heap vm !! c = Some oc →
  obj_ok (heap vm) (mkObj (flags oc) (next oc) b) →
  gc_ready (set_heap (<[c := mkObj (flags oc) (next oc) b]> (heap vm)) vm) l.
Proof.
  intros (Hl & Hdom & Hok & Hun & Hroots) Hc Hb.
  set (o' := mkObj (flags oc) (next oc) b) in *.
  assert (∀ x, is_Some (heap vm !! x) → is_Some (<[c := o']> (heap vm) !! x))
    as Hsub.
  { intros x Hx. destruct (decide (x = c)) as [->|Hne].
    - rewrite lookup_insert_eq. by eexists.
    - by rewrite lookup_insert_ne. }
  split; [|split; [|split; [|split]]]; simpl.
  - apply (object_list_frame (heap vm)); [|done]. intros x o Hx Ho.
    destruct (decide (x = c)) as [->|Hne].
    + rewrite lookup_insert_eq. exists o'. split; [done|].
      rewrite Hc in Ho. by injection Ho as <-.
    + rewrite lookup_insert_ne by done. by exists o.
  - rewrite dom_insert_L, <- Hdom. apply subseteq_union_1_L.
    apply singleton_subseteq_l. by apply elem_of_dom_2 in Hc.
  - intros x o Hx. destruct (decide (x = c)) as [->|Hne].
    + rewrite lookup_insert_eq in Hx. injection Hx as <-.
      by apply (obj_ok_mono (heap vm)).
    + rewrite lookup_insert_ne in Hx by done.
      apply (obj_ok_mono (heap vm)); [done|]. by apply (Hok x).
  - intros x o Hx. destruct (decide (x = c)) as [->|Hne].
    + rewrite lookup_insert_eq in Hx. injection Hx as <-.
      by apply (Hun c oc).
    + rewrite lookup_insert_ne in Hx by done. by apply (Hun x).
  - apply (roots_ok_survive vm); [apply same_roots_set_heap|done|].
    intros r Hr. apply Hsub. by apply root_valid.
Qed.

(** The loop of [newClass] that copies the method table. *)
Lemma copy_methods_lookup (sms : gmap Z Method) idx : ∀ cms cms',
  for_each (λ i (m : gmap Z Method), x ← sms !! i; Some (<[i := x]> m))
           idx cms = Some cms' →
  ∀ i, cms' !! i = if decide (i ∈ idx) then sms !! i else cms !! i.
Proof.
  induction idx as [|j idx IH]; intros cms cms' Hloop i; simpl in Hloop.
  - injection Hloop as <-. rewrite decide_False; [done|].
    by intros ?%elem_of_nil.
  - destruct (sms !! j) as [x|] eqn:Hj; [|done]. simpl in Hloop.
    rewrite (IH _ _ Hloop i).
    destruct (decide (i ∈ idx)) as [Hin|Hnin].
    + rewrite decide_True; [done|by right].
    + destruct (decide (i = j)) as [->|Hne].
      * rewrite decide_True by left. by rewrite lookup_insert_eq.
      * rewrite decide_False; [by rewrite lookup_insert_ne|].
        intros [?|?]%elem_of_cons; done.
Qed.

(** The address of a new class is that of no object that was reachable
    before. *)
Lemma newSingleClass_fresh vm l mc sc vm' c a :
  gc_ready vm l → newSingleClass vm mc sc = Some (vm', c) →
  reachable vm a → a ≠ c.
Proof.
  intros Hready Hnew Ha. unfold newSingleClass in Hnew.
  destruct (allocate_ready FLAG_MARKED_nonzero vm l sizeof_ObjClass Hready)
    as (vm1 & l1 & Halloc & _ & _ & _ & Hbody).
  rewrite Halloc in Hnew. cbn [mbind option_bind] in Hnew.
  injection Hnew as _ <-.
  destruct (reachable_is_Some vm a) as [o Ho];
    [apply Hready|apply Hready|done|].
  destruct (Hbody a o Ha Ho) as (o' & Ho' & _).
  intros ->. by rewrite malloc_addr_fresh in Ho'.
Qed.

(** [newClass] in a state ready for a collection, with room on the pin
    stack and a live class (or none) as superclass. *)
Lemma newClass_ready vm l superclass :
  gc_ready vm l →
  0 ≤ numPinned vm < MAX_PINNED - 1 →
  (superclass = None ∨
   ∃ s os smc ssc sms, superclass = Some s ∧ reachable vm s ∧
                        heap vm !! s = Some os ∧
                        body os = ObjClass smc ssc sms) →
  ∃ vm' l' c m oc om cms,
    newClass vm superclass = Some (vm', c) ∧
    gc_ready vm' l' ∧
    heap vm' !! c = Some oc ∧ body oc = ObjClass (Some m) superclass cms ∧
    heap vm' !! m = Some om ∧ body om = ObjClass None None no_methods ∧
    c ≠ m ∧
    (superclass = None → cms = no_methods) ∧
    (∀ s os smc ssc sms,
       superclass = Some s → heap vm !! s = Some os →
       body os = ObjClass smc ssc sms →
       c ≠ s ∧ m ≠ s ∧
       (∃ os', heap vm' !! s = Some os' ∧ body os' = body os) ∧
       ∀ i, 0 ≤ i < MAX_SYMBOLS → cms !! i = sms !! i) ∧
    (fiber vm' = fiber vm ∧ methods vm' = methods vm ∧
     globalSymbols vm' = globalSymbols vm ∧ globals vm' = globals vm ∧
     numPinned vm' = numPinned vm ∧ objectClass vm' = objectClass vm) ∧
    (∀ a o, reachable vm a → heap vm !! a = Some o →
            a ≠ c ∧ a ≠ m ∧
            ∃ o', heap vm' !! a = Some o' ∧ body o' = body o).
Proof.
  intros Hready Hnp Hsuper. unfold newClass.
  destruct (newSingleClass_ready FLAG_MARKED_nonzero vm l None None Hready
              (or_introl eq_refl))
    as (vm1 & l1 & m & nxt1 & Hnew1 & Hready1 & Hsame1 & Hm1 & Hreach1 & Hbody1).
  rewrite Hnew1. cbn [mbind option_bind].
  assert (numPinned vm1 = numPinned vm) as Hnp1 by apply Hsame1.
  assert (∃ vm2, pinObj vm1 (OBJ_VAL (Some m)) = Some vm2) as [vm2 Hpin].
  { unfold pinObj. rewrite Hnp1.
    destruct (Z.ltb_spec (numPinned vm) (MAX_PINNED - 1)); [|lia].
    by eexists. }
  rewrite Hpin. cbn [mbind option_bind].
  destruct (pinObj_ready vm1 l1 (OBJ_VAL (Some m)) vm2 Hready1) as
    (Hready2 & Hheap2 & Hnp2 & Htop2 & Hreach2 & Hroot2); [|done|].
  { simpl. by rewrite Hm1. }
  assert (reachable vm2 m) as Hrm2 by (apply Hroot2; [done|lia]).
  destruct (newSingleClass_ready FLAG_MARKED_nonzero vm2 l1 (Some m)
              superclass Hready2) as
    (vm3 & l3 & c & nxt3 & Hnew3 & Hready3 & Hsame3 & Hc3 & Hreach3 & Hbody3).
  { right. by exists m. }
  rewrite Hnew3. cbn [mbind option_bind].
  assert (∃ vm4, unpinObj vm3 (OBJ_VAL (Some m)) = Some vm4) as [vm4 Hunpin].
  { unfold unpinObj.
    destruct Hsame3 as (_ & _ & _ & _ & Hpinned3 & Hnp3 & _).
    rewrite Hpinned3, Hnp3, Hnp2.
    replace (numPinned vm1 + 1 - 1) with (numPinned vm1) by lia.
    rewrite Htop2. cbn [mbind option_bind].
    rewrite decide_True by done. by eexists. }
  rewrite Hunpin. cbn [mbind option_bind].
  destruct (unpinObj_ready vm3 l3 _ vm4 Hready3 Hunpin) as [Hready4 Hheap4].
  assert (∃ om, heap vm3 !! m = Some om ∧
                body om = ObjClass None None no_methods) as (om & Hm3 & Hbm).
  { destruct (Hbody3 m (mkObj 0 nxt1 (ObjClass None None no_methods)))
      as (om & Hom & Hb); [done|by rewrite Hheap2|]. by exists om. }
  assert (c ≠ m) as Hcm.
  { intros ->. rewrite Hc3 in Hm3. injection Hm3 as <-. done. }
  rewrite <- Hheap4 in Hc3, Hm3.
  assert (fiber vm4 = fiber vm ∧ methods vm4 = methods vm ∧
          globalSymbols vm4 = globalSymbols vm ∧ globals vm4 = globals vm ∧
          numPinned vm4 = numPinned vm ∧ objectClass vm4 = objectClass vm)
    as Hfields.
  { unfold unpinObj in Hunpin.
    destruct (pinned vm3 !! (numPinned vm3 - 1)) as [top|];
      cbn [mbind option_bind] in Hunpin; [|done].
    destruct (decide _) in Hunpin; [|done]. injection Hunpin as <-.
    unfold pinObj in Hpin. destruct (_ <? _) in Hpin; [|done].
    injection Hpin as <-.
    destruct Hsame1 as (H1 & H2 & H3 & H4 & _ & H5 & H6 & _).
    destruct Hsame3 as (K1 & K2 & K3 & K4 & _ & K5 & K6 & _).
    simpl in *. repeat split; try congruence. lia. }
  assert (∀ a o, reachable vm a → heap vm !! a = Some o →
            a ≠ c ∧ a ≠ m ∧
            ∃ o', heap vm4 !! a = Some o' ∧ body o' = body o) as Halive.
  { intros a o Ha Ho.
    split.
    { apply (newSingleClass_fresh vm2 l1 (Some m) superclass vm3 c a
               Hready2 Hnew3). by apply Hreach2, Hreach1. }
    split.
    { by apply (newSingleClass_fresh vm l None None vm1 m a Hready Hnew1). }
    destruct (Hbody1 a o Ha Ho) as (o1 & Ho1 & Hb1).
    destruct (Hbody3 a o1) as (o3 & Ho3 & Hb3).
    - by apply Hreach2, Hreach1.
    - by rewrite Hheap2.
    - exists o3. rewrite Hheap4. split; [done|]. congruence. }
  destruct Hsuper as [->|(s & os & smc & ssc & sms & -> & Hs & Hos & Hbs)].
  - eexists vm4, l3, c, m, _, om, _. split; [reflexivity|].
    split; [done|]. split; [exact Hc3|].
    split; [reflexivity|]. split; [exact Hm3|]. split; [exact Hbm|].
    split; [done|]. split; [done|]. split; [done|]. split; [done|]. done.
  - assert (∃ os3, heap vm4 !! s = Some os3 ∧ body os3 = ObjClass smc ssc sms)
      as (os3 & Hos3 & Hbs3).
    { destruct (Hbody1 s os Hs Hos) as (os1 & Hos1 & Hb1).
      destruct (Hbody3 s os1) as (os3 & Hos3 & Hb3).
      - apply Hreach2. by apply Hreach1.
      - by rewrite Hheap2.
      - exists os3. rewrite Hheap4. split; [done|]. congruence. }
    assert (s ≠ c) as Hsc.
    { apply (newSingleClass_fresh vm2 l1 (Some m) (Some s) vm3 c s Hready2 Hnew3).
      by apply Hreach2, Hreach1. }
    assert (s ≠ m) as Hsm.
    { by apply (newSingleClass_fresh vm l None None vm1 m s Hready Hnew1). }
    rewrite Hos3, Hc3. cbn [mbind option_bind]. rewrite Hbs3.
    cbn [body].
    assert (Forall (λ i, from_option (valid_method (heap vm4)) False
                           (sms !! i)) (seqZ 0 MAX_SYMBOLS)) as Hsms.
    { destruct Hready4 as (_ & _ & Hok3 & _).
      specialize (Hok3 s os3 Hos3). simpl in Hok3. unfold obj_ok in Hok3.
      rewrite Hbs3 in Hok3. apply Hok3. }
    destruct (for_each_total
                (λ i (ms : gmap Z Method), x ← sms !! i; Some (<[i := x]> ms))
                (seqZ 0 MAX_SYMBOLS)) with (s := no_methods) as [cms Hcms].
    { intros i ms Hi. rewrite Forall_forall in Hsms. specialize (Hsms i Hi).
      destruct (sms !! i); [by eexists|done]. }
    unfold for_range. rewrite Hcms. cbn [mbind option_bind].
    pose proof (copy_methods_lookup sms _ _ _ Hcms) as Hcopy.
    assert (∀ i, 0 ≤ i < MAX_SYMBOLS → cms !! i = sms !! i) as Hcopied.
    { intros i Hi. rewrite Hcopy. rewrite decide_True; [done|].
      apply elem_of_seqZ. lia. }
    eexists _, l3, c, m, _, om, cms. split; [reflexivity|].
    split.
    { apply (update_body_ready vm4 l3 c _ (ObjClass (Some m) (Some s) cms)
               Hready4 Hc3).
      unfold obj_ok. simpl. split.
      - right. by rewrite Hm3.
      - apply Forall_forall. intros i Hi.
        rewrite Hcopied by (apply elem_of_seqZ in Hi; lia).
        rewrite Forall_forall in Hsms. by apply Hsms. }
    cbn [heap set_heap]. rewrite lookup_insert_eq. split; [reflexivity|].
    split; [reflexivity|]. rewrite lookup_insert_ne by done.
    split; [exact Hm3|]. split; [exact Hbm|].
    split; [done|]. split; [done|]. split.
    { intros s0 os0 smc0 ssc0 sms0 [= <-] Hos0 Hbs0.
      rewrite Hos in Hos0. injection Hos0 as <-.
      rewrite Hbs in Hbs0. injection Hbs0 as <- <- <-.
      split; [done|]. split; [done|]. split; [|done].
      exists os3. rewrite lookup_insert_ne by done. split; [done|]. congruence. }
    split; [done|].
    intros a o Ha Ho. destruct (Halive a o Ha Ho) as (Hac & Ham & Hbody).
    split; [done|]. split; [done|]. by rewrite lookup_insert_ne.
Qed.

(** X22.  A class made by [newClass] with a superclass starts with a
    copy of every method slot of the superclass, taken when the class is
    made; it gets a new metaclass of its own, with an empty method
    table.  The superclass is left as it was, and the state is ready for
    the next collection with the pin stack as before. *)
Theorem newClass_copies_the_methods_of_the_superclass
  vm l s os smc ssc sms :
  gc_ready vm l →
  0 ≤ numPinned vm < MAX_PINNED - 1 →
  reachable vm s → heap vm !! s = Some os → body os = ObjClass smc ssc sms →
  ∃ vm' l' c m oc om cms os',
    newClass vm (Some s) = Some (vm', c) ∧
    heap vm' !! c = Some oc ∧ body oc = ObjClass (Some m) (Some s) cms ∧
    (∀ i, 0 ≤ i < MAX_SYMBOLS → cms !! i = sms !! i) ∧
    heap vm' !! m = Some om ∧ body om = ObjClass None None no_methods ∧
    (∀ i, 0 ≤ i < MAX_SYMBOLS → no_methods !! i = Some METHOD_NONE) ∧
    c ≠ m ∧ c ≠ s ∧ m ≠ s ∧
    heap vm' !! s = Some os' ∧ body os' = body os ∧
    gc_ready vm' l' ∧
    numPinned vm' = numPinned vm ∧ fiber vm' = fiber vm.
Proof.
  intros Hready Hnp Hs Hos Hbs.
  destruct (newClass_ready vm l (Some s) Hready Hnp) as
    (vm' & l' & c & m & oc & om & cms & Hnew & Hready' & Hc & Hbc & Hm & Hbm
     & Hcm & _ & Hsup & Hfields & _).
  { right. by exists s, os, smc, ssc, sms. }
  destruct (Hsup s os smc ssc sms eq_refl Hos Hbs)
    as (Hcs & Hms & (os' & Hos' & Hbs') & Hcopy).
  exists vm', l', c, m, oc, om, cms, os'.
  split; [done|]. split; [done|]. split; [done|]. split; [done|].
  split; [done|]. split; [done|].
  split; [intros i Hi; by apply no_methods_lookup|].
  split; [done|]. split; [done|]. split; [done|]. split; [done|].
  split; [done|]. split; [done|]. split; apply Hfields.
Qed.

End Classes.


(** ** The opcodes that define classes and methods *)

Section Class_opcodes.
Context {P : Platform}.
Hypothesis FLAG_MARKED_nonzero : FLAG_MARKED ≠ 0.

Lemma PUSH_ready vm l v :
  gc_ready vm l → valid_value (heap vm) v → gc_ready (PUSH vm v) l.
Proof.
  intros (Hl & Hdom & Hok & Hun & Hg & Hp & Hf & Hs) Hv.
  split; [done|]. split; [done|]. split; [done|]. split; [done|].
  split; [done|]. split; [done|]. split; [done|].
  rewrite Forall_forall in Hs. apply Forall_forall. intros k Hk. simpl in *.
  apply elem_of_seqZ in Hk.
  destruct (decide (k = stackSize (fiber vm))) as [->|Hne].
  - by rewrite lookup_insert_eq.
  - rewrite lookup_insert_ne by done. apply Hs. apply elem_of_seqZ. lia.
Qed.

(** [fetches_next] across a step that may have moved or re-flagged the
    objects but kept the contents of the frame's function. *)
Lemma fetches_next_body vm fr code d vm' :
  fetches vm fr code → 0 ≤ d → (Z.to_nat d ≤ length code)%nat →
  numFrames (fiber vm') = numFrames (fiber vm) →
  frames (fiber vm') !! (numFrames (fiber vm) - 1)
  = Some (mkCallFrame (ip fr + d) (fn fr) (stackStart fr)) →
  (∀ f o, fn fr = Some f → heap vm !! f = Some o →
          ∃ o', heap vm' !! f = Some o' ∧ body o' = body o) →
  fetches vm' (mkCallFrame (ip fr + d) (fn fr) (stackStart fr))
          (drop (Z.to_nat d) code).
Proof.
  intros (Hfr & f & o & bc & cs & n & Hf & Ho & Hb & Hip & Htake)
         Hd Hlen Hnum Hfr' Hheap.
  split; [by rewrite Hnum|].
  destruct (Hheap f o Hf Ho) as (o' & Ho' & Hb').
  exists f, o', bc, cs, n. simpl.
  split; [done|]. split; [done|]. split; [congruence|].
  split; [lia|].
  rewrite Z2Nat.inj_add by lia. rewrite <- drop_drop.
  rewrite take_drop_commute, length_drop.
  replace (Z.to_nat d + (length code - Z.to_nat d))%nat
    with (length code) by lia.
  by rewrite Htake.
Qed.

Lemma plain_str_new : plain str_new 3.
Proof.
  split; [lia|]. split; [simpl; lia|].
  repeat constructor; done.
Qed.

(** The end of [CODE_CLASS]: the symbol [new], the primitive in the
    metaclass, the push. *)
Lemma CLASS_tail vm l c m oc om sc cms :
  gc_ready vm l → symbols_ok (methods vm) →
  count (methods vm) < MAX_SYMBOLS →
  heap vm !! c = Some oc → body oc = ObjClass (Some m) sc cms →
  heap vm !! m = Some om → body om = ObjClass None None no_methods →
  c ≠ m →
  ∃ symbols sym,
    ensureSymbol (methods vm) str_new 3 = Some (symbols, sym) ∧
    symbols_ok symbols ∧ 0 ≤ sym < MAX_SYMBOLS ∧
    findSymbol symbols str_new 3 = Some sym ∧
    let om' := mkObj (flags om) (next om)
                 (ObjClass None None
                    (<[sym := METHOD_PRIMITIVE primitive_metaclass_new]>
                       no_methods)) in
    let vm' := PUSH (set_heap (<[m := om']> (heap vm))
                       (set_methods symbols vm)) (OBJ_VAL (Some c)) in
    ('(symbols, newSymbol) ← ensureSymbol (methods vm) str_new 3;
     let vm := set_methods symbols vm in
     '(_, _, metaclass, _, _) ← class_at vm (Some c);
     vm ← set_method vm metaclass newSymbol
            (METHOD_PRIMITIVE primitive_metaclass_new);
     Some (Running (PUSH vm (OBJ_VAL (Some c))))) = Some (Running vm') ∧
    gc_ready vm' l.
Proof.
  intros Hready Hsym Hcount Hc Hbc Hm Hbm Hcm.
  destruct (ensureSymbol_spec (methods vm) str_new 3 Hsym plain_str_new)
    as (symbols & sym & Hens & Hsym' & Hrange & Hcnt & Hfind & _).
  exists symbols, sym. split; [done|]. split; [done|].
  split; [lia|]. split; [done|]. cbn zeta.
  rewrite Hens. cbn [mbind option_bind]. unfold class_at, set_method.
  cbn [mbind option_bind heap set_methods]. rewrite Hc.
  cbn [mbind option_bind]. rewrite Hbc. cbn [mbind option_bind].
  unfold class_at. cbn [mbind option_bind heap set_methods]. rewrite Hm.
  cbn [mbind option_bind]. rewrite Hbm. cbn [mbind option_bind].
  split; [reflexivity|].
  apply PUSH_ready.
  - apply (update_body_ready (set_methods symbols vm) l m om); [done..|].
    unfold obj_ok. simpl. split; [by left|].
    apply Forall_forall. intros i Hi. apply elem_of_seqZ in Hi.
    destruct (decide (i = sym)) as [->|Hne].
    + by rewrite lookup_insert_eq.
    + rewrite lookup_insert_ne by done. by rewrite no_methods_lookup by lia.
  - simpl. rewrite lookup_insert_ne by done. by rewrite Hc.
Qed.

Lemma POP_ready vm l :
  gc_ready vm l →
  gc_ready (set_stack (stack (fiber vm)) (stackSize (fiber vm) - 1) vm) l.
Proof.
  intros (Hl & Hdom & Hok & Hun & Hg & Hp & Hf & Hs).
  split; [done|]. split; [done|]. split; [done|]. split; [done|].
  split; [done|]. split; [done|]. split; [done|].
  rewrite Forall_forall in Hs. apply Forall_forall. intros k Hk. simpl in *.
  apply elem_of_seqZ in Hk. apply Hs. apply elem_of_seqZ. lia.
Qed.

(** [CODE_CLASS] and [CODE_SUBCLASS] from the call of [newClass] on. *)
Lemma CLASS_body vm0 l superclass :
  gc_ready vm0 l → symbols_ok (methods vm0) →
  count (methods vm0) < MAX_SYMBOLS →
  0 ≤ numPinned vm0 < MAX_PINNED - 1 →
  (superclass = None ∨
   ∃ s os smc ssc sms, superclass = Some s ∧ reachable vm0 s ∧
                        heap vm0 !! s = Some os ∧
                        body os = ObjClass smc ssc sms) →
  ∃ vm' l' c m oc om cms sym,
    ('(vm, classObj) ← newClass vm0 superclass;
     let vm := match objectClass vm with
               | None => set_objectClass (Some classObj) vm
               | Some _ => vm
               end in
     '(symbols, newSymbol) ← ensureSymbol (methods vm) str_new 3;
     let vm := set_methods symbols vm in
     '(_, _, metaclass, _, _) ← class_at vm (Some classObj);
     vm ← set_method vm metaclass newSymbol
            (METHOD_PRIMITIVE primitive_metaclass_new);
     Some (Running (PUSH vm (OBJ_VAL (Some classObj)))))
    = Some (Running vm') ∧
    gc_ready vm' l' ∧
    stackSize (fiber vm') = stackSize (fiber vm0) + 1 ∧
    stack (fiber vm')
    = <[stackSize (fiber vm0) := VAL_OBJ (Some c)]> (stack (fiber vm0)) ∧
    numFrames (fiber vm') = numFrames (fiber vm0) ∧
    frames (fiber vm') = frames (fiber vm0) ∧
    heap vm' !! c = Some oc ∧
    body oc = ObjClass (Some m) superclass cms ∧
    heap vm' !! m = Some om ∧
    body om = ObjClass None None
                (<[sym := METHOD_PRIMITIVE primitive_metaclass_new]>
                   no_methods) ∧
    c ≠ m ∧
    ensureSymbol (methods vm0) str_new 3 = Some (methods vm', sym) ∧
    findSymbol (methods vm') str_new 3 = Some sym ∧
    symbols_ok (methods vm') ∧
    0 ≤ sym < MAX_SYMBOLS ∧
    objectClass vm' = Some (default c (objectClass vm0)) ∧
    numPinned vm' = numPinned vm0 ∧
    (superclass = None → cms = no_methods) ∧
    (∀ s os smc ssc sms,
       superclass = Some s → heap vm0 !! s = Some os →
       body os = ObjClass smc ssc sms →
       c ≠ s ∧ ∀ i, 0 ≤ i < MAX_SYMBOLS → cms !! i = sms !! i) ∧
    (∀ a o, reachable vm0 a → heap vm0 !! a = Some o →
            ∃ o', heap vm' !! a = Some o' ∧ body o' = body o).
Proof.
  intros Hready Hsym Hcount Hnp Hsuper.
  destruct (newClass_ready FLAG_MARKED_nonzero vm0 l superclass Hready Hnp
              Hsuper)
    as (vm1 & l1 & c & m & oc & om & cms & Hnew & Hready1 & Hc & Hbc & Hm
        & Hbm & Hcm & Hnone & Hsup & Hfields & Halive).
  rewrite Hnew. cbn [mbind option_bind].
  destruct Hfields as (Hfib & Hmeth & _ & _ & Hnp1 & Hoc1).
  assert (∀ vm2,
            heap vm2 = heap vm1 → first vm2 = first vm1 →
            fiber vm2 = fiber vm1 → methods vm2 = methods vm1 →
            globals vm2 = globals vm1 →
            globalSymbols vm2 = globalSymbols vm1 →
            pinned vm2 = pinned vm1 → numPinned vm2 = numPinned vm1 →
            gc_ready vm2 l1) as Hready2.
  { intros vm2 H1 H2 H3 H4 H5 H6 H7 H8.
    destruct Hready1 as (K1 & K2 & K3 & K4 & K5 & K6 & K7 & K8).
    unfold gc_ready, roots_ok. rewrite H1, H2, H3, H5, H6, H7, H8. done. }
  cbn zeta.
  set (vm2 := match objectClass vm1 with
              | Some _ => vm1
              | None => set_objectClass (Some c) vm1
              end).
  assert (heap vm2 = heap vm1 ∧ first vm2 = first vm1 ∧
          fiber vm2 = fiber vm1 ∧ methods vm2 = methods vm1 ∧
          globals vm2 = globals vm1 ∧
          globalSymbols vm2 = globalSymbols vm1 ∧
          pinned vm2 = pinned vm1 ∧ numPinned vm2 = numPinned vm1 ∧
          objectClass vm2 = Some (default c (objectClass vm0)))
    as (H1 & H2 & H3 & H4 & H5 & H6 & H7 & H8 & H9).
  { subst vm2. rewrite <- Hoc1.
    destruct (objectClass vm1) eqn:E; repeat split; try reflexivity.
    exact E. }
  destruct (CLASS_tail vm2 l1 c m oc om superclass cms)
    as (symbols & sym & Hens & Hsym' & Hrange & Hfind & Htail & Hready3).
  { by apply Hready2. }
  { by rewrite H4, Hmeth. }
  { by rewrite H4, Hmeth. }
  { by rewrite H1. }
  { done. }
  { by rewrite H1. }
  { done. }
  { done. }
  cbn zeta in Htail. rewrite Htail.
  eexists _, l1, c, m, oc, _, cms, sym. split; [reflexivity|].
  split; [done|]. simpl. rewrite H3, Hfib. simpl.
  split; [done|]. split; [done|]. split; [done|]. split; [done|].
  rewrite lookup_insert_ne by done. rewrite H1.
  split; [done|]. split; [done|]. rewrite lookup_insert_eq.
  split; [reflexivity|]. split; [reflexivity|]. split; [done|].
  rewrite H4, Hmeth in Hens. split; [done|]. split; [done|].
  split; [done|]. split; [done|]. split; [done|].
  split; [by rewrite H8|]. split; [done|]. split.
  { intros s os smc ssc sms Hs Hos Hbs.
    by destruct (Hsup s os smc ssc sms Hs Hos Hbs) as (? & _ & _ & Hcopy). }
  intros a o Ha Ho.
  destruct (Halive a o) as (Hac & Ham & o' & Ho' & Hb'); [done..|].
  exists o'. by rewrite lookup_insert_ne.
Qed.

(** A turn of the loop on [CLASS]. *)
Lemma step_CLASS_spec vm l fr rest :
  gc_ready vm l → symbols_ok (methods vm) →
  count (methods vm) < MAX_SYMBOLS →
  0 ≤ numPinned vm < MAX_PINNED - 1 →
  fetches vm fr (CODE_CLASS :: rest) →
  (objectClass vm = None ∨
   ∃ s os smc ssc sms, objectClass vm = Some s ∧ reachable vm s ∧
                        heap vm !! s = Some os ∧
                        body os = ObjClass smc ssc sms) →
  ∃ vm' l' c m oc om cms sym,
    step vm = Some (Running vm') ∧
    gc_ready vm' l' ∧
    stackSize (fiber vm') = stackSize (fiber vm) + 1 ∧
    stack (fiber vm')
    = <[stackSize (fiber vm) := VAL_OBJ (Some c)]> (stack (fiber vm)) ∧
    numFrames (fiber vm') = numFrames (fiber vm) ∧
    frames (fiber vm')
    = <[numFrames (fiber vm) - 1 :=
          mkCallFrame (ip fr + 1) (fn fr) (stackStart fr)]>
        (frames (fiber vm)) ∧
    heap vm' !! c = Some oc ∧
    body oc = ObjClass (Some m) (objectClass vm) cms ∧
    heap vm' !! m = Some om ∧
    body om = ObjClass None None
                (<[sym := METHOD_PRIMITIVE primitive_metaclass_new]>
                   no_methods) ∧
    c ≠ m ∧
    ensureSymbol (methods vm) str_new 3 = Some (methods vm', sym) ∧
    findSymbol (methods vm') str_new 3 = Some sym ∧
    symbols_ok (methods vm') ∧
    0 ≤ sym < MAX_SYMBOLS ∧
    objectClass vm' = Some (default c (objectClass vm)) ∧
    numPinned vm' = numPinned vm ∧
    (objectClass vm = None → cms = no_methods) ∧
    (∀ s os smc ssc sms,
       objectClass vm = Some s → heap vm !! s = Some os →
       body os = ObjClass smc ssc sms →
       ∀ i, 0 ≤ i < MAX_SYMBOLS → cms !! i = sms !! i) ∧
    (∀ a o, reachable vm a → heap vm !! a = Some o →
            ∃ o', heap vm' !! a = Some o' ∧ body o' = body o).
Proof.
  intros Hready Hsym Hcount Hnp Hf Hsuper.
  pose proof (proj1 Hf) as Hfr.
  rewrite (step_fetch vm fr _ _ Hf).
  unfold exec. change (switch CODE_CLASS) with case_CLASS_SUBCLASS.
  unfold exec_CLASS.
  change (CODE_CLASS =? CODE_SUBCLASS) with false. cbn iota.
  cbn [mbind option_bind].
  change (objectClass (advance vm fr 1)) with (objectClass vm).
  destruct (CLASS_body (advance vm fr 1) l (objectClass vm)
              (advance_ready vm fr 1 l Hfr Hready) Hsym Hcount Hnp)
    as (vm' & l' & c & m & oc & om & cms & sym & Hbody & Hready' & Hsize
        & Hstack & Hnum & Hframes & Hc & Hbc & Hm & Hbm & Hcm & Hens & Hfind
        & Hsym' & Hrange & Hoc & Hnp' & Hnone & Hsup & Halive).
  { destruct Hsuper as [?|(s & os & smc & ssc & sms & ? & Hs & Hos & Hbs)];
      [by left|right].
    exists s, os, smc, ssc, sms. split; [done|].
    split; [by apply advance_reachable|done]. }
  cbn zeta in Hbody. cbn zeta. rewrite Hbody.
  exists vm', l', c, m, oc, om, cms, sym. split; [done|].
  split; [done|]. split; [done|]. split; [done|]. split; [done|].
  split; [done|]. split; [done|]. split; [done|]. split; [done|].
  split; [done|]. split; [done|]. split; [done|]. split; [done|].
  split; [done|]. split; [done|]. split; [done|]. split; [done|].
  split; [done|]. split.
  { intros s os smc ssc sms Hs Hos Hbs.
    by destruct (Hsup s os smc ssc sms Hs Hos Hbs) as [_ Hcopy]. }
  intros a o Ha Ho. apply Halive; [|done]. by apply advance_reachable.
Qed.

(** A turn of the loop on [SUBCLASS].  The superclass is popped before
    [newClass] allocates, so something else has to reach it. *)
Lemma step_SUBCLASS_spec vm l fr rest s os smc ssc sms :
  gc_ready vm l → symbols_ok (methods vm) →
  count (methods vm) < MAX_SYMBOLS →
  0 ≤ numPinned vm < MAX_PINNED - 1 →
  fetches vm fr (CODE_SUBCLASS :: rest) →
  PEEK vm = Some (VAL_OBJ (Some s)) →
  heap vm !! s = Some os → body os = ObjClass smc ssc sms →
  reachable (set_stack (stack (fiber vm)) (stackSize (fiber vm) - 1) vm) s →
  ∃ vm' l' c m oc cms,
    step vm = Some (Running vm') ∧
    gc_ready vm' l' ∧
    stackSize (fiber vm') = stackSize (fiber vm) ∧
    PEEK vm' = Some (VAL_OBJ (Some c)) ∧
    heap vm' !! c = Some oc ∧
    body oc = ObjClass (Some m) (Some s) cms ∧
    (∀ i, 0 ≤ i < MAX_SYMBOLS → cms !! i = sms !! i) ∧
    c ≠ s ∧
    (∃ os', heap vm' !! s = Some os' ∧ body os' = body os).
Proof.
  intros Hready Hsym Hcount Hnp Hf Htop Hs Hbs Hreach.
  pose proof (proj1 Hf) as Hfr.
  rewrite (step_fetch vm fr _ _ Hf).
  unfold exec. change (switch CODE_SUBCLASS) with case_CLASS_SUBCLASS.
  unfold exec_CLASS.
  change (CODE_SUBCLASS =? CODE_SUBCLASS) with true. cbn iota.
  unfold POP. unfold PEEK in Htop.
  change (stack (fiber (advance vm fr 1))) with (stack (fiber vm)).
  change (stackSize (fiber (advance vm fr 1))) with (stackSize (fiber vm)).
  rewrite Htop. cbn [mbind option_bind AS_OBJ].
  set (vm0 := set_stack (stack (fiber vm)) (stackSize (fiber vm) - 1)
                        (advance vm fr 1)).
  assert (gc_ready vm0 l) as Hready0.
  { apply (POP_ready (advance vm fr 1)). by apply advance_ready. }
  assert (reachable vm0 s) as Hreach0.
  { by apply (advance_reachable
                (set_stack (stack (fiber vm)) (stackSize (fiber vm) - 1) vm)
                fr 1 s). }
  destruct (CLASS_body vm0 l (Some s) Hready0 Hsym Hcount Hnp)
    as (vm' & l' & c & m & oc & om & cms & sym & Hbody & Hready' & Hsize
        & Hstack & Hnum & Hframes & Hc & Hbc & Hm & Hbm & Hcm & Hens & Hfind
        & Hsym' & Hrange & Hoc & Hnp' & Hnone & Hsup & Halive).
  { right. by exists s, os, smc, ssc, sms. }
  cbn zeta in Hbody. cbn zeta. rewrite Hbody.
  destruct (Hsup s os smc ssc sms eq_refl Hs Hbs) as [Hcs Hcopy].
  exists vm', l', c, m, oc, cms. split; [done|]. split; [done|].
  simpl in Hsize, Hstack. split; [lia|]. split.
  { unfold PEEK. rewrite Hsize, Hstack.
    replace (stackSize (fiber vm) - 1 + 1 - 1)
      with (stackSize (fiber vm) - 1) by lia.
    by rewrite lookup_insert_eq. }
  split; [done|]. split; [done|]. split; [done|]. split; [done|].
  by apply Halive.
Qed.

(** X23.  [CLASS] makes a class with the VM's object class as
    superclass (the first class ever made becomes the object class),
    enters the name [new] in the method symbols if it is not there,
    stores [primitive_metaclass_new] under that symbol in the new
    metaclass, and pushes the class.  The state stays ready for a
    collection and the objects reachable before are unchanged. *)
Theorem CLASS_pushes_a_class_whose_metaclass_answers_new vm l fr rest :
  gc_ready vm l → symbols_ok (methods vm) →
  count (methods vm) < MAX_SYMBOLS →
  0 ≤ numPinned vm < MAX_PINNED - 1 →
  fetches vm fr (CODE_CLASS :: rest) →
  (objectClass vm = None ∨
   ∃ s os smc ssc sms, objectClass vm = Some s ∧ reachable vm s ∧
                        heap vm !! s = Some os ∧
                        body os = ObjClass smc ssc sms) →
  ∃ vm' l' c m oc om cms sym,
    step vm = Some (Running vm') ∧
    gc_ready vm' l' ∧
    stackSize (fiber vm') = stackSize (fiber vm) + 1 ∧
    PEEK vm' = Some (VAL_OBJ (Some c)) ∧
    heap vm' !! c = Some oc ∧
    body oc = ObjClass (Some m) (objectClass vm) cms ∧
    heap vm' !! m = Some om ∧
    body om = ObjClass None None
                (<[sym := METHOD_PRIMITIVE primitive_metaclass_new]>
                   no_methods) ∧
    findSymbol (methods vm') str_new 3 = Some sym ∧
    0 ≤ sym < MAX_SYMBOLS ∧
    objectClass vm' = Some (default c (objectClass vm)) ∧
    numPinned vm' = numPinned vm ∧
    (∀ a o, reachable vm a → heap vm !! a = Some o →
            ∃ o', heap vm' !! a = Some o' ∧ body o' = body o).
Proof.
  intros Hready Hsym Hcount Hnp Hf Hsuper.
  destruct (step_CLASS_spec vm l fr rest Hready Hsym Hcount Hnp Hf Hsuper)
    as (vm' & l' & c & m & oc & om & cms & sym & Hstep & Hready' & Hsize
        & Hstack & _ & _ & Hc & Hbc & Hm & Hbm & _ & _ & Hfind & _ & Hrange
        & Hoc & Hnp' & _ & _ & Halive).
  exists vm', l', c, m, oc, om, cms, sym.
  split; [done|]. split; [done|]. split; [done|]. split.
  { unfold PEEK. rewrite Hsize, Hstack.
    replace (stackSize (fiber vm) + 1 - 1) with (stackSize (fiber vm)) by lia.
    by rewrite lookup_insert_eq. }
  done.
Qed.

(** X24.  A class and its first instance, end to end: [CLASS] followed
    by [CALL_0] with the symbol of [new] leaves on the stack one value
    more than before, an instance whose class is the class just made. *)
Theorem CLASS_then_new_makes_an_instance vm l fr rest symbols sym :
  gc_ready vm l → symbols_ok (methods vm) →
  count (methods vm) < MAX_SYMBOLS →
  0 ≤ numPinned vm < MAX_PINNED - 1 →
  0 ≤ stackSize (fiber vm) → 1 ≤ numFrames (fiber vm) →
  fetches vm fr (CODE_CLASS :: CODE_CALL_0 :: sym :: rest) →
  ensureSymbol (methods vm) str_new 3 = Some (symbols, sym) →
  (objectClass vm = None ∨
   ∃ s os smc ssc sms, objectClass vm = Some s ∧ reachable vm s ∧
                        heap vm !! s = Some os ∧
                        body os = ObjClass smc ssc sms) →
  ∃ vm' c m i oc oi cms,
    run 2 vm = Some (Running vm') ∧
    stackSize (fiber vm') = stackSize (fiber vm) + 1 ∧
    PEEK vm' = Some (VAL_OBJ (Some i)) ∧
    heap vm' !! i = Some oi ∧ body oi = ObjInstance (Some c) ∧
    getClass vm' (VAL_OBJ (Some i)) = Some (Some c) ∧
    heap vm' !! c = Some oc ∧
    body oc = ObjClass (Some m) (objectClass vm) cms ∧
    i ≠ c.
Proof.
  intros Hready Hsym Hcount Hnp Hsize Hnum Hf Hens Hsuper.
  destruct (step_CLASS_spec vm l fr _ Hready Hsym Hcount Hnp Hf Hsuper)
    as (vm1 & l1 & c & m & oc & om & cms & sym1 & Hstep1 & Hready1 & Hsize1
        & Hstack1 & Hnum1 & Hframes1 & Hc & Hbc & Hm & Hbm & Hcm & Hens1
        & _ & _ & _ & _ & _ & _ & _ & Halive).
  rewrite Hens in Hens1. injection Hens1 as Hmeth <-.
  assert (fetches vm1 (mkCallFrame (ip fr + 1) (fn fr) (stackStart fr))
                  (CODE_CALL_0 :: sym :: rest)) as Hf1.
  { apply (fetches_next_body vm fr _ 1 vm1 Hf); simpl; try done; try lia.
    - rewrite Hframes1. by rewrite lookup_insert_eq.
    - intros f o Hfn Ho. apply Halive; [|done].
      exists f. split; [|apply rtc_refl]. right. right. left.
      exists (numFrames (fiber vm) - 1), fr. split; [lia|].
      split; [apply Hf|done]. }
  destruct (step_CALL_new_spec FLAG_MARKED_nonzero vm1 l1 _ sym rest c oc m
              (objectClass vm) cms om None None
              (<[sym := METHOD_PRIMITIVE primitive_metaclass_new]> no_methods)
              Hready1 Hf1)
    as (vm2 & i & oi & oc' & Hstep2 & Hsize2 & Htop2 & Hi & Hbi & Hclass
        & Hic & Hc' & Hbc' & _); try done.
  { lia. }
  { rewrite Hsize1, Hstack1.
    replace (stackSize (fiber vm) + 1 - 1) with (stackSize (fiber vm)) by lia.
    by rewrite lookup_insert_eq. }
  { by rewrite lookup_insert_eq. }
  exists vm2, c, m, i, oc', oi, cms.
  split; [simpl; rewrite Hstep1; simpl; by rewrite Hstep2|].
  split; [lia|]. split; [done|]. split; [done|]. split; [done|].
  split; [done|]. split; [done|]. split; [congruence|done].
Qed.

(** X25.  [SUBCLASS] replaces the class on top of the stack by a new
    class that has it as superclass and starts with a copy of its
    method slots, provided that something besides that stack slot
    reaches the superclass (the slot is popped before [newClass]
    allocates).  A [CALL_N] of an inherited block method on a receiver
    of the new class runs the superclass's function. *)
Theorem SUBCLASS_inherits_the_methods_by_copy
  vm l fr rest s os smc ssc sms :
  gc_ready vm l → symbols_ok (methods vm) →
  count (methods vm) < MAX_SYMBOLS →
  0 ≤ numPinned vm < MAX_PINNED - 1 →
  fetches vm fr (CODE_SUBCLASS :: rest) →
  PEEK vm = Some (VAL_OBJ (Some s)) →
  heap vm !! s = Some os → body os = ObjClass smc ssc sms →
  reachable (set_stack (stack (fiber vm)) (stackSize (fiber vm) - 1) vm) s →
  ∃ vm' l' c m oc cms,
    step vm = Some (Running vm') ∧
    gc_ready vm' l' ∧
    stackSize (fiber vm') = stackSize (fiber vm) ∧
    PEEK vm' = Some (VAL_OBJ (Some c)) ∧
    heap vm' !! c = Some oc ∧
    body oc = ObjClass (Some m) (Some s) cms ∧
    (∀ i, 0 ≤ i < MAX_SYMBOLS → cms !! i = sms !! i) ∧
    c ≠ s ∧
    (∀ vm2 fr2 N symbol rest2 receiver f,
       0 ≤ N ≤ 10 → 0 ≤ symbol < MAX_SYMBOLS →
       sms !! symbol = Some (METHOD_BLOCK f) →
       heap vm2 = heap vm' →
       fetches vm2 fr2 (CODE_CALL_0 + N :: symbol :: rest2) →
       stack (fiber vm2) !! (stackSize (fiber vm2) - (N + 1))
       = Some receiver →
       getClass vm2 receiver = Some (Some c) →
       ∃ vm3,
         step vm2 = Some (Running vm3) ∧
         numFrames (fiber vm3) = numFrames (fiber vm2) + 1 ∧
         frames (fiber vm3) !! numFrames (fiber vm2)
         = Some (mkCallFrame 0 f (stackSize (fiber vm2) - (N + 1)))).
Proof.
  intros Hready Hsym Hcount Hnp Hf Htop Hs Hbs Hreach.
  destruct (step_SUBCLASS_spec vm l fr rest s os smc ssc sms Hready Hsym
              Hcount Hnp Hf Htop Hs Hbs Hreach)
    as (vm' & l' & c & m & oc & cms & Hstep & Hready' & Hsize & Htop' & Hc
        & Hbc & Hcopy & Hcs & _).
  exists vm', l', c, m, oc, cms.
  split; [done|]. split; [done|]. split; [done|]. split; [done|].
  split; [done|]. split; [done|]. split; [done|]. split; [done|].
  intros vm2 fr2 N symbol rest2 receiver f HN Hsymbol Hm Hheap Hf2 Hrecv
         Hclass.
  rewrite (step_CALL_method vm2 fr2 N symbol rest2 receiver c oc
             (Some m) (Some s) cms (METHOD_BLOCK f) HN Hf2 Hrecv Hclass).
  - eexists. split; [reflexivity|]. simpl. by rewrite lookup_insert_eq.
  - by rewrite Hheap.
  - done.
  - by rewrite Hcopy.
  - right. by eexists.
Qed.

(** [constants[i]] of the frame's function does not depend on [ip]. *)
Lemma constant_at_advance vm fr d i :
  frames (fiber vm) !! (numFrames (fiber vm) - 1) = Some fr →
  constant_at (advance vm fr d) (numFrames (fiber vm) - 1) i
  = constant_at vm (numFrames (fiber vm) - 1) i.
Proof.
  intros Hfr. unfold constant_at, frame_fn. simpl.
  rewrite lookup_insert_eq, Hfr. done.
Qed.

(** X26.  [METHOD] stores the function constant as a block method in
    the class on top of the stack, in place of whatever the slot held,
    and leaves the stack alone; a [CALL_N] of that symbol on a receiver
    of this class then runs that function. *)
Theorem METHOD_defines_the_block_that_CALL_runs
  vm fr symbol constant rest c oc mc sc ms f :
  fetches vm fr (CODE_METHOD :: symbol :: constant :: rest) →
  0 ≤ symbol < MAX_SYMBOLS →
  PEEK vm = Some (VAL_OBJ (Some c)) →
  heap vm !! c = Some oc → body oc = ObjClass mc sc ms →
  constant_at vm (numFrames (fiber vm) - 1) constant = Some (VAL_OBJ f) →
  ∃ vm',
    step vm = Some (Running vm') ∧
    stack (fiber vm') = stack (fiber vm) ∧
    stackSize (fiber vm') = stackSize (fiber vm) ∧
    heap vm'
    = <[c := mkObj (flags oc) (next oc)
                   (ObjClass mc sc (<[symbol := METHOD_BLOCK f]> ms))]>
        (heap vm) ∧
    (∀ vm2 fr2 N rest2 receiver,
       0 ≤ N ≤ 10 → heap vm2 = heap vm' →
       fetches vm2 fr2 (CODE_CALL_0 + N :: symbol :: rest2) →
       stack (fiber vm2) !! (stackSize (fiber vm2) - (N + 1))
       = Some receiver →
       getClass vm2 receiver = Some (Some c) →
       ∃ vm3,
         step vm2 = Some (Running vm3) ∧
         numFrames (fiber vm3) = numFrames (fiber vm2) + 1 ∧
         frames (fiber vm3) !! numFrames (fiber vm2)
         = Some (mkCallFrame 0 f (stackSize (fiber vm2) - (N + 1)))).
Proof.
  intros Hf Hslot Htop Hc Hbc Hconst.
  pose proof (proj1 Hf) as Hfr.
  rewrite (step_fetch vm fr _ _ Hf).
  unfold exec. change (switch CODE_METHOD) with case_METHOD.
  rewrite (READ_ARG_fetch vm fr _ 1 symbol Hf) by done.
  cbn [mbind option_bind].
  change (1 + 1) with 2.
  rewrite (READ_ARG_fetch vm fr _ 2 constant Hf) by done.
  cbn [mbind option_bind]. change (2 + 1) with 3.
  unfold PEEK in *. change (stack (fiber (advance vm fr 3)))
    with (stack (fiber vm)).
  change (stackSize (fiber (advance vm fr 3))) with (stackSize (fiber vm)).
  rewrite Htop. cbn [mbind option_bind AS_OBJ].
  rewrite (constant_at_advance vm fr 3 constant Hfr), Hconst.
  cbn [mbind option_bind AS_OBJ].
  unfold set_method, class_at. cbn [mbind option_bind].
  change (heap (advance vm fr 3)) with (heap vm). rewrite Hc.
  cbn [mbind option_bind]. rewrite Hbc. cbn [mbind option_bind].
  eexists. split; [reflexivity|]. split; [done|]. split; [done|].
  split; [done|].
  intros vm2 fr2 N rest2 receiver HN Hheap Hf2 Hrecv Hclass.
  rewrite (step_CALL_method vm2 fr2 N symbol rest2 receiver c
             (mkObj (flags oc) (next oc)
                (ObjClass mc sc (<[symbol := METHOD_BLOCK f]> ms)))
             mc sc (<[symbol := METHOD_BLOCK f]> ms) (METHOD_BLOCK f)
             HN Hf2 Hrecv Hclass).
  - eexists. split; [reflexivity|]. simpl. by rewrite lookup_insert_eq.
  - rewrite Hheap. simpl. by rewrite lookup_insert_eq.
  - done.
  - by rewrite lookup_insert_eq.
  - right. by eexists.
Qed.

End Class_opcodes.

(** ** Entering and leaving [interpret] *)

Section Entry.
Context {P : Platform}.

(** A turn of the loop on [CONSTANT]. *)
Lemma step_CONSTANT vm fr i rest value :
  fetches vm fr (CODE_CONSTANT :: i :: rest) →
  constant_at vm (numFrames (fiber vm) - 1) i = Some value →
  step vm = Some (Running (PUSH (advance vm fr 2) value)).
Proof.
  intros Hf Hv. rewrite (step_fetch vm fr _ _ Hf).
  unfold exec. change (switch CODE_CONSTANT) with case_CONSTANT.
  rewrite (READ_ARG_fetch vm fr _ 1 i Hf) by done.
  cbn [mbind option_bind]. change (1 + 1) with 2.
  rewrite (constant_at_advance vm fr 2 i (proj1 Hf)), Hv. reflexivity.
Qed.

(** A turn of the loop on [END] in the outermost frame. *)
Lemma step_END_outer vm fr rest result :
  fetches vm fr (CODE_END :: rest) →
  PEEK vm = Some result →
  numFrames (fiber vm) = 1 →
  step vm =
    Some (Returned result
            (set_frames (frames (fiber (advance vm fr 1)))
               (numFrames (fiber vm) - 1)
               (set_stack (stack (fiber vm)) (stackSize (fiber vm) - 1)
                  (advance vm fr 1)))).
Proof.
  intros Hf Htop Hn. rewrite (step_fetch vm fr _ _ Hf).
  unfold exec. change (switch CODE_END) with case_END.
  unfold exec_END, POP. unfold PEEK in Htop. simpl. rewrite Htop. simpl.
  destruct (Z.eqb_spec (numFrames (fiber vm) - 1) 0) as [_|?]; [|lia].
  reflexivity.
Qed.

(** X27.  [interpret], end to end, on a function whose code is
    [CONSTANT i; END]: called on a fiber without frames it returns the
    constant [i] and leaves the stack as high as it found it.  The
    return hangs on the frame count alone: called on a fiber that
    already has frames, [END] does not return but stores the value and
    goes on in the frame below. *)
Theorem interpret_returns_when_the_last_frame_ends
  vm f o bytecode constants n i v :
  heap vm !! f = Some o → body o = ObjFn bytecode constants n →
  take 3 bytecode = [CODE_CONSTANT; i; CODE_END] →
  nth_Z constants i = Some v →
  (numFrames (fiber vm) = 0 →
   ∃ vm', (∀ gas, interpret (2 + gas) vm (Some f) = Some (Returned v vm')) ∧
          numFrames (fiber vm') = 0 ∧
          stackSize (fiber vm') = stackSize (fiber vm) ∧
          heap vm' = heap vm) ∧
  (numFrames (fiber vm) ≠ 0 →
   ∃ vm', interpret 2 vm (Some f) = Some (Running vm') ∧
          numFrames (fiber vm') = numFrames (fiber vm) ∧
          stackSize (fiber vm') = stackSize (fiber vm) + 1 ∧
          stack (fiber vm') !! stackSize (fiber vm) = Some v ∧
          heap vm' = heap vm).
Proof.
  intros Hfn Hbody Hcode Hv. unfold interpret.
  set (vm0 := set_fiber (callFunction (fiber vm) (Some f) 0) vm).
  set (fr0 := mkCallFrame 0 (Some f) (stackSize (fiber vm) - 0)).
  assert (fetches vm0 fr0 [CODE_CONSTANT; i; CODE_END]) as Hf0.
  { split.
    - simpl. replace (numFrames (fiber vm) + 1 - 1)
        with (numFrames (fiber vm)) by lia.
      by rewrite lookup_insert_eq.
    - exists f, o, bytecode, constants, n. simpl. by rewrite drop_0. }
  assert (constant_at vm0 (numFrames (fiber vm0) - 1) i = Some v) as Hc0.
  { unfold constant_at, frame_fn. rewrite (proj1 Hf0). simpl.
    rewrite Hfn. simpl. by rewrite Hbody. }
  pose proof (step_CONSTANT vm0 fr0 i _ v Hf0 Hc0) as Hs1.
  set (vm1 := PUSH (advance vm0 fr0 2) v) in *.
  assert (fetches vm1 (mkCallFrame (ip fr0 + 2) (fn fr0) (stackStart fr0))
                  [CODE_END]) as Hf1.
  { apply (fetches_next vm0 fr0 _ 2 vm1 Hf0); simpl; try done; try lia.
    by rewrite lookup_insert_eq. }
  assert (PEEK vm1 = Some v) as Htop1.
  { unfold PEEK. simpl.
    replace (stackSize (fiber vm) + 1 - 1) with (stackSize (fiber vm)) by lia.
    by rewrite lookup_insert_eq. }
  split; intros Hnum.
  - assert (numFrames (fiber vm1) = 1) as Hn1 by (simpl; lia).
    pose proof (step_END_outer vm1 _ _ v Hf1 Htop1 Hn1) as Hs2.
    eexists. split.
    { intros gas. simpl. rewrite Hs1. simpl. rewrite Hs2. reflexivity. }
    simpl. split; [lia|]. split; [lia|done].
  - assert (numFrames (fiber vm1) ≠ 1) as Hn1 by (simpl; lia).
    pose proof (step_END_inner vm1 _ _ v Hf1 Htop1 Hn1) as Hs2.
    eexists. split.
    { simpl. rewrite Hs1. simpl. rewrite Hs2. reflexivity. }
    simpl. split; [lia|]. split; [lia|].
    replace (stackSize (fiber vm) - 0) with (stackSize (fiber vm)) by lia.
    by rewrite lookup_insert_eq.
Qed.

(** X28.  [unpinObj] compares types only: after a pin, every value of
    the type of the pinned one unpins it, whatever object it is, and
    the roots are then those of before the pin; a value of another
    type fails the assertion. *)
Theorem unpinObj_checks_only_the_type vm v w vm1 :
  pinObj vm v = Some vm1 →
  (type_of w = type_of v →
   ∃ vm2, unpinObj vm1 w = Some vm2 ∧
          numPinned vm2 = numPinned vm ∧
          heap vm2 = heap vm ∧ fiber vm2 = fiber vm ∧
          (∀ a, root vm2 a ↔ root vm a)) ∧
  (type_of w ≠ type_of v → unpinObj vm1 w = None).
Proof.
  unfold pinObj. destruct (_ <? _); [|done]. intros [= <-].
  unfold unpinObj. simpl.
  replace (numPinned vm + 1 - 1) with (numPinned vm) by lia.
  rewrite lookup_insert_eq. simpl. split; intros Htype.
  - rewrite decide_True by done. eexists. split; [reflexivity|]. simpl.
    split; [lia|]. split; [done|]. split; [done|].
    intros a. unfold root. simpl.
    apply or_iff_compat_l, or_iff_compat_r.
    split; intros (j & Hj & Hlook); exists j; (split; [lia|]).
    + by rewrite lookup_insert_ne in Hlook by lia.
    + by rewrite lookup_insert_ne by lia.
  - rewrite decide_False; [done|congruence].
Qed.

End Entry.

(** ** The constructors and the books *)

Section Books.
Context {P : Platform}.
Hypothesis FLAG_MARKED_nonzero : FLAG_MARKED ≠ 0.

Lemma mod_eq_ex a b :
  a mod 2 ^ 64 = b mod 2 ^ 64 ↔ ∃ k, a = b + k * 2 ^ 64.
Proof.
  split.
  - intros Heq. exists (a / 2 ^ 64 - b / 2 ^ 64).
    pose proof (Z.div_mod a (2 ^ 64) ltac:(lia)).
    pose proof (Z.div_mod b (2 ^ 64) ltac:(lia)). lia.
  - intros [k ->]. apply Z_mod_plus_full.
Qed.

Lemma size_t_ex x : ∃ q, size_t x = x - q * 2 ^ 64.
Proof.
  exists (x / 2 ^ 64). unfold size_t.
  pose proof (Z.div_mod x (2 ^ 64) ltac:(lia)). lia.
Qed.

Lemma heap_bytes_insert_new h a o :
  h !! a = None → heap_bytes (<[a := o]> h) = heap_bytes h + obj_size o.
Proof.
  intros Ha. unfold heap_bytes. rewrite fmap_insert.
  rewrite map_fold_insert_L.
  - lia.
  - intros. lia.
  - by rewrite lookup_fmap, Ha.
Qed.

(** [allocate] puts [size] on the books, whether it collects or not. *)
Lemma allocate_bytes vm l size :
  gc_ready vm l →
  ∃ vm' l' k,
    allocate vm size = Some (vm', malloc_addr (heap vm'), malloc_bytes size) ∧
    gc_ready vm' l' ∧
    totalAllocated vm' - heap_bytes (heap vm')
    = totalAllocated vm - heap_bytes (heap vm) + size + k * 2 ^ 64.
Proof.
  intros Hready.
  destruct (allocate_ready FLAG_MARKED_nonzero vm l size Hready)
    as (vm' & l' & Halloc & Hready' & _).
  assert (∃ k, totalAllocated vm' - heap_bytes (heap vm')
               = totalAllocated vm - heap_bytes (heap vm) + size + k * 2 ^ 64)
    as [k Hk]; [|by exists vm', l', k].
  apply mod_eq_ex. unfold allocate in Halloc.
  set (vm1 := set_totalAllocated (size_t (totalAllocated vm + size)) vm) in *.
  destruct (nextGC vm1 <? totalAllocated vm1).
  - destruct (collectGarbage_bytes FLAG_MARKED_nonzero vm1 l Hready)
      as (vmc & Hgc & Hmod & _).
    rewrite Hgc in Halloc. cbn [mbind option_bind] in Halloc.
    injection Halloc as <-. simpl. rewrite Hmod. simpl. unfold size_t.
    rewrite Zminus_mod_idemp_l. f_equal. lia.
  - cbn [mbind option_bind] in Halloc. injection Halloc as <-. simpl.
    unfold size_t. rewrite Zminus_mod_idemp_l. f_equal. lia.
Qed.

(** X29.  What each constructor leaves on the books, against what
    [freeObj] will take off when the object is freed ([heap_bytes] sums
    that over the objects in memory): a function and a class are
    charged what is taken off later; a string is charged one byte more
    (its terminating NUL), an instance [sizeof (ObjInstance)] where
    [sizeof (Obj)] is taken off.  All modulo the range of [size_t]. *)
Theorem constructors_put_more_on_the_books_than_freeObj_takes_off vm l :
  gc_ready vm l →
  (∃ vm' f,
     newFunction vm = Some (vm', f) ∧
     (totalAllocated vm' - heap_bytes (heap vm')) mod 2 ^ 64
     = (totalAllocated vm - heap_bytes (heap vm)) mod 2 ^ 64) ∧
  (∀ mc sc, ∃ vm' c,
     newSingleClass vm mc sc = Some (vm', c) ∧
     (totalAllocated vm' - heap_bytes (heap vm')) mod 2 ^ 64
     = (totalAllocated vm - heap_bytes (heap vm)) mod 2 ^ 64) ∧
  (∀ text len, plain text len → ∃ vm' v,
     newString vm (Some text) len = Some (vm', v) ∧
     (totalAllocated vm' - heap_bytes (heap vm')) mod 2 ^ 64
     = (totalAllocated vm - heap_bytes (heap vm) + 1) mod 2 ^ 64) ∧
  (∀ classObj, ∃ vm' v,
     newInstance vm classObj = Some (vm', v) ∧
     (totalAllocated vm' - heap_bytes (heap vm')) mod 2 ^ 64
     = (totalAllocated vm - heap_bytes (heap vm)
        + (sizeof_ObjInstance - sizeof_Obj)) mod 2 ^ 64).
Proof.
  intros Hready. split; [|split; [|split]].
  - unfold newFunction.
    destruct (allocate_bytes vm l (size_t (sizeof_Code * 1024)) Hready)
      as (vm1 & l1 & k1 & Ha1 & Hready1 & Hk1).
    rewrite Ha1. cbn [mbind option_bind].
    destruct (allocate_bytes vm1 l1 (size_t (sizeof_Value * 256)) Hready1)
      as (vm2 & l2 & k2 & Ha2 & Hready2 & Hk2).
    rewrite Ha2. cbn [mbind option_bind].
    destruct (allocate_bytes vm2 l2 sizeof_ObjFn Hready2)
      as (vm3 & l3 & k3 & Ha3 & Hready3 & Hk3).
    rewrite Ha3. cbn [mbind option_bind].
    eexists _, _. split; [reflexivity|]. simpl.
    rewrite heap_bytes_insert_new by apply malloc_addr_fresh.
    unfold obj_size, freed_size. simpl.
    destruct (size_t_ex (sizeof_Code * 1024)) as [q1 Hq1].
    destruct (size_t_ex (sizeof_Value * 256)) as [q2 Hq2].
    destruct (size_t_ex (sizeof_ObjFn + sizeof_Code * 1024
                         + sizeof_Value * 256)) as [q3 Hq3].
    apply mod_eq_ex. exists (k1 + k2 + k3 - q1 - q2 + q3). lia.
  - intros mc sc. unfold newSingleClass.
    destruct (allocate_bytes vm l sizeof_ObjClass Hready)
      as (vm1 & l1 & k1 & Ha1 & Hready1 & Hk1).
    rewrite Ha1. cbn [mbind option_bind].
    eexists _, _. split; [reflexivity|]. simpl.
    rewrite heap_bytes_insert_new by apply malloc_addr_fresh.
    unfold obj_size, freed_size. simpl.
    destruct (size_t_ex sizeof_ObjClass) as [q1 Hq1].
    apply mod_eq_ex. exists (k1 + q1). lia.
  - intros text len (Hlen & Hle & Hnz). unfold newString.
    destruct (allocate_bytes vm l (size_t (len + 1)) Hready)
      as (vm1 & l1 & k1 & Ha1 & Hready1 & Hk1).
    rewrite Ha1. cbn [mbind option_bind].
    destruct (allocate_bytes vm1 l1 sizeof_ObjString Hready1)
      as (vm2 & l2 & k2 & Ha2 & Hready2 & Hk2).
    rewrite Ha2. cbn [mbind option_bind].
    rewrite (strncpy_plain (Z.to_nat len) text Hle Hnz).
    cbn [mbind option_bind].
    eexists _, _. split; [reflexivity|]. simpl.
    rewrite heap_bytes_insert_new by apply malloc_addr_fresh.
    unfold obj_size, freed_size. simpl.
    rewrite strlen_app_nul by done. rewrite length_take. simpl.
    replace (Z.of_nat (Z.to_nat len `min` length text)) with len by lia.
    destruct (size_t_ex (len + 1)) as [q1 Hq1].
    destruct (size_t_ex (sizeof_ObjString + len)) as [q2 Hq2].
    apply mod_eq_ex. exists (k1 + k2 - q1 + q2). lia.
  - intros classObj. unfold newInstance.
    destruct (allocate_bytes vm l sizeof_ObjInstance Hready)
      as (vm1 & l1 & k1 & Ha1 & Hready1 & Hk1).
    rewrite Ha1. cbn [mbind option_bind].
    eexists _, _. split; [reflexivity|]. simpl.
    rewrite heap_bytes_insert_new by apply malloc_addr_fresh.
    unfold obj_size, freed_size. simpl.
    destruct (size_t_ex sizeof_Obj) as [q1 Hq1].
    apply mod_eq_ex. exists (k1 + q1). lia.
Qed.

End Books.

(** ** The further properties at concrete states *)

Ltac by_compute :=
  match goal with
  | |- ?G => apply (bool_decide_unpack G); vm_compute; exact I
  end.

Ltac from_hyps :=
  repeat match goal with |- _ ∧ _ => split end; assumption.

Lemma lp64_FLAG_MARKED : FLAG_MARKED (Platform := lp64) ≠ 0.
Proof. vm_compute. discriminate. Qed.

Lemma findSymbol_on_two_symbols :
  ∃ r, findSymbol two_symbols str_foo 3 = Some r.
Proof.
  destruct (findSymbol_returns_the_first_slot_of_the_name
              two_symbols str_foo 3) as (r & Hr & _); [by_compute..|].
  exists r. from_hyps.
Defined.

Lemma ensureSymbol_on_two_symbols :
  ∃ symbols' s,
    ensureSymbol two_symbols str_bar 3 = Some (symbols', s) ∧
    findSymbol symbols' str_bar 3 = Some s.
Proof.
  destruct (ensureSymbol_then_findSymbol (P := lp64) two_symbols str_bar 3)
    as (symbols' & s & Hens & _ & _ & _ & _ & Hfind & _);
    [by_compute|simpl; lia|by_compute|].
  exists symbols', s. from_hyps.
Defined.

Lemma ensureSymbol_keeps_foo :
  ∃ symbols' t,
    ensureSymbol two_symbols str_bar 3 = Some (symbols', t) ∧
    findSymbol symbols' str_foo 3 = Some 1.
Proof.
  destruct (ensureSymbol_keeps_the_symbols (P := lp64)
              two_symbols str_foo 3 str_bar 3 1)
    as (symbols' & t & Hens & _ & Hfind & _);
    [by_compute|simpl; lia|by_compute|by_compute|reflexivity|lia|].
  exists symbols', t. from_hyps.
Defined.

Lemma addSymbol_on_two_symbols :
  ∃ symbols' s, addSymbol two_symbols str_foo 3 = Some (symbols', s).
Proof.
  destruct (addSymbol_refuses_duplicates (P := lp64) two_symbols str_foo 3)
    as (symbols' & s & found & _ & Hadd & _);
    [by_compute|simpl; lia|by_compute|].
  exists symbols', s. from_hyps.
Defined.

Lemma ensureSymbol_on_a_name_with_NUL :
  findSymbol two_symbols str_a_nul_b 3 = Some (-1).
Proof.
  destruct (ensureSymbol_never_finds_a_name_cut_by_NUL (P := lp64)
              two_symbols str_a_nul_b 3 1) as [Hfind _];
    [by_compute|simpl; lia|by_compute|].
  exact Hfind.
Defined.

Lemma findGlobal_on_empty_vm :
  ∃ symbols',
    ensureSymbol initSymbolTable str_foo 3 = Some (symbols', 0) ∧
    findGlobal
      (set_globals (<[0 := VAL_NUM 7]> ∅) (set_globalSymbols symbols' empty_vm))
      str_foo
    = Some (VAL_NUM 7).
Proof.
  eexists. split; [vm_compute; reflexivity|].
  apply (findGlobal_returns_the_stored_global (P := lp64) empty_vm str_foo 3
           _ 0 (VAL_NUM 7)).
  - by_compute.
  - simpl. lia.
  - reflexivity.
  - vm_compute. reflexivity.
Defined.

Lemma findGlobal_of_bar :
  findGlobal (set_globalSymbols two_symbols empty_vm) str_bar = None.
Proof.
  rewrite (findGlobal_of_an_unknown_name_reads_before_the_array
             (set_globalSymbols two_symbols empty_vm) str_bar 3).
  - reflexivity.
  - by_compute.
  - reflexivity.
  - intros i n Hi Hn [_ Hm]. simpl in Hi.
    assert (i = 0 ∨ i = 1) as [->| ->] by lia;
      vm_compute in Hn; injection Hn as <-; vm_compute in Hm; discriminate.
Defined.

Lemma unknown_opcode_on_running_vm :
  step (P := lp64) (running_vm [200; CODE_END] [] 0 [] 1)
  = Some (Running (advance (running_vm [200; CODE_END] [] 0 [] 1)
                           (mkCallFrame 0 (Some 1%positive) 0) 1)).
Proof.
  apply (unknown_opcode_is_skipped (P := lp64)
           (running_vm [200; CODE_END] [] 0 [] 1)
           (mkCallFrame 0 (Some 1%positive) 0) 200 [CODE_END]).
  - solve_fetches.
  - reflexivity.
Defined.

Lemma STORE_LOCAL_on_running_vm :
  ∃ vm2,
    run (P := lp64) 2
      (running_vm [CODE_STORE_LOCAL; 0; CODE_LOAD_LOCAL; 0] [] 0
                  [VAL_NUM 1; VAL_NUM 2] 1)
    = Some (Running vm2) ∧
    PEEK vm2 = Some (VAL_NUM 2) ∧
    stack (fiber vm2) !! 0 = Some (VAL_NUM 2).
Proof.
  destruct (STORE_LOCAL_then_LOAD_LOCAL (P := lp64)
              (running_vm [CODE_STORE_LOCAL; 0; CODE_LOAD_LOCAL; 0] [] 0
                          [VAL_NUM 1; VAL_NUM 2] 1)
              (mkCallFrame 0 (Some 1%positive) 0) 0 [] (VAL_NUM 2))
    as (vm1 & vm2 & _ & _ & _ & _ & _ & Hrun & _ & Htop & Hlocal & _);
    [solve_fetches|simpl; lia|reflexivity|].
  exists vm2. from_hyps.
Defined.

Lemma STORE_GLOBAL_on_running_vm :
  ∃ vm2,
    run (P := lp64) 2
      (running_vm [CODE_STORE_GLOBAL; 3; CODE_LOAD_GLOBAL; 3] [] 0
                  [VAL_NUM 1; VAL_NUM 2] 1)
    = Some (Running vm2) ∧
    PEEK vm2 = Some (VAL_NUM 2) ∧
    globals vm2 !! 3 = Some (VAL_NUM 2).
Proof.
  destruct (STORE_GLOBAL_then_LOAD_GLOBAL (P := lp64)
              (running_vm [CODE_STORE_GLOBAL; 3; CODE_LOAD_GLOBAL; 3] [] 0
                          [VAL_NUM 1; VAL_NUM 2] 1)
              (mkCallFrame 0 (Some 1%positive) 0) 3 [] (VAL_NUM 2))
    as (vm1 & vm2 & _ & _ & _ & _ & _ & Hrun & _ & Htop & Hglobals);
    [solve_fetches|simpl; lia|reflexivity|].
  exists vm2. split; [done|]. split; [done|].
  rewrite Hglobals. apply lookup_insert_eq.
Defined.

Lemma CALL_block_on_class_vm :
  ∃ vm',
    step (P := lp64)
      (class_vm [CODE_CALL_0 + 1; 0] [] [VAL_OBJ (Some 3%positive); VAL_NUM 5]
                (METHOD_BLOCK (Some 4%positive)))
    = Some (Running vm') ∧
    numFrames (fiber vm') = 2 ∧
    frames (fiber vm') !! 1 = Some (mkCallFrame 0 (Some 4%positive) 0).
Proof.
  edestruct (CALL_block_pushes_a_frame_over_the_arguments (P := lp64)
              (class_vm [CODE_CALL_0 + 1; 0] [] 
                        [VAL_OBJ (Some 3%positive); VAL_NUM 5]
                        (METHOD_BLOCK (Some 4%positive)))
              (mkCallFrame 0 (Some 1%positive) 0) 1 0 []
              (VAL_OBJ (Some 3%positive)) 2%positive)
    as (vm' & Hstep & Hnum & Hframe & _);
    [lia|solve_fetches|reflexivity..|].
  exists vm'. from_hyps.
Defined.

Lemma CALL_block_returns_on_class_vm :
  ∃ vm',
    run (P := lp64) 3
      (class_vm [CODE_CALL_0 + 1; 0] [] [VAL_OBJ (Some 3%positive); VAL_NUM 5]
                (METHOD_BLOCK (Some 4%positive)))
    = Some (Running vm') ∧
    numFrames (fiber vm') = 1 ∧
    stackSize (fiber vm') = 1 ∧
    stack (fiber vm') !! 0 = Some (VAL_NUM 5).
Proof.
  edestruct (CALL_of_a_block_returning_a_parameter (P := lp64)
              (class_vm [CODE_CALL_0 + 1; 0] [] 
                        [VAL_OBJ (Some 3%positive); VAL_NUM 5]
                        (METHOD_BLOCK (Some 4%positive)))
              (mkCallFrame 0 (Some 1%positive) 0) 1 0 []
              (VAL_OBJ (Some 3%positive)) 2%positive)
    as (vm' & Hrun & Hnum & _ & Hsize & Hres & _);
    [lia|simpl; lia|solve_fetches|reflexivity..|].
  exists vm'. from_hyps.
Defined.

Lemma CALL_missing_on_class_vm :
  ∃ vm',
    step (P := lp64)
      (set_methods two_symbols
         (class_vm [CODE_CALL_0; 1] [] [VAL_OBJ (Some 3%positive)]
                   METHOD_NONE))
    = Some (Exited vm').
Proof.
  edestruct (CALL_of_a_missing_method_exits (P := lp64)
              (set_methods two_symbols
                 (class_vm [CODE_CALL_0; 1] [] [VAL_OBJ (Some 3%positive)]
                           METHOD_NONE))
              (mkCallFrame 0 (Some 1%positive) 0) 0 1 []
              (VAL_OBJ (Some 3%positive)) 2%positive)
    as (Hstep & _);
    [lia|solve_fetches|reflexivity..|].
  eexists. exact Hstep.
Defined.

Lemma IS_on_class_vm :
  ∃ vm',
    step (P := lp64)
      (class_vm [CODE_IS] []
                [VAL_OBJ (Some 3%positive); VAL_OBJ (Some 2%positive)]
                METHOD_NONE)
    = Some (Running vm') ∧
    PEEK vm' = Some VAL_TRUE.
Proof.
  destruct (IS_compares_the_class_by_identity (P := lp64)
              (class_vm [CODE_IS] []
                        [VAL_OBJ (Some 3%positive); VAL_OBJ (Some 2%positive)]
                        METHOD_NONE)
              (mkCallFrame 0 (Some 1%positive) 0) []
              (VAL_OBJ (Some 3%positive)) (Some 2%positive) (Some 2%positive))
    as (vm' & Hstep & _ & Htop & _);
    [solve_fetches|reflexivity..|].
  exists vm'. from_hyps.
Defined.

Lemma collectGarbage_ready_on_gc_vm :
  ∃ vm' l', collectGarbage (P := lp64) gc_vm = Some vm' ∧
            gc_ready (P := lp64) vm' l' ∧ sublist l' gc_list.
Proof.
  destruct (collectGarbage_leaves_a_collectable_state lp64_FLAG_MARKED
              gc_vm gc_list) as (vm' & l' & Hgc & Hready & Hsub & _);
    [by_compute|].
  exists vm', l'. from_hyps.
Defined.

Lemma collectGarbage_on_orphan_vm :
  ∃ vm' oi',
    collectGarbage (P := lp64) orphan_vm = Some vm' ∧
    heap vm' !! 4%positive = Some oi' ∧
    body oi' = ObjInstance (Some 5%positive) ∧
    heap vm' !! 5%positive = None.
Proof.
  assert (gc_ready (P := lp64) orphan_vm gc_list) as Hready by by_compute.
  edestruct (collectGarbage_frees_the_class_of_a_live_instance
               lp64_FLAG_MARKED orphan_vm gc_list 4%positive)
    as (vm' & oi' & Hgc & Hi & Hb & Hc & _).
  - exact Hready.
  - right. right. right. exists 0. split; [simpl; lia|reflexivity].
  - reflexivity.
  - reflexivity.
  - by_compute.
  - intros Hr.
    destruct (collectGarbage_spec lp64_FLAG_MARKED orphan_vm gc_list Hready)
      as (vm' & l' & Hgc & _ & _ & _ & Hlive & _).
    apply Hlive in Hr. vm_compute in Hgc. injection Hgc as <-.
    vm_compute in Hr. destruct Hr as [? Hr]. discriminate Hr.
  - exists vm', oi'. from_hyps.
Defined.

Lemma collectGarbage_balance_on_gc_vm :
  ∃ vm',
    collectGarbage (P := lp64) gc_vm = Some vm' ∧
    (totalAllocated vm' - heap_bytes (P := lp64) (heap vm')) mod 2 ^ 64
    = (totalAllocated gc_vm - heap_bytes (P := lp64) (heap gc_vm)) mod 2 ^ 64.
Proof.
  destruct (collectGarbage_keeps_the_balance lp64_FLAG_MARKED gc_vm gc_list)
    as (vm' & Hgc & Hmod & _); [by_compute|].
  exists vm'. from_hyps.
Defined.

Lemma collectGarbage_twice_on_gc_vm :
  ∃ vm1 vm2,
    collectGarbage (P := lp64) gc_vm = Some vm1 ∧
    collectGarbage (P := lp64) vm1 = Some vm2 ∧
    dom (heap vm2) = dom (heap vm1) ∧
    totalAllocated vm2 = totalAllocated vm1.
Proof.
  destruct (collectGarbage_twice_frees_nothing_more lp64_FLAG_MARKED
              gc_vm gc_list)
    as (vm1 & vm2 & l' & Hgc1 & Hgc2 & _ & _ & Hdom & _ & Htotal);
    [by_compute|simpl; lia|].
  exists vm1, vm2. from_hyps.
Defined.

Lemma pinObj_on_gc_vm :
  ∃ vm1 vm2 a chunk o',
    pinObj (P := lp64) gc_vm (OBJ_VAL (Some 3%positive)) = Some vm1 ∧
    allocate (P := lp64) vm1 100 = Some (vm2, a, chunk) ∧
    heap vm2 !! 3%positive = Some o' ∧
    body o' = ObjString [120; 0].
Proof.
  edestruct (pinObj_protects_from_the_next_collection lp64_FLAG_MARKED
               gc_vm gc_list 3%positive)
    as [(vm2 & a & chunk & o' & Halloc & Ho' & Hb & _) _].
  - by_compute.
  - simpl. lia.
  - reflexivity.
  - reflexivity.
  - eexists _, vm2, a, chunk, o'. split; [reflexivity|].
    split; [exact Halloc|]. split; [exact Ho'|exact Hb].
Defined.

Lemma newString_on_gc_vm :
  ∃ vm' s o,
    newString (P := lp64) gc_vm (Some [104; 105; 0]) 2
    = Some (vm', VAL_OBJ (Some s)) ∧
    heap vm' !! s = Some o ∧
    body o = ObjString [104; 105; 0].
Proof.
  destruct (newString_stores_a_terminated_copy lp64_FLAG_MARKED
              gc_vm gc_list [104; 105; 0] 2)
    as (vm' & l' & s & o & Hnew & Ho & Hb & _); [by_compute..|].
  exists vm', s, o. from_hyps.
Defined.

Lemma CALL_new_on_class_vm :
  ∃ vm' i oi,
    step (P := lp64)
      (class_vm [CODE_CALL_0; 0] [] [VAL_OBJ (Some 5%positive)]
                (METHOD_PRIMITIVE primitive_metaclass_new))
    = Some (Running vm') ∧
    PEEK vm' = Some (VAL_OBJ (Some i)) ∧
    heap vm' !! i = Some oi ∧
    body oi = ObjInstance (Some 5%positive).
Proof.
  edestruct (CALL_new_makes_an_instance_of_the_receiver lp64_FLAG_MARKED
               (class_vm [CODE_CALL_0; 0] [] [VAL_OBJ (Some 5%positive)]
                         (METHOD_PRIMITIVE primitive_metaclass_new))
               class_list (mkCallFrame 0 (Some 1%positive) 0) 0 []
               5%positive)
    as (vm' & i & oi & oc' & Hstep & _ & Htop & Hi & Hb & _);
    [by_compute|solve_fetches|simpl; lia|reflexivity..|].
  exists vm', i, oi. from_hyps.
Defined.

Lemma newClass_on_class_vm :
  ∃ vm' c oc m cms,
    newClass (P := lp64)
      (class_vm [] [] [VAL_OBJ (Some 2%positive)]
                (METHOD_BLOCK (Some 4%positive)))
      (Some 2%positive)
    = Some (vm', c) ∧
    heap vm' !! c = Some oc ∧
    body oc = ObjClass (Some m) (Some 2%positive) cms ∧
    cms !! 0 = Some (METHOD_BLOCK (Some 4%positive)).
Proof.
  edestruct (newClass_copies_the_methods_of_the_superclass lp64_FLAG_MARKED
               (class_vm [] [] [VAL_OBJ (Some 2%positive)]
                         (METHOD_BLOCK (Some 4%positive)))
               class_list 2%positive)
    as (vm' & l' & c & m & oc & om & cms & os' & Hnew & Hc & Hb & Hcopy & _).
  - by_compute.
  - simpl. lia.
  - exists 2%positive. split; [|apply rtc_refl].
    right. right. right. exists 0. split; [simpl; lia|reflexivity].
  - reflexivity.
  - reflexivity.
  - exists vm', c, oc, m, cms. split; [exact Hnew|]. split; [exact Hc|].
    split; [exact Hb|]. rewrite Hcopy; [reflexivity|simpl; lia].
Defined.

Lemma CLASS_on_running_vm :
  ∃ vm' c,
    step (P := lp64) (running_vm [CODE_CLASS] [] 0 [] 1)
    = Some (Running vm') ∧
    PEEK vm' = Some (VAL_OBJ (Some c)) ∧
    objectClass vm' = Some c.
Proof.
  destruct (CLASS_pushes_a_class_whose_metaclass_answers_new lp64_FLAG_MARKED
              (running_vm [CODE_CLASS] [] 0 [] 1) [1%positive]
              (mkCallFrame 0 (Some 1%positive) 0) [])
    as (vm' & l' & c & m & oc & om & cms & sym & Hstep & _ & _ & Htop & _ & _
        & _ & _ & _ & _ & Hoc & _).
  - by_compute.
  - by_compute.
  - simpl. lia.
  - simpl. lia.
  - solve_fetches.
  - by left.
  - exists vm', c. from_hyps.
Defined.

Lemma CLASS_then_new_on_running_vm :
  ∃ vm' c i oi,
    run (P := lp64) 2 (running_vm [CODE_CLASS; CODE_CALL_0; 0] [] 0 [] 1)
    = Some (Running vm') ∧
    PEEK vm' = Some (VAL_OBJ (Some i)) ∧
    heap vm' !! i = Some oi ∧ body oi = ObjInstance (Some c).
Proof.
  edestruct (CLASS_then_new_makes_an_instance lp64_FLAG_MARKED
              (running_vm [CODE_CLASS; CODE_CALL_0; 0] [] 0 [] 1)
              [1%positive] (mkCallFrame 0 (Some 1%positive) 0) [])
    as (vm' & c & m & i & oc & oi & cms & Hrun & _ & Htop & Hi & Hb & _).
  - by_compute.
  - by_compute.
  - simpl. lia.
  - simpl. lia.
  - simpl. lia.
  - simpl. lia.
  - solve_fetches.
  - vm_compute. reflexivity.
  - by left.
  - exists vm', c, i, oi. from_hyps.
Defined.

Lemma SUBCLASS_on_class_vm :
  ∃ vm' c oc m cms,
    step (P := lp64)
      (class_vm [CODE_SUBCLASS] []
                [VAL_OBJ (Some 2%positive); VAL_OBJ (Some 2%positive)]
                (METHOD_BLOCK (Some 4%positive)))
    = Some (Running vm') ∧
    PEEK vm' = Some (VAL_OBJ (Some c)) ∧
    heap vm' !! c = Some oc ∧
    body oc = ObjClass (Some m) (Some 2%positive) cms ∧
    cms !! 0 = Some (METHOD_BLOCK (Some 4%positive)).
Proof.
  edestruct (SUBCLASS_inherits_the_methods_by_copy lp64_FLAG_MARKED
               (class_vm [CODE_SUBCLASS] []
                         [VAL_OBJ (Some 2%positive); VAL_OBJ (Some 2%positive)]
                         (METHOD_BLOCK (Some 4%positive)))
               class_list (mkCallFrame 0 (Some 1%positive) 0) [] 2%positive)
    as (vm' & l' & c & m & oc & cms & Hstep & _ & _ & Htop & Hc & Hb & Hcopy
        & _).
  - by_compute.
  - by_compute.
  - simpl. lia.
  - simpl. lia.
  - solve_fetches.
  - reflexivity.
  - reflexivity.
  - reflexivity.
  - exists 2%positive. split; [|apply rtc_refl].
    right. right. right. exists 0. split; [simpl; lia|reflexivity].
  - exists vm', c, oc, m, cms. split; [exact Hstep|]. split; [exact Htop|].
    split; [exact Hc|]. split; [exact Hb|].
    rewrite Hcopy; [reflexivity|simpl; lia].
Defined.

Lemma METHOD_on_class_vm :
  ∃ vm' o,
    step (P := lp64)
      (class_vm [CODE_METHOD; 0; 0] [VAL_OBJ (Some 4%positive)]
                [VAL_OBJ (Some 2%positive)] METHOD_NONE)
    = Some (Running vm') ∧
    heap vm' !! 2%positive = Some o ∧
    body o = ObjClass None None
               (<[0 := METHOD_BLOCK (Some 4%positive)]>
                  (<[0 := METHOD_NONE]> (no_methods (P := lp64)))).
Proof.
  edestruct (METHOD_defines_the_block_that_CALL_runs (P := lp64)
               (class_vm [CODE_METHOD; 0; 0] [VAL_OBJ (Some 4%positive)]
                         [VAL_OBJ (Some 2%positive)] METHOD_NONE)
               (mkCallFrame 0 (Some 1%positive) 0) 0 0 [] 2%positive)
    as (vm' & Hstep & _ & _ & Hheap & _);
    [solve_fetches|simpl; lia|reflexivity..|].
  eexists vm', _. split; [exact Hstep|]. rewrite Hheap.
  rewrite lookup_insert_eq. split; reflexivity.
Defined.

Lemma interpret_on_vm_with_fn :
  ∃ vm',
    interpret (P := lp64) 2
      (vm_with_fn [CODE_CONSTANT; 0; CODE_END] [VAL_NUM 42])
      (Some 1%positive)
    = Some (Returned (VAL_NUM 42) vm').
Proof.
  edestruct (interpret_returns_when_the_last_frame_ends (P := lp64)
               (vm_with_fn [CODE_CONSTANT; 0; CODE_END] [VAL_NUM 42])
               1%positive)
    as [Houter _]; [reflexivity..|].
  destruct Houter as (vm' & Hint & _); [reflexivity|].
  exists vm'. exact (Hint 0%nat).
Defined.

Lemma unpinObj_another_object :
  ∃ vm1 vm2,
    pinObj (P := lp64) empty_vm (VAL_OBJ (Some 1%positive)) = Some vm1 ∧
    unpinObj vm1 (VAL_OBJ (Some 2%positive)) = Some vm2 ∧
    numPinned vm2 = 0.
Proof.
  edestruct (unpinObj_checks_only_the_type (P := lp64) empty_vm
               (VAL_OBJ (Some 1%positive)) (VAL_OBJ (Some 2%positive)))
    as [Hsame _]; [reflexivity|].
  destruct Hsame as (vm2 & Hunpin & Hnum & _); [reflexivity|].
  eexists _, vm2. split; [reflexivity|]. split; [exact Hunpin|exact Hnum].
Defined.

Lemma newString_books_on_gc_vm :
  ∃ vm' v,
    newString (P := lp64) gc_vm (Some [104; 105; 0]) 2 = Some (vm', v) ∧
    (totalAllocated vm' - heap_bytes (P := lp64) (heap vm')) mod 2 ^ 64
    = (totalAllocated gc_vm - heap_bytes (P := lp64) (heap gc_vm) + 1)
      mod 2 ^ 64.
Proof.
  destruct (constructors_put_more_on_the_books_than_freeObj_takes_off
              lp64_FLAG_MARKED gc_vm gc_list) as (_ & _ & Hstring & _);
    [by_compute|].
  apply (Hstring [104; 105; 0] 2). by_compute.
Defined.

(** ** The invariant of the classes

    What follows asks nothing of the bytecode, the roots or the fields
    of the objects: a function of the program that returns has kept the
    invariant, and one that runs into undefined behaviour has no result. *)

Section Class_invariant.
Context {P : Platform}.
Hypothesis FLAG_MARKED_nonzero : FLAG_MARKED ≠ 0.

(** Running a marker over the targets of a loop that came to an end. *)
Lemma mark_loop_steps
  (mk : gmap positive Obj → positive → option (gmap positive Obj))
  (tgt : Z → option positive) (R : positive → Prop) h0
  (body : Z → gmap positive Obj → option (gmap positive Obj)) idx :
  (∀ h' c h'', mk h' c = Some h'' → mark_post (eq c) h' h'' ∧ marked h'' c) →
  (∀ i h' h'', i ∈ idx → body i h' = Some h'' →
     match tgt i with Some c => mk h' c | None => Some h' end = Some h'') →
  (∀ i c, i ∈ idx → tgt i = Some c → R c) →
  ∀ h h'', mark_post R h0 h → for_each body idx h = Some h'' →
    mark_post R h0 h'' ∧ mark_ext h h'' ∧
    ∀ i c, i ∈ idx → tgt i = Some c → marked h'' c.
Proof.
  intros Hmk. induction idx as [|i idx IH]; intros Hbody Htgt h h'' Hpost Hrun.
  - simpl in Hrun. injection Hrun as <-. split; [done|].
    split; [apply mark_ext_refl|].
    intros i c Hi. by apply elem_of_nil in Hi.
  - simpl in Hrun. destruct (body i h) as [h1|] eqn:Hb; [|done].
    apply Hbody in Hb; [|by left].
    assert (mark_post R h0 h1 ∧ mark_ext h h1 ∧
            ∀ c, tgt i = Some c → marked h1 c) as (Hp1 & He1 & Hm1).
    { destruct (tgt i) as [c|] eqn:Hti.
      - destruct (Hmk h c h1 Hb) as [Hp1 Hm1].
        split; [|split; [apply Hp1|by intros ? [= <-]]].
        eapply mark_post_trans; [exact FLAG_MARKED_nonzero|exact Hpost|].
        eapply mark_post_mono; [|exact Hp1].
        intros r <-. by apply (Htgt i); [left|].
      - injection Hb as <-. split; [done|].
        split; [apply mark_ext_refl|]. intros c [=]. }
    destruct (IH ltac:(intros; apply Hbody; [by right|done])
                 ltac:(intros; eapply Htgt; [by right|done]) h1 h'' Hp1 Hrun)
      as (Hp2 & He2 & Hm2).
    split; [done|]. split.
    + by eapply mark_ext_trans.
    + intros j c Hj Hc. apply elem_of_cons in Hj as [->|Hj]; [|eauto].
      eapply mark_ext_marked; [exact FLAG_MARKED_nonzero|exact He2|]. auto.
Qed.

Lemma mark_loop_done
  (mk : gmap positive Obj → positive → option (gmap positive Obj))
  (tgt : Z → option positive) (R : positive → Prop) h0
  (body : Z → gmap positive Obj → option (gmap positive Obj)) idx h h'' :
  for_each body idx h = Some h'' →
  mark_post R h0 h →
  (∀ h' c h'', mk h' c = Some h'' → mark_post (eq c) h' h'' ∧ marked h'' c) →
  (∀ i h' h'', i ∈ idx → body i h' = Some h'' →
     match tgt i with Some c => mk h' c | None => Some h' end = Some h'') →
  (∀ i c, i ∈ idx → tgt i = Some c → R c) →
  mark_post R h0 h'' ∧ mark_ext h h'' ∧
  ∀ i c, i ∈ idx → tgt i = Some c → marked h'' c.
Proof.
  intros Hrun Hpost Hmk Hbody Htgt.
  exact (mark_loop_steps mk tgt R h0 body idx Hmk Hbody Htgt h h'' Hpost Hrun).
Qed.

(** A call of [markObj] that returns has marked its argument and what
    the traversal reaches from it. *)
Lemma markObj_done gas : ∀ h p h',
  markObj gas h p = Some h' →
  ∃ a, p = Some a ∧ mark_post (eq a) h h' ∧ marked h' a.
Proof.
  induction gas as [|gas IH]; intros h p h' Hrun; [done|].
  simpl in Hrun. destruct p as [a|]; [|done]. simpl in Hrun.
  destruct (h !! a) as [o|] eqn:Ha; [|done]. simpl in Hrun.
  exists a. split; [done|].
  destruct (is_marked o) eqn:Hm.
  { injection Hrun as <-. split; [apply mark_post_refl|].
    unfold marked. by rewrite Ha. }
  set (h1 := <[a := set_flags (Z.lor (flags o) FLAG_MARKED) o]> h) in *.
  pose proof (mark_ext_insert h a o Ha Hm) as E0. fold h1 in E0.
  assert (∀ h' c h'', markObj gas h' (Some c) = Some h'' →
            mark_post (eq c) h' h'' ∧ marked h'' c) as Hmk.
  { intros hx c hy Hxy. destruct (IH hx (Some c) hy Hxy) as (c' & [= <-] & ?).
    done. }
  destruct (body o) as [mc sc ms|bc cs n|s|c] eqn:Hbody.
  - (* class *)
    destruct (match mc with
              | Some _ => markObj gas h1 mc
              | None => Some h1
              end) as [h2|] eqn:Hmeta; [|done].
    cbn [mbind option_bind] in Hrun.
    assert (mark_post (edge h a) h1 h2 ∧ ∀ m, mc = Some m → marked h2 m)
      as (Hp2 & Hm2).
    { destruct mc as [m|].
      - destruct (Hmk h1 m h2 Hmeta) as [Hp2 Hm2].
        split; [|by intros ? [= <-]].
        eapply mark_post_mono; [|exact Hp2]. intros r <-.
        exists o. rewrite Hbody. split; [done|]. by left.
      - injection Hmeta as <-. split; [apply mark_post_refl|]. intros m [=]. }
    destruct (mark_loop_done (λ h' c, markObj gas h' (Some c))
                (λ i, match ms !! i with
                      | Some (METHOD_BLOCK (Some c)) => Some c
                      | _ => None
                      end)
                (edge h a) h1
                _ _ _ _ Hrun Hp2 Hmk)
      as (Hp3 & E23 & Hm3).
    { intros i hx hy Hi Hxy.
      destruct (ms !! i) as [[| |[f|]]|]; simpl in *; try done.
      by destruct gas. }
    { intros i c Hi Hc.
      destruct (ms !! i) as [[| |[f|]]|] eqn:Hmi; simpl in *; try done.
      injection Hc as ->.
      exists o. rewrite Hbody. split; [done|]. right. exists i.
      apply elem_of_seqZ in Hi. split; [lia|done]. }
    apply (mark_post_node FLAG_MARKED_nonzero h a o h' Ha Hm Hp3).
    intros z (o' & Ha' & Hz). rewrite Ha in Ha'. injection Ha' as <-.
    rewrite Hbody in Hz. destruct Hz as [->|(i & Hi & Hmi)].
    + eapply mark_ext_marked; [exact FLAG_MARKED_nonzero|exact E23|]. by apply Hm2.
    + apply (Hm3 i); [apply elem_of_seqZ; lia|]. by rewrite Hmi.
  - (* function *)
    destruct (mark_loop_done (λ h' c, markObj gas h' (Some c))
                (λ i, match nth_Z cs i with
                      | Some (VAL_OBJ (Some c)) => Some c
                      | _ => None
                      end)
                (edge h a) h1
                _ _ _ _ Hrun (mark_post_refl _ _) Hmk)
      as (Hp3 & E23 & Hm3).
    { intros i hx hy Hi Hxy.
      destruct (nth_Z cs i) as [[| | | | |[f|]]|]; simpl in *; try done.
      by destruct gas. }
    { intros i c Hi Hc.
      destruct (nth_Z cs i) as [[| | | | |[f|]]|] eqn:Hci; simpl in *; try done.
      injection Hc as ->.
      exists o. rewrite Hbody. split; [done|]. exists i.
      apply elem_of_seqZ in Hi. split; [lia|done]. }
    apply (mark_post_node FLAG_MARKED_nonzero h a o h' Ha Hm Hp3).
    intros z (o' & Ha' & Hz). rewrite Ha in Ha'. injection Ha' as <-.
    rewrite Hbody in Hz. destruct Hz as (i & Hi & Hci).
    apply (Hm3 i); [apply elem_of_seqZ; lia|]. by rewrite Hci.
  - (* string *)
    injection Hrun as <-.
    apply (mark_post_node FLAG_MARKED_nonzero h a o h1 Ha Hm (mark_post_refl _ _)).
    intros z (o' & Ha' & Hz). rewrite Ha in Ha'. injection Ha' as <-.
    by rewrite Hbody in Hz.
  - (* instance *)
    injection Hrun as <-.
    apply (mark_post_node FLAG_MARKED_nonzero h a o h1 Ha Hm (mark_post_refl _ _)).
    intros z (o' & Ha' & Hz). rewrite Ha in Ha'. injection Ha' as <-.
    by rewrite Hbody in Hz.
Qed.

Lemma mark_roots_done gas vm hm :
  mark_roots gas vm = Some hm →
  mark_post (root vm) (heap vm) hm ∧ ∀ r, root vm r → marked hm r.
Proof.
  unfold mark_roots, mark_globals, mark_pinned, mark_frames, mark_stack,
    for_range.
  intros Hrun.
  assert (∀ h' c h'', markObj gas h' (Some c) = Some h'' →
            mark_post (eq c) h' h'' ∧ marked h'' c) as Hmk.
  { intros hx c hy Hxy.
    destruct (markObj_done gas hx (Some c) hy Hxy) as (c' & [= <-] & ?).
    done. }
  assert (∀ hx, markObj gas hx None = None) as Hnone.
  { intros hx. by destruct gas. }
  destruct (for_each _ (seqZ 0 (count (globalSymbols vm))) (heap vm))
    as [h1|] eqn:Hh1; [|done].
  cbn [mbind option_bind] in Hrun.
  destruct (for_each _ (seqZ 0 (numPinned vm)) h1) as [h2|] eqn:Hh2; [|done].
  cbn [mbind option_bind] in Hrun.
  destruct (for_each _ (seqZ 0 (numFrames (fiber vm))) h2)
    as [h3|] eqn:Hh3; [|done].
  cbn [mbind option_bind] in Hrun.
  (* globals *)
  destruct (mark_loop_done (λ h' c, markObj gas h' (Some c))
              (λ i, match globals vm !! i with
                    | Some (VAL_OBJ (Some c)) => Some c
                    | _ => None
                    end)
              (root vm) (heap vm) _ _ _ _ Hh1 (mark_post_refl _ _) Hmk)
    as (Hp1 & E1 & Hm1).
  { intros i hx hy Hi Hxy.
    destruct (globals vm !! i) as [[| | | | |[f|]]|]; simpl in *; try done.
    by rewrite Hnone in Hxy. }
  { intros i c Hi Hc.
    destruct (globals vm !! i) as [[| | | | |[f|]]|] eqn:Hgi;
      simpl in *; try done.
    injection Hc as ->. left. exists i.
    apply elem_of_seqZ in Hi. split; [lia|done]. }
  (* pinned *)
  destruct (mark_loop_done (λ h' c, markObj gas h' (Some c))
              (λ j, match pinned vm !! j with
                    | Some (VAL_OBJ (Some c)) => Some c
                    | _ => None
                    end)
              (root vm) (heap vm) _ _ _ _ Hh2 Hp1 Hmk)
    as (Hp2 & E2 & Hm2).
  { intros i hx hy Hi Hxy.
    destruct (pinned vm !! i) as [[| | | | |[f|]]|]; simpl in *; try done.
    by rewrite Hnone in Hxy. }
  { intros i c Hi Hc.
    destruct (pinned vm !! i) as [[| | | | |[f|]]|] eqn:Hgi;
      simpl in *; try done.
    injection Hc as ->. right. left. exists i.
    apply elem_of_seqZ in Hi. split; [lia|done]. }
  (* frames *)
  destruct (mark_loop_done (λ h' c, markObj gas h' (Some c))
              (λ k, fr ← frames (fiber vm) !! k; fn fr)
              (root vm) (heap vm) _ _ _ _ Hh3 Hp2 Hmk)
    as (Hp3 & E3 & Hm3).
  { intros i hx hy Hi Hxy.
    destruct (frames (fiber vm) !! i) as [fr|]; simpl in *; [|done].
    destruct (fn fr); simpl in *; [done|]. by rewrite Hnone in Hxy. }
  { intros i c Hi Hc.
    destruct (frames (fiber vm) !! i) as [fr|] eqn:Hfi; simpl in *; [|done].
    right. right. left. exists i, fr.
    apply elem_of_seqZ in Hi. split; [lia|done]. }
  (* stack *)
  destruct (mark_loop_done (λ h' c, markObj gas h' (Some c))
              (λ l, match stack (fiber vm) !! l with
                    | Some (VAL_OBJ (Some c)) => Some c
                    | _ => None
                    end)
              (root vm) (heap vm) _ _ _ _ Hrun Hp3 Hmk)
    as (Hp4 & E4 & Hm4).
  { intros i hx hy Hi Hxy.
    destruct (stack (fiber vm) !! i) as [[| | | | |[f|]]|]; simpl in *;
      try done.
    by rewrite Hnone in Hxy. }
  { intros i c Hi Hc.
    destruct (stack (fiber vm) !! i) as [[| | | | |[f|]]|] eqn:Hgi;
      simpl in *; try done.
    injection Hc as ->. right. right. right. exists i.
    apply elem_of_seqZ in Hi. split; [lia|done]. }
  split; [exact Hp4|].
  intros r [(i & Hi & Hr)|[(i & Hi & Hr)|[(i & fr & Hi & Hr & Hfn)|(i & Hi & Hr)]]].
  - eapply mark_ext_marked; [exact FLAG_MARKED_nonzero|exact E4|].
    eapply mark_ext_marked; [exact FLAG_MARKED_nonzero|exact E3|].
    eapply mark_ext_marked; [exact FLAG_MARKED_nonzero|exact E2|].
    apply (Hm1 i); [apply elem_of_seqZ; lia|]. by rewrite Hr.
  - eapply mark_ext_marked; [exact FLAG_MARKED_nonzero|exact E4|].
    eapply mark_ext_marked; [exact FLAG_MARKED_nonzero|exact E3|].
    apply (Hm2 i); [apply elem_of_seqZ; lia|]. by rewrite Hr.
  - eapply mark_ext_marked; [exact FLAG_MARKED_nonzero|exact E4|].
    apply (Hm3 i); [apply elem_of_seqZ; lia|]. by rewrite Hr, <- Hfn.
  - apply (Hm4 i); [apply elem_of_seqZ; lia|]. by rewrite Hr.
Qed.

(** What a [sweep] that came to an end leaves of the list [l] that
    hangs off the slot [s]; see [sweep_spec]. *)
Lemma sweep_done (M : positive → Prop) `{!∀ x, Decision (M x)} l :
  ∀ gas vm s p vm',
  sweep gas vm s = Some vm' →
  load_slot vm s = Some p →
  object_list (heap vm) p l →
  (∀ b, slot_owner s = Some b → b ∉ l) →
  (∀ x o, x ∈ l → heap vm !! x = Some o → (is_marked o = true ↔ M x)) →
  ∃ p',
    load_slot vm' s = Some p' ∧
    object_list (heap vm') p' (filter M l) ∧
    (∀ x, x ∉ l → slot_owner s ≠ Some x → heap vm' !! x = heap vm !! x) ∧
    (∀ b, slot_owner s = Some b →
          first vm' = first vm ∧
          ∃ o o', heap vm !! b = Some o ∧ heap vm' !! b = Some o' ∧
                  flags o' = flags o ∧ body o' = body o) ∧
    (∀ x, x ∈ l →
          if decide (M x) then
            ∃ o o', heap vm !! x = Some o ∧ heap vm' !! x = Some o' ∧
                    body o' = body o ∧
                    flags o' = Z.land (flags o) (Z.lnot FLAG_MARKED)
          else heap vm' !! x = None).
Proof.
  induction l as [|a l IH]; intros gas vm s p vm' Hsw Hload Hl Hown HM.
  { destruct gas as [|gas]; [done|].
    simpl in Hl. subst p. simpl in Hsw. rewrite Hload in Hsw. simpl in Hsw.
    injection Hsw as <-. exists None.
    split; [done|]. split; [done|]. split; [done|].
    split.
    - intros b Hb. split; [done|]. destruct s as [|b']; [done|].
      injection Hb as ->. simpl in Hload.
      destruct (heap vm !! b) as [ob|]; [|done]. by exists ob, ob.
    - intros x Hx. by apply elem_of_nil in Hx. }
  destruct gas as [|gas]; [done|].
  pose proof (object_list_NoDup _ _ _ Hl) as Hnd.
  apply NoDup_cons in Hnd as [Hal Hnd].
  apply object_list_cons in Hl as [-> (o & Ho & Hl)].
  pose proof (HM a o ltac:(left) Ho) as HMa.
  assert (∀ b, slot_owner s = Some b → b ≠ a ∧ b ∉ l) as Hown'.
  { intros b Hb. specialize (Hown b Hb). rewrite not_elem_of_cons in Hown.
    done. }
  simpl in Hsw. rewrite Hload in Hsw. simpl in Hsw. rewrite Ho in Hsw.
  simpl in Hsw.
  destruct (is_marked o) eqn:Hmo; simpl in Hsw.
  - (* kept *)
    assert (M a) as HaM by (by apply HMa).
    set (o1 := set_flags (Z.land (flags o) (Z.lnot FLAG_MARKED)) o) in *.
    set (vm1 := set_heap (<[a := o1]> (heap vm)) vm) in *.
    destruct (IH gas vm1 (slot_next a) (next o) vm' Hsw) as
      (p' & Hload' & Hl' & Hout & Howner & Hin).
    { simpl. by rewrite lookup_insert_eq. }
    { eapply object_list_same; [|exact Hl]. intros x Hx. simpl.
      rewrite lookup_insert_ne; [done|]. by intros ->. }
    { by intros b [= <-]. }
    { intros x ox Hx Hox. simpl in Hox.
      rewrite lookup_insert_ne in Hox by (by intros ->).
      apply (HM x ox); [by right|done]. }
    destruct (Howner a eq_refl) as (Hfirst & oa & oa' & Hoa & Hoa' & Hfl & Hbo).
    simpl in Hoa. rewrite lookup_insert_eq in Hoa. injection Hoa as <-.
    exists (Some a).
    assert (load_slot vm' s = Some (Some a)) as Hls.
    { destruct s as [|b]; simpl in *.
      - by rewrite Hfirst.
      - destruct (Hown' b eq_refl) as [Hba Hbl].
        rewrite Hout; [|done|by intros [= ->]]. simpl.
        by rewrite lookup_insert_ne. }
    split; [exact Hls|]. split.
    { rewrite filter_cons_True by done. apply object_list_cons.
      split; [done|]. exists oa'. split; [done|].
      simpl in Hload'. rewrite Hoa' in Hload'. simpl in Hload'.
      by injection Hload' as ->. }
    split.
    { intros x Hx Hxs. rewrite not_elem_of_cons in Hx. destruct Hx as [Hxa Hx].
      rewrite Hout; [|done|by intros [= ->]]. simpl.
      by rewrite lookup_insert_ne. }
    split.
    { intros b Hb. destruct (Hown' b Hb) as [Hba Hbl]. split.
      - by rewrite Hfirst.
      - destruct s as [|b']; [done|]. injection Hb as ->. simpl in Hload.
        destruct (heap vm !! b) as [ob|] eqn:Hob; [|done].
        exists ob, ob. split; [done|]. split; [|done].
        rewrite Hout; [|done|by intros [= ->]]. simpl.
        by rewrite lookup_insert_ne. }
    intros x Hx. apply elem_of_cons in Hx as [->|Hx].
    + rewrite decide_True by done. exists o, oa'. by rewrite Hfl, Hbo.
    + specialize (Hin x Hx). destruct (decide (M x)); [|done].
      destruct Hin as (ox & ox' & Hox & Hox' & ?). exists ox, ox'.
      simpl in Hox. rewrite lookup_insert_ne in Hox by (by intros ->). done.
  - (* freed *)
    assert (¬ M a) as HaM.
    { intros HaM. apply HMa in HaM. congruence. }
    assert (∃ vm1, store_slot vm s (next o) = Some vm1 ∧
                   load_slot vm1 s = Some (next o) ∧
                   (∀ x, slot_owner s ≠ Some x → heap vm1 !! x = heap vm !! x) ∧
                   (∀ b, slot_owner s = Some b →
                      first vm1 = first vm ∧
                      ∃ ob, heap vm !! b = Some ob ∧
                            heap vm1 !! b = Some (set_next (next o) ob)))
      as (vm1 & Hst & Hload1 & Hout1 & Hown1).
    { destruct s as [|b]; simpl in *.
      - eexists. split; [done|]. simpl. split; [done|]. split; [done|].
        intros b [=].
      - destruct (heap vm !! b) as [ob|] eqn:Hob; [|done]. simpl.
        eexists. split; [done|]. simpl. rewrite lookup_insert_eq. simpl.
        split; [done|]. split.
        + intros x Hx. rewrite lookup_insert_ne; [done|]. by intros ->.
        + intros ? [= <-]. split; [done|]. exists ob.
          by rewrite lookup_insert_eq. }
    rewrite Hst in Hsw. simpl in Hsw.
    assert (heap vm1 !! a = Some o) as Ho1.
    { rewrite Hout1; [done|]. intros Hs. by destruct (Hown' a Hs). }
    unfold freeObj in Hsw. rewrite Ho1 in Hsw. simpl in Hsw.
    destruct (freed_size o) as [sz|]; [|done]. simpl in Hsw.
    set (vm2 := set_heap (delete a (heap vm1))
                  (set_totalAllocated (size_t (totalAllocated vm1 - sz)) vm1))
      in *.
    destruct (IH gas vm2 s (next o) vm' Hsw) as
      (p' & Hload' & Hl' & Hout & Howner & Hin).
    { destruct s as [|b]; simpl in *; [done|].
      destruct (Hown' b eq_refl) as [Hba Hbl].
      by rewrite lookup_delete_ne. }
    { eapply object_list_same; [|exact Hl]. intros x Hx. simpl.
      rewrite lookup_delete_ne by (by intros ->).
      apply Hout1. intros Hs. by destruct (Hown' x Hs). }
    { intros b Hb. by destruct (Hown' b Hb). }
    { intros x ox Hx Hox. simpl in Hox.
      rewrite lookup_delete_ne in Hox by (by intros ->).
      rewrite Hout1 in Hox; [|intros Hs; by destruct (Hown' x Hs)].
      apply (HM x ox); [by right|done]. }
    exists p'. split; [exact Hload'|]. split.
    { by rewrite filter_cons_False. }
    split.
    { intros x Hx Hxs. rewrite not_elem_of_cons in Hx. destruct Hx as [Hxa Hx].
      rewrite Hout by done. simpl. rewrite lookup_delete_ne by done.
      by apply Hout1. }
    split.
    { intros b Hb. destruct (Hown' b Hb) as [Hba Hbl].
      destruct (Howner b Hb) as (Hf' & ob2 & ob' & Hob2 & Hob' & Hfl & Hbo).
      destruct (Hown1 b Hb) as (Hf1 & ob & Hob & Hob1).
      split; [by rewrite Hf'|]. exists ob, ob'. split; [done|]. split; [done|].
      simpl in Hob2. rewrite lookup_delete_ne in Hob2 by done.
      rewrite Hob1 in Hob2. injection Hob2 as <-. done. }
    intros x Hx. apply elem_of_cons in Hx as [->|Hx].
    + rewrite decide_False by done. rewrite Hout; [|done|].
      * simpl. apply lookup_delete_eq.
      * intros Hs. by destruct (Hown' a Hs).
    + specialize (Hin x Hx). destruct (decide (M x)); [|done].
      destruct Hin as (ox & ox' & Hox & Hox' & ?). exists ox, ox'.
      simpl in Hox. rewrite lookup_delete_ne in Hox by (by intros ->).
      rewrite Hout1 in Hox; [done|]. intros Hs. by destruct (Hown' x Hs).
Qed.

Lemma bare_class_same h h' m :
  (∀ o, h !! m = Some o → ∃ o', h' !! m = Some o' ∧ body o' = body o) →
  bare_class h m → bare_class h' m.
Proof.
  unfold bare_class. intros Hsame. destruct (h !! m) as [o|]; [|done].
  destruct (Hsame o eq_refl) as (o' & -> & ->). done.
Qed.

Lemma class_ok_same_body h o o' :
  body o' = body o → class_ok h o → class_ok h o'.
Proof. unfold class_ok. by intros ->. Qed.

Lemma class_ok_mono h h' o :
  (∀ m om, h !! m = Some om → ∃ om', h' !! m = Some om' ∧ body om' = body om) →
  class_ok h o → class_ok h' o.
Proof.
  unfold class_ok. intros Hsame.
  destruct (body o) as [[m|] sc ms| | |]; try done.
  apply bare_class_same. intros om. apply Hsame.
Qed.

Lemma lists_ok_mem vm l a : lists_ok vm l → a ∈ l ↔ is_Some (heap vm !! a).
Proof.
  intros (_ & Hdom & _). rewrite <- elem_of_dom, Hdom.
  by rewrite elem_of_list_to_set.
Qed.

(** A collection that came to an end: what it leaves. *)
Lemma collectGarbage_done vm l vm' :
  lists_ok vm l →
  collectGarbage vm = Some vm' →
  ∃ l',
    lists_ok vm' l' ∧
    same_roots vm vm' ∧
    (∀ a, is_Some (heap vm' !! a) ↔ reachable vm a) ∧
    (∀ a o', heap vm' !! a = Some o' →
       ∃ o, heap vm !! a = Some o ∧ body o' = body o).
Proof.
  intros Hlists Hgc. pose proof Hlists as (Hl & Hdom & Hu).
  unfold collectGarbage in Hgc.
  destruct (mark_roots _ vm) as [hm|] eqn:Hmr; [|done].
  cbn [mbind option_bind] in Hgc.
  destruct (sweep _ _ _) as [vm1|] eqn:Hsw; [|done].
  cbn [mbind option_bind] in Hgc. injection Hgc as <-.
  destruct (mark_roots_done _ _ _ Hmr) as (Hpost & Hroots).
  pose proof (marked_iff_reachable vm hm Hu Hpost Hroots) as Hiff.
  pose proof (proj1 Hpost) as Hext.
  pose proof (object_list_NoDup _ _ _ Hl) as Hnd.
  pose proof (λ a, lists_ok_mem vm l a Hlists) as Hmem.
  destruct (sweep_done (marked hm) l _ (set_heap hm vm) slot_first (first vm)
              vm1 Hsw) as (p' & Hload' & Hl' & Hout & _ & Hin).
  { done. }
  { simpl. eapply object_list_frame; [|exact Hl]. intros x o Hx Ho.
    destruct (mark_ext_lookup FLAG_MARKED_nonzero _ _ _ _ Hext Ho)
      as (o' & Ho' & _ & Hn & _).
    eauto. }
  { intros b [=]. }
  { intros x o Hx Ho. simpl in Ho. unfold marked. by rewrite Ho. }
  simpl in Hload', Hout, Hin. injection Hload' as <-.
  assert (∀ a, reachable vm a → a ∈ l) as Hrl.
  { intros a Ha. apply Hiff in Ha. apply Hmem.
    apply (mark_ext_is_Some _ _ a Hext). unfold marked in Ha.
    destruct (hm !! a); [by eexists|done]. }
  assert (∀ a, is_Some (heap vm1 !! a) ↔ reachable vm a) as Hlive.
  { intros a. rewrite <- Hiff. destruct (decide (a ∈ l)) as [Hal|Hal].
    - specialize (Hin a Hal). destruct (decide (marked hm a)) as [Hm|Hm].
      + destruct Hin as (o & o' & _ & -> & _). split; [done|by eexists].
      + rewrite Hin. split; [by intros [? [=]]|done].
    - rewrite Hout by done. split.
      + intros Hs. exfalso. apply Hal, Hmem.
        by apply (mark_ext_is_Some _ _ a Hext).
      + unfold marked. destruct (hm !! a); [by eexists|done]. }
  pose proof (sweep_same_roots _ _ _ _ Hsw) as [Hsame Hcoll].
  assert (∀ a o', heap vm1 !! a = Some o' →
            ∃ o, heap vm !! a = Some o ∧ body o' = body o ∧
                 is_marked o' = false) as Hsub.
  { intros a o' Ho'.
    assert (a ∈ l) as Hal.
    { apply Hrl. apply Hlive. by rewrite Ho'. }
    specialize (Hin a Hal). destruct (decide (marked hm a)); [|congruence].
    destruct Hin as (om & o2 & Hom & Ho2 & Hb & Hfl).
    rewrite Ho' in Ho2. injection Ho2 as <-.
    destruct (mark_ext_lookup_inv _ _ _ _ Hext Hom) as (o & Ho & Hb' & _).
    exists o. split; [done|]. split; [congruence|].
    unfold is_marked. rewrite Hfl, land_clear_same. done. }
  exists (filter (marked hm) l). simpl.
  split; [|split; [exact Hsame|split; [exact Hlive|]]].
  - split; [exact Hl'|]. split.
    + apply set_eq. intros a.
      rewrite elem_of_dom, elem_of_list_to_set, list_elem_of_filter.
      rewrite Hlive, Hiff. split; [|tauto]. intros Ha. split; [done|].
      by apply Hrl.
    + intros a o' Ho'. simpl. by destruct (Hsub a o' Ho') as (_ & _ & _ & ?).
  - intros a o' Ho'. destruct (Hsub a o' Ho') as (o & ? & ? & _). by exists o.
Qed.

Lemma keeps_refl vm : keeps vm vm.
Proof. intros a o _ Ho. by exists o. Qed.

(** Where the reachable objects are kept and the roots are still roots,
    what was reachable is reachable. *)
Lemma keeps_reachable vm vm' a :
  keeps vm vm' → (∀ r, root vm r → root vm' r) →
  reachable vm a → reachable vm' a.
Proof.
  intros Hk Hroots (r & Hr & Hrtc). exists r. split; [by apply Hroots|].
  apply (rtc_transfer (edge (heap vm)) (edge (heap vm'))
           (λ y, reachable vm y) r a).
  - exists r. split; [done|constructor].
  - intros y w Hy Hyw. split.
    + destruct Hyw as (o & Ho & He).
      destruct (Hk y o Hy Ho) as (o' & Ho' & Hb).
      exists o'. split; [done|]. by rewrite Hb.
    + destruct Hy as (r' & Hr' & Hrtc'). exists r'. split; [done|].
      eapply rtc_r; [exact Hrtc'|exact Hyw].
  - exact Hrtc.
Qed.

Lemma keeps_trans vm1 vm2 vm3 :
  keeps vm1 vm2 → (∀ r, root vm1 r → root vm2 r) →
  keeps vm2 vm3 → keeps vm1 vm3.
Proof.
  intros H12 Hroots H23 a o Ha Ho.
  destruct (H12 a o Ha Ho) as (o2 & Ho2 & Hb2).
  destruct (H23 a o2 (keeps_reachable _ _ _ H12 Hroots Ha) Ho2)
    as (o3 & Ho3 & Hb3).
  exists o3. split; [done|]. congruence.
Qed.

Lemma collectGarbage_inv vm l vm' :
  vm_inv vm l → collectGarbage vm = Some vm' →
  ∃ l', vm_inv vm' l' ∧ same_roots vm vm' ∧ keeps vm vm'.
Proof.
  intros (Hlists & Hcls & Hpin) Hgc.
  destruct (collectGarbage_done vm l vm' Hlists Hgc)
    as (l' & Hlists' & Hsame & Hlive & Hsub).
  assert (keeps vm vm') as Hk.
  { intros a o Ha Ho. apply Hlive in Ha as [o' Ho'].
    destruct (Hsub a o' Ho') as (o0 & Ho0 & Hb).
    exists o'. split; [done|]. congruence. }
  exists l'. split; [|done]. split; [done|]. split.
  - intros a o' Ho'. simpl.
    destruct (Hsub a o' Ho') as (o & Ho & Hb).
    pose proof (Hcls a o Ho) as Hoko. simpl in Hoko.
    unfold class_ok in *. rewrite Hb.
    destruct (body o) as [[m|] sc ms| | |] eqn:Hbo; try done.
    assert (reachable vm m) as Hm.
    { assert (reachable vm a) as (r & Hr & Hrtc).
      { apply Hlive. by rewrite Ho'. }
      exists r. split; [done|]. eapply rtc_r; [exact Hrtc|].
      exists o. rewrite Hbo. split; [done|]. by left. }
    revert Hoko. apply bare_class_same. intros om Hom.
    exact (Hk m om Hm Hom).
  - destruct Hsame as (_ & _ & _ & _ & _ & -> & _). exact Hpin.
Qed.

(** *** Allocation and the constructors *)

Lemma vm_inv_same vm vm' l :
  heap vm' = heap vm → first vm' = first vm → numPinned vm' = numPinned vm →
  vm_inv vm l → vm_inv vm' l.
Proof.
  unfold vm_inv, lists_ok. intros -> -> ->. done.
Qed.

Lemma allocate_inv vm l size vm' a chunk :
  vm_inv vm l → allocate vm size = Some (vm', a, chunk) →
  ∃ l', vm_inv vm' l' ∧ same_roots vm vm' ∧ keeps vm vm' ∧
        heap vm' !! a = None ∧
        (∀ x o', heap vm' !! x = Some o' →
                 ∃ o, heap vm !! x = Some o ∧ body o' = body o).
Proof.
  intros Hinv Halloc. unfold allocate in Halloc.
  set (vm1 := set_totalAllocated (size_t (totalAllocated vm + size)) vm) in *.
  assert (vm_inv vm1 l) as Hinv1 by (by apply (vm_inv_same vm)).
  destruct (nextGC vm1 <? totalAllocated vm1).
  - destruct (collectGarbage vm1) as [vmc|] eqn:Hgc; [|done].
    cbn [mbind option_bind] in Halloc. injection Halloc as <- <- _.
    destruct (collectGarbage_done vm1 l vmc (proj1 Hinv1) Hgc)
      as (l' & Hlists' & Hsame & Hlive & Hsub).
    destruct (collectGarbage_inv vm1 l vmc Hinv1 Hgc) as (l2 & Hinv' & _ & Hk).
    exists l2. split; [exact Hinv'|]. split; [exact Hsame|].
    split; [exact Hk|]. split; [apply malloc_addr_fresh|exact Hsub].
  - cbn [mbind option_bind] in Halloc. injection Halloc as <- <- _.
    exists l. split; [exact Hinv1|]. split; [by repeat split|].
    split; [intros x o _ Ho; by exists o|].
    split; [apply malloc_addr_fresh|].
    intros x o' Hx. by exists o'.
Qed.

Lemma initObj_inv vm l a b :
  vm_inv vm l → heap vm !! a = None →
  class_ok (heap vm) (mkObj 0 None b) →
  vm_inv (initObj vm a b) (a :: l).
Proof.
  intros ((Hl & Hdom & Hu) & Hcls & Hpin) Ha Hnew.
  assert (∀ m om, heap vm !! m = Some om →
            ∃ om', heap (initObj vm a b) !! m = Some om' ∧ body om' = body om)
    as Hold.
  { intros m om Hm. exists om. split; [|done]. simpl.
    rewrite lookup_insert_ne; [done|]. congruence. }
  split; [split; [|split]|split; [|done]].
  - simpl. split; [done|]. rewrite lookup_insert_eq. simpl.
    eapply object_list_same; [|exact Hl]. intros x Hx.
    rewrite lookup_insert_ne; [done|]. intros ->.
    destruct (object_list_lookup _ _ _ _ Hl Hx) as [? ?]. congruence.
  - simpl. by rewrite dom_insert_L, Hdom.
  - intros x o Hx. simpl in Hx.
    apply lookup_insert_Some in Hx as [[<- <-]|[Hne Hx]].
    + reflexivity.
    + by apply (Hu x o).
  - intros x o Hx. simpl in Hx.
    apply lookup_insert_Some in Hx as [[<- <-]|[Hne Hx]].
    + apply (class_ok_mono (heap vm)); [exact Hold|].
      revert Hnew. by apply class_ok_same_body.
    + apply (class_ok_mono (heap vm)); [exact Hold|]. by apply (Hcls x o).
Qed.

Lemma newSingleClass_inv vm l mc sc vm' c :
  vm_inv vm l → newSingleClass vm mc sc = Some (vm', c) →
  match mc with
  | Some m => reachable vm m ∧ bare_class (heap vm) m
  | None => sc = None
  end →
  ∃ l' o,
    vm_inv vm' l' ∧ same_roots vm vm' ∧
    heap vm' !! c = Some o ∧ body o = ObjClass mc sc no_methods ∧
    (∀ x o', heap vm' !! x = Some o' →
             x = c ∨ ∃ o, heap vm !! x = Some o ∧ body o' = body o) ∧
    (∀ x o, reachable vm x → heap vm !! x = Some o →
            x ≠ c ∧ ∃ o', heap vm' !! x = Some o' ∧ body o' = body o).
Proof.
  intros Hinv Hnew Hmc. unfold newSingleClass in Hnew.
  destruct (allocate vm sizeof_ObjClass) as [[[vm1 a] chunk]|] eqn:Halloc;
    [|done].
  cbn [mbind option_bind] in Hnew. injection Hnew as <- <-.
  destruct (allocate_inv vm l _ vm1 a chunk Hinv Halloc)
    as (l1 & Hinv1 & Hsame & Hk & Hfresh & Hsub).
  exists (a :: l1), (mkObj 0 (first vm1) (ObjClass mc sc no_methods)).
  split.
  { apply initObj_inv; [done|done|]. unfold class_ok. simpl.
    destruct mc as [m|]; [|done]. destruct Hmc as [Hreach Hbare].
    revert Hbare. apply bare_class_same. intros om Hom.
    exact (Hk m om Hreach Hom). }
  split.
  { destruct Hsame as (? & ? & ? & ? & ? & ? & ? & ? & ? & ? & ? & ?).
    by repeat split. }
  simpl. rewrite lookup_insert_eq. split; [done|]. split; [done|]. split.
  - intros x o' Hx. apply lookup_insert_Some in Hx as [[<- <-]|[Hne Hx]].
    + by left.
    + right. by apply Hsub.
  - intros x o Hx Ho. destruct (Hk x o Hx Ho) as (o' & Ho' & Hb).
    assert (x ≠ a) as Hne by congruence.
    split; [done|]. exists o'. by rewrite lookup_insert_ne.
Qed.

Lemma newClass_inv vm l superclass vm' c :
  vm_inv vm l → newClass vm superclass = Some (vm', c) →
  ∃ l' m oc om ms msm,
    vm_inv vm' l' ∧
    heap vm' !! c = Some oc ∧ body oc = ObjClass (Some m) superclass ms ∧
    heap vm' !! m = Some om ∧ body om = ObjClass None None msm ∧
    c ≠ m ∧
    (∀ x o', heap vm' !! x = Some o' →
             x = c ∨ x = m ∨ ∃ o, heap vm !! x = Some o ∧ body o' = body o) ∧
    fiber vm' = fiber vm ∧ methods vm' = methods vm ∧
    objectClass vm' = objectClass vm.
Proof.
  intros Hinv Hnew. unfold newClass in Hnew.
  destruct (newSingleClass vm None None) as [[vm1 m]|] eqn:Hmeta; [|done].
  cbn [mbind option_bind] in Hnew.
  destruct (newSingleClass_inv vm l None None vm1 m Hinv Hmeta eq_refl)
    as (l1 & om & Hinv1 & Hsame1 & Hm1 & Hbm1 & Hsub1 & _).
  destruct (pinObj vm1 (OBJ_VAL (Some m))) as [vm2|] eqn:Hpin; [|done].
  cbn [mbind option_bind] in Hnew.
  unfold pinObj in Hpin.
  destruct (numPinned vm1 <? MAX_PINNED - 1); [|done].
  injection Hpin as <-.
  set (vm2 := set_pinned (<[numPinned vm1 := OBJ_VAL (Some m)]> (pinned vm1))
                (numPinned vm1 + 1) vm1) in *.
  assert (0 ≤ numPinned vm1) as Hnp1 by apply Hinv1.
  assert (vm_inv vm2 l1) as Hinv2.
  { destruct Hinv1 as (Hl1 & Hc1 & Hp1). split; [exact Hl1|].
    split; [exact Hc1|]. simpl. lia. }
  assert (reachable vm2 m) as Hreach.
  { exists m. split; [|constructor]. right. left. exists (numPinned vm1).
    simpl. split; [lia|]. by rewrite lookup_insert_eq. }
  destruct (newSingleClass vm2 (Some m) superclass) as [[vm3 c3]|] eqn:Hcls;
    [|done].
  cbn [mbind option_bind] in Hnew.
  destruct (newSingleClass_inv vm2 l1 (Some m) superclass vm3 c3 Hinv2 Hcls)
    as (l3 & oc & Hinv3 & Hsame3 & Hc3 & Hbc3 & Hsub3 & Hk3).
  { split; [exact Hreach|]. unfold bare_class. simpl. rewrite Hm1, Hbm1. done. }
  destruct (Hk3 m om Hreach Hm1) as (Hmc & om3 & Hm3 & Hbm3).
  destruct (unpinObj vm3 (OBJ_VAL (Some m))) as [vm4|] eqn:Hunpin; [|done].
  cbn [mbind option_bind] in Hnew.
  unfold unpinObj in Hunpin.
  destruct (pinned vm3 !! (numPinned vm3 - 1)) as [top|]; [|done].
  cbn [mbind option_bind] in Hunpin.
  destruct (decide (type_of top = type_of (OBJ_VAL (Some m)))); [|done].
  injection Hunpin as <-.
  set (vm4 := set_pinned (pinned vm3) (numPinned vm3 - 1) vm3) in *.
  assert (numPinned vm3 = numPinned vm1 + 1) as Hnp3.
  { destruct Hsame3 as (_ & _ & _ & _ & _ & -> & _). done. }
  assert (vm_inv vm4 l3) as Hinv4.
  { destruct Hinv3 as (Hl3 & Hcl3 & Hp3). split; [exact Hl3|].
    split; [exact Hcl3|]. simpl. lia. }
  assert (∀ x o', heap vm3 !! x = Some o' →
            x = c3 ∨ x = m ∨ ∃ o, heap vm !! x = Some o ∧ body o' = body o)
    as Hsub.
  { intros x o' Hx. destruct (Hsub3 x o' Hx) as [->|(o2 & Hx2 & Hb2)];
      [by left|right].
    destruct (Hsub1 x o2 Hx2) as [->|(o & Hx0 & Hb0)]; [by left|right].
    exists o. split; [done|]. congruence. }
  assert (fiber vm3 = fiber vm ∧ methods vm3 = methods vm ∧
          objectClass vm3 = objectClass vm) as (Hfib & Hmeth & Hobj).
  { destruct Hsame1 as (Hme1 & _ & Hf1 & _ & _ & _ & Ho1 & _).
    destruct Hsame3 as (Hme3 & _ & Hf3 & _ & _ & _ & Ho3 & _).
    simpl in *. split; [congruence|]. split; congruence. }
  destruct superclass as [s|].
  - destruct (heap vm4 !! s) as [sup|] eqn:Hsup; [|done].
    cbn [mbind option_bind] in Hnew.
    change (heap vm4) with (heap vm3) in Hnew. rewrite Hc3 in Hnew.
    cbn [mbind option_bind] in Hnew.
    destruct (body sup) as [smc ssc smethods| | |]; [|done..].
    rewrite Hbc3 in Hnew.
    destruct (for_range _ _ _) as [methods'|]; [|done].
    cbn [mbind option_bind] in Hnew. injection Hnew as <- <-.
    set (oc' := mkObj (flags oc) (next oc) (ObjClass (Some m) (Some s) methods')).
    exists l3, m, oc', om3, methods', no_methods.
    split.
    { destruct Hinv4 as ((Hl4 & Hd4 & Hu4) & Hcl4 & Hp4).
      assert (∀ x ox, heap vm3 !! x = Some ox →
                ∃ ox', (<[c3 := oc']> (heap vm3)) !! x = Some ox' ∧
                       (body ox' = body ox ∨ x = c3)) as Hold.
      { intros x ox Hx. destruct (decide (x = c3)) as [->|Hne].
        - rewrite lookup_insert_eq. exists oc'. split; [done|]. by right.
        - rewrite lookup_insert_ne by done. exists ox. split; [done|]. by left. }
      assert (∀ x, bare_class (heap vm3) x →
                bare_class (<[c3 := oc']> (heap vm3)) x) as Hbare.
      { intros x. unfold bare_class.
        destruct (decide (x = c3)) as [->|Hne].
        - rewrite Hc3, Hbc3. done.
        - by rewrite lookup_insert_ne. }
      split; [split; [|split]|split; [|exact Hp4]].
      - simpl. eapply object_list_frame; [|exact Hl4]. intros x ox Hx Hox.
        simpl in Hox. destruct (decide (x = c3)) as [->|Hne].
        + rewrite lookup_insert_eq. exists oc'. split; [done|].
          rewrite Hc3 in Hox. by injection Hox as <-.
        + rewrite lookup_insert_ne by done. by exists ox.
      - simpl. rewrite dom_insert_L. simpl in Hd4. rewrite <- Hd4.
        apply subseteq_union_1_L. apply singleton_subseteq_l.
        apply elem_of_dom. by rewrite Hc3.
      - intros x ox Hx. simpl in Hx.
        apply lookup_insert_Some in Hx as [[<- <-]|[Hne Hx]].
        + unfold is_marked. simpl. apply (Hu4 c3 oc Hc3).
        + by apply (Hu4 x ox).
      - intros x ox Hx. simpl in Hx.
        apply lookup_insert_Some in Hx as [[<- <-]|[Hne Hx]].
        + unfold class_ok. simpl. apply Hbare.
          pose proof (Hcl4 c3 oc Hc3) as Hok. simpl in Hok.
          unfold class_ok in Hok. by rewrite Hbc3 in Hok.
        + pose proof (Hcl4 x ox Hx) as Hok. simpl in Hok.
          unfold class_ok in *.
          destruct (body ox) as [[mx|] scx msx| | |]; try done.
          by apply Hbare. }
    simpl. rewrite lookup_insert_eq. split; [done|]. split; [done|].
    rewrite lookup_insert_ne by done.
    split; [exact Hm3|]. split; [by rewrite Hbm3, Hbm1|].
    split; [done|]. split; [|done].
    intros x o' Hx. apply lookup_insert_Some in Hx as [[<- <-]|[Hne Hx]].
    + by left.
    + by apply Hsub.
  - injection Hnew as <- <-.
    exists l3, m, oc, om3, no_methods, no_methods.
    split; [exact Hinv4|]. simpl.
    split; [exact Hc3|]. split; [exact Hbc3|].
    split; [exact Hm3|]. split; [by rewrite Hbm3, Hbm1|].
    split; [done|]. split; [exact Hsub|done].
Qed.

(** *** The instructions *)

Lemma same_mem_refl vm : same_mem vm vm.
Proof. by repeat split. Qed.

Lemma same_mem_trans vm1 vm2 vm3 :
  same_mem vm1 vm2 → same_mem vm2 vm3 → same_mem vm1 vm3.
Proof.
  intros (H1 & H2 & H3) (H4 & H5 & H6). repeat split; congruence.
Qed.

Lemma same_mem_inv vm vm' l : same_mem vm vm' → vm_inv vm l → vm_inv vm' l.
Proof. intros (? & ? & ?). by apply vm_inv_same. Qed.

Lemma add_ip_mem vm frame d vm' :
  add_ip vm frame d = Some vm' → same_mem vm vm'.
Proof.
  unfold add_ip. destruct (frames (fiber vm) !! frame); [|done].
  intros [= <-]. by repeat split.
Qed.

Lemma READ_ARG_mem vm frame byte vm' :
  READ_ARG vm frame = Some (byte, vm') → same_mem vm vm'.
Proof.
  unfold READ_ARG. intros Hread.
  destruct (frames (fiber vm) !! frame) as [fr|]; [|done].
  cbn [mbind option_bind] in Hread.
  destruct (frame_fn vm frame) as [[bytecode constants]|]; [|done].
  cbn [mbind option_bind] in Hread.
  destruct (nth_Z bytecode (ip fr)); [|done].
  cbn [mbind option_bind] in Hread.
  destruct (add_ip vm frame 1) as [vm1|] eqn:Hadd; [|done].
  cbn [mbind option_bind] in Hread. injection Hread as _ <-.
  by apply add_ip_mem in Hadd.
Qed.

Lemma POP_mem vm value vm' : POP vm = Some (value, vm') → same_mem vm vm'.
Proof.
  unfold POP. destruct (stack (fiber vm) !! _); [|done].
  intros [= _ <-]. by repeat split.
Qed.

Lemma PUSH_mem vm value : same_mem vm (PUSH vm value).
Proof. by repeat split. Qed.

Ltac next_bind H :=
  match type of H with
  | mbind _ ?x = Some _ =>
      let E := fresh "E" in
      destruct x as [?|] eqn:E; [cbn [mbind option_bind] in H|discriminate H]
  | (let '(_, _) := ?p in _) = Some _ => destruct p
  | (if ?b then _ else _) = Some _ => destruct b
  end.

Ltac mem_facts :=
  repeat match goal with
  | H : READ_ARG _ _ = Some (_, _) |- _ => apply READ_ARG_mem in H
  | H : POP _ = Some (_, _) |- _ => apply POP_mem in H
  | H : add_ip _ _ _ = Some _ |- _ => apply add_ip_mem in H
  end.

Ltac chain_mem :=
  repeat match goal with
  | H : same_mem ?a ?b |- same_mem ?a _ =>
      apply (same_mem_trans a b); [exact H|]; clear H
  end;
  try apply same_mem_refl; try by repeat split.

Lemma exec_mem instruction frame vm out :
  switch instruction ≠ case_CLASS_SUBCLASS →
  switch instruction ≠ case_METHOD →
  switch instruction ≠ case_CALL →
  exec instruction frame vm = Some out → same_mem vm (state_of out).
Proof.
  intros H1 H2 H3 Hexec. unfold exec, exec_END in Hexec.
  destruct (switch instruction); try done;
    repeat next_bind Hexec; try (injection Hexec as <-); simpl;
    mem_facts; chain_mem.
Qed.

Lemma classes_from_heap vm vm1 vm2 vm3 new :
  heap vm1 = heap vm → heap vm3 = heap vm2 →
  classes_from vm1 vm2 new → classes_from vm vm3 new.
Proof. unfold classes_from. intros <- ->. done. Qed.

Lemma same_mem_classes vm vm' : same_mem vm vm' → classes_from vm vm' [].
Proof.
  intros (Hh & _) a o' mc sc ms' Ha Hb. right. rewrite Hh in Ha. by exists o', ms'.
Qed.

Lemma same_body_classes vm vm' new :
  (∀ x o', heap vm' !! x = Some o' →
     x ∈ new ∨ ∃ o, heap vm !! x = Some o ∧ body o' = body o) →
  classes_from vm vm' new.
Proof.
  intros Hsub a o' mc sc ms' Ha Hb.
  destruct (Hsub a o' Ha) as [?|(o & Ho & Hbo)]; [by left|right].
  exists o, ms'. split; [done|]. congruence.
Qed.

Lemma set_method_inv vm l p symbol m vm' :
  vm_inv vm l → set_method vm p symbol m = Some vm' →
  vm_inv vm' l ∧ classes_from vm vm' [] ∧ fiber vm' = fiber vm ∧
  ∀ x o, heap vm !! x = Some o →
    ∃ o', heap vm' !! x = Some o' ∧
      (body o' = body o ∨
       ∃ mc sc ms ms', body o = ObjClass mc sc ms ∧
                       body o' = ObjClass mc sc ms').
Proof.
  intros ((Hl & Hd & Hu) & Hcl & Hp) Hset. unfold set_method, class_at in Hset.
  destruct p as [a|]; [|done]. cbn [mbind option_bind] in Hset.
  destruct (heap vm !! a) as [o|] eqn:Ha; [|done].
  cbn [mbind option_bind] in Hset.
  destruct (body o) as [mc sc ms| | |] eqn:Hb; [|done..].
  cbn [mbind option_bind] in Hset. injection Hset as <-.
  set (o1 := mkObj (flags o) (next o) (ObjClass mc sc (<[symbol := m]> ms))).
  assert (∀ x, bare_class (heap vm) x →
            bare_class (<[a := o1]> (heap vm)) x) as Hbare.
  { intros x. unfold bare_class. destruct (decide (x = a)) as [->|Hne].
    - rewrite Ha, Hb, lookup_insert_eq. done.
    - by rewrite lookup_insert_ne. }
  split; [split; [split; [|split]|split; [|exact Hp]]|split; [|split; [done|]]].
  - simpl. eapply object_list_frame; [|exact Hl]. intros x ox Hx Hox.
    destruct (decide (x = a)) as [->|Hne].
    + rewrite lookup_insert_eq. exists o1. split; [done|].
      rewrite Ha in Hox. by injection Hox as <-.
    + rewrite lookup_insert_ne by done. by exists ox.
  - simpl. rewrite dom_insert_L, <- Hd.
    apply subseteq_union_1_L. apply singleton_subseteq_l.
    apply elem_of_dom. by rewrite Ha.
  - intros x ox Hx. simpl in Hx.
    apply lookup_insert_Some in Hx as [[<- <-]|[Hne Hx]].
    + unfold is_marked. simpl. apply (Hu a o Ha).
    + by apply (Hu x ox).
  - intros x ox Hx. simpl in Hx.
    apply lookup_insert_Some in Hx as [[<- <-]|[Hne Hx]].
    + pose proof (Hcl a o Ha) as Hok. simpl in Hok. unfold class_ok in *.
      rewrite Hb in Hok. simpl. destruct mc as [mx|]; [|done].
      by apply Hbare.
    + pose proof (Hcl x ox Hx) as Hok. simpl in Hok. unfold class_ok in *.
      destruct (body ox) as [[mx|] scx msx| | |]; try done.
      by apply Hbare.
  - intros x o' mc' sc' ms' Hx Hbx. right. simpl in Hx.
    apply lookup_insert_Some in Hx as [[<- <-]|[Hne Hx]].
    + simpl in Hbx. injection Hbx as <- <- <-. by exists o, ms.
    + by exists o', ms'.
  - intros x ox Hx. simpl. destruct (decide (x = a)) as [->|Hne].
    + rewrite lookup_insert_eq. exists o1. split; [done|]. right.
      rewrite Ha in Hx. injection Hx as <-. by exists mc, sc, ms, (<[symbol := m]> ms).
    + rewrite lookup_insert_ne by done. exists ox. split; [done|]. by left.
Qed.

Lemma newInstance_inv vm l classObj vm' instance :
  vm_inv vm l → newInstance vm classObj = Some (vm', instance) →
  (∃ l', vm_inv vm' l') ∧ classes_from vm vm' [].
Proof.
  intros Hinv Hnew. unfold newInstance in Hnew.
  destruct (allocate vm sizeof_ObjInstance) as [[[vm1 a] chunk]|] eqn:Halloc;
    [|done].
  cbn [mbind option_bind] in Hnew. injection Hnew as <- _.
  destruct (allocate_inv vm l _ vm1 a chunk Hinv Halloc)
    as (l1 & Hinv1 & _ & _ & Hfresh & Hsub).
  split.
  - exists (a :: l1). by apply initObj_inv.
  - intros x o' mc sc ms' Hx Hb. right. simpl in Hx.
    apply lookup_insert_Some in Hx as [[<- <-]|[Hne Hx]]; [done|].
    destruct (Hsub x o' Hx) as (o & Ho & Hbo). exists o, ms'.
    split; [done|]. congruence.
Qed.

Lemma newFunction_inv vm l vm' f :
  vm_inv vm l → newFunction vm = Some (vm', f) → ∃ l', vm_inv vm' l'.
Proof.
  intros Hinv Hnew. unfold newFunction in Hnew.
  destruct (allocate vm _) as [[[vm1 a1] bytecode]|] eqn:Halloc1; [|done].
  cbn [mbind option_bind] in Hnew.
  destruct (allocate vm1 _) as [[[vm2 a2] constants]|] eqn:Halloc2; [|done].
  cbn [mbind option_bind] in Hnew.
  destruct (allocate vm2 _) as [[[vm3 a3] chunk]|] eqn:Halloc3; [|done].
  cbn [mbind option_bind] in Hnew. injection Hnew as <- _.
  destruct (allocate_inv vm l _ vm1 a1 _ Hinv Halloc1) as (l1 & Hinv1 & _).
  destruct (allocate_inv vm1 l1 _ vm2 a2 _ Hinv1 Halloc2) as (l2 & Hinv2 & _).
  destruct (allocate_inv vm2 l2 _ vm3 a3 _ Hinv2 Halloc3)
    as (l3 & Hinv3 & _ & _ & Hfresh & _).
  exists (a3 :: l3). by apply initObj_inv.
Qed.

Lemma newString_inv vm l text length vm' string :
  vm_inv vm l → newString vm text length = Some (vm', string) →
  ∃ l', vm_inv vm' l'.
Proof.
  intros Hinv Hnew. unfold newString in Hnew.
  destruct (allocate vm _) as [[[vm1 a1] heapText0]|] eqn:Halloc1; [|done].
  cbn [mbind option_bind] in Hnew.
  destruct (allocate vm1 _) as [[[vm2 a2] chunk]|] eqn:Halloc2; [|done].
  cbn [mbind option_bind] in Hnew.
  destruct (match text with Some _ => _ | None => _ end) as [heapText|];
    [|done].
  cbn [mbind option_bind] in Hnew. injection Hnew as <- _.
  destruct (allocate_inv vm l _ vm1 a1 _ Hinv Halloc1) as (l1 & Hinv1 & _).
  destruct (allocate_inv vm1 l1 _ vm2 a2 _ Hinv1 Halloc2)
    as (l2 & Hinv2 & _ & _ & Hfresh & _).
  exists (a2 :: l2). by apply initObj_inv.
Qed.

Lemma pinObj_inv vm l value vm' :
  vm_inv vm l → pinObj vm value = Some vm' → vm_inv vm' l.
Proof.
  intros (Hl & Hcl & Hp) Hpin. unfold pinObj in Hpin.
  destruct (numPinned vm <? MAX_PINNED - 1); [|done]. injection Hpin as <-.
  split; [exact Hl|]. split; [exact Hcl|]. simpl. lia.
Qed.

Lemma unpinObj_inv vm l value vm' :
  vm_inv vm l → 0 < numPinned vm → unpinObj vm value = Some vm' →
  vm_inv vm' l.
Proof.
  intros (Hl & Hcl & Hp) Hpos Hunpin. unfold unpinObj in Hunpin.
  destruct (pinned vm !! _) as [top|]; [|done].
  cbn [mbind option_bind] in Hunpin.
  destruct (decide _); [|done]. injection Hunpin as <-.
  split; [exact Hl|]. split; [exact Hcl|]. simpl. lia.
Qed.

Section Instructions.
Hypothesis host_ok : host_keeps_classes.

Lemma call_primitive_inv primitive vm l args result vm' :
  vm_inv vm l → call_primitive primitive vm args = Some (result, vm') →
  (∃ l', vm_inv vm' l') ∧ classes_from vm vm' [].
Proof.
  intros Hinv Hcall. destruct primitive as [|id]; simpl in Hcall.
  - destruct (stack (fiber vm) !! (args + 0)) as [receiver|]; [|done].
    cbn [mbind option_bind] in Hcall.
    destruct (AS_OBJ receiver) as [classObj|]; [|done].
    cbn [mbind option_bind] in Hcall.
    destruct (newInstance vm classObj) as [[vm1 instance]|] eqn:Hnew; [|done].
    cbn [mbind option_bind] in Hcall. injection Hcall as _ <-.
    by apply (newInstance_inv vm l classObj vm1 instance).
  - by apply (host_ok id vm l args result vm').
Qed.

Lemma exec_CALL_inv instruction frame vm l out :
  vm_inv vm l → exec_CALL instruction frame vm = Some out →
  (∃ l', vm_inv (state_of out) l') ∧ classes_from vm (state_of out) [].
Proof.
  intros Hinv Hexec. unfold exec_CALL in Hexec. cbn zeta in Hexec.
  destruct (READ_ARG vm frame) as [[symbol vm1]|] eqn:Hread; [|done].
  cbn [mbind option_bind] in Hexec. apply READ_ARG_mem in Hread.
  pose proof (same_mem_inv _ _ _ Hread Hinv) as Hinv1.
  destruct (stack (fiber vm1) !! _) as [receiver|]; [|done].
  cbn [mbind option_bind] in Hexec.
  destruct (getClass vm1 receiver) as [classObj|]; [|done].
  cbn [mbind option_bind] in Hexec.
  destruct (class_at vm1 classObj) as [[[[[? ?] ?] ?] classMethods]|]; [|done].
  cbn [mbind option_bind] in Hexec.
  destruct (classMethods !! symbol) as [[|primitive|callee]|]; [| | |done];
    cbn [mbind option_bind] in Hexec.
  - repeat next_bind Hexec. injection Hexec as <-. simpl.
    split; [by exists l|]. by apply same_mem_classes.
  - destruct (call_primitive primitive vm1 _) as [[result vm2]|] eqn:Hcall;
      [|done].
    cbn [mbind option_bind] in Hexec.
    destruct (call_primitive_inv _ _ _ _ _ _ Hinv1 Hcall) as [[l2 Hinv2] Hfrom].
    assert (heap vm1 = heap vm) as Hh by apply Hread.
    destruct (negb _); injection Hexec as <-; simpl.
    + split.
      * exists l2. revert Hinv2. by apply vm_inv_same.
      * by apply (classes_from_heap vm vm1 vm2).
    + split; [by exists l2|]. by apply (classes_from_heap vm vm1 vm2).
  - injection Hexec as <-. simpl. split; [by exists l|].
    apply same_mem_classes. apply (same_mem_trans _ _ _ Hread).
    by repeat split.
Qed.

Lemma exec_METHOD_inv instruction frame vm l out :
  switch instruction = case_METHOD →
  vm_inv vm l → exec instruction frame vm = Some out →
  (∃ l', vm_inv (state_of out) l') ∧ classes_from vm (state_of out) [].
Proof.
  intros Hsw Hinv Hexec. unfold exec in Hexec. rewrite Hsw in Hexec.
  destruct (READ_ARG vm frame) as [[symbol vm1]|] eqn:Hread1; [|done].
  cbn [mbind option_bind] in Hexec.
  destruct (READ_ARG vm1 frame) as [[constant vm2]|] eqn:Hread2; [|done].
  cbn [mbind option_bind] in Hexec.
  apply READ_ARG_mem in Hread1, Hread2.
  pose proof (same_mem_trans _ _ _ Hread1 Hread2) as Hmem.
  pose proof (same_mem_inv _ _ _ Hmem Hinv) as Hinv2.
  destruct (PEEK vm2) as [top|]; [|done]. cbn [mbind option_bind] in Hexec.
  destruct (AS_OBJ top) as [classObj|]; [|done].
  cbn [mbind option_bind] in Hexec.
  destruct (constant_at vm2 frame constant) as [c|]; [|done].
  cbn [mbind option_bind] in Hexec.
  destruct (AS_OBJ c) as [fnObj|]; [|done]. cbn [mbind option_bind] in Hexec.
  destruct (set_method vm2 classObj symbol _) as [vm3|] eqn:Hset; [|done].
  cbn [mbind option_bind] in Hexec. injection Hexec as <-. simpl.
  destruct (set_method_inv _ _ _ _ _ _ Hinv2 Hset) as (Hinv3 & Hfrom & _).
  split; [by exists l|].
  apply (classes_from_heap vm vm2 vm3 vm3); [apply Hmem|done|done].
Qed.

Lemma exec_CLASS_inv instruction vm l out :
  vm_inv vm l → exec_CLASS instruction vm = Some out →
  ∃ l' new, vm_inv (state_of out) l' ∧
            classes_from vm (state_of out) new ∧
            made_classes (state_of out) new.
Proof.
  intros Hinv Hexec. unfold exec_CLASS in Hexec. cbn zeta in Hexec.
  destruct (if instruction =? CODE_SUBCLASS then _ else _)
    as [[superclass vm1]|] eqn:Hsuper; [|done].
  cbn [mbind option_bind] in Hexec.
  assert (same_mem vm vm1) as Hmem1.
  { destruct (instruction =? CODE_SUBCLASS).
    - destruct (POP vm) as [[v vmp]|] eqn:Hpop; [|done].
      cbn [mbind option_bind] in Hsuper.
      destruct (AS_OBJ v); [|done]. cbn [mbind option_bind] in Hsuper.
      injection Hsuper as _ <-. by apply POP_mem in Hpop.
    - injection Hsuper as _ <-. apply same_mem_refl. }
  pose proof (same_mem_inv _ _ _ Hmem1 Hinv) as Hinv1.
  destruct (newClass vm1 superclass) as [[vm2 c]|] eqn:Hnew; [|done].
  cbn [mbind option_bind] in Hexec.
  destruct (newClass_inv vm1 l superclass vm2 c Hinv1 Hnew)
    as (l2 & m & oc & om & ms & msm & Hinv2 & Hc & Hbc & Hm & Hbm & Hcm &
        Hsub & _).
  set (vm3 := match objectClass vm2 with
              | Some _ => vm2
              | None => set_objectClass (Some c) vm2
              end) in *.
  assert (same_mem vm2 vm3) as Hmem3.
  { unfold vm3. destruct (objectClass vm2); by repeat split. }
  destruct (ensureSymbol (methods vm3) str_new 3) as [[symbols newSymbol]|];
    [|done].
  cbn [mbind option_bind] in Hexec. cbn zeta in Hexec.
  set (vm4 := set_methods symbols vm3) in *.
  assert (same_mem vm2 vm4) as Hmem4.
  { apply (same_mem_trans _ _ _ Hmem3). by repeat split. }
  pose proof (same_mem_inv _ _ _ Hmem4 Hinv2) as Hinv4.
  assert (heap vm4 = heap vm2) as Hh4 by apply Hmem4.
  unfold class_at in Hexec. cbn [mbind option_bind] in Hexec.
  rewrite Hh4, Hc in Hexec. cbn [mbind option_bind] in Hexec.
  rewrite Hbc in Hexec. cbn [mbind option_bind] in Hexec.
  destruct (set_method vm4 (Some m) newSymbol _) as [vm5|] eqn:Hset; [|done].
  cbn [mbind option_bind] in Hexec. injection Hexec as <-.
  destruct (set_method_inv _ _ _ _ _ _ Hinv4 Hset)
    as (Hinv5 & Hfrom5 & Hfib5 & Hfwd5).
  exists l2, [c; m]. simpl.
  assert (∃ oc' ms5, heap vm5 !! c = Some oc' ∧
                     body oc' = ObjClass (Some m) superclass ms5)
    as (oc' & ms5 & Hc5 & Hbc5).
  { rewrite <- Hh4 in Hc.
    destruct (Hfwd5 c oc Hc)
      as (oc' & Hc5 & [Hb|(mc & sc & ms0 & ms5 & Hb0 & Hb5)]).
    - exists oc', ms. split; [done|]. congruence.
    - exists oc', ms5. split; [done|]. congruence. }
  split; [|split].
  - revert Hinv5. by apply vm_inv_same.
  - intros a o' mc sc ms' Ha Hb.
    destruct (decide (a = c)) as [->|Hac]; [left; set_solver|].
    destruct (decide (a = m)) as [->|Ham]; [left; set_solver|].
    right. simpl in Ha.
    destruct (Hfrom5 a o' mc sc ms' Ha Hb) as [Hin|(o4 & ms4 & Ha4 & Hb4)];
      [by apply elem_of_nil in Hin|].
    rewrite Hh4 in Ha4.
    destruct (Hsub a o4 Ha4) as [?|[?|(o1 & Ha1 & Hb1)]]; [done..|].
    exists o1, ms4. split; [by rewrite <- (proj1 Hmem1)|]. congruence.
  - right. exists c, m, oc', superclass, ms5.
    split; [done|]. split; [|done].
    unfold PEEK, PUSH. simpl.
    replace (stackSize (fiber vm5) + 1 - 1) with (stackSize (fiber vm5)) by lia.
    by rewrite lookup_insert_eq.
Qed.

(** One turn of the loop keeps the invariant. *)
Lemma step_inv vm l out :
  vm_inv vm l → step vm = Some out →
  ∃ l' new, vm_inv (state_of out) l' ∧
            classes_from vm (state_of out) new ∧
            made_classes (state_of out) new.
Proof.
  intros Hinv Hstep. unfold step in Hstep. cbn zeta in Hstep.
  destruct (READ_ARG vm _) as [[instruction vm1]|] eqn:Hread; [|done].
  cbn [mbind option_bind] in Hstep. apply READ_ARG_mem in Hread.
  pose proof (same_mem_inv _ _ _ Hread Hinv) as Hinv1.
  assert (heap vm1 = heap vm) as Hh by apply Hread.
  assert (switch instruction = case_CLASS_SUBCLASS ∨
          switch instruction = case_METHOD ∨
          switch instruction = case_CALL ∨
          (switch instruction ≠ case_CLASS_SUBCLASS ∧
           switch instruction ≠ case_METHOD ∧
           switch instruction ≠ case_CALL)) as [Hc|[Hm|[Hk|(Hc & Hm & Hk)]]].
  { destruct (switch instruction); auto; right; right; right;
      repeat split; discriminate. }
  - unfold exec in Hstep. rewrite Hc in Hstep.
    destruct (exec_CLASS_inv _ _ _ _ Hinv1 Hstep) as (l' & new & ? & ? & ?).
    exists l', new. split; [done|]. split; [|done].
    by apply (classes_from_heap vm vm1 (state_of out)).
  - destruct (exec_METHOD_inv _ _ _ _ _ Hm Hinv1 Hstep) as ([l' ?] & ?).
    exists l', []. split; [done|]. split; [|by left].
    by apply (classes_from_heap vm vm1 (state_of out)).
  - unfold exec in Hstep. rewrite Hk in Hstep.
    destruct (exec_CALL_inv _ _ _ _ _ Hinv1 Hstep) as ([l' ?] & ?).
    exists l', []. split; [done|]. split; [|by left].
    by apply (classes_from_heap vm vm1 (state_of out)).
  - pose proof (exec_mem _ _ _ _ Hc Hm Hk Hstep) as Hmem.
    exists l, []. split; [by apply (same_mem_inv vm1)|]. split; [|by left].
    apply same_mem_classes. by apply (same_mem_trans _ vm1).
Qed.

Lemma run_inv gas : ∀ vm l out,
  vm_inv vm l → run gas vm = Some out → ∃ l', vm_inv (state_of out) l'.
Proof.
  induction gas as [|gas IH]; intros vm l out Hinv Hrun.
  - injection Hrun as <-. by exists l.
  - simpl in Hrun. destruct (step vm) as [o|] eqn:Hstep; [|done].
    destruct (step_inv vm l o Hinv Hstep) as (l1 & _ & Hinv1 & _).
    destruct o as [vm1|result vm1|vm1].
    + by apply (IH vm1 l1).
    + injection Hrun as <-. by exists l1.
    + injection Hrun as <-. by exists l1.
Qed.

Lemma interpret_inv gas vm l callee out :
  vm_inv vm l → interpret gas vm callee = Some out →
  ∃ l', vm_inv (state_of out) l'.
Proof.
  intros Hinv Hrun. unfold interpret in Hrun.
  apply (run_inv gas (set_fiber (callFunction (fiber vm) callee 0) vm) l out);
    [|exact Hrun].
  revert Hinv. by apply vm_inv_same.
Qed.

End Instructions.

Lemma empty_vm_inv : vm_inv empty_vm [].
Proof.
  split; [split; [done|split]|split; [|done]].
  - simpl. by rewrite dom_empty_L.
  - apply map_Forall_empty.
  - apply map_Forall_empty.
Qed.

Lemma class_inv_lookup vm l a o metaclass superclass ms :
  vm_inv vm l → heap vm !! a = Some o →
  body o = ObjClass metaclass superclass ms →
  (∃ m om msm, metaclass = Some m ∧ heap vm !! m = Some om ∧
               body om = ObjClass None None msm) ∨
  (metaclass = None ∧ superclass = None).
Proof.
  intros (_ & Hcl & _) Ha Hb. pose proof (Hcl a o Ha) as Hok.
  simpl in Hok. unfold class_ok in Hok. rewrite Hb in Hok.
  destruct metaclass as [m|]; [left|by right].
  unfold bare_class in Hok.
  destruct (heap vm !! m) as [om|] eqn:Hm; [|done].
  destruct (body om) as [[?|] [?|] msm| | |] eqn:Hbm; simpl in Hok;
    try contradiction.
  exists m, om, msm. split; [done|]. split; [done|]. exact Hbm.
Qed.

End Class_invariant.

Section Class_theorem.
Context {P : Platform}.


End Class_theorem.

Lemma lp64_host_keeps_classes : host_keeps_classes (P := lp64).
Proof.
  intros id vm l args result vm' Hinv Hhost.
  destruct id as [|[|id]]; simpl in Hhost; [| |done].
  - injection Hhost as _ <-. split; [by exists l|].
    apply same_mem_classes. apply same_mem_refl.
  - destruct (stack (fiber vm) !! (args + 1)) as [callee|]; [|done].
    cbn [mbind option_bind] in Hhost.
    destruct (AS_OBJ callee) as [f|]; [|done].
    cbn [mbind option_bind] in Hhost. injection Hhost as _ <-.
    split.
    + exists l. revert Hinv. by apply vm_inv_same.
    + apply same_mem_classes. by repeat split.
Qed.

